(* ===== verification/_CoqProject ===== *)
-Q . S2P
Prelude.v
F64.v
Text.v
Types.v
Addr.v
Utils.v
Proxy.v
ProxyJson.v
Pool.v
PoolSteps.v
Holds.v
Http.v
Net.v
Negotiator.v
Lease.v
Client.v
Relay.v
Server.v
Trades.v
Judge.v
Checker.v
Store.v
Redis.v
Scheduler.v
Provider.v
Stats.v
Watch.v
Mcp.v
Connector.v
Pipeline.v
Geo.v
Broker.v
Typing.v
Ndjson.v
WatchFile.v
Cli.v
Regex.v
Resolver.v
Report.v
Dashboard.v
Sink.v
Listener.v
Gateway.v
Scrape.v
ProviderDir.v
Cmd.v
Served.v
Live.v
Whole.v
Found.v
TestsData.v
TestsPool.v
TestsNet.v
TestsCli.v
