(* ===== verification/Prelude.v ===== *)
(** * A verification library for [proxybroker]

    The program (src/src, a Rust crate) finds open proxies, checks them against judges, and
    serves the working ones behind a local HTTP/SOCKS5 port that picks a proxy per request,
    relays, rotates on failure, and re-checks in the background. Integration tests, examples, benches
    and the book are not modelled. File names below are relative to src/src.

    ** Parts, files and what they correspond to

    - Prelude: integers of a width ([wrap], [sat_add]), [result], comparisons as total preorders
      ([CmpOrder]), [Iterator::min_by], [Vec] operations, tactics, the hint database.
    - F64: IEEE binary64, executable ([SpecFloat]); [total_cmp], [Duration] conversions, [round2].
    - Text: byte strings, UTF-8, the parts of [core::str] in use. Addr: [IpAddr] and its text
      (std::net), the addresses of resolver.rs, [dnsbl_query]. Regex: the patterns of parse.rs and
      utils.rs as syntax, with a matcher. Resolver (resolver.rs): how a resolver is made and what its
      endpoints report.
    - Types (types.rs, error.rs), Utils (utils.rs), Proxy (proxy.rs), ProxyJson (the serde
      implementations of proxy.rs and the type columns of persist.rs).
    - Pool (server.rs, [Pool]): the shared state and one function per operation: [try_select],
      [put_ok], [put_failed], [add], [remove], [try_get], [snapshot] and the selection under
      them, [best_for]. [try_select] takes several locks one after the other: it is made of one
      definition a section ([try_select_among]), with anything the others may do in between.
    - PoolSteps: [Pool::get], [Pool::wait_ready] and the importer of [Pool::spawn] as a step
      relation over a [World] of tasks; [Notify] (tokio) is a class with its documented laws and
      a counter as instance. [task_step] is one critical section of a task, [env_step] what
      everybody else does, a stale pin or cursor of a selection included ([EDrift]): that, by
      [stale_select], is all a selection can tell of what comes between its sections. Holds: the invariant that what is taken from a pool is what it was
      filled with, for any property. Lease (server.rs, [verify_live]): the same tasks with the
      liveness probe of verify-on-lease itself.
    - Http (server.rs, negotiator.rs): header lookup, stripping, injection, [split_host_port],
      the [CONNECT] request. Net: scripted connections and the read and write primitives.
    - Negotiator (negotiator.rs): [negotiate], [http_connect], [read_head], [probe_tunnel];
      tokio-socks and rustls are the class [TunnelLibs]; the TLS configuration is handed to it.
    - Client (server.rs): front-end sniffing, the SOCKS5 and HTTP parsers. Relay (server.rs,
      [relay]): one attempt up to the splice ([Splice], tokio's). Server (server.rs,
      [handle_client], [serve_control], [History]): the credentials gate, the control API, the
      retry loop over the pool, the others' operations coming while a proxy is out ([meanwhile]). Trades:
      what a client's use of the pool takes from it and brings to it.
    - Judge (judge.rs), Checker (checker.rs): construction, one attempt, retries, a whole check,
      type admission, trust; the class [Prober] is what the scheduler needs of a checker.
    - Store (persist.rs): the in-memory store, the SQLite statements and the migration; the class [Store] is the
      trait. Redis (persist.rs): the Redis store and its script, over the class [Lua]. Scheduler (scheduler.rs): the loop of [spawn_rechecker] over pool, prober and store.
    - Provider (provider.rs, parse.rs): the scanners that pair addresses with ports, candidates of a
      page, lines of a proxy file. ProviderDir (provider.rs): the configurations of a directory. Geo (geo.rs): what a database record says of an address. Stats
      (stats.rs): the collector of aggregates.
    - Pipeline (broker.rs, [check_stream]): the source loop, any number of check tasks and the
      consumer as a step relation; a step is one atomic access or await. Broker (broker.rs): the
      query and its builder, [grab], the sources of [find] and [check], the errors before the stream.
    - Watch (watch.rs): [reconcile] as the pool operations it decides on, other tasks in between, and
      the debounced loop, other tasks between its polls. WatchFile (watch.rs): the directory and the events of [spawn_watch], and
      [reload]. Connector (connector.rs): [connect] over pool and negotiation, and the service. Mcp
      (mcp.rs): the three tools, others' work between the two locks of [get_proxy], and the overlapping calls of a session. Typing: the widths of the
      integers of a proxy.
    - Listener (server.rs, [serve]): the accept loop, its permits and its gate, as steps. Gateway
      (server.rs, [serve], [handle_client]): the running server, that is the accept loop, the handlers of
      all its clients and everybody else's operations, interleaved over the one pool and history;
      [handle_client] of Server is one schedule of a handler. Scrape (server.rs): the socket calls of
      [serve], its handle, and the responder of [serve_metrics] beside the running server. Report
      (server.rs, stats.rs): the Prometheus text and its HTTP answer, the printed summary. Dashboard
      (tui.rs): the state of the terminal dashboard. Ndjson (proxy.rs): proxies as lines of JSON.
    - Cli (bin/proxybroker.rs): the flags of each command with their defaults and exclusions, output
      formats and templates, the queries, the retry policy and the pool that the flags stand for. Sink
      (bin/proxybroker.rs): files and output streams whose operations may fail, and when they write: the file of [--save] at
      once, that of [--outfile] (tokio's) with one write under way, the standard output by the line; the progress bar,
      [write_stream]. Cmd (bin/proxybroker.rs): [main], [run] and each command over them, the start of
      [serve] up to its wait included.
    - Served (broker.rs, connector.rs): [find], the importer, the pool and the connector together, as
      [rotating] puts them. Live: the same with the re-checker between its awaits (scheduler.rs), the watcher (watch.rs)
      and the returns. Whole (bin/proxybroker.rs, [serve_cmd]): all that [serve] runs, that is Gateway, Scrape
      and the background of Live over the one pool, started from the flags by Cmd, with Ctrl-C: it cancels
      the tasks, each of which stops at its next wait. Found (server.rs, [Pool::spawn]; broker.rs, [check_stream]):
      Whole and a running search, joined by the importer, which takes the stored history and then what the
      search sends, one proxy at a time.
    - TestsData, TestsPool, TestsNet, TestsCli: the unit tests of the source files, each a definition of
      its name that runs on the model.

    Interaction: the importer, the scheduler and the control API change the pool by [add],
    [remove] and pushes; a client task takes a proxy by [get] ([try_select] under it), relays
    through it ([negotiate], then the splice) and returns it by [put_ok] or [put_failed]; the
    connector does the same for a caller's connection; the watcher and the tools go through [add],
    [remove_addr] and [try_get]. [find] turns the providers' candidates into a source, configures a
    checker and runs the pipeline, whose stream feeds the importer. The command line builds the query
    of [find] and the pool of [serve], writes what the stream gives, and reads saved files back.

    ** What the theorems show

    - Selection: the proxy handed out serves the scheme, is ready if any is, honours the sticky
      pin and is least in the ranking ([best_for_sound], [best_for_least]); it alone is taken out and only its
      client's pin is recorded, whatever others do between the sections ([try_select_sound]); a failed proxy is benched or evicted ([put_failed_benches]); addresses stay a set
      ([add_remove_sound]).
    - Finding: whatever the interleaving of a run of [find], what it emits is within the limit, of
      distinct addresses, checked, and as the query asks ([find_sound], [pipeline_safe]); a run that
      ends with its consumer gave all there was up to the limit ([pipeline_complete]); a run is
      finite and not stuck ([pipeline_live]), given a permit ([zero_conn_stuck]); the source holds
      each named address once in any order of arrival ([find_source_sound]) and [grab] is its first
      proxies ([grab_reference]); errors come first ([find_start]); a page's candidates are its valid
      pairs ([extract_sound], [find_addrs_global_sound]). That integers stay in the width of their types, which the
      model does not give them, is [proxy_typed].
    - The whole of [serve]: from the flags to the clients, through all its tasks and past Ctrl-C, at most
      [--max-clients] are at work, each gets one answer, [--auth] gates the proxies, and each proxy used
      comes from where the flags say ([serve_whole]).
    - The whole of [serve] with its search: in every interleaving of the two the same holds, the proxies
      being those found so far; the importer passes on what is stored and then what is found, in order and
      complete; search and importer come to an end by themselves, and then everything was imported and
      no client waits for a proxy ([serve_found]).
    - End to end: what a client of [serve] is handed was in the history or found, named by a provider,
      checked, and let in as the flags ask, or re-checked since, in every interleaving ([serve_live]); a
      rotating connector tunnels through what [find] emitted ([rotating_connects]). (The pieces of the re-checker in Live.v and the loop of Scheduler.v
      are the same: [live_pass].)
    - The running server: at most [max_clients] at work, one answer for each client, proxies only for
      requests that passed the gate ([gateway_sound]); no proxy lost or duplicated, in the pool and in
      all hands together ([gateway_conserves]); who waits waits for the outside ([gateway_progress]).
      (The [handle_client] of Server.v is one schedule of a handler's steps: [handler_schedule].) Its metrics do not disturb it
      and report three moments in order ([scrape_sound]). The MCP tools' overlapping calls lose and
      invent no proxy ([session_sound]).
    - The program: [serve] comes up just when all it was asked for does, and runs what it was asked
      for ([serve_starts]); a failing write leaves a part of the text, and the saved file can be ahead of it by what
      is under way or held back, no more ([write_stream_sound]); what [find] saves [check] loads ([saved_reloaded]); the exit
      code and the error printed are those of the command ([main_sound]).
    - Around the pool, whatever its other users do meanwhile: the watcher pools just the file's addresses among those the others leave alone ([reconcile_sound],
      [watch_debounce]) and acts on the file it is asked to watch, as it is then ([watch_follows]), the connector hands out a tunnel through a proxy it returns
      ([connect_sound]), [get_proxy] answers with the best match ([get_proxy_sound]); the aggregates
      count what they say ([collect_counts]).
    - Concurrency: no wake-up is lost between the check and the wait ([no_lost_wakeup]), a [get]
      ends once the source has ended ([get_terminates]), no proxy is duplicated or lost by
      check-out and return ([checkout_conserves], [attempts_conserve]), and a proxy to be verified is
      probed before it is lent ([lease_verified]) but for the last look ([last_look_unprobed]).
    - The relay: an outcome that is retried has written nothing to the client
      ([relay_commit_boundary]), a request gets one answer ([attempts_one_answer]), a disallowed
      status never reaches the client ([relay_status_gate]), credentials gate every front-end
      ([auth_gate]) and are not forwarded from a well-formed head ([forwarded_head_auth], [strip_header_exact]; but
      [bare_lf_forwards_secret]).
    - Parsing: completeness and exactness of the SOCKS5, HTTP and [CONNECT] exchanges
      ([socks5_parse_complete], [http_parse_complete], [connect_tunnel_sound],
      [connect_tunnel_complete]) and bounded buffers ([read_head_bounded], [read_response_exact]).
    - Checking: what a working verdict implies ([attempt_working_sound], [check_one_sound],
      [types_passed_sound]), what a whole check comes to, exactly ([check_sound]), and which judges it can use
      ([judge_pool_sound]). An address, of either family, that an endpoint reports as the
      machine's is not taken for anonymity when a judge shows it ([reported_address_seen]).
    - Persistence: [serialize_roundtrip]; the stores agree within 32-bit counters
      ([stores_agree], [redis_agrees]); one pass of the re-check loop ([pass_sound]), and how close its starts can come, late wake-ups
      allowed for ([rate_ceiling]).
    - At the edges: the accept loop serves at most its number of clients, loses no permit and admits
      nobody before the pool is ready ([listener_sound]); what the output formats write reads back
      ([written_readable], [ndjson_roundtrip]), the lines of addresses through the program's own patterns,
      up to a port of one digit ([addr_lines_readable]); a template is one substitution ([render_pieces]); the
      pool of [serve] ([serve_pool_sound]); a scraper reads the pool's figures ([metrics_scrape]);
      the summary's countries ([stats_report]); the dashboard shows the last snapshot, sorted, with a
      selection in range and bounded histories ([dashboard_sound]), and gives the terminal back ([top_sound]); a directory's listing order does
      not matter ([load_dir_sound]).
    - What modelling showed to be off is proved too: [checkout_add_duplicates],
      [bare_lf_forwards_secret], [bare_lf_no_info], [stores_overflow_differ], [redis_overflow], [zero_conn_stuck],
      [twin_lost], [array_held].
    - Agreement with the program: what the crate's unit tests expect, the model gives ([types_tests_pass],
      [error_tests_pass], [utils_tests_pass], [proxy_tests_pass], [stats_tests_pass], [provider_tests_pass],
      [state_tests_pass], [dashboard_tests_pass], [broker_tests_pass], [negotiator_tests_pass],
      [checker_tests_pass], [server_tests_pass], [command_tests_pass], [format_tests_pass]).

    ** Conventions and bounds

    Instants and durations are integers of nanoseconds, without an upper bound. A Rust panic or a
    wait without a deadline is [None]. Randomness, clock readings and hash order are arguments.
    Recursion is structural on a list, on a script of events or on a number the code itself
    bounds (retries, head sizes); the only fuel is that of decimal printing, the number of
    binary digits of its argument, and that of the address scanner, one more than the text's
    length, since a match is not empty ([find_addrs_from_fuel]). A run of the pipeline is any list of
    events; [pipeline_live] bounds its length. The matcher of Regex.v repeats at most as often as the text is
    long, which finds every match ([rests_spec]); it reads bytes, and [\d] is an ASCII digit there: on a text with
    other decimal digits the crate may match more, and the class [Regexes], which the theorems take where they do not
    need the patterns, allows that. Library code is a class ([Regexes], [Captures],
    [UnicodeCase], [AsyncFile], [TunnelLibs], [Splice], [WebLibs], [Flate], [Powi], [Powf], [Notify], [Lua],
    [JsonText]) or a record of functions ([GeoDb]), instantiated by a concrete one in each witness.

    ** Not modelled, and the plan

    The database engines, the wire formats of the libraries (DNS, TLS, SOCKS towards a proxy, MCP), the
    layout of a dashboard frame, the parsing of the argument vector (clap), logging, the derived
    [Debug] implementations and lib.rs are third-party code or glue around modelled
    code. The tasks of [serve] interleave over sequentially consistent
    memory at the granularity of locked sections and awaits; the threads below that are not modelled. The
    deadlines of the sockets are answers of the environment, and the source of a search is the list of what its
    providers will have answered, in their order of arrival. *)
From Stdlib Require Export ZArith Lia Ascii Sorting.Sorted.
From stdpp Require Export base tactics option list numbers gmap fin_maps strings relations.

(** ** Machine integers

    Unsigned integers of the source are [Z]; the arithmetic the release build wraps is
    wrapped explicitly. *)
Definition wrap (w : Z) (z : Z) : Z := (z mod 2 ^ w)%Z.
Abbreviation u8 := (wrap 8).
Abbreviation u16 := (wrap 16).
Abbreviation u32 := (wrap 32).
Abbreviation u64 := (wrap 64).

Lemma wrap_bounds w z : (0 <= w)%Z -> (0 <= wrap w z < 2 ^ w)%Z.
Proof. intros. apply Z.mod_pos_bound. lia. Qed.

Lemma wrap_small w z : (0 <= z < 2 ^ w)%Z -> wrap w z = z.
Proof. apply Z.mod_small. Qed.

(** [saturating_add] at width [w]. *)
Definition sat_add (w a b : Z) : Z := Z.min (a + b) (2 ^ w - 1).

(** ** Fallible code *)
Inductive result (A E : Type) : Type :=
| Ok (a : A)
| Err (e : E).
Arguments Ok {A E} a.
Arguments Err {A E} e.

Definition result_bind {A B E} (r : result A E) (f : A -> result B E) : result B E :=
  match r with Ok a => f a | Err e => Err e end.

Definition is_ok {A E} (r : result A E) : bool :=
  match r with Ok _ => true | Err _ => false end.

(** [Option::ok_or] and [Result::ok]. *)
Definition ok_or {A E} (o : option A) (e : E) : result A E :=
  match o with Some a => Ok a | None => Err e end.
Definition ok {A E} (r : result A E) : option A :=
  match r with Ok a => Some a | Err _ => None end.

Declare Scope rs_scope.
Delimit Scope rs_scope with rs.
Notation "'let?' x := e 'in' k" := (match e with Some x => k | None => None end)
  (at level 10, x pattern, e at level 100, k at level 200) : rs_scope.
Notation "'let!' x := e 'in' k" := (match e with Ok x => k | Err err => Err err end)
  (at level 10, x pattern, e at level 100, k at level 200) : rs_scope.
(** A chain of method calls. *)
Notation "b '▷' f" := (f b) (at level 46, left associativity, only parsing) : rs_scope.
Open Scope rs_scope.

(** ** Tactics *)

(** Turns boolean tests in the context into the propositions they decide. *)
Ltac bsimp :=
  repeat match goal with
    | H : (_ && _)%bool = true |- _ => apply andb_prop in H as [? ?]
    | H : (_ || _)%bool = false |- _ => apply orb_false_elim in H as [? ?]
    | H : negb _ = true |- _ => apply negb_true_iff in H
    | H : negb _ = false |- _ => apply negb_false_iff in H
    | H : bool_decide _ = true |- _ => apply bool_decide_eq_true_1 in H
    | H : bool_decide _ = false |- _ => apply bool_decide_eq_false_1 in H
    | H : (_ <? _)%Z = true |- _ => apply Z.ltb_lt in H
    | H : (_ <? _)%Z = false |- _ => apply Z.ltb_ge in H
    | H : (_ <=? _)%Z = true |- _ => apply Z.leb_le in H
    | H : (_ <=? _)%Z = false |- _ => apply Z.leb_gt in H
    | H : (_ =? _)%Z = true |- _ => apply Z.eqb_eq in H
    | H : (_ =? _)%Z = false |- _ => apply Z.eqb_neq in H
    | H : (_ <? _)%nat = true |- _ => apply Nat.ltb_lt in H
    | H : (_ <? _)%nat = false |- _ => apply Nat.ltb_ge in H
    | H : (_ <=? _)%nat = true |- _ => apply Nat.leb_le in H
    | H : (_ <=? _)%nat = false |- _ => apply Nat.leb_gt in H
    end.

(** [lia] with division and remainder. *)
Ltac zlia := Z.div_mod_to_equations; lia.

(** Case analysis on every [match] and [if] of the goal and the hypotheses. *)
Ltac crush :=
  repeat (case_match; simplify_eq/=; try done).

(** ** Comparisons

    Rust orders values through [Ord::cmp]-like functions; [CmpOrder] states that one of them
    is a total preorder, which is what the selection code needs of it. *)
Class CmpOrder {A : Type} (cmp : A -> A -> comparison) : Prop := {
  cmp_antisym x y : cmp y x = CompOpp (cmp x y);
  cmp_trans x y z : cmp x y <> Gt -> cmp y z <> Gt -> cmp x z <> Gt;
}.

Section cmp_order.
Context {A : Type} (cmp : A -> A -> comparison) `{!CmpOrder cmp}.

Lemma cmp_refl x : cmp x x = Eq.
Proof. pose proof (cmp_antisym x x) as H. by destruct (cmp x x). Qed.

Lemma cmp_total x y : cmp x y = Gt -> cmp y x = Lt.
Proof. intros H. by rewrite cmp_antisym, H. Qed.

Lemma cmp_lt_le_trans x y z : cmp x y = Lt -> cmp y z <> Gt -> cmp x z = Lt.
Proof.
  intros Hxy Hyz. destruct (cmp x z) eqn:E; [|done|].
  all: exfalso; apply (cmp_trans y z x Hyz);
    [rewrite cmp_antisym, E; done | rewrite cmp_antisym, Hxy; done].
Qed.

Lemma cmp_le_lt_trans x y z : cmp x y <> Gt -> cmp y z = Lt -> cmp x z = Lt.
Proof.
  intros Hxy Hyz. destruct (cmp x z) eqn:E; [|done|].
  all: exfalso; apply (cmp_trans z x y);
    [rewrite cmp_antisym, E; done | done | rewrite cmp_antisym, Hyz; done].
Qed.
End cmp_order.

#[export] Instance Z_compare_order : CmpOrder Z.compare.
Proof.
  split; [intros; apply Z.compare_antisym|].
  intros x y z ??. rewrite Z.compare_le_iff in *. lia.
Qed.

(** Comparison through a key, and the lexicographic [Ordering::then]. *)
Definition cmp_on {A B} (f : A -> B) (cmp : B -> B -> comparison) (x y : A) : comparison :=
  cmp (f x) (f y).
Definition cmp_then (c d : comparison) : comparison := match c with Eq => d | _ => c end.

#[export] Instance cmp_on_order {A B} (f : A -> B) cmp `{!CmpOrder cmp} : CmpOrder (cmp_on f cmp).
Proof. split; unfold cmp_on; eauto using cmp_antisym, cmp_trans. Qed.

#[export] Instance cmp_then_order {A} (c1 c2 : A -> A -> comparison)
  `{!CmpOrder c1, !CmpOrder c2} : CmpOrder (fun x y => cmp_then (c1 x y) (c2 x y)).
Proof.
  split.
  - intros x y. rewrite (cmp_antisym (cmp := c1) x y), (cmp_antisym (cmp := c2) x y).
    by destruct (c1 x y).
  - intros x y z Hxy Hyz.
    destruct (c1 x y) eqn:E1; destruct (c1 y z) eqn:E2; simpl in *; try done.
    + assert (c1 x z = Eq) as ->; [|exact (cmp_trans (cmp := c2) x y z Hxy Hyz)].
      destruct (c1 x z) eqn:E3; [done| |].
      * assert (c1 y z = Lt); [|congruence].
        apply (cmp_le_lt_trans c1 y x z); [rewrite (cmp_antisym (cmp := c1)), E1|]; done.
      * exfalso. apply (cmp_trans (cmp := c1) x y z); congruence.
    + rewrite (cmp_le_lt_trans c1 x y z); [done|congruence|done].
    + rewrite (cmp_lt_le_trans c1 x y z); [done|done|congruence].
    + rewrite (cmp_lt_le_trans c1 x y z); [done|done|congruence].
Qed.

(** ** [Iterator::min_by]: the first of the minimal elements. *)
Definition min_by_step {A} (cmp : A -> A -> comparison) (x y : A) : A :=
  match cmp x y with Gt => y | _ => x end.
Definition min_by {A} (cmp : A -> A -> comparison) (l : list A) : option A :=
  match l with [] => None | x :: l => Some (fold_left (min_by_step cmp) l x) end.

Section min_by.
Context {A : Type} (cmp : A -> A -> comparison) `{!CmpOrder cmp}.

(** The minimum splits the list: strictly larger before it, no smaller after it. *)
Lemma min_by_fold_split l x :
  exists l1 l2, x :: l = l1 ++ fold_left (min_by_step cmp) l x :: l2 /\
    (forall y, y ∈ l1 -> cmp (fold_left (min_by_step cmp) l x) y = Lt) /\
    (forall y, y ∈ l2 -> cmp (fold_left (min_by_step cmp) l x) y <> Gt).
Proof.
  revert x. induction l as [|z l IH]; intros x; simpl.
  { exists [], []. split_and!; [done|..]; intros y Hy; by apply elem_of_nil in Hy. }
  destruct (IH (min_by_step cmp x z)) as (l1 & l2 & Heq & H1 & H2).
  revert Heq H1 H2. generalize (fold_left (min_by_step cmp) l (min_by_step cmp x z)) as m.
  unfold min_by_step. intros m Heq H1 H2.
  destruct (decide (cmp x z = Gt)) as [E|E].
  - rewrite E in Heq. exists (x :: l1), l2. split_and!; [by rewrite Heq| |done].
    intros y [->|Hy]%elem_of_cons; [|by apply H1].
    apply (cmp_le_lt_trans cmp m z x); [|by apply cmp_total].
    destruct l1 as [|w l1]; injection Heq as -> ->; [by rewrite cmp_refl|].
    rewrite H1; [done|set_solver].
  - replace (match cmp x z with Gt => z | _ => x end) with x in Heq by (by destruct (cmp x z)).
    destruct l1 as [|w l1]; injection Heq as Hx ->.
    + exists [], (z :: l2). rewrite Hx in *. split_and!; [done|set_solver|].
      intros y [->|Hy]%elem_of_cons; [done|by apply H2].
    + exists (x :: z :: l1), l2. rewrite Hx in *. split_and!; [done| |done].
      intros y [->|[->|Hy]%elem_of_cons]%elem_of_cons; [apply H1; set_solver| |apply H1; set_solver].
      apply (cmp_lt_le_trans cmp m w z); [apply H1; set_solver|done].
Qed.

Lemma min_by_split l m :
  min_by cmp l = Some m ->
  exists l1 l2, l = l1 ++ m :: l2 /\ (forall y, y ∈ l1 -> cmp m y = Lt) /\
    (forall y, y ∈ l2 -> cmp m y <> Gt).
Proof. destruct l as [|x l]; intros [= <-]. apply min_by_fold_split. Qed.

Lemma min_by_elem l m : min_by cmp l = Some m -> m ∈ l.
Proof. intros (l1 & l2 & -> & _)%min_by_split. set_solver. Qed.

Lemma min_by_least l m y : min_by cmp l = Some m -> y ∈ l -> cmp m y <> Gt.
Proof.
  intros (l1 & l2 & -> & H1 & H2)%min_by_split.
  rewrite elem_of_app, elem_of_cons. intros [Hy|[->|Hy]]; [|by rewrite cmp_refl|by apply H2].
  by rewrite H1.
Qed.

Lemma min_by_None l : min_by cmp l = None <-> l = [].
Proof. by destruct l. Qed.
End min_by.

(** ** Lists as [Vec]s *)

(** [Vec::swap_remove]: takes element [i] out and moves the last one into its place; an index
    out of range panics ([None]). *)
Definition swap_remove {A} (i : nat) (l : list A) : option (A * list A) :=
  match l !! i, last l with
  | Some x, Some z => Some (x, take (length l - 1) (<[i := z]> l))
  | _, _ => None
  end.

Lemma swap_remove_perm {A} i (l : list A) x l' :
  swap_remove i l = Some (x, l') -> l ≡ₚ x :: l'.
Proof.
  unfold swap_remove. destruct (l !! i) as [y|] eqn:Hi; [|done].
  destruct (last l) as [z|] eqn:Hz; [|done]. intros [= -> <-].
  apply last_Some in Hz as [l0 ->].
  rewrite length_app; simpl. replace (length l0 + 1 - 1) with (length l0) by lia.
  destruct (decide (i < length l0)) as [Hlt|Hge].
  - rewrite lookup_app_l in Hi by done. rewrite insert_app_l by done.
    rewrite take_app_le by (rewrite length_insert; lia).
    rewrite take_ge by (rewrite length_insert; lia).
    rewrite (Permutation_app_comm l0 [z]); simpl.
    apply delete_Permutation in Hi as Hp.
    rewrite (insert_take_drop l0 i z) by done.
    rewrite <- (take_drop_middle l0 i x) at 1 by done.
    rewrite <- !Permutation_middle. apply perm_swap.
  - assert (i = length l0) as ->.
    { apply lookup_lt_Some in Hi. rewrite length_app in Hi; simpl in Hi. lia. }
    rewrite lookup_app_r in Hi by lia. rewrite Nat.sub_diag in Hi. simplify_eq/=.
    rewrite insert_app_r_alt by lia. rewrite Nat.sub_diag; simpl.
    rewrite take_app_le, take_ge by lia. by rewrite Permutation_app_comm.
Qed.

Lemma swap_remove_is_Some {A} i (l : list A) :
  i < length l -> is_Some (swap_remove i l).
Proof.
  intros Hi. unfold swap_remove. destruct (lookup_lt_is_Some_2 l i Hi) as [x ->].
  destruct (last l) eqn:E; [eauto|]. apply last_None in E as ->. simpl in Hi. lia.
Qed.

(** [Vec::remove]. *)
Definition vec_remove {A} (i : nat) (l : list A) : option (A * list A) :=
  match l !! i with Some x => Some (x, delete i l) | None => None end.

Lemma vec_remove_perm {A} i (l : list A) x l' : vec_remove i l = Some (x, l') -> l ≡ₚ x :: l'.
Proof.
  unfold vec_remove. destruct (l !! i) eqn:E; [|done]. intros [= -> <-].
  by apply delete_Permutation.
Qed.

(** Boolean [filter]/[any]/[all], as the iterator adaptors use them. *)
Definition retain {A} (f : A -> bool) (l : list A) : list A := List.filter f l.

Lemma elem_of_retain {A} (f : A -> bool) (l : list A) x :
  x ∈ retain f l <-> f x = true /\ x ∈ l.
Proof. unfold retain. rewrite !list_elem_of_In, filter_In. tauto. Qed.

Lemma existsb_elem {A} (f : A -> bool) l : existsb f l = true <-> exists x, x ∈ l /\ f x = true.
Proof. rewrite existsb_exists. by setoid_rewrite list_elem_of_In. Qed.

Lemma forallb_elem {A} (f : A -> bool) l : forallb f l = true <-> forall x, x ∈ l -> f x = true.
Proof. rewrite forallb_forall. by setoid_rewrite list_elem_of_In. Qed.

(** [iter().find_map(f)]. *)
Fixpoint find_map {A B} (f : A -> option B) (l : list A) : option B :=
  match l with [] => None | x :: l => match f x with Some y => Some y | None => find_map f l end end.
Lemma find_map_Some {A B} (f : A -> option B) l y :
  find_map f l = Some y -> exists x, x ∈ l /\ f x = Some y.
Proof.
  induction l as [|x l IH]; simpl; [done|]. destruct (f x) eqn:E.
  - intros [= ->]. exists x. split; [left|done].
  - intros (z & ? & ?)%IH. exists z. split; [by right|done].
Qed.

(** The indices of a list whose elements satisfy [f]: [iter().enumerate().filter(..)]. *)
Definition indices {A} (f : A -> bool) (l : list A) : list nat :=
  List.filter (fun i => match l !! i with Some x => f x | None => false end) (seq 0 (length l)).

Lemma elem_of_indices {A} (f : A -> bool) (l : list A) i :
  i ∈ indices f l <-> exists x, l !! i = Some x /\ f x = true.
Proof.
  unfold indices. rewrite list_elem_of_In, filter_In, in_seq. split.
  - intros [_ H]. destruct (l !! i); [eauto|done].
  - intros (x & E & ?). pose proof (lookup_lt_Some _ _ _ E). rewrite E. split; [lia|done].
Qed.

(** Stable insertion sort by a comparison: [slice::sort_by]. *)
Fixpoint insert_by {A} (cmp : A -> A -> comparison) (x : A) (l : list A) : list A :=
  match l with
  | [] => [x]
  | y :: l' => match cmp x y with Gt => y :: insert_by cmp x l' | _ => x :: l end
  end.
Definition sort_by {A} (cmp : A -> A -> comparison) (l : list A) : list A :=
  foldr (insert_by cmp) [] l.

Section sorting.
Context {A : Type} (cmp : A -> A -> comparison) `{!CmpOrder cmp}.
Definition in_order (x y : A) : Prop := cmp x y <> Gt.
Lemma insert_by_perm x l : insert_by cmp x l ≡ₚ x :: l.
Proof.
  induction l as [|y l IH]; simpl; [done|]. destruct (cmp x y); try done. rewrite IH. apply perm_swap.
Qed.
Lemma sort_by_perm l : sort_by cmp l ≡ₚ l.
Proof. induction l as [|x l IH]; simpl; [done|]. rewrite insert_by_perm. by apply Permutation_cons. Qed.
Lemma insert_by_sorted x l : StronglySorted in_order l -> StronglySorted in_order (insert_by cmp x l).
Proof.
  induction 1 as [|y l Hs IH Hf]; simpl; [repeat constructor|].
  assert (cmp x y <> Gt -> StronglySorted in_order (x :: y :: l)) as Hle.
  { intros Hxy. constructor; [by constructor|]. constructor; [exact Hxy|]. eapply Forall_impl; [exact Hf|].
    intros z Hyz. by eapply (cmp_trans x y z). }
  destruct (cmp x y) eqn:E; [by apply Hle|by apply Hle|]. constructor; [exact IH|].
  rewrite insert_by_perm. constructor; [|exact Hf]. unfold in_order. by rewrite (cmp_total cmp _ _ E).
Qed.
Lemma sort_by_sorted l : StronglySorted in_order (sort_by cmp l).
Proof. induction l as [|x l IH]; simpl; [constructor|]. by apply insert_by_sorted. Qed.
End sorting.

Create HintDb proxybroker.
Create Rewrite HintDb proxybroker.
#[export] Hint Resolve cmp_refl min_by_elem swap_remove_perm vec_remove_perm : proxybroker.
#[export] Hint Rewrite @elem_of_retain @elem_of_indices : proxybroker.
