(* ===== verification/F64.v ===== *)
(** * [f64]: IEEE-754 binary64, executable

    The source computes rates, latencies and scores in [f64]. They are modelled with the
    Standard Library's [SpecFloat] at precision 53 and maximal exponent 1024, whose operations
    are the correctly rounded ones; [total_cmp] is the bit-pattern comparison of
    [f64::total_cmp]; [round2] is the format-then-parse rounding of src/proxy.rs. There is a
    single NaN, ordered as the positive one. *)
From Stdlib Require Export Floats.SpecFloat.
From S2P Require Import Prelude.
Open Scope Z_scope.

Abbreviation f64 := spec_float.
Definition prec : Z := 53.
Definition emax : Z := 1024.

#[export] Instance f64_eq_dec : EqDecision f64.
Proof. intros x y. unfold Decision. decide equality; apply (decide (_ = _)). Defined.

Definition f_add : f64 -> f64 -> f64 := SFadd prec emax.
Definition f_sub : f64 -> f64 -> f64 := SFsub prec emax.
Definition f_mul : f64 -> f64 -> f64 := SFmul prec emax.
Definition f_div : f64 -> f64 -> f64 := SFdiv prec emax.
Definition f_ltb : f64 -> f64 -> bool := SFltb.
Definition f_leb : f64 -> f64 -> bool := SFleb.
Definition f_eqb : f64 -> f64 -> bool := SFeqb.
Definition f_gtb (x y : f64) : bool := f_ltb y x.
Definition f_geb (x y : f64) : bool := f_leb y x.

(** An integer cast [n as f64]: the nearest double. *)
Definition f_of_Z (n : Z) : f64 := binary_normalize prec emax n 0 false.
Definition f_zero : f64 := S754_zero false.
Definition f_one : f64 := f_of_Z 1.

(** The double nearest to the decimal literal [n / d]. *)
Definition f_ratio (n d : positive) : f64 :=
  f_div (S754_finite false n 0) (S754_finite false d 0).

(** [f64::max] and [f64::min]: a NaN operand is ignored. *)
Definition f_is_nan (x : f64) : bool := match x with S754_nan => true | _ => false end.
Definition f_max (x y : f64) : f64 :=
  if f_is_nan x then y else if f_is_nan y then x else if f_ltb x y then y else x.
Definition f_min (x y : f64) : f64 :=
  if f_is_nan x then y else if f_is_nan y then x else if f_ltb y x then y else x.
(** [f64::clamp]: NaN is returned as it is. *)
Definition f_clamp (x lo hi : f64) : f64 :=
  let x := if f_ltb x lo then lo else x in if f_ltb hi x then hi else x.

(** [iter().sum::<f64>()]. *)
Definition f_sum (l : list f64) : f64 := fold_left f_add l f_zero.

(** ** [f64::total_cmp]

    The comparison of the bit patterns as sign-magnitude integers: for a double of mantissa [m]
    and exponent [e], the magnitude bits are [(e + 1074) * 2^52 + m]. *)
Definition f_bits (x : f64) : Z :=
  match x with
  | S754_zero false => 0
  | S754_zero true => -1
  | S754_finite false m e => (e + 1074) * 2 ^ 52 + Zpos m
  | S754_finite true m e => - ((e + 1074) * 2 ^ 52 + Zpos m) - 1
  | S754_infinity false => 2047 * 2 ^ 52
  | S754_infinity true => - (2047 * 2 ^ 52) - 1
  | S754_nan => 2047 * 2 ^ 52 + 2 ^ 51
  end.
Definition total_cmp (x y : f64) : comparison := (f_bits x ?= f_bits y)%Z.

#[export] Instance total_cmp_order : CmpOrder total_cmp.
Proof. exact (cmp_on_order f_bits Z.compare). Qed.

(** ** Rounding to two decimals

    [format!("{x:.2}").parse()]: the decimal expansion is exact and ties go to even; parsing the
    result is correctly rounded. An integral value (non-negative exponent) is printed exactly. *)
Definition div_half_even (a b : Z) : Z :=
  let q := a / b in
  match (2 * (a mod b) ?= b) with
  | Lt => q
  | Gt => q + 1
  | Eq => if Z.even q then q else q + 1
  end.

Definition round2 (x : f64) : f64 :=
  match x with
  | S754_finite s m e =>
      if 0 <=? e then x
      else
        match div_half_even (Zpos m * 100) (2 ^ (- e)) with
        | Zpos q => f_div (S754_finite s q 0) (f_of_Z 100)
        | _ => S754_zero s
        end
  | _ => x
  end.

(** [x.floor() as usize] and [x.ceil() as usize] of a non-negative double (the cast saturates
    and sends a negative value or NaN to 0). *)
Definition f_floor_usize (x : f64) : Z :=
  match x with
  | S754_finite false m e => Z.min (if 0 <=? e then Zpos m * 2 ^ e else Zpos m / 2 ^ (- e)) (2 ^ 64 - 1)
  | S754_infinity false => 2 ^ 64 - 1
  | _ => 0
  end.
Definition f_ceil_usize (x : f64) : Z :=
  match x with
  | S754_finite false m e =>
      Z.min (if 0 <=? e then Zpos m * 2 ^ e else - ((- Zpos m) / 2 ^ (- e))) (2 ^ 64 - 1)
  | S754_infinity false => 2 ^ 64 - 1
  | _ => 0
  end.

(** ** [Duration] as nanoseconds *)
Definition as_secs_f64 (d : Z) : f64 :=
  f_add (f_of_Z (d / 10 ^ 9)) (f_div (f_of_Z (d mod 10 ^ 9)) (f_of_Z (10 ^ 9))).

(** [Duration::from_secs_f64]: nearest nanosecond, ties to even; a negative, NaN or too large
    argument panics ([None]). *)
Definition from_secs_f64 (x : f64) : option Z :=
  match x with
  | S754_zero _ => Some 0
  | S754_finite false m e =>
      let n := if 0 <=? e then Zpos m * 2 ^ e * 10 ^ 9
               else div_half_even (Zpos m * 10 ^ 9) (2 ^ (- e)) in
      if n <? 2 ^ 64 * 10 ^ 9 then Some n else None
  | _ => None
  end.

(** ** Checks against known values *)
Example round2_2_675 : round2 (f_ratio 2675 1000) = f_ratio 267 100.
Proof. vm_compute. reflexivity. Qed.
Example round2_tie : round2 (f_ratio 125 1000) = f_ratio 12 100.
Proof. vm_compute. reflexivity. Qed.
Example point_one_plus_point_two : f_eqb (f_add (f_ratio 1 10) (f_ratio 2 10)) (f_ratio 3 10) = false.
Proof. vm_compute. reflexivity. Qed.
Example from_secs_f64_half : from_secs_f64 (f_ratio 15 10) = Some 1500000000.
Proof. vm_compute. reflexivity. Qed.
