(* ===== verification/Text.v ===== *)
(** * Text: the parts of [core::str] and [slice] the source uses

    Both [&str] and [&[u8]] are byte lists; a [str] is one that is valid UTF-8. Case mapping and
    trimming by Unicode tables is behind the class [UnicodeCase]; everything ASCII, the byte
    searches, line splitting, UTF-8 decoding and number parsing are defined here. *)
From S2P Require Import Prelude.
Open Scope Z_scope.

Abbreviation str := (list ascii).
Definition lit (s : string) : str := String.list_ascii_of_string s.
Definition byte (c : ascii) : Z := Z.of_N (N_of_ascii c).
Definition chr (z : Z) : ascii := ascii_of_N (Z.to_N (z mod 256)).
Definition CR : ascii := "013"%char.
Definition LF : ascii := "010"%char.
Definition crlf : str := [CR; LF].
Definition crlf2 : str := [CR; LF; CR; LF].

Lemma byte_range c : 0 <= byte c < 256.
Proof. unfold byte. pose proof (N_ascii_bounded c). lia. Qed.
Lemma chr_byte c : chr (byte c) = c.
Proof.
  unfold chr. rewrite Z.mod_small by apply byte_range. unfold byte.
  rewrite N2Z.id. apply ascii_N_embedding.
Qed.
Lemma byte_chr z : 0 <= z < 256 -> byte (chr z) = z.
Proof.
  intros. unfold chr, byte. rewrite Z.mod_small by lia.
  rewrite N_ascii_embedding by lia. lia.
Qed.

(** ** ASCII classes *)
Definition between (lo hi : Z) (c : ascii) : bool := (lo <=? byte c) && (byte c <=? hi).
Definition is_ascii (c : ascii) : bool := byte c <? 128.
Definition is_digit : ascii -> bool := between 48 57.
Definition is_upper : ascii -> bool := between 65 90.
Definition is_lower : ascii -> bool := between 97 122.
Definition is_ascii_alphanumeric (c : ascii) : bool := is_digit c || is_upper c || is_lower c.
Definition ascii_lower (c : ascii) : ascii := if is_upper c then chr (byte c + 32) else c.
Definition ascii_upper (c : ascii) : ascii := if is_lower c then chr (byte c - 32) else c.
Definition to_ascii_lowercase (s : str) : str := map ascii_lower s.
Definition eq_ignore_ascii_case (s t : str) : bool :=
  bool_decide (to_ascii_lowercase s = to_ascii_lowercase t).

Lemma ascii_lower_idemp c : ascii_lower (ascii_lower c) = ascii_lower c.
Proof. by destruct c as [[] [] [] [] [] [] [] []]. Qed.
Lemma to_ascii_lowercase_idemp s : to_ascii_lowercase (to_ascii_lowercase s) = to_ascii_lowercase s.
Proof. unfold to_ascii_lowercase. rewrite map_map. apply map_ext, ascii_lower_idemp. Qed.
Lemma eq_ignore_ascii_case_refl s : eq_ignore_ascii_case s s = true.
Proof. by apply bool_decide_eq_true_2. Qed.

(** ** Prefixes, suffixes, searches *)
Fixpoint strip_prefix (p s : str) : option str :=
  match p, s with
  | [], _ => Some s
  | x :: p, y :: s => if decide (x = y) then strip_prefix p s else None
  | _ :: _, [] => None
  end.
Definition starts_with (p s : str) : bool := bool_decide (is_Some (strip_prefix p s)).
Definition strip_suffix (p s : str) : option str :=
  @rev ascii <$> strip_prefix (rev p) (rev s).
Definition ends_with (p s : str) : bool := starts_with (rev p) (rev s).

Lemma strip_prefix_Some p s r : strip_prefix p s = Some r <-> s = p ++ r.
Proof.
  revert s. induction p as [|x p IH]; intros s; simpl; [split; congruence|].
  destruct s as [|y s]; [split; congruence|]. case_decide as E.
  - subst. rewrite IH. split; congruence.
  - split; [done|]. intros [= -> _]. done.
Qed.
Lemma starts_with_true p s : starts_with p s = true <-> exists r, s = p ++ r.
Proof.
  unfold starts_with. rewrite bool_decide_eq_true. unfold is_Some.
  by setoid_rewrite strip_prefix_Some.
Qed.
Lemma starts_with_app p r : starts_with p (p ++ r) = true.
Proof. apply starts_with_true. eauto. Qed.
Lemma strip_suffix_Some p s r : strip_suffix p s = Some r <-> s = r ++ p.
Proof.
  unfold strip_suffix. rewrite fmap_Some. setoid_rewrite strip_prefix_Some. split.
  - intros (q & E & ->). apply (f_equal (@rev ascii)) in E. by rewrite rev_app_distr, !rev_involutive in E.
  - intros ->. exists (rev r). by rewrite rev_app_distr, rev_involutive.
Qed.
Lemma ends_with_true p s : ends_with p s = true <-> exists r, s = r ++ p.
Proof.
  unfold ends_with. rewrite starts_with_true. split; intros [r E].
  - exists (rev r). apply (f_equal (@rev ascii)) in E. by rewrite rev_app_distr, !rev_involutive in E.
  - exists (rev r). by rewrite E, rev_app_distr.
Qed.

(** [s.windows(n).position(|w| w == p)], the first occurrence of [p]. *)
Fixpoint position (p s : str) : option nat :=
  if starts_with p s then Some 0%nat
  else match s with [] => None | _ :: s => S <$> position p s end.
Definition contains (s p : str) : bool := bool_decide (is_Some (position p s)).

Lemma position_Some p s i :
  position p s = Some i -> s = take i s ++ p ++ drop (i + length p) s /\ (i <= length s)%nat.
Proof.
  revert i. induction s as [|y s IH]; intros i; simpl; destruct (starts_with p _) eqn:E.
  1, 3: intros [= <-]; apply starts_with_true in E as [r E]; rewrite E; simpl;
    rewrite drop_app_length; split; [done|lia].
  - done.
  - intros (j & Hj & ->)%fmap_Some. simpl. destruct (IH j Hj) as [H ?].
    split; [by f_equal|lia].
Qed.
Lemma position_first p s i : position p s = Some i ->
  forall j, (j < i)%nat -> starts_with p (drop j s) = false.
Proof.
  revert i. induction s as [|y s IH]; intros i; simpl; destruct (starts_with p _) eqn:E.
  1, 3: intros [= <-]; lia.
  - done.
  - intros (k & Hk & ->)%fmap_Some j Hj. destruct j as [|j]; [done|]. apply (IH k); [done|lia].
Qed.
Lemma contains_app p s1 s2 : contains (s1 ++ p ++ s2) p = true.
Proof.
  apply bool_decide_eq_true_2. induction s1 as [|x s1 IH]; simpl.
  - destruct (p ++ s2) as [|y s] eqn:E; simpl; rewrite <- E, starts_with_app; eauto.
  - case_match; [eauto|]. destruct IH as [i ->]. eauto.
Qed.
Lemma contains_true s p : contains s p = true <-> exists s1 s2, s = s1 ++ p ++ s2.
Proof.
  split; [|intros (? & ? & ->); apply contains_app].
  intros [i Hi]%bool_decide_eq_true_1. apply position_Some in Hi as [H _]. eauto.
Qed.

(** Number of non-overlapping occurrences: [s.matches(p).count()]; [skip] bytes of the current
    occurrence remain to be passed over. *)
Fixpoint count_from (p : str) (skip : nat) (s : str) : nat :=
  match s with
  | [] => 0
  | _ :: s' =>
      match skip with
      | S k => count_from p k s'
      | O => if starts_with p s then S (count_from p (length p - 1) s') else count_from p 0 s'
      end
  end.
Definition matches_count (p s : str) : nat := count_from p 0 s.

(** [split_once], [rsplit_once], [split]. *)
Definition split_once (sep s : str) : option (str * str) :=
  let? i := position sep s in Some (take i s, drop (i + length sep) s).
Definition rsplit_once (sep : ascii) (s : str) : option (str * str) :=
  let? i := position [sep] (rev s) in
  Some (rev (drop (S i) (rev s)), rev (take i (rev s))).
Fixpoint split_char (sep : ascii) (s : str) : list str :=
  match s with
  | [] => [[]]
  | c :: s =>
      if decide (c = sep) then [] :: split_char sep s
      else match split_char sep s with
           | w :: ws => (c :: w) :: ws
           | [] => [[c]]
           end
  end.

Lemma split_once_Some sep s a b : split_once sep s = Some (a, b) -> s = a ++ sep ++ b.
Proof.
  unfold split_once. destruct (position sep s) as [i|] eqn:E; [|done]. intros [= <- <-].
  by apply position_Some in E as [? _].
Qed.

Lemma position_char_app c s r : c ∉ s -> position [c] (s ++ c :: r) = Some (length s).
Proof.
  intros Hc. induction s as [|x s IH]; simpl.
  - pose proof (starts_with_app [c] r) as E. simpl in E. by rewrite E.
  - destruct (starts_with _ _) eqn:E.
    + apply starts_with_true in E as [r' E]. simplify_eq/=. set_solver.
    + rewrite IH by set_solver. done.
Qed.
Lemma position_char_None c s : c ∉ s -> position [c] s = None.
Proof.
  intros Hc. induction s as [|x s IH]; simpl; [done|].
  destruct (starts_with _ _) eqn:E.
  - apply starts_with_true in E as [r' E]. simplify_eq/=. set_solver.
  - rewrite IH by set_solver. done.
Qed.
Lemma split_once_char c s r : c ∉ s -> split_once [c] (s ++ c :: r) = Some (s, r).
Proof.
  intros Hc. unfold split_once. rewrite position_char_app by done. simpl.
  rewrite take_app_length. by rewrite drop_app_add.
Qed.
Lemma rsplit_once_char c s r : c ∉ r -> rsplit_once c (s ++ c :: r) = Some (s, r).
Proof.
  intros Hc. unfold rsplit_once. rewrite rev_app_distr; simpl. rewrite <- app_assoc; simpl.
  rewrite position_char_app by (by rewrite list_elem_of_In, <- in_rev, <- list_elem_of_In).
  do 2 f_equal; [|f_equal].
  - rewrite <- Nat.add_1_r, drop_app_add. simpl. apply rev_involutive.
  - rewrite take_app_length. apply rev_involutive.
Qed.
Lemma rsplit_once_None c s : c ∉ s -> rsplit_once c s = None.
Proof.
  intros Hc. unfold rsplit_once. rewrite position_char_None; [done|].
  by rewrite list_elem_of_In, <- in_rev, <- list_elem_of_In.
Qed.

(** Decides that a character does not occur. *)
Lemma not_elem_check (c : ascii) (s : str) :
  forallb (fun d => negb (bool_decide (d = c))) s = true -> c ∉ s.
Proof. intros Hf Hin. rewrite forallb_elem in Hf. specialize (Hf _ Hin). by bsimp. Qed.

(** ** Whitespace

    [str::trim] and [split_whitespace] use the Unicode White_Space characters, listed here in
    UTF-8. *)
Definition bs (l : list Z) : str := map chr l.
Definition white_space : list str :=
  map (fun z => bs [z]) [9; 10; 11; 12; 13; 32] ++
  [bs [194; 133]; bs [194; 160]; bs [225; 154; 128]] ++
  map (fun k => bs [226; 128; k]) [128; 129; 130; 131; 132; 133; 134; 135; 136; 137; 138; 168; 169; 175] ++
  [bs [226; 129; 159]; bs [227; 128; 128]].
(** The length of the table entry [s] starts with, 0 when there is none. *)
Definition ws_len (table : list str) (s : str) : nat :=
  match List.find (fun w => starts_with w s) table with Some w => length w | None => 0 end.

Fixpoint trim_from (table : list str) (skip : nat) (s : str) : str :=
  match s with
  | [] => []
  | _ :: s' =>
      match skip with
      | S k => trim_from table k s'
      | O => match ws_len table s with O => s | S k => trim_from table k s' end
      end
  end.
Definition trim_start (s : str) : str := trim_from white_space 0 s.
Definition trim_end (s : str) : str := rev (trim_from (map (@rev ascii) white_space) 0 (rev s)).
Definition trim (s : str) : str := trim_end (trim_start s).

Fixpoint split_ws_from (skip : nat) (s : str) : list str :=
  match s with
  | [] => [[]]
  | c :: s' =>
      match skip with
      | S k => split_ws_from k s'
      | O =>
          match ws_len white_space s with
          | S k => [] :: split_ws_from k s'
          | O => match split_ws_from 0 s' with w :: ws => (c :: w) :: ws | [] => [[c]] end
          end
      end
  end.
Definition split_whitespace (s : str) : list str :=
  List.filter (fun w => negb (bool_decide (w = []))) (split_ws_from 0 s).

(** [str::lines]: pieces ending in [\n] lose it and one preceding [\r]; an empty last piece is
    dropped and an unterminated one is kept as it is. *)
Definition strip_cr (s : str) : str := default s (strip_suffix [CR] s).
Definition lines (s : str) : list str :=
  let ws := split_char LF s in
  map strip_cr (removelast ws) ++
  match last ws with Some ((_ :: _) as w) => [w] | _ => [] end.

Example lines_mixed : lines (lit "a" ++ crlf ++ lit "b" ++ [LF; LF] ++ lit "c" ++ [CR]) =
  [lit "a"; lit "b"; []; lit "c" ++ [CR]].
Proof. vm_compute. reflexivity. Qed.

(** ** Numbers *)
Definition digit_char (d : Z) : ascii := chr (if d <? 10 then 48 + d else 87 + d).
Definition digit_val (radix : Z) (c : ascii) : option Z :=
  let b := byte c in
  let v := if is_digit c then Some (b - 48)
           else if is_lower c then Some (b - 87)
           else if is_upper c then Some (b - 55) else None in
  let? d := v in if d <? radix then Some d else None.
Fixpoint digits_val (radix acc : Z) (s : str) : option Z :=
  match s with
  | [] => Some acc
  | c :: s => let? d := digit_val radix c in digits_val radix (acc * radix + d) s
  end.
(** [s.parse::<uN>()] with largest value [hi]: one optional [+], at least one digit, no
    overflow. *)
Definition parse_uint (hi : Z) (s : str) : option Z :=
  let d := match s with c :: r => if decide (c = "+"%char) then r else s | [] => s end in
  match d with
  | [] => None
  | _ => let? v := digits_val 10 0 d in if v <=? hi then Some v else None
  end.
Definition parse_u8 : str -> option Z := parse_uint 255.
Definition parse_u16 : str -> option Z := parse_uint 65535.
Definition parse_u64 : str -> option Z := parse_uint (2 ^ 64 - 1).

Fixpoint show_fuel (radix : Z) (fuel : nat) (z : Z) (acc : str) : str :=
  match fuel with
  | O => acc
  | S fuel =>
      let acc := digit_char (z mod radix) :: acc in
      if z / radix =? 0 then acc else show_fuel radix fuel (z / radix) acc
  end.
Definition show_radix (radix z : Z) : str := show_fuel radix (S (Z.to_nat (Z.log2 z))) z [].
(** [Display] of an unsigned integer, and its [{:x}] form. *)
Definition show_uint : Z -> str := show_radix 10.
Definition show_hex : Z -> str := show_radix 16.

Lemma digit_val_char radix d : 0 <= d < radix -> radix <= 16 -> digit_val radix (digit_char d) = Some d.
Proof.
  intros Hd Hr. assert (0 <= d < 16) as H16 by lia.
  unfold digit_val. replace (if is_digit _ then _ else _) with (Some d).
  - destruct (Z.ltb_spec d radix); [done|lia].
  - clear -H16. assert (d = 0 \/ d = 1 \/ d = 2 \/ d = 3 \/ d = 4 \/ d = 5 \/ d = 6 \/ d = 7 \/
      d = 8 \/ d = 9 \/ d = 10 \/ d = 11 \/ d = 12 \/ d = 13 \/ d = 14 \/ d = 15) as E by lia.
    repeat (destruct E as [->|E]; [reflexivity|]). by rewrite E.
Qed.

Lemma digits_val_show_fuel radix fuel z acc :
  1 < radix <= 16 -> 0 <= z < radix ^ Z.of_nat (S fuel) ->
  digits_val radix 0 (show_fuel radix (S fuel) z acc) = digits_val radix z acc.
Proof.
  intros Hr. revert z acc. induction fuel as [|fuel IH]; intros z acc Hz.
  - cbn [show_fuel]. rewrite Z.pow_1_r in Hz.
    rewrite Z.div_small, Z.mod_small by lia. simpl.
    rewrite digit_val_char by lia. done.
  - remember (S fuel) as n. cbn [show_fuel]. destruct (Z.eqb_spec (z / radix) 0) as [E|E].
    + apply Z.div_small_iff in E; [|lia]. assert (0 <= z < radix) by lia.
      rewrite Z.mod_small by lia. simpl. rewrite digit_val_char by lia. done.
    + subst n. rewrite IH.
      * simpl. rewrite digit_val_char by (try apply Z.mod_pos_bound; lia).
        f_equal. rewrite (Z.div_mod z radix) at 3 by lia. lia.
      * rewrite Nat2Z.inj_succ, Z.pow_succ_r in Hz by lia.
        split; [apply Z.div_pos; lia|]. apply Z.div_lt_upper_bound; lia.
Qed.

Lemma digits_val_show_radix radix z :
  1 < radix <= 16 -> 0 <= z -> digits_val radix 0 (show_radix radix z) = Some z.
Proof.
  intros Hr Hz. unfold show_radix. rewrite digits_val_show_fuel; [done|done|].
  split; [done|]. destruct (decide (z = 0)) as [->|]; [apply Z.pow_pos_nonneg; lia|].
  rewrite Nat2Z.inj_succ, Z2Nat.id by apply Z.log2_nonneg.
  eapply Z.lt_le_trans; [apply Z.log2_spec; lia|].
  apply Z.pow_le_mono_l. pose proof (Z.log2_nonneg z). lia.
Qed.

Lemma show_fuel_Forall P radix fuel z acc :
  0 < radix -> (forall d, 0 <= d < radix -> P (digit_char d)) -> Forall P acc ->
  Forall P (show_fuel radix fuel z acc).
Proof.
  intros Hr HP. revert z acc. induction fuel as [|fuel IH]; intros z acc Hacc; simpl; [done|].
  assert (Forall P (digit_char (z mod radix) :: acc)).
  { constructor; [apply HP, Z.mod_pos_bound; lia|done]. }
  case_match; [done|]. by apply IH.
Qed.

Lemma digit_char_is_digit d : 0 <= d < 10 -> is_digit (digit_char d) = true.
Proof.
  intros Hd. unfold is_digit, between, digit_char. destruct (Z.ltb_spec d 10); [|lia].
  rewrite byte_chr by lia. apply andb_true_intro. split; apply Z.leb_le; lia.
Qed.

Lemma show_uint_digits z : Forall (fun c => is_digit c = true) (show_uint z).
Proof. apply show_fuel_Forall; [lia|apply digit_char_is_digit|constructor]. Qed.

Lemma show_fuel_ne_nil radix fuel z acc : acc <> [] -> show_fuel radix fuel z acc <> [].
Proof.
  revert z acc. induction fuel as [|fuel IH]; intros z acc ?; simpl; [done|].
  case_match; [done|]. by apply IH.
Qed.
Lemma show_uint_ne_nil z : show_uint z <> [].
Proof. unfold show_uint, show_radix. simpl. case_match; [done|]. by apply show_fuel_ne_nil. Qed.

Lemma show_uint_not_in c z : is_digit c = false -> c ∉ show_uint z.
Proof. intros Hc Hin. pose proof (show_uint_digits z) as H. rewrite Forall_forall in H.
  apply H in Hin. congruence. Qed.

Lemma parse_show_uint hi z : 0 <= z <= hi -> parse_uint hi (show_uint z) = Some z.
Proof.
  intros Hz. unfold parse_uint. pose proof (show_uint_digits z) as Hd.
  pose proof (show_uint_ne_nil z) as Hne.
  pose proof (digits_val_show_radix 10 z ltac:(lia) ltac:(lia)) as Hv. fold (show_uint z) in Hv.
  destruct (show_uint z) as [|c r] eqn:E; [done|].
  inversion Hd; subst. case_decide as Hp; [subst c; done|]. rewrite Hv.
  destruct (Z.leb_spec z hi); [done|lia].
Qed.

(** ** UTF-8 *)
Definition cont (c : ascii) : bool := between 128 191 c.
(** Whether [b] may follow the lead byte [a] of a 3- or 4-byte sequence. *)
Definition second_ok (a b : ascii) : bool :=
  let z := byte a in
  if z =? 224 then between 160 191 b
  else if z =? 237 then between 128 159 b
  else if z =? 240 then between 144 191 b
  else if z =? 244 then between 128 143 b
  else cont b.
(** Validity and length of the sequence at the head of [s]: an invalid one is its maximal
    well-formed prefix (at least one byte). *)
Definition utf8_step (s : str) : bool * nat :=
  match s with
  | [] => (true, 0%nat)
  | a :: r =>
      if is_ascii a then (true, 1%nat)
      else if between 194 223 a then
        match r with b :: _ => if cont b then (true, 2%nat) else (false, 1%nat) | [] => (false, 1%nat) end
      else if between 224 239 a then
        match r with
        | b :: r =>
            if second_ok a b then
              match r with c :: _ => if cont c then (true, 3%nat) else (false, 2%nat) | [] => (false, 2%nat) end
            else (false, 1%nat)
        | [] => (false, 1%nat)
        end
      else if between 240 244 a then
        match r with
        | b :: r =>
            if second_ok a b then
              match r with
              | c :: r =>
                  if cont c then
                    match r with d :: _ => if cont d then (true, 4%nat) else (false, 3%nat) | [] => (false, 3%nat) end
                  else (false, 2%nat)
              | [] => (false, 2%nat)
              end
            else (false, 1%nat)
        | [] => (false, 1%nat)
        end
      else (false, 1%nat)
  end.
Fixpoint utf8_from (skip : nat) (s : str) : bool :=
  match s with
  | [] => true
  | _ :: s' =>
      match skip with
      | S k => utf8_from k s'
      | O => let '(v, n) := utf8_step s in v && utf8_from (n - 1) s'
      end
  end.
(** [str::from_utf8] succeeds. *)
Definition is_utf8 (s : str) : bool := utf8_from 0 s.
Definition from_utf8 (s : str) : option str := if is_utf8 s then Some s else None.

(** [String::from_utf8_lossy]: every invalid sequence becomes U+FFFD. *)
Fixpoint lossy_from (skip : nat) (emit : bool) (s : str) : str :=
  match s with
  | [] => []
  | c :: s' =>
      match skip with
      | S k => if emit then c :: lossy_from k emit s' else lossy_from k emit s'
      | O =>
          let '(v, n) := utf8_step s in
          if v then c :: lossy_from (n - 1) true s'
          else bs [239; 191; 189] ++ lossy_from (n - 1) false s'
      end
  end.
Definition from_utf8_lossy (s : str) : str := lossy_from 0 true s.

Lemma lossy_from_utf8 skip s : utf8_from skip s = true -> lossy_from skip true s = s.
Proof.
  revert skip. induction s as [|c s IH]; intros [|k] H; cbn [lossy_from utf8_from] in *; [done|done| |].
  - destruct (utf8_step (c :: s)) as [[] n]; [|done]. simpl in H. by rewrite IH.
  - by rewrite IH.
Qed.
Lemma from_utf8_lossy_valid s : is_utf8 s = true -> from_utf8_lossy s = s.
Proof. apply lossy_from_utf8. Qed.

Lemma is_utf8_ascii s : forallb is_ascii s = true -> is_utf8 s = true.
Proof.
  unfold is_utf8. induction s as [|c s IH]; cbn [forallb utf8_from]; [done|].
  intros [Hc Hs]%andb_prop. unfold utf8_step. rewrite Hc. simpl. by apply IH.
Qed.
Lemma from_utf8_lossy_ascii s : forallb is_ascii s = true -> from_utf8_lossy s = s.
Proof. intros. by apply from_utf8_lossy_valid, is_utf8_ascii. Qed.

(** [str::cmp]: bytes, lexicographically. *)
Fixpoint str_cmp (a b : str) : comparison :=
  match a, b with
  | [], [] => Eq
  | [], _ => Lt
  | _, [] => Gt
  | x :: a, y :: b => cmp_then (byte x ?= byte y) (str_cmp a b)
  end.
#[export] Instance str_cmp_order : CmpOrder str_cmp.
Proof.
  split.
  - intros x. induction x as [|c x IH]; intros [|d y]; simpl; try done.
    rewrite IH, (Z.compare_antisym (byte c)). by destruct (byte c ?= byte d).
  - intros x. induction x as [|c x IH]; intros [|d y] [|e z]; simpl; try done.
    destruct (Z.compare_spec (byte c) (byte d)), (Z.compare_spec (byte d) (byte e)), (Z.compare_spec (byte c) (byte e));
      simpl; try done; try lia. apply IH.
Qed.

(** ** Unicode case mapping

    [str::to_lowercase] and [str::to_uppercase] read the Unicode tables; the development uses
    only that they agree with the ASCII mapping on ASCII text. *)
Class UnicodeCase : Type := {
  to_lowercase : str -> str;
  to_uppercase : str -> str;
  to_lowercase_ascii s : forallb is_ascii s = true -> to_lowercase s = map ascii_lower s;
  to_uppercase_ascii s : forallb is_ascii s = true -> to_uppercase s = map ascii_upper s;
}.
(** The instance the witnesses evaluate: tables that map ASCII only. *)
Definition ascii_case : UnicodeCase :=
  {| to_lowercase := map ascii_lower; to_uppercase := map ascii_upper;
     to_lowercase_ascii _ _ := eq_refl; to_uppercase_ascii _ _ := eq_refl |}.

Arguments lit : simpl never.
Arguments show_uint : simpl never.
Arguments parse_uint : simpl never.
