(* ===== verification/Types.v ===== *)
(** * src/types.rs and src/error.rs: the shared vocabulary *)
From S2P Require Import Prelude Text.
Open Scope Z_scope.

(** ** Protocols *)
Inductive Proto := Http | Https | Socks4 | Socks5 | Connect80 | Connect25.
#[export] Instance Proto_eq_dec : EqDecision Proto.
Proof. solve_decision. Defined.

Module Protos.
Definition ALL : list Proto := [Http; Https; Socks4; Socks5; Connect80; Connect25].
End Protos.

#[export] Instance Proto_finite : finite.Finite Proto.
Proof.
  refine {| finite.enum := Protos.ALL |}.
  - by apply (bool_decide_unpack _).
  - intros p. apply (bool_decide_unpack _). by destruct p.
Defined.
#[export] Instance Proto_countable : Countable Proto := _.

Definition proto_as_str (p : Proto) : str :=
  match p with
  | Http => lit "HTTP"
  | Https => lit "HTTPS"
  | Socks4 => lit "SOCKS4"
  | Socks5 => lit "SOCKS5"
  | Connect80 => lit "CONNECT:80"
  | Connect25 => lit "CONNECT:25"
  end.

Definition checks_anon_level (p : Proto) : bool := match p with Http => true | _ => false end.
Definition uses_full_path (p : Proto) : bool := match p with Http => true | _ => false end.

Inductive Scheme := SHttp | SHttps.
#[export] Instance Scheme_eq_dec : EqDecision Scheme.
Proof. solve_decision. Defined.

Inductive JudgeScheme := JHttp | JHttps | JSmtp.
#[export] Instance JudgeScheme_eq_dec : EqDecision JudgeScheme.
Proof. solve_decision. Defined.

Definition judge_scheme (p : Proto) : JudgeScheme :=
  match p with Https => JHttps | Connect25 => JSmtp | _ => JHttp end.
Definition default_port (j : JudgeScheme) : Z :=
  match j with JHttp => 80 | JHttps => 443 | JSmtp => 25 end.

(** [(s.len(), s.as_bytes()[s.len() - 1])]. *)
Definition display_order_key (p : Proto) : Z * Z :=
  let s := proto_as_str p in
  (Z.of_nat (length s), match last s with Some c => byte c | None => 0 end).

(** [Proto::from_str]: the first protocol whose name matches, ignoring ASCII case. *)
Definition proto_from_str (s : str) : result Proto str :=
  match List.find (fun p => eq_ignore_ascii_case (proto_as_str p) s) Protos.ALL with
  | Some p => Ok p
  | None => Err s
  end.

(** ** Anonymity levels, ordered worst to best *)
Inductive AnonLevel := Transparent | Anonymous | High.
#[export] Instance AnonLevel_eq_dec : EqDecision AnonLevel.
Proof. solve_decision. Defined.

Definition anon_as_str (l : AnonLevel) : str :=
  match l with
  | Transparent => lit "Transparent"
  | Anonymous => lit "Anonymous"
  | High => lit "High"
  end.
Definition anon_from_str (s : str) : result AnonLevel str :=
  match List.find (fun l => eq_ignore_ascii_case (anon_as_str l) s) [Transparent; Anonymous; High] with
  | Some l => Ok l
  | None => Err s
  end.

(** ** Requests *)
Record TypeSpec := { ts_proto : Proto; ts_levels : option (list AnonLevel) }.
Definition type_any (p : Proto) : TypeSpec := {| ts_proto := p; ts_levels := None |}.

Definition accepts (t : TypeSpec) (p : Proto) (level : option AnonLevel) : bool :=
  if decide (ts_proto t <> p) then false
  else
    match ts_levels t, level with
    | None, _ => true
    | Some want, Some got => bool_decide (got ∈ want)
    | Some _, None => false
    end.

Record Caps := { cookie_echo : bool; referer_echo : bool }.
Definition caps_default : Caps := {| cookie_echo := false; referer_echo := false |}.

(** ** Errors (src/error.rs) *)
Inductive ProxyError :=
| ConnFailed | Timeout | Reset | EmptyRecv | BadStatus | BadResponse | ErrorOnStream
| DisallowedStatus (code : Z)
| Resolve.
#[export] Instance ProxyError_eq_dec : EqDecision ProxyError.
Proof. solve_decision. Defined.
#[export] Instance ProxyError_countable : Countable ProxyError.
Proof.
  refine (inj_countable'
    (fun e => match e with
      | ConnFailed => inl 0%nat | Timeout => inl 1%nat | Reset => inl 2%nat
      | EmptyRecv => inl 3%nat | BadStatus => inl 4%nat | BadResponse => inl 5%nat
      | ErrorOnStream => inl 6%nat | Resolve => inl 7%nat
      | DisallowedStatus z => inr z end)
    (fun x => match x with
      | inl 0%nat => ConnFailed | inl 1%nat => Timeout | inl 2%nat => Reset
      | inl 3%nat => EmptyRecv | inl 4%nat => BadStatus | inl 5%nat => BadResponse
      | inl 6%nat => ErrorOnStream | inl _ => Resolve
      | inr z => DisallowedStatus z end) _).
  by intros [].
Defined.

Definition error_as_str (e : ProxyError) : str :=
  match e with
  | ConnFailed => lit "connection_failed"
  | Timeout => lit "connection_timeout"
  | Reset => lit "connection_is_reset"
  | EmptyRecv => lit "empty_response"
  | BadStatus => lit "bad_status"
  | BadResponse => lit "bad_response"
  | ErrorOnStream => lit "error_on_stream"
  | DisallowedStatus _ => lit "disallowed_status"
  | Resolve => lit "resolve_failed"
  end.

(** The caller-actionable [Error]. *)
Inductive Error :=
| NoJudges | NoTypes | NoProviders | ExtIpUnknown
| Config (msg : str) | Io (msg : str) | Persist (msg : str).
(** [Display]: what a user reads. An I/O error speaks for itself. *)
Definition error_display (e : Error) : str :=
  match e with
  | NoJudges => lit "no working judges were found"
  | NoTypes => lit "at least one proxy type is required"
  | NoProviders => lit "no providers configured"
  | ExtIpUnknown => lit "could not determine this machine's external IP address"
  | Config msg => lit "invalid provider configuration: " ++ msg
  | Io msg => msg
  | Persist msg => lit "persistence error: " ++ msg
  end.
Definition parse_error_display (s : str) : str := lit "unknown protocol: " ++ s.
(** The names of the statistics tell the errors apart, but for the statuses not allowed. *)
Lemma error_as_str_inj e e' : error_as_str e = error_as_str e' ->
  e = e' \/ exists c c', e = DisallowedStatus c /\ e' = DisallowedStatus c'.
Proof. destruct e, e'; intros E; (by left) || (right; by eauto) || (exfalso; vm_compute in E; discriminate E). Qed.

(** ** Properties *)

Lemma proto_from_str_spec s p :
  proto_from_str s = Ok p <-> to_ascii_lowercase s = to_ascii_lowercase (proto_as_str p).
Proof.
  unfold proto_from_str, eq_ignore_ascii_case. simpl. split.
  - intros H. repeat case_bool_decide; simplify_eq; done.
  - intros H. rewrite H. by destruct p.
Qed.

Lemma anon_from_str_spec s l :
  anon_from_str s = Ok l <-> to_ascii_lowercase s = to_ascii_lowercase (anon_as_str l).
Proof.
  unfold anon_from_str, eq_ignore_ascii_case. simpl. split.
  - intros H. repeat case_bool_decide; simplify_eq; done.
  - intros H. rewrite H. by destruct l.
Qed.

Lemma proto_from_str_roundtrip p : proto_from_str (proto_as_str p) = Ok p.
Proof. by apply proto_from_str_spec. Qed.
Lemma anon_from_str_roundtrip l : anon_from_str (anon_as_str l) = Ok l.
Proof. by apply anon_from_str_spec. Qed.

(** Protocol and anonymity-level names parse exactly as printed: [from_str] answers [p] for
    the wire name of [p] in any ASCII letter case, and for no other text; every other text is an
    error that carries it. *)
Theorem names_roundtrip : forall s,
  (forall p, proto_from_str s = Ok p <-> to_ascii_lowercase s = to_ascii_lowercase (proto_as_str p)) /\
  (forall l, anon_from_str s = Ok l <-> to_ascii_lowercase s = to_ascii_lowercase (anon_as_str l)) /\
  (forall e, proto_from_str s = Err e -> e = s) /\ (forall e, anon_from_str s = Err e -> e = s).
Proof.
  intros s. split_and!; [intros; apply proto_from_str_spec|intros; apply anon_from_str_spec|..];
    intros e; [unfold proto_from_str|unfold anon_from_str]; case_match; congruence.
Qed.

Lemma accepts_iff t p l :
  accepts t p l = true <->
  ts_proto t = p /\ (ts_levels t = None \/ exists want got,
    ts_levels t = Some want /\ l = Some got /\ got ∈ want).
Proof.
  unfold accepts. case_decide as E; [split; [done|tauto]|].
  destruct (ts_levels t) as [want|].
  - destruct l as [got|].
    + rewrite bool_decide_eq_true. naive_solver.
    + naive_solver.
  - naive_solver.
Qed.

#[export] Hint Resolve proto_from_str_roundtrip anon_from_str_roundtrip : proxybroker.
