(* ===== verification/Addr.v ===== *)
(** * IP addresses: [std::net::IpAddr] and the literals the source reads and writes

    An IPv4 address is its 32-bit value, an IPv6 address its 128-bit value. [ip_show] is
    [Display] and [ip_parse] is [FromStr] of the standard library; [parse_ip_lenient] and
    [Resolver::resolve] are src/resolver.rs; [dnsbl_query] is from src/checker.rs. *)
From S2P Require Import Prelude Text Types.
Open Scope Z_scope.

Inductive IpAddr := V4 (a : Z) | V6 (a : Z).
#[export] Instance IpAddr_eq_dec : EqDecision IpAddr.
Proof. solve_decision. Defined.
#[export] Instance IpAddr_countable : Countable IpAddr.
Proof.
  refine (inj_countable' (fun i => match i with V4 a => inl a | V6 a => inr a end)
                         (fun x => match x with inl a => V4 a | inr a => V6 a end) _).
  by intros [].
Defined.

Definition ip_wf (i : IpAddr) : Prop :=
  match i with V4 a => 0 <= a < 2 ^ 32 | V6 a => 0 <= a < 2 ^ 128 end.

(** ** Octets and groups, big-endian *)
Fixpoint be_digits (w : Z) (n : nat) (a : Z) : list Z :=
  match n with O => [] | S n => be_digits w n (a / 2 ^ w) ++ [a mod 2 ^ w] end.
Definition be_value (w : Z) (l : list Z) : Z := fold_left (fun acc d => acc * 2 ^ w + d) l 0.
Definition octets4 (a : Z) : list Z := be_digits 8 4 a.
Definition segments (a : Z) : list Z := be_digits 16 8 a.

Definition is_ipv4 (i : IpAddr) : bool := match i with V4 _ => true | V6 _ => false end.
Definition is_ipv6 (i : IpAddr) : bool := negb (is_ipv4 i).
Definition is_unspecified (i : IpAddr) : bool := match i with V4 a | V6 a => a =? 0 end.
Definition is_loopback (i : IpAddr) : bool :=
  match i with V4 a => a / 2 ^ 24 =? 127 | V6 a => a =? 1 end.

Lemma be_digits_length w n a : length (be_digits w n a) = n.
Proof. revert a. induction n; intros; simpl; [done|]. rewrite length_app, IHn. simpl. lia. Qed.
Lemma be_digits_range w n a : 0 <= w -> Forall (fun d => 0 <= d < 2 ^ w) (be_digits w n a).
Proof.
  intros Hw. revert a. induction n; intros; simpl; [constructor|].
  apply Forall_app; split; [done|]. repeat constructor; apply Z.mod_pos_bound; lia.
Qed.
Lemma be_value_digits w n a : 0 <= w -> 0 <= a < 2 ^ (w * Z.of_nat n) -> be_value w (be_digits w n a) = a.
Proof.
  intros Hw. unfold be_value. revert a. induction n as [|n IH]; intros a Ha; simpl.
  - rewrite Z.mul_0_r in Ha. simpl in Ha. lia.
  - rewrite fold_left_app, IH; simpl; [pose proof (Z.div_mod a (2 ^ w)); lia|].
    rewrite Nat2Z.inj_succ, Z.mul_succ_r, Z.pow_add_r in Ha by lia.
    split; [apply Z.div_pos; lia|apply Z.div_lt_upper_bound; lia].
Qed.

(** ** Display *)
Definition join (sep : str) (l : list str) : str :=
  match l with [] => [] | x :: l => fold_left (fun acc y => acc ++ sep ++ y) l x end.
Lemma join_cons sep x l : join sep (x :: l) = x ++ concat (map (fun y => sep ++ y) l).
Proof.
  unfold join. revert x. induction l as [|y l IH]; intros x; simpl; [by rewrite app_nil_r|].
  rewrite IH. by rewrite <- !app_assoc.
Qed.
Lemma Forall_join (P : ascii -> Prop) sep l : Forall P sep -> Forall (Forall P) l -> Forall P (join sep l).
Proof.
  intros Hs Hl. destruct Hl as [|x l Hx Hl]; [constructor|]. rewrite join_cons. apply Forall_app_2; [done|].
  induction Hl as [|y l Hy _ IH]; simpl; [constructor|]. by repeat apply Forall_app_2.
Qed.
Definition v4_show (a : Z) : str := join (lit ".") (map show_uint (octets4 a)).

(** The first longest run of zero groups, as (start, length). *)
Fixpoint zero_runs (i : nat) (cur best : nat * nat) (gs : list Z) : nat * nat :=
  match gs with
  | [] => best
  | g :: gs =>
      if g =? 0 then
        let cur := if (cur.2 =? 0)%nat then (i, 1%nat) else (cur.1, S cur.2) in
        zero_runs (S i) cur (if (best.2 <? cur.2)%nat then cur else best) gs
      else zero_runs (S i) (0%nat, 0%nat) best gs
  end.
Definition longest_zero_run (gs : list Z) : nat * nat := zero_runs 0 (0%nat, 0%nat) (0%nat, 0%nat) gs.

Definition v6_show (a : Z) : str :=
  if a / 2 ^ 32 =? 65535 then lit "::ffff:" ++ v4_show (a mod 2 ^ 32)
  else
    let gs := segments a in
    let '(i, n) := longest_zero_run gs in
    let hex := fun l => join (lit ":") (map show_hex l) in
    if (1 <? n)%nat then hex (take i gs) ++ lit "::" ++ hex (drop (i + n) gs) else hex gs.

Definition ip_show (i : IpAddr) : str := match i with V4 a => v4_show a | V6 a => v6_show a end.

(** ** Parsing

    The standard library's recursive-descent parser: each reader returns its value and the rest
    of the input. *)
Fixpoint read_digits (radix acc : Z) (limit : nat) (s : str) : Z * nat * str :=
  match limit, s with
  | S limit, c :: s' =>
      match digit_val radix c with
      | Some d => let '(v, k, r) := read_digits radix (acc * radix + d) limit s' in (v, S k, r)
      | None => (acc, 0%nat, s)
      end
  | _, _ => (acc, 0%nat, s)
  end.
(** [read_number(radix, Some(max_digits), allow_zero_prefix)] with result at most [hi]: more
    than [max_digits] digits fail, a leading zero is refused unless it is the whole number. *)
Definition read_number (radix hi : Z) (max_digits : nat) (allow_zero_prefix : bool) (s : str)
  : option (Z * str) :=
  let '(v, k, r) := read_digits radix 0 (S max_digits) s in
  if ((k =? 0) || (max_digits <? k))%nat then None
  else if hi <? v then None
  else if negb allow_zero_prefix && starts_with (lit "0") s && (1 <? k)%nat then None
  else Some (v, r).
Definition read_char (c : ascii) (s : str) : option str := strip_prefix [c] s.
(** [read_separator(sep, index, inner)]: the separator comes before every item but the first. *)
Definition read_separator {A} (sep : ascii) (index : nat) (inner : str -> option (A * str)) (s : str)
  : option (A * str) :=
  match index with O => inner s | S _ => let? s := read_char sep s in inner s end.

Definition read_octet (s : str) : option (Z * str) := read_number 10 255 3 false s.
Fixpoint read_octets (index n : nat) (s : str) : option (list Z * str) :=
  match n with
  | O => Some ([], s)
  | S n =>
      let? (o, s) := read_separator "."%char index read_octet s in
      let? (os, s) := read_octets (S index) n s in
      Some (o :: os, s)
  end.
Definition read_ipv4 (s : str) : option (Z * str) :=
  let? (os, s) := read_octets 0 4 s in Some (be_value 8 os, s).

(** [read_groups]: up to [limit] 16-bit groups, the last two possibly as a dotted quad; also
    whether it ended with one. [k] counts down the groups left, [i] is the index. *)
Fixpoint read_groups (k i : nat) (s : str) : list Z * bool * str :=
  match k with
  | O => ([], false, s)
  | S k' =>
      let quad := if (1 <? k)%nat then read_separator ":"%char i read_ipv4 s else None in
      match quad with
      | Some (a, s) => ([a / 2 ^ 16; a mod 2 ^ 16], true, s)
      | None =>
          match read_separator ":"%char i (read_number 16 65535 4 true) s with
          | Some (g, s) => let '(gs, b, s) := read_groups k' (S i) s in (g :: gs, b, s)
          | None => ([], false, s)
          end
      end
  end.
Definition read_ipv6 (s : str) : option (Z * str) :=
  let '(head, head_v4, s) := read_groups 8 0 s in
  if (length head =? 8)%nat then Some (be_value 16 head, s)
  else if head_v4 then None
  else
    let? s := read_char ":"%char s in
    let? s := read_char ":"%char s in
    let '(tail, _, s) := read_groups (8 - (length head + 1)) 0 s in
    Some (be_value 16 (head ++ replicate (8 - length head - length tail) 0 ++ tail), s).

Definition all_read {A} (r : option (A * str)) : option A :=
  match r with Some (a, []) => Some a | _ => None end.
(** [s.parse::<IpAddr>()]. *)
Definition ip_parse (s : str) : option IpAddr :=
  match read_ipv4 s with
  | Some (a, r) => match r with [] => Some (V4 a) | _ => None end
  | None => V6 <$> all_read (read_ipv6 s)
  end.

(** [s.parse::<SocketAddr>()]: [v4:port], or [[v6]:port] with an optional numeric [%scope]. *)
Definition read_port (s : str) : option (Z * str) :=
  let? s := read_char ":"%char s in read_number 10 65535 (length s) true s.
Definition read_scope (s : str) : option str :=
  match read_char "%"%char s with
  | Some r => let? (_, r) := read_number 10 (2 ^ 32 - 1) (length r) true r in Some r
  | None => Some s
  end.
Definition read_sockaddr_v4 (s : str) : option (IpAddr * Z * str) :=
  let? (a, s) := read_ipv4 s in let? (p, s) := read_port s in Some (V4 a, p, s).
Definition read_sockaddr_v6 (s : str) : option (IpAddr * Z * str) :=
  let? s := read_char "["%char s in
  let? (a, s) := read_ipv6 s in
  let? s := read_scope s in
  let? s := read_char "]"%char s in
  let? (p, s) := read_port s in
  Some (V6 a, p, s).
Definition sockaddr_parse (s : str) : option (IpAddr * Z) :=
  match read_sockaddr_v4 s with
  | Some r => all_read (Some r)
  | None => all_read (read_sockaddr_v6 s)
  end.

(** ** src/resolver.rs *)

(** [parse_ip_lenient]: an IP literal, or a dotted quad whose octets may carry leading zeros. *)
Definition parse_ip_lenient (host : str) : option IpAddr :=
  if decide (host = []) then None
  else
    match ip_parse host with
    | Some ip => Some ip
    | None =>
        if contains host (lit ".") && negb (contains host (lit ":")) then
          let octets := split_char "."%char host in
          if decide (length octets = 4%nat) then
            let? o := mapM parse_u8 octets in Some (V4 (be_value 8 o))
          else None
        else None
    end.
Definition host_is_ip (host : str) : bool := bool_decide (is_Some (parse_ip_lenient host)).

(** [Resolver::resolve]: a literal passes through; a name goes to DNS ([lookup_ip] answers with
    the addresses found, [None] on an error or a timeout). *)
Section resolve.
Variable lookup_ip : str -> option (list IpAddr).
Definition resolve (host : str) : result IpAddr ProxyError :=
  match parse_ip_lenient host with
  | Some ip => Ok ip
  | None =>
      match lookup_ip host with
      | Some ips => ok_or (head ips) Resolve
      | None => Err Resolve
      end
  end.
End resolve.

(** [Resolver::external_ips], from the text each endpoint answered with ([None] when it did not).
    A set, here in some order. *)
Definition external_ips (bodies : list (option str)) : result (list IpAddr) Error :=
  let found : gset IpAddr := list_to_set (omap (fun body => body ≫= fun text => ip_parse (trim text)) bodies) in
  if decide (found = ∅) then Err ExtIpUnknown else Ok (elements found).

(** ** The DNSBL query name (src/checker.rs) *)
Definition dnsbl_query (ip : IpAddr) (zone : str) : option str :=
  match ip with
  | V4 a =>
      match octets4 a with
      | [o0; o1; o2; o3] =>
          Some (show_uint o3 ++ lit "." ++ show_uint o2 ++ lit "." ++ show_uint o1 ++ lit "."
                ++ show_uint o0 ++ lit "." ++ zone)
      | _ => None
      end
  | V6 _ => None
  end.

Example ip_show_v6 : map ip_show [V6 1; V6 0; V6 (2 ^ 32 * 65535 + 2 ^ 24 + 2); V6 (8193 * 2 ^ 112 + 3512 * 2 ^ 96 + 1)]
  = [lit "::1"; lit "::"; lit "::ffff:1.0.0.2"; lit "2001:db8::1"].
Proof. vm_compute. reflexivity. Qed.
Example ip_parse_examples :
  map ip_parse [lit "1.2.3.4"; lit "010.1.1.1"; lit "::ffff:1.0.0.2"; lit "2001:db8::1"; lit "::"; lit "1::2::3"; lit "256.1.1.1"]
  = [Some (V4 16909060); None; Some (V6 (2 ^ 32 * 65535 + 2 ^ 24 + 2));
     Some (V6 (8193 * 2 ^ 112 + 3512 * 2 ^ 96 + 1)); Some (V6 0); None; None].
Proof. vm_compute. reflexivity. Qed.
Example parse_ip_lenient_zeros : parse_ip_lenient (lit "127.0.0.001") = Some (V4 (127 * 2 ^ 24 + 1)).
Proof. vm_compute. reflexivity. Qed.

Example sockaddr_parse_examples :
  map sockaddr_parse [lit "1.2.3.4:080"; lit "[::1%7]:443"; lit "1.2.3.4"; lit "1.2.3.4:70000"]
  = [Some (V4 16909060, 80); Some (V6 1, 443); None; None].
Proof. vm_compute. reflexivity. Qed.

(** ** IPv4 literals round-trip *)
Definition not_digit_head (s : str) : Prop := match s with [] => True | c :: _ => digit_val 10 c = None end.

Lemma read_digits_app ds acc limit rest v :
  digits_val 10 acc ds = Some v -> (length ds <= limit)%nat -> not_digit_head rest ->
  read_digits 10 acc limit (ds ++ rest) = (v, length ds, rest).
Proof.
  revert acc limit. induction ds as [|c ds IH]; intros acc limit Hv Hl Hr; simpl in *.
  - simplify_eq. destruct limit, rest; simpl in *; try done. by rewrite Hr.
  - destruct limit as [|limit]; [lia|]. simpl.
    destruct (digit_val 10 c) as [d|]; [|done]. rewrite (IH _ limit); [done|done|lia|done].
Qed.

Definition octet_ok (o : Z) : bool :=
  let s := show_uint o in
  (length s <=? 3)%nat && (negb (starts_with (lit "0") s) || (length s =? 1)%nat).
Lemma octet_ok_all o : 0 <= o < 256 -> octet_ok o = true.
Proof.
  intros Ho. assert (forallb octet_ok (seqZ 0 256) = true) as H by (vm_compute; reflexivity).
  rewrite forallb_elem in H. apply H, elem_of_seqZ. lia.
Qed.

Lemma read_octet_show o rest :
  0 <= o < 256 -> not_digit_head rest -> read_octet (show_uint o ++ rest) = Some (o, rest).
Proof.
  intros Ho Hr. pose proof (octet_ok_all o Ho) as Hok. unfold octet_ok in Hok.
  apply andb_prop in Hok as [Hl Hz]. apply Nat.leb_le in Hl.
  pose proof (digits_val_show_radix 10 o ltac:(lia) ltac:(lia)) as Hv. fold (show_uint o) in Hv.
  pose proof (show_uint_ne_nil o) as Hne.
  unfold read_octet, read_number. rewrite (read_digits_app _ _ _ _ _ Hv) by (lia || done).
  destruct (show_uint o) as [|c s] eqn:E; [done|]. cbn [length] in *.
  rewrite (proj2 (Nat.ltb_ge 3 (S (length s)))) by lia. cbn [Nat.eqb orb].
  rewrite (proj2 (Z.ltb_ge 255 o)) by lia. cbn [negb andb].
  replace (starts_with (lit "0") ((c :: s) ++ rest)) with (starts_with (lit "0") (c :: s)).
  2: { unfold starts_with. change (lit "0") with ["0"%char]. simpl. by case_decide. }
  destruct (starts_with (lit "0") (c :: s)); simpl in *; [|done].
  apply Nat.eqb_eq in Hz. by rewrite Hz.
Qed.

Lemma read_ipv4_show a rest :
  0 <= a < 2 ^ 32 -> not_digit_head rest -> read_ipv4 (v4_show a ++ rest) = Some (a, rest).
Proof.
  intros Ha Hr. unfold v4_show.
  pose proof (be_value_digits 8 4 a ltac:(lia) ltac:(simpl; lia)) as Hv. fold (octets4 a) in Hv.
  pose proof (be_digits_range 8 4 a ltac:(lia)) as Hf. fold (octets4 a) in Hf.
  pose proof (be_digits_length 8 4 a) as Hn. fold (octets4 a) in Hn.
  destruct (octets4 a) as [|o0 [|o1 [|o2 [|o3 [|]]]]]; try done.
  rewrite !Forall_cons in Hf. destruct Hf as (H0 & H1 & H2 & H3 & _).
  cbn [map join fold_left]. rewrite <- !app_assoc. change (lit ".") with ["."%char].
  unfold read_ipv4. cbn [read_octets read_separator app].
  rewrite read_octet_show by done. cbn [read_char strip_prefix decide].
  unfold read_char. cbn [strip_prefix]. rewrite !decide_True by done.
  rewrite read_octet_show by done. cbn [strip_prefix]. rewrite !decide_True by done.
  rewrite read_octet_show by done. cbn [strip_prefix]. rewrite !decide_True by done.
  rewrite read_octet_show by done. by rewrite Hv.
Qed.

Lemma ip_parse_v4_show a : 0 <= a < 2 ^ 32 -> ip_parse (v4_show a) = Some (V4 a).
Proof.
  intros Ha. unfold ip_parse. rewrite <- (app_nil_r (v4_show a)).
  by rewrite read_ipv4_show.
Qed.

(** ** The characters of an IPv6 literal *)
Definition hex_colon (c : ascii) : bool := between 48 57 c || between 65 70 c || between 97 102 c || bool_decide (c = ":"%char).
Definition v6_char (c : ascii) : bool := hex_colon c || bool_decide (c = "."%char).
(** What a reader has taken: characters of a literal, no dot at either end. *)
Definition taken (u : str) : Prop :=
  Forall (fun c => v6_char c = true) u /\ head u <> Some "."%char /\ last u <> Some "."%char.
Lemma taken_nil : taken [].
Proof. done. Qed.
Lemma taken_app u v : taken u -> taken v -> taken (u ++ v).
Proof.
  intros (A1 & A2 & A3) (B1 & B2 & B3). split; [by apply Forall_app|]. split; [by destruct u|].
  destruct v as [|c v]; [by rewrite app_nil_r|]. by rewrite last_app_cons.
Qed.
Lemma taken_hex u : Forall (fun c => hex_colon c = true) u -> taken u.
Proof.
  intros H. split; [eapply Forall_impl; [exact H|]; intros c Hc; unfold v6_char; by rewrite Hc|].
  split; [destruct u as [|c u]; [done|]; intros [= ->]; by apply Forall_cons in H as [? _]|].
  intros E. apply last_Some in E as [u' ->]. by apply Forall_app in H as [_ [? _]%Forall_cons].
Qed.
Lemma digit_val_hex radix c d : digit_val radix c = Some d -> radix <= 16 -> hex_colon c = true.
Proof.
  unfold digit_val, hex_colon, is_digit, is_lower, is_upper, between. intros E Hr. rewrite !orb_true_iff, !andb_true_iff, !Z.leb_le.
  destruct ((48 <=? byte c) && (byte c <=? 57)) eqn:E1; [bsimp; lia|].
  destruct ((97 <=? byte c) && (byte c <=? 122)) eqn:E2; cbn in E.
  - destruct (Z.ltb_spec (byte c - 87) radix); [|done]. bsimp. lia.
  - destruct ((65 <=? byte c) && (byte c <=? 90)) eqn:E3; [|done]. cbn in E.
    destruct (Z.ltb_spec (byte c - 55) radix); [|done]. bsimp. lia.
Qed.
Lemma read_digits_taken radix acc limit s v k r : radix <= 16 -> read_digits radix acc limit s = (v, k, r) ->
  exists u, s = u ++ r /\ length u = k /\ Forall (fun c => hex_colon c = true) u.
Proof.
  intros Hr. revert acc s v k r. induction limit as [|limit IH]; intros acc s v k r; simpl.
  - intros [= <- <- <-]. by exists [].
  - destruct s as [|c s]; [intros [= <- <- <-]; by exists []|].
    destruct (digit_val radix c) as [d|] eqn:Ed; [|intros [= <- <- <-]; by exists []].
    destruct (read_digits _ _ limit s) as [[v' k'] r'] eqn:E. intros [= <- <- <-].
    apply IH in E as (u & -> & <- & Hu). exists (c :: u). split; [done|]. split; [done|]. constructor; [by eapply digit_val_hex|done].
Qed.
Lemma read_number_taken radix hi m z s v r : radix <= 16 -> read_number radix hi m z s = Some (v, r) ->
  exists u, s = u ++ r /\ u <> [] /\ Forall (fun c => hex_colon c = true) u.
Proof.
  intros Hr. unfold read_number. destruct (read_digits radix 0 (S m) s) as [[v' k] r'] eqn:E.
  destruct (_ || _) eqn:Ek; [done|]. destruct (hi <? v'); [done|]. destruct (_ && _); [done|]. intros [= <- <-].
  apply read_digits_taken in E as (u & -> & <- & Hu); [|done]. exists u. split; [done|]. split; [|done]. by intros ->.
Qed.
Lemma read_char_taken c s r : read_char c s = Some r -> s = c :: r.
Proof. intros E%strip_prefix_Some. exact E. Qed.
Lemma read_octets_taken i n s os r : read_octets i n s = Some (os, r) -> exists u, s = u ++ r /\
  Forall (fun c => v6_char c = true) u /\ last u <> Some "."%char /\ (i = 0%nat -> head u <> Some "."%char).
Proof.
  revert i s os r. induction n as [|n IH]; intros i s os r; simpl; [intros [= <- <-]; by exists []|].
  destruct (read_separator "."%char i read_octet s) as [[o s1]|] eqn:Es; [|done]. cbn.
  destruct (read_octets (S i) n s1) as [[os1 r1]|] eqn:Er; [|done]. intros [= <- <-].
  apply IH in Er as (v & -> & Hv & Hl & _).
  assert (exists w u, s = w ++ u ++ v ++ r1 /\ (w = [] \/ w = ["."%char] /\ i <> 0%nat) /\ u <> [] /\ Forall (fun c => hex_colon c = true) u)
    as (w & u & -> & Hw & Hne & Hu).
  { destruct i as [|i]; cbn [read_separator] in Es.
    - apply read_number_taken in Es as (u & -> & ? & ?); [|lia]. exists [], u. split; [done|]. split; [by left|done].
    - destruct (read_char "."%char s) as [s2|] eqn:Ec; [|discriminate Es]. apply read_char_taken in Ec as ->.
      apply read_number_taken in Es as (u & -> & ? & ?); [|lia]. exists ["."%char], u. split; [done|]. split; [right; done|done]. }
  destruct (taken_hex u Hu) as (T1 & T2 & T3). exists (w ++ u ++ v). rewrite <- !app_assoc. split; [done|]. split; [|split].
  - rewrite !Forall_app. split_and!; [|done|done]. destruct Hw as [->|[-> _]]; [constructor|by apply Forall_singleton].
  - destruct v as [|c v]; [|rewrite app_assoc, last_app_cons; exact Hl].
    rewrite app_nil_r. destruct u as [|c u]; [done|]. by rewrite last_app_cons.
  - intros ->. destruct Hw as [->|[_ ?]]; [|done]. by destruct u.
Qed.
Lemma read_ipv4_taken s a r : read_ipv4 s = Some (a, r) -> exists u, s = u ++ r /\ taken u.
Proof.
  unfold read_ipv4. destruct (read_octets 0 4 s) as [[os r']|] eqn:E; [|done]. intros [= <- <-].
  apply read_octets_taken in E as (u & -> & H1 & H2 & H3). exists u. split; [done|]. split; [done|]. split; [by apply H3|done].
Qed.
Lemma read_separator_taken {A} i (inner : str -> option (A * str)) s v r :
  (forall s v r, inner s = Some (v, r) -> exists u, s = u ++ r /\ taken u) ->
  read_separator ":"%char i inner s = Some (v, r) -> exists u, s = u ++ r /\ taken u /\ (i <> 0%nat -> ":"%char ∈ u).
Proof.
  intros Hin. destruct i as [|i]; cbn [read_separator]; [intros (u & ? & ?)%Hin; by exists u|].
  destruct (read_char ":"%char s) as [s1|] eqn:Ec; [|intros E; discriminate E]. apply read_char_taken in Ec as ->. intros (u & -> & Hu)%Hin.
  exists ([":"%char] ++ u). split; [done|]. split; [|intros _; by left]. apply taken_app; [|done]. by apply taken_hex; repeat constructor.
Qed.
Lemma read_groups_taken k i s gs b r : read_groups k i s = (gs, b, r) -> exists u, s = u ++ r /\ taken u /\
  ((i <> 0%nat /\ gs <> [] \/ (2 < length gs)%nat) -> ":"%char ∈ u).
Proof.
  revert i s gs b r. induction k as [|k IH]; intros i s gs b r; cbn [read_groups].
  { intros [= <- <- <-]. exists []. split; [done|]. split; [apply taken_nil|]. intros [[_ ?]|H]; [done|cbn in H; lia]. }
  destruct (if (1 <? S k)%nat then read_separator ":"%char i read_ipv4 s else None) as [[a s1]|] eqn:Eq.
  { intros [= <- <- <-]. destruct (1 <? S k)%nat; [|done]. apply read_separator_taken in Eq as (u & -> & Hu & Hc); [|exact read_ipv4_taken].
    exists u. split; [done|]. split; [done|]. intros [[? _]|H]; [by apply Hc|cbn in H; lia]. }
  destruct (read_separator ":"%char i (read_number 16 65535 4 true) s) as [[g s1]|] eqn:En.
  2: { intros [= <- <- <-]. exists []. split; [done|]. split; [apply taken_nil|]. intros [[_ ?]|H]; [done|cbn in H; lia]. }
  destruct (read_groups k (S i) s1) as [[gs' b'] r'] eqn:Er. intros [= <- <- <-].
  apply read_separator_taken in En as (u & -> & Hu & Hc).
  2: { intros s2 v2 r2 (u & -> & _ & Hu)%read_number_taken; [|lia]. exists u. split; [done|by apply taken_hex]. }
  apply IH in Er as (v & -> & Hv & Hcv). exists (u ++ v). rewrite app_assoc. split; [done|]. split; [by apply taken_app|].
  rewrite elem_of_app. intros H. destruct (decide (i = 0%nat)) as [->|Hi]; [|left; by apply Hc].
  right. apply Hcv. left. split; [done|]. destruct H as [[? _]|H]; [done|]. intros ->. cbn in H. lia.
Qed.
(** A text that is read as an IPv6 address. *)
Lemma ip_parse_v6_text t a : ip_parse t = Some (V6 a) -> taken t /\ ":"%char ∈ t.
Proof.
  unfold ip_parse. destruct (read_ipv4 t) as [[x [|]]|]; [done|done|]. unfold read_ipv6.
  destruct (read_groups 8 0 t) as [[gs b] s1] eqn:E1. apply read_groups_taken in E1 as (u & -> & Hu & Hc).
  destruct (Nat.eqb_spec (length gs) 8) as [H8|_].
  { destruct s1; [|done]. intros _. rewrite app_nil_r. split; [done|]. apply Hc. right. lia. }
  destruct b; [done|]. destruct (read_char ":"%char s1) as [s2|] eqn:E2; [|done]. apply read_char_taken in E2 as ->. cbn [mbind option_bind].
  destruct (read_char ":"%char s2) as [s3|] eqn:E3; [|done]. apply read_char_taken in E3 as ->. cbn [mbind option_bind].
  destruct (read_groups _ 0 s3) as [[tl b2] s4] eqn:E4. apply read_groups_taken in E4 as (v & -> & Hv & _).
  destruct s4; [|done]. intros _. rewrite app_nil_r. split; [|rewrite elem_of_app; right; by left].
  apply taken_app; [done|]. change (":"%char :: ":"%char :: v) with ([":"%char; ":"%char] ++ v). apply taken_app; [|done].
  by apply taken_hex; repeat constructor.
Qed.
