(* ===== verification/Utils.v ===== *)
(** * src/utils.rs: request headers, IP canonicalisation, status codes, base64 *)
From S2P Require Import Prelude Text Types Addr.
Open Scope Z_scope.

(** ** Ordered headers

    [IndexMap]: iteration in insertion order, an existing key keeps its place. *)
Abbreviation headers := (list (str * str)).
Fixpoint imap_insert (k v : str) (h : headers) : headers :=
  match h with
  | [] => [(k, v)]
  | (k', v') :: h => if decide (k = k') then (k', v) :: h else (k', v') :: imap_insert k v h
  end.
(** [env!("CARGO_PKG_VERSION")], from Cargo.toml. *)
Definition pkg_version : str := lit "0.4.7".

Definition request_headers (marker : option str) : headers :=
  let rv := default [] marker in
  let h := [] in
  let h := imap_insert (lit "User-Agent") (lit "PxBroker/" ++ pkg_version ++ lit "/" ++ rv) h in
  let h := imap_insert (lit "Accept") (lit "*/*") h in
  let h := imap_insert (lit "Accept-Encoding") (lit "gzip, deflate") h in
  let h := imap_insert (lit "Pragma") (lit "no-cache") h in
  let h := imap_insert (lit "Cache-control") (lit "no-cache") h in
  let h := imap_insert (lit "Cookie") (lit "cookie=ok") h in
  imap_insert (lit "Referer") (lit "https://www.google.com/") h.

(** [fresh_marker], from the random draw [r] in [0..9000]. *)
Definition fresh_marker (r : Z) : str := show_uint (1000 + r).

(** ** IP literals *)
Definition canonicalize_ip (s : str) : option str :=
  match split_once (lit "%") s with
  | Some (base, zone) =>
      let? addr := ip_parse base in
      if negb (is_ipv6 addr) then None else Some (ip_show addr ++ lit "%" ++ zone)
  | None => ip_show <$> ip_parse s
  end.

(** The compiled regular expressions of the [regex] crate, as search functions: a match is a
    start and an end, at or after the position asked for, inside the text and not empty (no
    pattern of the source matches the empty string). *)
Class Regexes : Type := {
  ipv4_find_at : str -> nat -> option (nat * nat);
  port_find_at : str -> nat -> option (nat * nat);
  ipv6_find_at : str -> nat -> option (nat * nat);
  find_at_range find s i a b :
    find = ipv4_find_at \/ find = port_find_at \/ find = ipv6_find_at ->
    find s i = Some (a, b) -> (i <= a < b)%nat /\ (b <= length s)%nat;
}.
Definition slice (a b : nat) (s : str) : str := take (b - a) (drop a s).

(** [find_iter]: the successive non-overlapping matches; [fuel] bounds their number, which the
    length of the text does since a match is not empty. *)
Fixpoint find_iter_from (find : str -> nat -> option (nat * nat)) (fuel i : nat) (s : str) : list str :=
  match fuel with
  | O => []
  | S fuel =>
      match find s i with
      | Some (a, b) => slice a b s :: find_iter_from find fuel b s
      | None => []
      end
  end.
Definition find_iter (find : str -> nat -> option (nat * nat)) (s : str) : list str :=
  find_iter_from find (S (length s)) 0 s.

Definition trim_end_dots (s : str) : str := rev (trim_from [lit "."] 0 (rev s)).

Section get_all_ip.
Context `{Regexes}.
Definition get_all_ip (page : str) : gset str :=
  let found : gset str := list_to_set (find_iter ipv4_find_at page) in
  fold_left (fun (found : gset str) tok =>
    if negb (contains tok (lit ":")) then found
    else match canonicalize_ip (trim_end_dots tok) with
         | Some c => {[c]} ∪ found
         | None => found
         end) (find_iter ipv6_find_at page) found.

(** Every canonical IPv6 literal [get_all_ip] reports is one it parsed, every other element is
    a match of the IPv4 pattern. *)
Lemma get_all_ip_elem page x :
  x ∈ get_all_ip page <->
  x ∈ find_iter ipv4_find_at page \/
  exists tok, tok ∈ find_iter ipv6_find_at page /\ contains tok (lit ":") = true /\
    canonicalize_ip (trim_end_dots tok) = Some x.
Proof.
  unfold get_all_ip.
  rewrite <- (elem_of_list_to_set (C := gset str) x (find_iter ipv4_find_at page)).
  generalize (list_to_set (C := gset str) (find_iter ipv4_find_at page)) as f.
  induction (find_iter ipv6_find_at page) as [|t ts IH]; intros f; simpl.
  { split; [tauto|]. intros [?|(? & Hin & _)]; [done|]. by apply elem_of_nil in Hin. }
  rewrite IH. setoid_rewrite elem_of_cons.
  destruct (contains t (lit ":")) eqn:Ec; simpl; [|naive_solver congruence].
  destruct (canonicalize_ip (trim_end_dots t)) eqn:En; [|naive_solver congruence].
  rewrite elem_of_union, elem_of_singleton. naive_solver.
Qed.
End get_all_ip.

(** ** Status codes *)
Definition get_status_code (resp : str) (start stop : nat) : Z :=
  let e := Nat.min stop (length resp) in
  if (e <=? start)%nat then 400
  else
    match from_utf8 (slice start e resp) with
    | Some s => default 400 (parse_u16 (trim s))
    | None => 400
    end.

Lemma parse_uint_bounds hi s v : parse_uint hi s = Some v -> 0 <= v <= hi.
Proof.
  assert (forall s acc w, 0 <= acc -> digits_val 10 acc s = Some w -> 0 <= w) as Hd.
  { clear. induction s as [|c s IH]; simpl; intros acc w Ha; [congruence|].
    destruct (digit_val 10 c) as [d|] eqn:E; [|done]. apply IH.
    enough (0 <= d) by lia. unfold digit_val in E.
    unfold is_digit, is_lower, is_upper, between in E.
    repeat case_match; simplify_eq; bsimp; lia. }
  unfold parse_uint. intros H.
  destruct (match s with c :: r => _ | [] => s end) as [|c r]; [done|].
  destruct (digits_val 10 0 (c :: r)) as [w|] eqn:E; [|done].
  apply Hd in E; [|lia]. case_match; simplify_eq. bsimp. lia.
Qed.

Lemma get_status_code_bounds resp a b : 0 <= get_status_code resp a b <= 65535.
Proof.
  unfold get_status_code. case_match; [lia|]. case_match; [|lia].
  destruct (parse_u16 _) eqn:E; simpl; [by eapply parse_uint_bounds|lia].
Qed.

(** ** Base64 *)
Definition ALPHABET : str := lit "ABCDEFGHIJKLMNOPQRSTUVWXYZabcdefghijklmnopqrstuvwxyz0123456789+/".
Definition alpha (n : Z) : ascii := nth (Z.to_nat (Z.land n 63)) ALPHABET "="%char.

(** [input.chunks(3)]. *)
Fixpoint chunks3 (s : str) : list str :=
  match s with
  | a :: b :: c :: s => [a; b; c] :: chunks3 s
  | [] => []
  | s => [s]
  end.
Definition b64_chunk (chunk : str) : str :=
  let b i := default 0 (byte <$> chunk !! i) in
  let n := Z.lor (Z.lor (Z.shiftl (b 0%nat) 16) (Z.shiftl (b 1%nat) 8)) (b 2%nat) in
  [alpha (Z.shiftr n 18); alpha (Z.shiftr n 12);
   (if (1 <? length chunk)%nat then alpha (Z.shiftr n 6) else "="%char);
   (if (2 <? length chunk)%nat then alpha n else "="%char)].
Definition base64_encode (input : str) : str := concat (map b64_chunk (chunks3 input)).

(** The RFC 4648 decoder, the specification [base64_encode] is measured against. *)
Definition b64_val (c : ascii) : option Z :=
  let z := byte c in
  if is_upper c then Some (z - 65)
  else if is_lower c then Some (z - 71)
  else if is_digit c then Some (z + 4)
  else if decide (c = "+"%char) then Some 62
  else if decide (c = "/"%char) then Some 63 else None.
Fixpoint base64_decode (s : str) : option str :=
  match s with
  | [] => Some []
  | x :: y :: z :: w :: s =>
      let? a := b64_val x in
      let? b := b64_val y in
      match b64_val z, b64_val w with
      | Some c, Some d =>
          let? r := base64_decode s in
          Some (chr (a * 4 + b / 16) :: chr (b mod 16 * 16 + c / 4) :: chr (c mod 4 * 64 + d) :: r)
      | Some c, None =>
          if decide (w = "="%char /\ s = []) then Some [chr (a * 4 + b / 16); chr (b mod 16 * 16 + c / 4)]
          else None
      | None, None =>
          if decide (z = "="%char /\ w = "="%char /\ s = []) then Some [chr (a * 4 + b / 16)] else None
      | None, Some _ => None
      end
  | _ => None
  end.

Lemma alpha_val n : 0 <= n -> b64_val (alpha n) = Some (n mod 64).
Proof.
  intros Hn. unfold alpha. change 63 with (Z.ones 6). rewrite Z.land_ones by lia.
  change (2 ^ 6) with 64. pose proof (Z.mod_pos_bound n 64 ltac:(lia)) as Hb.
  revert Hb. generalize (n mod 64). clear. intros v Hv.
  assert (forallb (fun v => bool_decide (b64_val (nth (Z.to_nat v) ALPHABET "="%char) = Some v))
            (seqZ 0 64) = true) as H by (vm_compute; reflexivity).
  rewrite forallb_elem in H. specialize (H v).
  eapply bool_decide_eq_true_1, H, elem_of_seqZ. lia.
Qed.

Lemma lor_shiftl_add a b k : 0 <= k -> 0 <= b < 2 ^ k -> Z.lor (Z.shiftl a k) b = a * 2 ^ k + b.
Proof.
  intros Hk Hb. rewrite <- Z.shiftl_mul_pow2 by done.
  rewrite <- (Z.add_lor_land (Z.shiftl a k) b).
  assert (Z.land (Z.shiftl a k) b = 0) as ->; [|lia].
  apply Z.bits_inj'. intros i Hi. rewrite Z.land_spec, Z.bits_0.
  destruct (Z.lt_ge_cases i k); [by rewrite Z.shiftl_spec_low by lia|].
  rewrite <- (Z.mod_small b (2 ^ k)) by done.
  rewrite (Z.mod_pow2_bits_high b) by lia. apply andb_false_r.
Qed.

Lemma pack24 a b c : 0 <= a < 256 -> 0 <= b < 256 -> 0 <= c < 256 ->
  Z.lor (Z.lor (Z.shiftl a 16) (Z.shiftl b 8)) c = a * 65536 + b * 256 + c.
Proof.
  intros. rewrite (Z.shiftl_mul_pow2 b) by lia.
  rewrite (lor_shiftl_add a) by lia.
  replace (a * 2 ^ 16 + b * 2 ^ 8) with (Z.shiftl (a * 256 + b) 8)
    by (rewrite Z.shiftl_mul_pow2 by lia; lia).
  rewrite lor_shiftl_add by lia. lia.
Qed.

Lemma base64_encode_cons a b c s : base64_encode (a :: b :: c :: s) = b64_chunk [a; b; c] ++ base64_encode s.
Proof. done. Qed.

(** The four sextets of a 24-bit group, most significant first. *)
Lemma sextets a b c :
  0 <= a < 256 -> 0 <= b < 256 -> 0 <= c < 256 ->
  let n := Z.lor (Z.lor (Z.shiftl a 16) (Z.shiftl b 8)) c in
  b64_val (alpha (Z.shiftr n 18)) = Some (a / 4) /\
  b64_val (alpha (Z.shiftr n 12)) = Some (a mod 4 * 16 + b / 16) /\
  b64_val (alpha (Z.shiftr n 6)) = Some (b mod 16 * 4 + c / 64) /\
  b64_val (alpha n) = Some (c mod 64).
Proof.
  intros Ha Hb Hc n. subst n. rewrite pack24, !Z.shiftr_div_pow2 by lia.
  rewrite !alpha_val by (try apply Z.div_pos; lia).
  change (2 ^ 18) with 262144. change (2 ^ 12) with 4096. change (2 ^ 6) with 64.
  split_and!; f_equal; zlia.
Qed.

Lemma base64_decode_encode s : base64_decode (base64_encode s) = Some s.
Proof.
  induction s as [s IH] using (induction_ltof1 _ (@length ascii)).
  destruct s as [|a [|b [|c s]]]; [done|..].
  - destruct (sextets (byte a) 0 0) as (E1 & E2 & _); [apply byte_range|lia..|].
    change (base64_encode [a]) with (b64_chunk [a]). unfold b64_chunk. cbn [lookup list_lookup fmap option_fmap option_map default length].
    cbn -[alpha Z.shiftr Z.lor Z.shiftl b64_val Z.div Z.modulo Z.mul Z.add] in *.
    rewrite E1, E2. simpl. do 2 f_equal. rewrite <- (chr_byte a) at 3. f_equal. zlia.
  - destruct (sextets (byte a) (byte b) 0) as (E1 & E2 & E3 & _); [apply byte_range..|lia|].
    change (base64_encode [a; b]) with (b64_chunk [a; b]). unfold b64_chunk.
    cbn -[alpha Z.shiftr Z.lor Z.shiftl b64_val Z.div Z.modulo Z.mul Z.add] in *.
    rewrite E1, E2, E3. simpl. pose proof (byte_range b).
    do 2 f_equal; [|f_equal]; [rewrite <- (chr_byte a) at 3|rewrite <- (chr_byte b) at 3];
      f_equal; zlia.
  - destruct (sextets (byte a) (byte b) (byte c)) as (E1 & E2 & E3 & E4); [apply byte_range..|].
    rewrite base64_encode_cons. specialize (IH s ltac:(unfold ltof; simpl; lia)).
    revert IH. generalize (base64_encode s) as e. intros e IH.
    unfold b64_chunk.
    cbn -[alpha Z.shiftr Z.lor Z.shiftl b64_val Z.div Z.modulo Z.mul Z.add] in *.
    rewrite E1, E2, E3, E4. rewrite IH. pose proof (byte_range b); pose proof (byte_range c).
    do 2 f_equal; [|f_equal; [|f_equal]];
      [rewrite <- (chr_byte a) at 3|rewrite <- (chr_byte b) at 3|rewrite <- (chr_byte c) at 3];
      f_equal; zlia.
Qed.

Lemma base64_encode_length s : Z.of_nat (length (base64_encode s)) = (Z.of_nat (length s) + 2) / 3 * 4.
Proof.
  induction s as [s IH] using (induction_ltof1 _ (@length ascii)).
  destruct s as [|a [|b [|c s]]]; [done..|].
  unfold base64_encode. cbn [chunks3 map concat]. rewrite length_app. fold (base64_encode s).
  change (length (b64_chunk [a; b; c])) with 4%nat.
  rewrite Nat2Z.inj_add, IH by (unfold ltof; simpl; lia). cbn [length]. zlia.
Qed.

Lemma base64_encode_inj s t : base64_encode s = base64_encode t -> s = t.
Proof. intros E. pose proof (base64_decode_encode s). pose proof (base64_decode_encode t). congruence. Qed.

(** [base64_encode] is RFC 4648 base64: on every byte string the standard decoder recovers
    the input (so two credentials never share a [Proxy-Authorization] value), and the output has
    the padded length [4 * ceil(n / 3)]. *)
Theorem base64_roundtrip : forall s,
  base64_decode (base64_encode s) = Some s /\
  Z.of_nat (length (base64_encode s)) = (Z.of_nat (length s) + 2) / 3 * 4 /\
  (forall t, base64_encode t = base64_encode s -> t = s).
Proof.
  intros s. split_and!; [apply base64_decode_encode|apply base64_encode_length|].
  intros t. apply base64_encode_inj.
Qed.

Example base64_vectors :
  map (fun s => base64_encode (lit s)) ["f"; "fo"; "foo"; "foobar"; "user:pass"]%string
  = map lit ["Zg=="; "Zm8="; "Zm9v"; "Zm9vYmFy"; "dXNlcjpwYXNz"]%string.
Proof. vm_compute. reflexivity. Qed.
