(* ===== verification/Proxy.v ===== *)
(** * src/proxy.rs: the [Proxy] value type

    Identity, confirmed protocols, attempt statistics, and the JSON form it is saved and
    reloaded in. Times are seconds in [f64]. *)
From S2P Require Import Prelude F64 Text Types Addr.
Open Scope Z_scope.

Record Region := { r_code : str; r_name : str }.
Record Country := { c_code : str; c_name : str; c_region : option Region; c_city : option str }.
Record Asn := { asn_number : Z; asn_org : option str }.
Record Credentials := { username : str; password : str }.

(** The honeypot verdict of src/checker.rs. *)
Inductive TrustSignal := CanaryMismatch | InjectedHeader | CertMismatch.
#[export] Instance TrustSignal_eq_dec : EqDecision TrustSignal.
Proof. solve_decision. Defined.
Abbreviation TrustReport := (list TrustSignal).
Definition trusted (r : TrustReport) : bool := bool_decide (r = []).

Record Proxy := mkProxy {
  p_host : IpAddr;
  p_port : Z;
  p_expected_types : gset Proto;
  p_geo : option Country;
  p_asn : option Asn;
  p_types : gmap Proto (option AnonLevel);
  p_requests : Z;
  p_errors : gmap ProxyError Z;
  p_runtimes : list f64;
  p_probe_runtimes : list f64;
  p_auth : option Credentials;
  p_caps : Caps;
  p_trust : TrustReport;
  p_ewma_success : option f64;
}.
Definition p_key (p : Proxy) : IpAddr * Z := (p_host p, p_port p).

Definition HTTP_PROTOS : list Proto := [Http; Connect80; Socks4; Socks5].
Definition HTTPS_PROTOS : list Proto := [Https; Socks4; Socks5].

(** [Proxy::new] and [Proxy::restored]. *)
Definition new (host : IpAddr) (port : Z) (expected : gset Proto) : Proxy :=
  {| p_host := host; p_port := port; p_expected_types := expected; p_geo := None; p_asn := None;
     p_types := ∅; p_requests := 0; p_errors := ∅; p_runtimes := []; p_probe_runtimes := [];
     p_auth := None; p_caps := caps_default; p_trust := []; p_ewma_success := None |}.

Definition restored (host : IpAddr) (port : Z) (types : gmap Proto (option AnonLevel))
    (requests errors_total : Z) (avg_resp_time : f64) : Proxy :=
  let runtimes := if f_gtb avg_resp_time f_zero then [avg_resp_time] else [] in
  let errors := if 0 <? errors_total then {[BadResponse := errors_total]} else ∅ in
  {| p_host := host; p_port := port; p_expected_types := ∅; p_geo := None; p_asn := None;
     p_types := types; p_requests := requests; p_errors := errors; p_runtimes := runtimes;
     p_probe_runtimes := []; p_auth := None; p_caps := caps_default; p_trust := [];
     p_ewma_success := None |}.

(** Field updates. *)
Definition set_types (t : gmap Proto (option AnonLevel)) (p : Proxy) : Proxy :=
  mkProxy (p_host p) (p_port p) (p_expected_types p) (p_geo p) (p_asn p) t (p_requests p)
    (p_errors p) (p_runtimes p) (p_probe_runtimes p) (p_auth p) (p_caps p) (p_trust p)
    (p_ewma_success p).
Definition set_geo (g : option Country) (a : option Asn) (p : Proxy) : Proxy :=
  mkProxy (p_host p) (p_port p) (p_expected_types p) g a (p_types p) (p_requests p)
    (p_errors p) (p_runtimes p) (p_probe_runtimes p) (p_auth p) (p_caps p) (p_trust p)
    (p_ewma_success p).
Definition set_stats (requests : Z) (errors : gmap ProxyError Z) (runtimes : list f64) (p : Proxy) : Proxy :=
  mkProxy (p_host p) (p_port p) (p_expected_types p) (p_geo p) (p_asn p) (p_types p) requests
    errors runtimes (p_probe_runtimes p) (p_auth p) (p_caps p) (p_trust p) (p_ewma_success p).
Definition set_observed (probe : list f64) (c : Caps) (t : TrustReport) (p : Proxy) : Proxy :=
  mkProxy (p_host p) (p_port p) (p_expected_types p) (p_geo p) (p_asn p) (p_types p) (p_requests p)
    (p_errors p) (p_runtimes p) probe (p_auth p) c t (p_ewma_success p).

Definition with_auth (creds : Credentials) (p : Proxy) : Proxy :=
  mkProxy (p_host p) (p_port p) (p_expected_types p) (p_geo p) (p_asn p) (p_types p) (p_requests p)
    (p_errors p) (p_runtimes p) (p_probe_runtimes p) (Some creds) (p_caps p) (p_trust p)
    (p_ewma_success p).
Definition with_ewma (e : option f64) (p : Proxy) : Proxy :=
  mkProxy (p_host p) (p_port p) (p_expected_types p) (p_geo p) (p_asn p) (p_types p) (p_requests p)
    (p_errors p) (p_runtimes p) (p_probe_runtimes p) (p_auth p) (p_caps p) (p_trust p) e.

Definition addr (p : Proxy) : str :=
  match p_host p with
  | V4 a => ip_show (V4 a) ++ lit ":" ++ show_uint (p_port p)
  | V6 a => lit "[" ++ ip_show (V6 a) ++ lit "]:" ++ show_uint (p_port p)
  end.

Definition add_type (q : Proto) (l : option AnonLevel) (p : Proxy) : Proxy := set_types (<[q := l]> (p_types p)) p.
Definition remove_type (q : Proto) (p : Proxy) : Proxy := set_types (delete q (p_types p)) p.
Definition has_type (q : Proto) (p : Proxy) : bool := bool_decide (is_Some (p_types p !! q)).
Definition is_working (p : Proxy) : bool := negb (bool_decide (p_types p = ∅)).

(** Iteration over the [BTreeMap] of types: in the order [Proto] declares. *)
Definition types_list (t : gmap Proto (option AnonLevel)) : list (Proto * option AnonLevel) :=
  omap (fun q => (fun l => (q, l)) <$> t !! q) Protos.ALL.

(** ** Capabilities and trust *)
Definition record_caps (c : Caps) (p : Proxy) : Proxy :=
  set_observed (p_probe_runtimes p)
    {| cookie_echo := cookie_echo (p_caps p) || cookie_echo c;
       referer_echo := referer_echo (p_caps p) || referer_echo c |} (p_trust p) p.

Record Capabilities := { cap_cookie : bool; cap_referer : bool; cap_connect25 : bool }.
Definition capabilities (p : Proxy) : Capabilities :=
  {| cap_cookie := cookie_echo (p_caps p); cap_referer := referer_echo (p_caps p);
     cap_connect25 := has_type Connect25 p |}.

Definition push_signal (t : TrustReport) (s : TrustSignal) : TrustReport :=
  if decide (s ∈ t) then t else t ++ [s].
Definition record_trust (r : TrustReport) (p : Proxy) : Proxy :=
  set_observed (p_probe_runtimes p) (p_caps p) (fold_left push_signal r (p_trust p)) p.

(** ** Attempt statistics *)

(** [errors.values().sum::<u32>()]; the release build wraps. *)
Definition errors_count (m : gmap ProxyError Z) : Z := map_fold (fun _ n acc => n + acc) 0 m.
Definition errors_total (p : Proxy) : Z := u32 (errors_count (p_errors p)).

Definition error_rate (p : Proxy) : f64 :=
  if p_requests p =? 0 then f_zero
  else round2 (f_div (f_of_Z (errors_total p)) (f_of_Z (p_requests p))).

Definition mean2 (l : list f64) : f64 :=
  match l with [] => f_zero | _ => round2 (f_div (f_sum l) (f_of_Z (Z.of_nat (length l)))) end.
Definition avg_resp_time (p : Proxy) : f64 := mean2 (p_runtimes p).
Definition probe_latency (p : Proxy) : f64 := mean2 (p_probe_runtimes p).

Definition record_probe_latency (secs : f64) (p : Proxy) : Proxy :=
  set_observed (p_probe_runtimes p ++ [secs]) (p_caps p) (p_trust p) p.

(** The [q]-quantile by linear interpolation between closest ranks. *)
Definition percentile (data : list f64) (q : f64) : f64 :=
  match data with
  | [] => f_zero
  | _ =>
      let sorted := sort_by total_cmp data in
      let rank := f_mul q (f_of_Z (Z.of_nat (length sorted) - 1)) in
      let lo := f_floor_usize rank in
      let hi := f_ceil_usize rank in
      let frac := f_sub rank (f_of_Z lo) in
      let at_ i := default S754_nan (sorted !! Z.to_nat i) in
      round2 (f_add (at_ lo) (f_mul frac (f_sub (at_ hi) (at_ lo))))
  end.

Definition priority (p : Proxy) : f64 * f64 :=
  let key := match p_ewma_success p with
             | Some ewma => f_max (error_rate p) (f_sub f_one ewma)
             | None => error_rate p
             end in
  (key, avg_resp_time p).

Definition schemes (p : Proxy) : list Scheme :=
  (if existsb (fun t => has_type t p) HTTP_PROTOS then [SHttp] else []) ++
  (if existsb (fun t => has_type t p) HTTPS_PROTOS then [SHttps] else []).

Definition record_attempt (runtime : option f64) (err : option ProxyError) (p : Proxy) : Proxy :=
  let requests := u32 (p_requests p + 1) in
  let errors := match err with
                | Some e => <[e := u32 (default 0 (p_errors p !! e) + 1)]> (p_errors p)
                | None => p_errors p
                end in
  let runtimes := match runtime with
                  | Some rt => if decide (err <> Some Timeout) then p_runtimes p ++ [rt] else p_runtimes p
                  | None => p_runtimes p
                  end in
  set_stats requests errors runtimes p.

(** ** Lemmas *)
Lemma has_type_spec q p : has_type q p = true <-> is_Some (p_types p !! q).
Proof. apply bool_decide_eq_true. Qed.

Lemma record_attempt_key rt e p : p_key (record_attempt rt e p) = p_key p.
Proof. done. Qed.
Lemma record_attempt_types rt e p : p_types (record_attempt rt e p) = p_types p.
Proof. done. Qed.
Lemma record_attempt_requests rt e p : p_requests (record_attempt rt e p) = u32 (p_requests p + 1).
Proof. done. Qed.

Lemma errors_count_fresh m e n : m !! e = None -> errors_count (<[e := n]> m) = n + errors_count m.
Proof. intros. unfold errors_count. rewrite map_fold_insert_L; [done| |done]. intros. lia. Qed.

Lemma errors_count_insert m e n :
  errors_count (<[e := n]> m) = errors_count m - default 0 (m !! e) + n.
Proof.
  destruct (m !! e) as [k|] eqn:E; simpl; [|rewrite errors_count_fresh by done; lia].
  assert (errors_count m = k + errors_count (delete e m)) as ->.
  { rewrite <- (insert_delete_id m e k E) at 1. by rewrite errors_count_fresh by apply lookup_delete_eq. }
  rewrite <- insert_delete_eq, errors_count_fresh by apply lookup_delete_eq. lia.
Qed.

Lemma errors_count_nonneg m : (forall e n, m !! e = Some n -> 0 <= n) -> 0 <= errors_count m.
Proof.
  induction m as [|k v m Hk IH] using map_ind; intros Hpos; [done|].
  rewrite errors_count_fresh by done.
  assert (0 <= v) by (apply (Hpos k); apply lookup_insert_eq).
  enough (0 <= errors_count m) by lia. apply IH. intros e n H0. apply (Hpos e).
  rewrite lookup_insert_ne; congruence.
Qed.

(** The statistics of a proxy are consistent: counters are in range and no more errors or
    recorded times than attempts. *)
Definition stats_ok (p : Proxy) : Prop :=
  0 <= p_requests p < 2 ^ 32 /\
  (forall e n, p_errors p !! e = Some n -> 0 <= n) /\
  errors_count (p_errors p) <= p_requests p /\
  Z.of_nat (length (p_runtimes p)) <= p_requests p.

Lemma errors_count_ge m e n :
  (forall e n, m !! e = Some n -> 0 <= n) -> m !! e = Some n -> 0 <= n <= errors_count m.
Proof.
  intros Hpos He. split; [by eapply Hpos|].
  rewrite <- (insert_delete_id m e n He), errors_count_fresh by apply lookup_delete_eq.
  enough (0 <= errors_count (delete e m)) by lia.
  apply errors_count_nonneg. intros k v [_ Hk]%lookup_delete_Some. by eapply Hpos.
Qed.

Lemma new_stats_ok h port ex : stats_ok (new h port ex).
Proof.
  unfold stats_ok, new. simpl. split_and!; [lia|lia| | |lia].
  - intros e n He. by rewrite lookup_empty in He.
  - unfold errors_count. rewrite map_fold_empty. lia.
Qed.

Lemma record_attempt_stats_ok rt e p :
  stats_ok p -> p_requests p < 2 ^ 32 - 1 -> stats_ok (record_attempt rt e p).
Proof.
  intros (Hr & Hpos & He & Ht) Hlt. unfold stats_ok, record_attempt. simpl.
  rewrite wrap_small by lia. split_and!; try lia.
  - intros e' n. destruct e as [e|]; [|apply Hpos].
    destruct (decide (e = e')) as [->|]; [rewrite lookup_insert_eq|rewrite lookup_insert_ne by done; apply Hpos].
    intros [= <-]. apply Z.mod_pos_bound. lia.
  - destruct e as [e|]; [|lia]. rewrite errors_count_insert.
    destruct (p_errors p !! e) as [n|] eqn:E; simpl.
    + pose proof (errors_count_ge _ _ _ Hpos E). rewrite wrap_small by lia. lia.
    + rewrite wrap_small by lia. lia.
  - destruct rt; [|lia]. case_decide; [rewrite length_app; simpl; lia|lia].
Qed.

#[export] Hint Resolve new_stats_ok record_attempt_stats_ok : proxybroker.

Lemma push_signal_elem t s x : x ∈ push_signal t s <-> x ∈ t \/ x = s.
Proof. unfold push_signal. case_decide; set_solver. Qed.
Lemma push_signals_elem r t x : x ∈ fold_left push_signal r t <-> x ∈ t \/ x ∈ r.
Proof.
  revert t. induction r as [|s r IH]; intros t; simpl; [set_solver|].
  rewrite IH, push_signal_elem. set_solver.
Qed.
Lemma push_signals_NoDup r t : NoDup t -> NoDup (fold_left push_signal r t).
Proof.
  revert t. induction r as [|s r IH]; intros t Ht; simpl; [done|]. apply IH.
  unfold push_signal. case_decide; [done|]. apply NoDup_app. split_and!; [done| |by apply NoDup_singleton].
  set_solver.
Qed.

(** Trust verdicts only accumulate: recording a report keeps every earlier signal, adds
    exactly the new ones, introduces no duplicate, and never makes an untrusted proxy trusted;
    recording it again changes nothing. *)
Theorem record_trust_union : forall r p,
  (forall x, x ∈ p_trust (record_trust r p) <-> x ∈ p_trust p \/ x ∈ r) /\
  (NoDup (p_trust p) -> NoDup (p_trust (record_trust r p))) /\
  (trusted (p_trust (record_trust r p)) = trusted (p_trust p) && trusted r) /\
  record_trust r (record_trust r p) = record_trust r p.
Proof.
  intros r p. simpl. split_and!.
  - intros. apply push_signals_elem.
  - apply push_signals_NoDup.
  - unfold trusted. apply eq_true_iff_eq. rewrite andb_true_iff, !bool_decide_eq_true.
    pose proof (fun x => push_signals_elem r (p_trust p) x) as H. split.
    + intros E. rewrite E in H. split; apply elem_of_nil_inv; intros x; specialize (H x); set_solver.
    + intros [-> ->]. done.
  - unfold record_trust, set_observed. simpl. f_equal.
    assert (forall l t, (forall x, x ∈ l -> x ∈ t) -> fold_left push_signal l t = t) as Hid.
    { induction l as [|s l IH]; intros t Hl; simpl; [done|].
      unfold push_signal at 2. rewrite decide_True by (apply Hl; left). apply IH. set_solver. }
    apply Hid. intros x Hx. apply push_signals_elem. by right.
Qed.

(** The attempt counters stay consistent: [record_attempt] counts one request, one error in
    exactly the given bucket, appends the time except on a timeout, and preserves that counters
    are in range with no more errors or times than requests (short of the 2^32 wrap). *)
Theorem record_attempt_counts : forall rt e p,
  stats_ok p -> p_requests p < 2 ^ 32 - 1 ->
  let p' := record_attempt rt e p in
  stats_ok p' /\
  p_requests p' = p_requests p + 1 /\
  errors_total p' = errors_total p + (if e then 1 else 0) /\
  (forall k, default 0 (p_errors p' !! k)
             = default 0 (p_errors p !! k) + (if decide (e = Some k) then 1 else 0)) /\
  p_runtimes p' = p_runtimes p ++
    match rt with Some t => if decide (e = Some Timeout) then [] else [t] | None => [] end.
Proof.
  intros rt e p Hok Hlt p'. assert (stats_ok p') as Hok' by by apply record_attempt_stats_ok.
  split; [done|]. destruct Hok as (Hr & Hpos & He & Ht). destruct Hok' as (Hr' & Hpos' & He' & _).
  assert (forall k, 0 <= default 0 (p_errors p !! k) <= errors_count (p_errors p)) as Hle.
  { intros k. destruct (p_errors p !! k) eqn:E; simpl.
    - by eapply errors_count_ge. - split; [done|by apply errors_count_nonneg]. }
  pose proof (errors_count_nonneg _ Hpos) as Hn. pose proof (errors_count_nonneg _ Hpos') as Hn'.
  assert (p_requests p' = p_requests p + 1) as Er.
  { unfold p'. rewrite record_attempt_requests. apply wrap_small. lia. }
  split_and!; [done| | |].
  - unfold errors_total. rewrite !wrap_small by lia. unfold p'. destruct e as [e|]; simpl; [|lia].
    rewrite errors_count_insert, wrap_small by (specialize (Hle e); lia). lia.
  - intros k. unfold p'. destruct e as [e|]; simpl; [|by rewrite Z.add_0_r].
    destruct (decide (e = k)) as [->|Hne].
    + rewrite lookup_insert_eq, decide_True by done. simpl. apply wrap_small. specialize (Hle k). lia.
    + rewrite lookup_insert_ne, decide_False by congruence. lia.
  - unfold p'. simpl. destruct rt as [t|]; [|by rewrite app_nil_r].
    repeat case_decide; try done; rewrite ?app_nil_r; done.
Qed.

Lemma record_attempt_counts_witness :
  let p := new (V4 1) 80 ∅ in
  stats_ok p /\ errors_total (record_attempt None (Some Timeout) p) = 1.
Proof.
  intros p. split; [apply new_stats_ok|].
  destruct (record_attempt_counts None (Some Timeout) p (new_stats_ok _ _ _) ltac:(done)) as (_ & _ & H & _).
  exact H.
Defined.
