(* ===== verification/ProxyJson.v ===== *)
(** * The JSON form of a [Proxy] (src/proxy.rs, [Serialize] and [Deserialize])

    At the level of JSON values: [serialize] builds the value the [Serialize] impl emits,
    [deserialize] reads one as the [Deserialize] impl (with serde's defaulting of missing
    fields and rejection of ill-typed ones) does. [types_to_json] and [types_from_json] are the
    store's column format of src/persist.rs. The textual syntax of JSON is serde_json's. *)
From S2P Require Import Prelude F64 Text Types Addr Proxy.
Open Scope Z_scope.

Inductive json :=
| JNull
| JNum (n : Z)
| JFloat (x : f64)
| JStr (s : str)
| JArr (l : list json)
| JObj (l : list (str * json)).

Fixpoint field (k : str) (l : list (str * json)) : option json :=
  match l with [] => None | (k', v) :: l => if decide (k' = k) then Some v else field k l end.

(** ** Serialize *)
Definition types_sorted (p : Proxy) : list (Proto * option AnonLevel) :=
  sort_by (fun x y => cmp_then ((display_order_key x.1).1 ?= (display_order_key y.1).1)
                               ((display_order_key x.1).2 ?= (display_order_key y.1).2))
          (types_list (p_types p)).

Definition type_json (x : Proto * option AnonLevel) : json :=
  JObj [(lit "type", JStr (proto_as_str x.1));
        (lit "level", JStr (match x.2 with Some l => anon_as_str l | None => [] end))].
Definition opt_str (o : option str) : json := match o with Some s => JStr s | None => JNull end.

Definition serialize (p : Proxy) : json :=
  let '(code, name) := match p_geo p with Some c => (c_code c, c_name c) | None => ([], []) end in
  let region := match p_geo p with Some c => c_region c | None => None end in
  JObj
    [(lit "host", JStr (ip_show (p_host p)));
     (lit "port", JNum (p_port p));
     (lit "geo", JObj
        [(lit "country", JObj [(lit "code", JStr code); (lit "name", JStr name)]);
         (lit "region", JObj
            [(lit "code", JStr (match region with Some r => r_code r | None => [] end));
             (lit "name", JStr (match region with Some r => r_name r | None => [] end))]);
         (lit "city", opt_str (match p_geo p with Some c => c_city c | None => None end))]);
     (lit "asn", match p_asn p with
                 | Some a => JObj [(lit "number", JNum (asn_number a)); (lit "org", opt_str (asn_org a))]
                 | None => JNull
                 end);
     (lit "types", JArr (map type_json (types_sorted p)));
     (lit "avg_resp_time", JFloat (avg_resp_time p));
     (lit "error_rate", JFloat (error_rate p))].

(** ** Deserialize *)

(** serde's readers: a missing field takes its default, a present one must have the type. *)
Definition str_field (k : str) (l : list (str * json)) : option str :=
  match field k l with None => Some [] | Some (JStr s) => Some s | Some _ => None end.
Definition opt_str_field (k : str) (l : list (str * json)) : option (option str) :=
  match field k l with
  | None | Some JNull => Some None
  | Some (JStr s) => Some (Some s)
  | Some _ => None
  end.
Definition obj_field (k : str) (l : list (str * json)) : option (list (str * json)) :=
  match field k l with None => Some [] | Some (JObj o) => Some o | Some _ => None end.
Definition uint_field (hi : Z) (k : str) (dflt : option Z) (l : list (str * json)) : option Z :=
  match field k l with
  | None => dflt
  | Some (JNum n) => if (0 <=? n) && (n <=? hi) then Some n else None
  | Some _ => None
  end.

Definition read_type (j : json) : option (Proto * option AnonLevel) :=
  match j with
  | JObj l =>
      let? proto := (match field (lit "type") l with Some (JStr s) => Some s | _ => None end) in
      let? level := str_field (lit "level") l in
      let? q := ok (proto_from_str proto) in
      if decide (level = []) then Some (q, None)
      else let? lv := ok (anon_from_str level) in Some (q, Some lv)
  | _ => None
  end.

Definition read_geo (l : list (str * json)) : option (option Country) :=
  let? geo := obj_field (lit "geo") l in
  let? country := obj_field (lit "country") geo in
  let? code := str_field (lit "code") country in
  let? name := str_field (lit "name") country in
  let? region := obj_field (lit "region") geo in
  let? rcode := str_field (lit "code") region in
  let? rname := str_field (lit "name") region in
  let? city := opt_str_field (lit "city") geo in
  Some (if decide (code = []) then None
        else Some {| c_code := code; c_name := name;
                     c_region := if decide (rcode = [] /\ rname = []) then None
                                 else Some {| r_code := rcode; r_name := rname |};
                     c_city := match city with Some [] => None | c => c end |}).

Definition read_asn (l : list (str * json)) : option (option Asn) :=
  match field (lit "asn") l with
  | None | Some JNull => Some None
  | Some (JObj a) =>
      let? number := uint_field (2 ^ 32 - 1) (lit "number") (Some 0) a in
      let? org := opt_str_field (lit "org") a in
      Some (Some {| asn_number := number; asn_org := org |})
  | Some _ => None
  end.

Definition deserialize (j : json) : option Proxy :=
  match j with
  | JObj l =>
      let? host := (match field (lit "host") l with Some (JStr s) => Some s | _ => None end) in
      let? port := uint_field 65535 (lit "port") None l in
      let? geo := read_geo l in
      let? asn := read_asn l in
      let? raw_types := (match field (lit "types") l with
                         | None => Some [] | Some (JArr a) => Some a | Some _ => None end) in
      let? host := ip_parse host in
      let? types := mapM read_type raw_types in
      let types := fold_left (fun m x => <[x.1 := x.2]> m) types (∅ : gmap Proto (option AnonLevel)) in
      Some (set_geo geo asn (set_types types (new host port ∅)))
  | _ => None
  end.

(** ** The store's types column (src/persist.rs) *)
Definition types_to_json (t : gmap Proto (option AnonLevel)) : json := JArr (map type_json (types_list t)).

Definition types_from_json (j : json) : gmap Proto (option AnonLevel) :=
  match j with
  | JArr arr =>
      fold_left (fun m v =>
        match v with
        | JObj l =>
            match field (lit "type") l with
            | Some (JStr t) =>
                match proto_from_str t with
                | Ok q =>
                    let level := match field (lit "level") l with
                                 | Some (JStr s) => if decide (s = []) then None else ok (anon_from_str s)
                                 | _ => None
                                 end in
                    <[q := level]> m
                | Err _ => m
                end
            | _ => m
            end
        | _ => m
        end) arr ∅
  | _ => ∅
  end.

(** ** Round trip *)

(** The display order of the protocols is their declaration order, so sorting the types by it
    leaves the [BTreeMap] order unchanged. *)
Lemma types_sorted_list p : types_sorted p = types_list (p_types p).
Proof.
  unfold types_sorted, types_list, Protos.ALL. simpl.
  destruct (p_types p !! Http), (p_types p !! Https), (p_types p !! Socks4), (p_types p !! Socks5),
    (p_types p !! Connect80), (p_types p !! Connect25); reflexivity.
Qed.

Lemma fold_insert_lookup (t m : gmap Proto (option AnonLevel)) (L : list Proto) q :
  fold_left (fun m x => <[x.1 := x.2]> m) (omap (fun q => (fun l => (q, l)) <$> t !! q) L) m !! q
  = if decide (q ∈ L) then match t !! q with Some l => Some l | None => m !! q end else m !! q.
Proof.
  revert m. induction L as [|r L IH]; intros m; simpl; [done|].
  destruct (decide (r = q)) as [->|Hne].
  - rewrite (decide_True (P := q ∈ q :: L)) by left.
    destruct (t !! q) as [l|] eqn:E; simpl; rewrite IH, ?E; [|by case_decide].
    rewrite lookup_insert_eq. by case_decide.
  - assert ((if decide (q ∈ r :: L) then match t !! q with Some l => Some l | None => m !! q end else m !! q)
            = if decide (q ∈ L) then match t !! q with Some l => Some l | None => m !! q end else m !! q) as ->.
    { repeat case_decide; set_solver. }
    destruct (t !! r) as [l|]; simpl; rewrite IH; [|done]. by rewrite lookup_insert_ne.
Qed.
Lemma types_list_to_map t :
  fold_left (fun m x => <[x.1 := x.2]> m) (types_list t) (∅ : gmap Proto (option AnonLevel)) = t.
Proof.
  apply map_eq. intros q. unfold types_list. rewrite fold_insert_lookup, decide_True.
  - by destruct (t !! q).
  - apply (bool_decide_unpack _). by destruct q.
Qed.

Lemma anon_as_str_ne l : anon_as_str l <> [].
Proof. by destruct l. Qed.

Lemma read_type_json x : read_type (type_json x) = Some x.
Proof.
  destruct x as [q l]. unfold read_type, type_json, str_field. simpl.
  rewrite proto_from_str_roundtrip. simpl. destruct l as [l|]; simpl; [|done].
  rewrite decide_False by apply anon_as_str_ne. by rewrite anon_from_str_roundtrip.
Qed.

Lemma types_json_roundtrip t : types_from_json (types_to_json t) = t.
Proof.
  rewrite <- (types_list_to_map t) at 2. unfold types_from_json, types_to_json.
  generalize (∅ : gmap Proto (option AnonLevel)) as m.
  induction (types_list t) as [|[q l] ts IH]; intros m; cbn [map fold_left type_json]; [done|].
  simpl. rewrite proto_from_str_roundtrip. destruct l as [l|]; simpl; [|by rewrite IH].
  rewrite decide_False by apply anon_as_str_ne. rewrite anon_from_str_roundtrip. by rewrite IH.
Qed.

(** What a saved proxy keeps: identity, geolocation with its empty parts normalised, and the
    confirmed types; every statistic, capability, verdict and secret restarts empty. *)
Definition normal_geo (g : option Country) : option Country :=
  match g with
  | Some c =>
      if decide (c_code c = []) then None
      else Some {| c_code := c_code c; c_name := c_name c;
                   c_region := match c_region c with
                               | Some r => if decide (r_code r = [] /\ r_name r = []) then None else Some r
                               | None => None
                               end;
                   c_city := match c_city c with Some [] => None | c => c end |}
  | None => None
  end.
Definition persistent (p : Proxy) : Proxy :=
  set_geo (normal_geo (p_geo p)) (p_asn p) (set_types (p_types p) (new (p_host p) (p_port p) ∅)).

Lemma read_geo_serialize g rest :
  let '(code, name) := match g with Some c => (c_code c, c_name c) | None => ([], []) end in
  let region := match g with Some c => c_region c | None => None end in
  read_geo ((lit "geo", JObj
        [(lit "country", JObj [(lit "code", JStr code); (lit "name", JStr name)]);
         (lit "region", JObj
            [(lit "code", JStr (match region with Some r => r_code r | None => [] end));
             (lit "name", JStr (match region with Some r => r_name r | None => [] end))]);
         (lit "city", opt_str (match g with Some c => c_city c | None => None end))]) :: rest)
  = Some (normal_geo g).
Proof.
  unfold read_geo, obj_field, str_field, opt_str_field.
  destruct g as [[code name reg city]|]; [|done]. simpl.
  destruct reg as [[rc rn]|]; destruct city as [[|c city]|]; simpl;
    repeat case_decide; try done; tauto.
Qed.

(** What [serialize] emits is read back as the persistent part. *)
Lemma deserialize_serialize p :
  ip_parse (ip_show (p_host p)) = Some (p_host p) ->
  0 <= p_port p < 2 ^ 16 ->
  (forall a, p_asn p = Some a -> 0 <= asn_number a < 2 ^ 32) ->
  deserialize (serialize p) = Some (persistent p).
Proof.
  intros Hhost Hport Hasn.
  unfold serialize. pose proof (read_geo_serialize (p_geo p) []) as Hg. revert Hg.
  destruct (match p_geo p with Some c => _ | None => _ end) as [code name]. intros Hg.
  unfold deserialize, read_asn, uint_field. cbn [field]. simpl.
  rewrite (proj2 (Z.leb_le 0 _)), (proj2 (Z.leb_le _ 65535)) by lia. simpl.
  unfold read_geo, obj_field in *. simpl in *. rewrite Hg.
  replace (match match p_asn p with Some a => _ | None => JNull end with JNull => _ | _ => _ end)
    with (Some (p_asn p)).
  2: { destruct (p_asn p) as [[n org]|]; [|done]. simpl. specialize (Hasn _ eq_refl). simpl in Hasn.
       unfold uint_field, opt_str_field. simpl.
       rewrite (proj2 (Z.leb_le 0 _)), (proj2 (Z.leb_le _ (2 ^ 32 - 1))) by lia.
       by destruct org. }
  rewrite Hhost, types_sorted_list.
  assert (mapM read_type (map type_json (types_list (p_types p))) = Some (types_list (p_types p))) as ->.
  { induction (types_list (p_types p)) as [|x l IH]; [done|].
    cbn [map mapM]. rewrite read_type_json. simpl. by rewrite IH. }
  by rewrite types_list_to_map.
Qed.

(** Saving a proxy and loading it back gives exactly its persistent part (host, port,
    geolocation, ASN and confirmed types with their levels), with all statistics reset; the
    store's types column round-trips too. *)
Theorem serialize_roundtrip : forall p,
  ip_parse (ip_show (p_host p)) = Some (p_host p) ->
  0 <= p_port p < 2 ^ 16 ->
  (forall a, p_asn p = Some a -> 0 <= asn_number a < 2 ^ 32) ->
  deserialize (serialize p) = Some (persistent p) /\
  types_from_json (types_to_json (p_types p)) = p_types p.
Proof. intros p Hh Hp Ha. split; [by apply deserialize_serialize|apply types_json_roundtrip]. Qed.

Definition sample : Proxy :=
  set_geo (Some {| c_code := lit "US"; c_name := lit "United States"; c_region := None; c_city := None |})
    (Some {| asn_number := 15169; asn_org := Some (lit "Google LLC") |})
    (add_type Http (Some High) (add_type Socks5 None (new (V4 134744072) 8080 ∅))).
Lemma serialize_roundtrip_witness :
  ip_parse (ip_show (p_host sample)) = Some (p_host sample) /\
  deserialize (serialize sample) = Some (persistent sample).
Proof.
  split; [vm_compute; reflexivity|].
  refine (proj1 (serialize_roundtrip sample _ _ _)); [vm_compute; reflexivity|split; reflexivity || discriminate|].
  intros a [= <-]. split; reflexivity || discriminate.
Defined.
