(* ===== verification/Pool.v ===== *)
(** * The proxy pool (src/server.rs, [Pool])

    The pool's shared state and every operation on it as a pure state transformer; each
    transformer is one critical section of the code, [try_select] the sequence of its five with
    whatever others do in between. Time is a clock value in nanoseconds passed in. The interleaving of several
    tasks over these operations is in PoolSteps.v. *)
From Stdlib Require Import Sorting.Sorted.
From S2P Require Import Prelude F64 Text Types Addr Proxy.
Open Scope Z_scope.

Inductive Strategy := Best | RoundRobin | Random | Sticky.
#[export] Instance Strategy_eq_dec : EqDecision Strategy.
Proof. solve_decision. Defined.

Inductive ClientKey := KIp (ip : IpAddr) | KHeader (v : str).
#[export] Instance ClientKey_eq_dec : EqDecision ClientKey.
Proof. solve_decision. Defined.
#[export] Instance ClientKey_countable : Countable ClientKey.
Proof.
  refine (inj_countable' (fun k => match k with KIp i => inl i | KHeader v => inr v end)
                         (fun x => match x with inl i => KIp i | inr v => KHeader v end) _).
  by intros [].
Defined.

Record PoolConfig := {
  max_tries : nat;
  max_error_rate : f64;
  max_resp_time : f64;
  min_req : Z;
  countries : option (gset str);
  strategy : Strategy;
  sticky_header : option str;
  max_sessions : nat;
  fail_timeout : Z;
  prefer_connect : bool;
  http_allowed_codes : option (list Z);
  verify_on_lease : option Z;
  verify_target : str * Z;
  max_clients : nat;
}.
Definition PoolConfig_default : PoolConfig :=
  {| max_tries := 3; max_error_rate := f_ratio 1 2; max_resp_time := f_of_Z 8; min_req := 5;
     countries := None; strategy := Best; sticky_header := None; max_sessions := 10000;
     fail_timeout := 30 * 10 ^ 9; prefer_connect := false; http_allowed_codes := None;
     verify_on_lease := None; verify_target := (lit "1.1.1.1", 443); max_clients := 1024 |}.

(** A pooled proxy and its bench state: [Some t] is benched until [t]. *)
Record Pooled := { proxy : Proxy; blocked_until : option Z }.

Record Pool := mkPool {
  state : list Pooled;
  sessions : gmap ClientKey (IpAddr * Z);
  round_robin : Z;
  config : PoolConfig;
  exhausted : bool;
  evictions : Z;
  rotations : Z;
}.
Definition set_state (s : list Pooled) (p : Pool) : Pool :=
  mkPool s (sessions p) (round_robin p) (config p) (exhausted p) (evictions p) (rotations p).
Definition set_sessions (m : gmap ClientKey (IpAddr * Z)) (p : Pool) : Pool :=
  mkPool (state p) m (round_robin p) (config p) (exhausted p) (evictions p) (rotations p).
Definition set_round_robin (n : Z) (p : Pool) : Pool :=
  mkPool (state p) (sessions p) n (config p) (exhausted p) (evictions p) (rotations p).
Definition set_exhausted (p : Pool) : Pool :=
  mkPool (state p) (sessions p) (round_robin p) (config p) true (evictions p) (rotations p).
Definition set_evictions (n : Z) (p : Pool) : Pool :=
  mkPool (state p) (sessions p) (round_robin p) (config p) (exhausted p) n (rotations p).
Definition add_rotation (p : Pool) : Pool :=
  mkPool (state p) (sessions p) (round_robin p) (config p) (exhausted p) (evictions p)
    (u64 (rotations p + 1)).
Definition push (e : Pooled) (p : Pool) : Pool := set_state (state p ++ [e]) p.

Definition ready_entry (p : Proxy) : Pooled := {| proxy := p; blocked_until := None |}.
Definition entry_key (e : Pooled) : IpAddr * Z := p_key (proxy e).
Definition proxies_of (s : list Pooled) : list Proxy := map proxy s.

(** ** Admission (src/broker.rs, [country_ok]) *)
Section admission.
Context `{UnicodeCase}.

Definition country_ok (p : Proxy) (countries : option (gset str)) : bool :=
  match countries with
  | None => true
  | Some set =>
      match p_geo p with Some c => bool_decide (to_uppercase (c_code c) ∈ set) | None => false end
  end.

Definition from_proxies (ps : list Proxy) (cfg : PoolConfig) : Pool :=
  mkPool (map ready_entry (retain (fun p => country_ok p (countries cfg)) ps)) ∅ 0 cfg true 0 0.

(** [Pool::spawn] starts from an empty, live pool; [import] is the importer's handling of one
    proxy from the stream. *)
Definition spawned (cfg : PoolConfig) : Pool := mkPool [] ∅ 0 cfg false 0 0.
Definition import (p : Proxy) (pool : Pool) : Pool :=
  if country_ok p (countries (config pool)) then push (ready_entry p) pool else pool.
End admission.

(** ** Selection *)
Record SelectCtx := {
  sc_scheme : Scheme;
  sc_strategy : Strategy;
  sc_sticky : option (IpAddr * Z);
  sc_round_robin_cursor : Z;
  sc_now : Z;
  sc_prefer_connect : bool;
}.

Definition is_ready (now : Z) (e : Pooled) : bool :=
  match blocked_until e with None => true | Some t => t <=? now end.
Definition serves (s : Scheme) (p : Proxy) : bool := bool_decide (s ∈ schemes p).

Definition has_connect (pool : list Pooled) (i : nat) : bool :=
  match pool !! i with Some e => has_type Connect80 (proxy e) | None => false end.

Definition connect_biased (pool : list Pooled) (tier : list nat) (prefer : bool) : list nat :=
  if negb prefer then tier
  else
    let connect := List.filter (has_connect pool) tier in
    match connect with [] => tier | _ => connect end.

(** The ordering key of [best_by_priority]: error rate, response time, then the CONNECT
    preference (0 sorts before 1). *)
Definition priority_at (pool : list Pooled) (i : nat) : f64 * f64 :=
  match pool !! i with Some e => priority (proxy e) | None => (S754_nan, S754_nan) end.
Definition connect_key (prefer : bool) (pool : list Pooled) (i : nat) : Z :=
  Z.b2z (prefer && negb (has_connect pool i)).
Definition rank_cmp (prefer : bool) (pool : list Pooled) (a b : nat) : comparison :=
  cmp_then (cmp_on (fun i => (priority_at pool i).1) total_cmp a b)
    (cmp_then (cmp_on (fun i => (priority_at pool i).2) total_cmp a b)
       (cmp_on (connect_key prefer pool) Z.compare a b)).

Definition best_by_priority (pool : list Pooled) (eligible : list nat) (prefer : bool) : option nat :=
  min_by (rank_cmp prefer pool) eligible.

(** One xorshift64 step; the draw is the new state modulo [n.max(1)]. *)
Definition xorshift64 (x : Z) : Z :=
  let x := Z.lxor x (u64 (Z.shiftl x 13)) in
  let x := Z.lxor x (Z.shiftr x 7) in
  Z.lxor x (u64 (Z.shiftl x 17)).
Definition rand_seed : Z := 11400714819323198485. (* 0x9E37_79B9_7F4A_7C15 *)
Definition next_rand (rng : Z) (n : nat) : nat * Z :=
  let x := xorshift64 rng in (Z.to_nat (x mod Z.of_nat (Nat.max n 1)), x).

Definition tier_of (pool : list Pooled) (s : Scheme) (now : Z) (ready : bool) : list nat :=
  indices (fun e => serves s (proxy e) && Bool.eqb (is_ready now e) ready) pool.
Definition select_tier (pool : list Pooled) (ctx : SelectCtx) : list nat :=
  let ready := tier_of pool (sc_scheme ctx) (sc_now ctx) true in
  match ready with [] => tier_of pool (sc_scheme ctx) (sc_now ctx) false | _ => ready end.

(** [best_for], with the process-wide random state threaded through. *)
Definition best_for (pool : list Pooled) (ctx : SelectCtx) (rng : Z) : option nat * Z :=
  let tier := select_tier pool ctx in
  match tier with
  | [] => (None, rng)
  | _ =>
      match sc_strategy ctx with
      | Best => (best_by_priority pool tier (sc_prefer_connect ctx), rng)
      | RoundRobin =>
          let pick := connect_biased pool tier (sc_prefer_connect ctx) in
          (pick !! Z.to_nat (sc_round_robin_cursor ctx mod Z.of_nat (length pick)), rng)
      | Random =>
          let pick := connect_biased pool tier (sc_prefer_connect ctx) in
          let '(i, rng) := next_rand rng (length pick) in
          (pick !! i, rng)
      | Sticky =>
          let pinned :=
            match sc_sticky ctx with
            | Some addr =>
                List.find (fun i => match pool !! i with
                                    | Some e => bool_decide (entry_key e = addr) | None => false end) tier
            | None => None
            end in
          match pinned with
          | Some i => (Some i, rng)
          | None => (best_by_priority pool tier (sc_prefer_connect ctx), rng)
          end
      end
  end.

(** ** Sessions

    [HashMap::keys().next()]: some key of a non-empty map, the order being unspecified. *)
Class HashOrder : Type := {
  first_key : gmap ClientKey (IpAddr * Z) -> option ClientKey;
  first_key_dom m : m <> ∅ -> exists k, first_key m = Some k /\ k ∈ dom m;
}.

Section pool.
Context `{HashOrder}.

Definition record_session (key : ClientKey) (addr : IpAddr * Z) (p : Pool) : Pool :=
  let s := sessions p in
  let s :=
    if (max_sessions (config p) <=? size s)%nat && negb (bool_decide (is_Some (s !! key))) then
      match first_key s with Some k => delete k s | None => s end
    else s in
  set_sessions (<[key := addr]> s) p.

(** *** The sections of [try_select], each under one lock or one atomic access *)
Definition sticky_pin (key : ClientKey) (p : Pool) : option (IpAddr * Z) :=
  if decide (strategy (config p) = Sticky) then sessions p !! key else None.
(** What the pool's lock is taken with: the pin and the cursor as they were read before. *)
Definition ctx_of (now : Z) (scheme : Scheme) (pin : option (IpAddr * Z)) (cursor : Z) (p : Pool) : SelectCtx :=
  {| sc_scheme := scheme;
     sc_strategy := strategy (config p);
     sc_sticky := pin;
     sc_round_robin_cursor := cursor;
     sc_now := now;
     sc_prefer_connect := prefer_connect (config p) |}.
(** Under the pool's lock; an out-of-range index would panic, and is shown not to occur. *)
Definition take_best (ctx : SelectCtx) (p : Pool) (rng : Z) : option Proxy * Pool * Z :=
  let '(idx, rng) := best_for (state p) ctx rng in
  match idx with
  | None => (None, p, rng)
  | Some idx =>
      match swap_remove idx (state p) with
      | None => (None, p, rng)
      | Some (e, rest) => (Some (proxy e), set_state rest p, rng)
      end
  end.
Definition bump_cursor (p : Pool) : Pool :=
  if decide (strategy (config p) = RoundRobin) then set_round_robin (u64 (round_robin p + 1)) p else p.
Definition record_pin (key : ClientKey) (px : Proxy) (p : Pool) : Pool :=
  if decide (strategy (config p) = Sticky) then record_session key (p_key px) p else p.

(** [try_select], where [others k] is what everybody else does to the pool before its section [k]. *)
Definition try_select_among (others : nat -> Pool -> Pool) (now : Z) (scheme : Scheme) (key : ClientKey) (p : Pool) (rng : Z)
  : option Proxy * Pool * Z :=
  let p := others 0%nat p in
  let pin := sticky_pin key p in
  let p := others 1%nat p in
  let cursor := round_robin p in
  let p := others 2%nat p in
  let '(o, p, rng) := take_best (ctx_of now scheme pin cursor p) p rng in
  match o with
  | None => (None, p, rng)
  | Some px =>
      let p := bump_cursor (others 3%nat p) in
      (Some px, record_pin key px (others 4%nat p), rng)
  end.
(** With nobody in between. *)
Definition select_ctx (now : Z) (scheme : Scheme) (key : ClientKey) (p : Pool) : SelectCtx :=
  ctx_of now scheme (sticky_pin key p) (round_robin p) p.
Definition try_select : Z -> Scheme -> ClientKey -> Pool -> Z -> option Proxy * Pool * Z :=
  try_select_among (fun _ p => p).

(** ** Returning proxies *)
Definition unhealthy (cfg : PoolConfig) (p : Proxy) : bool :=
  (min_req cfg <=? p_requests p) &&
  (f_gtb (error_rate p) (max_error_rate cfg) || f_gtb (avg_resp_time p) (max_resp_time cfg)).

Definition put_inner (px : Proxy) (blocked : option Z) (p : Pool) : Pool :=
  if unhealthy (config p) px then set_evictions (u64 (evictions p + 1)) p
  else push {| proxy := px; blocked_until := blocked |} p.
Definition put_ok (px : Proxy) (p : Pool) : Pool := put_inner px None p.
Definition put_failed (now : Z) (px : Proxy) (p : Pool) : Pool :=
  put_inner px (Some (now + fail_timeout (config p))) p.

(** ** Direct mutation and views *)
Definition len (p : Pool) : nat := length (state p).
Definition is_empty (p : Pool) : bool := (len p =? 0)%nat.

Definition remove (host : IpAddr) (port : Z) (p : Pool) : bool * Pool :=
  let kept := retain (fun e => negb (bool_decide (entry_key e = (host, port)))) (state p) in
  (negb (len p =? length kept)%nat, set_state kept p).
Definition remove_addr (host : IpAddr) (port : Z) (p : Pool) : bool * Pool := remove host port p.

Definition add (px : Proxy) (p : Pool) : Pool :=
  if existsb (fun e => bool_decide (entry_key e = p_key px)) (state p) then p
  else push (ready_entry px) p.

Definition addrs (p : Pool) : gset (IpAddr * Z) := list_to_set (map entry_key (state p)).
Definition proxies (p : Pool) : list Proxy := proxies_of (state p).

Definition try_get (scheme : Scheme) (country : option str) (p : Pool) : option (Proxy * Pool) :=
  let eligible :=
    indices (fun e =>
      serves scheme (proxy e) &&
      match country with
      | Some cc => match p_geo (proxy e) with
                   | Some g => eq_ignore_ascii_case (c_code g) cc | None => false end
      | None => true
      end) (state p) in
  let? idx := best_by_priority (state p) eligible (prefer_connect (config p)) in
  let? (e, rest) := vec_remove idx (state p) in
  Some (proxy e, set_state rest p).

Record PoolSnapshot := {
  sn_http : nat; sn_https : nat; sn_total : nat;
  sn_avg_error_rate : f64; sn_avg_resp_time : f64; sn_probe_latency_avg : f64;
}.
Definition snapshot (p : Pool) : PoolSnapshot :=
  let ps := proxies p in
  let total := length ps in
  let mean f := if (0 <? total)%nat then f_div (f_sum (map f ps)) (f_of_Z (Z.of_nat total)) else f_zero in
  {| sn_http := length (retain (serves SHttp) ps);
     sn_https := length (retain (serves SHttps) ps);
     sn_total := total;
     sn_avg_error_rate := mean error_rate;
     sn_avg_resp_time := mean avg_resp_time;
     sn_probe_latency_avg := mean probe_latency |}.
End pool.

(** ** Facts about selection *)
#[export] Instance rank_cmp_order prefer pool : CmpOrder (rank_cmp prefer pool).
Proof. unfold rank_cmp. apply _. Qed.

Lemma elem_of_tier pool s now r i :
  i ∈ tier_of pool s now r <->
  exists e, pool !! i = Some e /\ serves s (proxy e) = true /\ is_ready now e = r.
Proof.
  unfold tier_of. rewrite elem_of_indices. apply exist_proper. intros e.
  rewrite andb_true_iff, eqb_true_iff. tauto.
Qed.

(** An entry is offered when it serves the scheme and is ready, or when no such entry is. *)
Definition offered (pool : list Pooled) (ctx : SelectCtx) (e : Pooled) : Prop :=
  serves (sc_scheme ctx) (proxy e) = true /\
  (is_ready (sc_now ctx) e = true \/
   forall e', e' ∈ pool -> serves (sc_scheme ctx) (proxy e') = true -> is_ready (sc_now ctx) e' = false).

Lemma elem_of_select_tier pool ctx i :
  i ∈ select_tier pool ctx <-> exists e, pool !! i = Some e /\ offered pool ctx e.
Proof.
  unfold select_tier, offered.
  pose proof (elem_of_tier pool (sc_scheme ctx) (sc_now ctx) true) as Hr.
  destruct (tier_of _ _ _ true) as [|j js].
  - rewrite elem_of_tier. apply exist_proper. intros e. split.
    + intros (? & ? & ?). split_and!; [done..|]. right. intros e' He' Hs.
      destruct (is_ready _ e') eqn:Er; [|done]. apply list_elem_of_lookup in He' as [k Hk].
      exfalso. eapply (not_elem_of_nil (A := nat)), Hr. eauto.
    + intros (He & Hs & [Hy|Hn]); [|split_and!; eauto using list_elem_of_lookup_2].
      exfalso. eapply (not_elem_of_nil (A := nat)), Hr. eauto.
  - rewrite Hr. apply exist_proper. intros e. split; [naive_solver|].
    intros (He & Hs & [Hy|Hn]); [done|].
    destruct (proj1 (Hr j) ltac:(left)) as (e' & He' & Hs' & Hy').
    rewrite (Hn e') in Hy'; [done|by eapply list_elem_of_lookup_2|done].
Qed.

Lemma select_tier_nil pool ctx :
  select_tier pool ctx = [] <-> forall e, e ∈ pool -> serves (sc_scheme ctx) (proxy e) = false.
Proof.
  split.
  - intros E e He. destruct (serves _ _) eqn:Hs; [|done]. exfalso.
    assert (forall i, i ∉ select_tier pool ctx) as Hno by (rewrite E; intros i; apply not_elem_of_nil).
    apply list_elem_of_lookup in He as [i Hi].
    destruct (decide (Exists (fun e => serves (sc_scheme ctx) (proxy e) = true /\
                              is_ready (sc_now ctx) e = true) pool)) as [Hex|Hex].
    + apply Exists_exists in Hex as (e' & [j Hj]%list_elem_of_lookup & ? & ?).
      apply (Hno j), elem_of_select_tier. exists e'. unfold offered. eauto.
    + apply (Hno i), elem_of_select_tier. exists e. split; [done|]. split; [done|]. right.
      intros e' He' Hs'. destruct (is_ready _ e') eqn:Er; [|done].
      exfalso. apply Hex, Exists_exists. eauto.
  - intros Hall. apply elem_of_nil_inv. intros i (e & Hi & Hs & _)%elem_of_select_tier.
    rewrite Hall in Hs; [done|]. by eapply list_elem_of_lookup_2.
Qed.

Lemma elem_of_connect_biased pool tier prefer i :
  i ∈ connect_biased pool tier prefer ->
  i ∈ tier /\ (prefer = true -> (exists j, j ∈ tier /\ has_connect pool j = true) -> has_connect pool i = true).
Proof.
  unfold connect_biased. destruct prefer; simpl; [|done].
  destruct (List.filter _ _) as [|k ks] eqn:E.
  - intros Hi. split; [done|]. intros _ (j & Hj & Hc). exfalso.
    assert (In j (List.filter (has_connect pool) tier)) as Hin.
    { apply filter_In. split; [by apply list_elem_of_In|done]. }
    by rewrite E in Hin.
  - rewrite <- E, list_elem_of_In, filter_In, <- list_elem_of_In. tauto.
Qed.
Lemma connect_biased_nil pool tier prefer : connect_biased pool tier prefer = [] -> tier = [].
Proof. unfold connect_biased. destruct prefer; simpl; [|done]. by destruct (List.filter _ _). Qed.

Lemma mod_lt_length {A} (l : list A) (z : Z) : l <> [] -> (Z.to_nat (z mod Z.of_nat (length l)) < length l)%nat.
Proof.
  intros Hl. assert (0 < Z.of_nat (length l)) by (destruct l; simpl; [done|lia]).
  pose proof (Z.mod_pos_bound z (Z.of_nat (length l)) ltac:(lia)). lia.
Qed.
Lemma next_rand_lt rng n : (0 < n)%nat -> ((next_rand rng n).1 < n)%nat.
Proof.
  intros Hn. unfold next_rand. simpl. rewrite Nat.max_l by lia.
  pose proof (Z.mod_pos_bound (xorshift64 rng) (Z.of_nat n) ltac:(lia)). lia.
Qed.

(** Whatever the strategy, the choice is in the tier, and there is one when the tier is not
    empty. *)
Lemma best_for_tier pool ctx rng i rng' :
  best_for pool ctx rng = (Some i, rng') -> i ∈ select_tier pool ctx.
Proof.
  unfold best_for. destruct (select_tier pool ctx) as [|j js] eqn:E; [done|].
  destruct (sc_strategy ctx).
  - intros Hm%(f_equal fst). exact (min_by_elem (rank_cmp _ pool) (j :: js) i Hm).
  - intros [= Hm _]. apply list_elem_of_lookup_2, elem_of_connect_biased in Hm as [? _]. done.
  - destruct (next_rand _ _). intros [= Hm _].
    apply list_elem_of_lookup_2, elem_of_connect_biased in Hm as [? _]. done.
  - case_match eqn:Hp.
    + intros [= -> _]. case_match; [|done]. apply find_some in Hp as [Hp _].
      by apply list_elem_of_In.
    + intros Hm%(f_equal fst). exact (min_by_elem (rank_cmp _ pool) (j :: js) i Hm).
Qed.

Lemma best_for_None pool ctx rng rng' :
  best_for pool ctx rng = (None, rng') -> select_tier pool ctx = [].
Proof.
  unfold best_for. destruct (select_tier pool ctx) as [|j js] eqn:E; [done|].
  assert (connect_biased pool (j :: js) (sc_prefer_connect ctx) <> []) as Hne
    by (intros Hc; by apply connect_biased_nil in Hc).
  assert (forall A (l : list A) k, (k < length l)%nat -> l !! k <> None) as Hlk.
  { intros A l k Hk Hl. apply lookup_ge_None in Hl. lia. }
  destruct (sc_strategy ctx).
  - by intros [= Hm%min_by_None _].
  - intros [= Hm _]. exfalso. eapply Hlk, Hm. by apply mod_lt_length.
  - pose proof (next_rand_lt rng (length (connect_biased pool (j :: js) (sc_prefer_connect ctx)))) as Hlt.
    destruct (next_rand _ _) as [k r]. intros [= Hm _]. exfalso. eapply Hlk, Hm. apply Hlt.
    destruct (connect_biased _ _ _); simpl; [done|lia].
  - case_match; [done|]. by intros [= Hm%min_by_None _].
Qed.

(** The tiers list indices in increasing order. *)
Lemma seq_filter_sorted (f : nat -> bool) a n : StronglySorted lt (List.filter f (seq a n)).
Proof.
  revert a. induction n as [|n IH]; intros a; simpl; [constructor|].
  destruct (f a); [|done]. constructor; [done|].
  apply Forall_forall. intros x Hx. apply list_elem_of_In, filter_In in Hx as [Hx _].
  apply in_seq in Hx. lia.
Qed.
Lemma select_tier_sorted pool ctx : StronglySorted lt (select_tier pool ctx).
Proof. unfold select_tier. case_match; [|rewrite <- H]; apply seq_filter_sorted. Qed.

Lemma sorted_before l1 i l2 j :
  StronglySorted lt (l1 ++ i :: l2) -> j ∈ l1 ++ i :: l2 -> (j < i)%nat -> j ∈ l1.
Proof.
  induction l1 as [|x l1 IH]; simpl; intros Hs Hj Hlt; inversion_clear Hs as [|?? Hs' Hf].
  - apply elem_of_cons in Hj as [->|Hj]; [lia|]. rewrite Forall_forall in Hf.
    specialize (Hf _ Hj). lia.
  - apply elem_of_cons in Hj as [->|Hj]; [left|right; auto].
Qed.

(** Selection is sound for every strategy: it fails only when no pooled proxy serves the
    scheme, otherwise it returns an index inside the pool of a proxy that serves the scheme and
    is ready, falling back to a benched one only when none is ready; a sticky client keeps its
    pinned address while that address is on offer, and rotation or random picks honour
    [prefer_connect] whenever a CONNECT:80 proxy is on offer. *)
Theorem best_for_sound : forall pool ctx rng,
  match (best_for pool ctx rng).1 with
  | None => forall e, e ∈ pool -> serves (sc_scheme ctx) (proxy e) = false
  | Some i =>
      exists e, pool !! i = Some e /\ offered pool ctx e /\
        (sc_strategy ctx = Sticky -> forall a, sc_sticky ctx = Some a ->
           (exists e', e' ∈ pool /\ offered pool ctx e' /\ entry_key e' = a) -> entry_key e = a) /\
        (sc_strategy ctx = RoundRobin \/ sc_strategy ctx = Random -> sc_prefer_connect ctx = true ->
           (exists e', e' ∈ pool /\ offered pool ctx e' /\ has_type Connect80 (proxy e') = true) ->
           has_type Connect80 (proxy e) = true)
  end.
Proof.
  intros pool ctx rng. destruct (best_for pool ctx rng) as [[i|] rng'] eqn:E; simpl.
  2: { apply best_for_None in E. by apply select_tier_nil. }
  pose proof (best_for_tier _ _ _ _ _ E) as Hi.
  apply elem_of_select_tier in Hi as (e & He & Ho). exists e. split_and!; [done..| |].
  - intros Hs a Ha (e' & [k Hk]%list_elem_of_lookup & Ho' & Hkey).
    unfold best_for in E. rewrite Hs, Ha in E.
    destruct (select_tier pool ctx) as [|j js] eqn:Et; [done|].
    destruct (List.find _ _) as [m|] eqn:Hf.
    + apply find_some in Hf as [_ Hf]. simplify_eq. rewrite He in Hf. by bsimp.
    + exfalso. pose proof (find_none _ _ Hf k) as Hn. simpl in Hn. rewrite Hk in Hn.
      rewrite bool_decide_eq_true_2 in Hn by done.
      enough (In k (j :: js)) as Hin by (by specialize (Hn Hin)).
      rewrite <- list_elem_of_In, <- Et, elem_of_select_tier. eauto.
  - intros Hs Hp (e' & [k Hk]%list_elem_of_lookup & Ho' & Hc).
    assert (i ∈ connect_biased pool (select_tier pool ctx) (sc_prefer_connect ctx)) as Hi.
    { unfold best_for in E. destruct (select_tier pool ctx) as [|j js] eqn:Et; [done|].
      destruct Hs as [Hs|Hs]; rewrite Hs in E; [|destruct (next_rand _ _)];
        apply (f_equal fst) in E; simpl in E; by eapply list_elem_of_lookup_2. }
    apply elem_of_connect_biased in Hi as [_ Hi]. specialize (Hi Hp).
    unfold has_connect in Hi. rewrite He in Hi. apply Hi. exists k. rewrite Hk.
    split; [|done]. apply elem_of_select_tier. eauto.
Qed.

(** [Strategy::Best] is optimal and deterministic: the chosen proxy is no worse than any
    other on offer in (error rate, response time, CONNECT preference) under [total_cmp], and
    strictly better than every earlier one, so ties go to the first in pool order. *)
Theorem best_for_least : forall pool ctx rng i,
  sc_strategy ctx = Best -> (best_for pool ctx rng).1 = Some i ->
  forall j e, pool !! j = Some e -> offered pool ctx e ->
    rank_cmp (sc_prefer_connect ctx) pool i j <> Gt /\
    ((j < i)%nat -> rank_cmp (sc_prefer_connect ctx) pool i j = Lt).
Proof.
  intros pool ctx rng i Hs E j e Hj Ho. pose proof (select_tier_sorted pool ctx) as Hsort.
  assert (min_by (rank_cmp (sc_prefer_connect ctx) pool) (select_tier pool ctx) = Some i) as Hm.
  { unfold best_for in E. rewrite Hs in E. by destruct (select_tier pool ctx). }
  assert (j ∈ select_tier pool ctx) as Hin by (apply elem_of_select_tier; eauto).
  split; [eapply min_by_least; [apply _|done..]|]. intros Hlt.
  apply min_by_split in Hm as (l1 & l2 & Hl & H1 & _); [|apply _]. rewrite Hl in Hin, Hsort.
  apply H1. by eapply sorted_before.
Qed.

Definition slow_fast : list Pooled :=
  map ready_entry
    [record_attempt (Some (f_of_Z 5)) None (add_type Http (Some High) (new (V4 1) 80 ∅));
     record_attempt (Some (f_of_Z 1)) None (add_type Http (Some High) (new (V4 2) 80 ∅))].
Definition best_ctx : SelectCtx :=
  {| sc_scheme := SHttp; sc_strategy := Best; sc_sticky := None; sc_round_robin_cursor := 0;
     sc_now := 0; sc_prefer_connect := false |}.
Lemma best_for_least_witness :
  (best_for slow_fast best_ctx 1).1 = Some 1%nat /\
  rank_cmp false slow_fast 1%nat 0%nat = Lt.
Proof.
  split; [vm_compute; reflexivity|].
  refine (proj2 (best_for_least slow_fast best_ctx 1 1%nat eq_refl _ 0%nat _ eq_refl _) _).
  - vm_compute. reflexivity.
  - split; [vm_compute; reflexivity|left; reflexivity].
  - lia.
Defined.

(** ** The random state *)
Lemma u64_testbit x i : 0 <= i -> Z.testbit (u64 x) i = (i <? 64) && Z.testbit x i.
Proof.
  intros Hi. unfold wrap. destruct (Z.ltb_spec i 64); simpl.
  - apply Z.mod_pow2_bits_low. lia.
  - apply Z.mod_pow2_bits_high. lia.
Qed.
Lemma u64_id x : 0 <= x < 2 ^ 64 -> u64 x = x.
Proof. apply wrap_small. Qed.

(** [x ^ (x << k)] at 64 bits and [x ^ (x >> k)] are injective. *)
Lemma xor_shl_inj k x y : 0 < k -> 0 <= x < 2 ^ 64 -> 0 <= y < 2 ^ 64 ->
  Z.lxor x (u64 (Z.shiftl x k)) = Z.lxor y (u64 (Z.shiftl y k)) -> x = y.
Proof.
  intros Hk Hx Hy E. apply Z.bits_inj'. intros i Hi.
  induction i as [i IH] using (well_founded_induction (Z.lt_wf 0)).
  destruct (Z.ltb_spec i 64) as [H64|H64].
  - apply (f_equal (fun z => Z.testbit z i)) in E.
    rewrite !Z.lxor_spec, !u64_testbit, !Z.shiftl_spec in E by lia.
    rewrite (proj2 (Z.ltb_lt i 64)) in E by lia. simpl in E.
    destruct (Z.ltb_spec i k).
    + rewrite !(Z.testbit_neg_r _ (i - k)) in E by lia. by rewrite !xorb_false_r in E.
    + rewrite (IH (i - k)) in E by lia. by destruct (Z.testbit x i), (Z.testbit y i), (Z.testbit y (i - k)).
  - rewrite <- (u64_id x), <- (u64_id y), !u64_testbit by lia.
    by rewrite (proj2 (Z.ltb_ge i 64)) by lia.
Qed.
Lemma xor_shr_inj k x y : 0 < k -> 0 <= x < 2 ^ 64 -> 0 <= y < 2 ^ 64 ->
  Z.lxor x (Z.shiftr x k) = Z.lxor y (Z.shiftr y k) -> x = y.
Proof.
  intros Hk Hx Hy E. apply Z.bits_inj'. intros i Hi.
  assert (forall n i, 0 <= i -> 64 - i <= Z.of_nat n -> Z.testbit x i = Z.testbit y i) as Hn.
  { clear i Hi. induction n as [|n IH]; intros i Hi Hle.
    - rewrite <- (u64_id x), <- (u64_id y), !u64_testbit by lia.
      by rewrite (proj2 (Z.ltb_ge i 64)) by lia.
    - apply (f_equal (fun z => Z.testbit z i)) in E.
      rewrite !Z.lxor_spec, !Z.shiftr_spec in E by lia.
      rewrite (IH (i + k)) in E by lia.
      destruct (Z.testbit x i), (Z.testbit y i), (Z.testbit y (i + k)); done. }
  apply (Hn (Z.to_nat (64 - i))); lia.
Qed.

Lemma lxor_range x y : 0 <= x < 2 ^ 64 -> 0 <= y < 2 ^ 64 -> 0 <= Z.lxor x y < 2 ^ 64.
Proof.
  intros Hx Hy. rewrite <- (u64_id x), <- (u64_id y) by done.
  assert (Z.lxor (u64 x) (u64 y) = u64 (Z.lxor x y)) as ->.
  { apply Z.bits_inj'. intros i Hi. rewrite Z.lxor_spec, !u64_testbit, Z.lxor_spec by done.
    by destruct (i <? 64). }
  apply wrap_bounds. lia.
Qed.

Lemma xorshift64_range x : 0 <= x < 2 ^ 64 -> 0 <= xorshift64 x < 2 ^ 64.
Proof.
  intros Hx. unfold xorshift64.
  assert (forall z k, 0 <= z < 2 ^ 64 -> 0 <= k -> 0 <= Z.shiftr z k < 2 ^ 64) as Hs.
  { intros z k Hz Hk. rewrite Z.shiftr_div_pow2 by done. split; [apply Z.div_pos; lia|].
    apply Z.le_lt_trans with z; [apply Z.div_le_upper_bound; [lia|]|lia].
    pose proof (Z.pow_pos_nonneg 2 k). nia. }
  apply lxor_range; [|apply wrap_bounds; lia].
  apply lxor_range; [|apply Hs; [|lia]];
    (apply lxor_range; [done|apply wrap_bounds; lia]).
Qed.

Lemma xorshift64_inj x y :
  0 <= x < 2 ^ 64 -> 0 <= y < 2 ^ 64 -> xorshift64 x = xorshift64 y -> x = y.
Proof.
  intros Hx Hy E. unfold xorshift64 in E.
  assert (forall z k, 0 <= z < 2 ^ 64 -> 0 <= k -> 0 <= Z.shiftr z k < 2 ^ 64) as Hs.
  { intros z k Hz Hk. rewrite Z.shiftr_div_pow2 by done. split; [apply Z.div_pos; lia|].
    apply Z.le_lt_trans with z; [apply Z.div_le_upper_bound; [lia|]|lia].
    pose proof (Z.pow_pos_nonneg 2 k). nia. }
  assert (forall z k, 0 <= z < 2 ^ 64 -> 0 <= Z.lxor z (u64 (Z.shiftl z k)) < 2 ^ 64) as Hl.
  { intros. apply lxor_range; [done|apply wrap_bounds; lia]. }
  apply xor_shl_inj in E; [|lia|apply lxor_range; [by apply Hl|apply Hs; [by apply Hl|lia]]..].
  apply xor_shr_inj in E; [|lia|by apply Hl..].
  by apply xor_shl_inj in E.
Qed.

(** The random strategy's generator never degenerates and never indexes out of range: from
    any non-zero 64-bit state the next state is a non-zero 64-bit value, distinct states stay
    distinct, and the draw for a non-empty list of [n] is below [n]. *)
Theorem next_rand_sound : forall x n, 0 < x < 2 ^ 64 -> (0 < n)%nat ->
  let '(i, x') := next_rand x n in
  (i < n)%nat /\ 0 < x' < 2 ^ 64 /\
  (forall y, 0 <= y < 2 ^ 64 -> (next_rand y n).2 = x' -> y = x).
Proof.
  intros x n Hx Hn. pose proof (next_rand_lt x n Hn) as Hi. unfold next_rand in *. simpl in *.
  pose proof (xorshift64_range x ltac:(lia)). split_and!; [done| |lia|].
  - destruct (decide (xorshift64 x = 0)) as [E|]; [|lia]. exfalso.
    assert (x = 0); [|lia]. apply xorshift64_inj; [lia|lia|]. rewrite E. reflexivity.
  - intros y Hy E. by apply xorshift64_inj; [|lia|].
Qed.
Lemma next_rand_sound_witness :
  0 < rand_seed < 2 ^ 64 /\ ((next_rand rand_seed 3).1 < 3)%nat.
Proof.
  assert (0 < rand_seed < 2 ^ 64) as H by (unfold rand_seed; lia).
  split; [exact H|]. exact (proj1 (next_rand_sound rand_seed 3 H ltac:(lia))).
Defined.

(** ** Checking out and returning *)
Section pool_facts.
Context `{HO : HashOrder}.

Lemma record_session_state key addr p : state (record_session key addr p) = state p.
Proof. done. Qed.

Lemma take_best_Some ctx p rng px p' rng' : take_best ctx p rng = (Some px, p', rng') ->
  exists e, px = proxy e /\ offered (state p) ctx e /\ state p ≡ₚ e :: state p' /\ p' = set_state (state p') p.
Proof.
  unfold take_best. destruct (best_for _ _ _) as [[i|] r] eqn:E; [|done].
  apply best_for_tier, elem_of_select_tier in E as (e & Hi & Ho).
  destruct (swap_remove i (state p)) as [[e' rest]|] eqn:Hs; [|done].
  assert (e' = e) as ->.
  { unfold swap_remove in Hs. rewrite Hi in Hs. destruct (last _); naive_solver. }
  apply swap_remove_perm in Hs. intros [= <- <- _]. by exists e.
Qed.
Lemma take_best_None ctx p rng p' rng' : take_best ctx p rng = (None, p', rng') ->
  p' = p /\ forall e, e ∈ state p -> serves (sc_scheme ctx) (proxy e) = false.
Proof.
  unfold take_best. destruct (best_for _ _ _) as [[i|] r] eqn:E.
  - apply best_for_tier, elem_of_select_tier in E as (e & Hi & Ho).
    destruct (swap_remove_is_Some i (state p)) as [[e' rest] ->]; [by eapply lookup_lt_Some|].
    done.
  - intros [= <- _]. split; [done|]. apply best_for_None in E. by apply (proj1 (select_tier_nil _ ctx)).
Qed.
Lemma record_pin_fields key px p : record_pin key px p = set_sessions (sessions (record_pin key px p)) p.
Proof. unfold record_pin. case_decide; [done|]. by destruct p. Qed.
Lemma bump_cursor_fields p : bump_cursor p =
  set_round_robin (if decide (strategy (config p) = RoundRobin) then u64 (round_robin p + 1) else round_robin p) p.
Proof. unfold bump_cursor. case_decide; [done|]. by destruct p. Qed.

(** The sections with the pin and the cursor read at any earlier time, against the sequence with
    nobody in between on a pool whose pins and cursor are those that were read. *)
Definition drifted (cursor : Z) (pins : gmap ClientKey (IpAddr * Z)) (p : Pool) : Pool :=
  set_sessions pins (set_round_robin cursor p).
Lemma stale_select now scheme key pins cursor p rng :
  let '(o, q, r) := take_best (ctx_of now scheme (sticky_pin key (drifted cursor pins p)) cursor p) p rng in
  exists q', try_select now scheme key (drifted cursor pins p) rng = (o, q', r) /\
    q = drifted (round_robin p) (sessions p) q'.
Proof.
  unfold try_select, try_select_among. change (take_best (ctx_of now scheme (sticky_pin key (drifted cursor pins p))
    (round_robin (drifted cursor pins p)) (drifted cursor pins p)) (drifted cursor pins p) rng) with
    (take_best (ctx_of now scheme (sticky_pin key (drifted cursor pins p)) cursor p) (drifted cursor pins p) rng).
  unfold take_best. change (state (drifted cursor pins p)) with (state p). destruct (best_for (state p) _ rng) as [[i|] r].
  - destruct (swap_remove i (state p)) as [[e rest]|].
    + eexists. split; [done|]. rewrite record_pin_fields, bump_cursor_fields. reflexivity.
    + eexists. split; [done|]. by destruct p.
  - eexists. split; [done|]. by destruct p.
Qed.

Lemma try_select_Some now s key p rng px p' rng' :
  try_select now s key p rng = (Some px, p', rng') ->
  exists e, px = proxy e /\ offered (state p) (select_ctx now s key p) e /\ state p ≡ₚ e :: state p' /\
    config p' = config p /\ exhausted p' = exhausted p /\ evictions p' = evictions p /\
    rotations p' = rotations p.
Proof.
  unfold try_select, try_select_among. destruct (take_best _ _ _) as [[[x|] q] r] eqn:E; intros [= -> <- <-].
  apply take_best_Some in E as (e & -> & Ho & Hp & ->). exists e. rewrite record_pin_fields, bump_cursor_fields. done.
Qed.

Lemma try_select_None now s key p rng p' rng' :
  try_select now s key p rng = (None, p', rng') ->
  p' = p /\ forall e, e ∈ state p -> serves s (proxy e) = false.
Proof.
  unfold try_select, try_select_among. destruct (take_best _ _ _) as [[[x|] q] r] eqn:E; intros [= <- <-].
  exact (take_best_None _ _ _ _ _ E).
Qed.

Lemma try_select_serves now s key p rng px p' rng' :
  try_select now s key p rng = (Some px, p', rng') -> serves s px = true.
Proof. by intros (e & -> & (? & _) & _)%try_select_Some. Qed.

(** The keys of the sessions map after a pin: at most one other client loses its pin, and only
    when the map is full and the client is new. *)
Lemma record_session_lookup key addr p k :
  sessions (record_session key addr p) !! k =
    if decide (k = key) then Some addr
    else if (max_sessions (config p) <=? size (sessions p))%nat &&
            negb (bool_decide (is_Some (sessions p !! key))) &&
            bool_decide (first_key (sessions p) = Some k)
         then None else sessions p !! k.
Proof.
  unfold record_session; simpl. case_decide as Hk; [subst; by rewrite lookup_insert_eq|].
  rewrite lookup_insert_ne by done. destruct (_ && negb _); simpl; [|done].
  destruct (first_key _) as [f|] eqn:Hf; [|done].
  case_bool_decide as Hd; simplify_eq; [by rewrite lookup_delete_eq|].
  rewrite lookup_delete_ne; [done|congruence].
Qed.

Definition sessions_bounded (p : Pool) : Prop :=
  (size (sessions p) <= Nat.max 1 (max_sessions (config p)))%nat.

Lemma record_session_bounded_inv key addr p :
  sessions_bounded p -> sessions_bounded (record_session key addr p).
Proof.
  unfold sessions_bounded, record_session; simpl. intros Hb.
  destruct (sessions p !! key) as [a|] eqn:Hk.
  { rewrite bool_decide_eq_true_2, andb_false_r by eauto.
    rewrite map_size_insert, Hk. done. }
  rewrite bool_decide_eq_false_2, andb_true_r by (intros [? ?]; congruence).
  destruct (Nat.leb_spec (max_sessions (config p)) (size (sessions p))) as [Hle|Hlt].
  - destruct (decide (sessions p = ∅)) as [He|Hne].
    + rewrite He in *. destruct (first_key ∅) as [f|]; [rewrite delete_empty|];
        rewrite map_size_insert, lookup_empty, map_size_empty; lia.
    + destruct (first_key_dom _ Hne) as (f & -> & [b Hf]%elem_of_dom).
      rewrite map_size_insert, lookup_delete_ne, Hk by congruence.
      rewrite map_size_delete, Hf. assert (size (sessions p) <> 0%nat); [|lia].
      by intros ?%map_size_empty_inv.
  - rewrite map_size_insert, Hk. lia.
Qed.


(** C5: what giving a proxy back does. One that has made [min_req] requests and has an error rate or a mean response
    time above the limits is evicted, and counted, however it is given back. Any other is pooled again, behind the rest: after a success
    it is ready at once; after a failure it
    cannot be selected before [fail_timeout] has passed while any ready entry serves the scheme, and is
    ready again from then on. Nothing else of the pool changes. *)
Theorem put_failed_benches : forall now px p,
  let bad := (min_req (config p) <=? p_requests px) &&
    (f_gtb (error_rate px) (max_error_rate (config p)) || f_gtb (avg_resp_time px) (max_resp_time (config p))) in
  let p' := put_failed now px p in
  put_ok px p = (if bad then set_evictions (u64 (evictions p + 1)) p else set_state (state p ++ [ready_entry px]) p) /\
  if bad then p' = set_evictions (u64 (evictions p + 1)) p
  else
    exists e, p' = set_state (state p ++ [e]) p /\ proxy e = px /\
      (forall ctx, sc_now ctx < now + fail_timeout (config p) ->
         (exists r, r ∈ state p /\ serves (sc_scheme ctx) (proxy r) = true /\
                    is_ready (sc_now ctx) r = true) ->
         forall rng i rng', best_for (state p') ctx rng = (Some i, rng') ->
           i <> length (state p)) /\
      (forall t, now + fail_timeout (config p) <= t -> is_ready t e = true).
Proof.
  intros now px p bad. unfold put_ok, put_failed, put_inner. change (unhealthy (config p) px) with bad. destruct bad; [done|].
  split; [done|]. eexists. split_and!; [done..| |].
  - intros ctx Hlt (r & Hr & Hs & Hrd) rng i rng' Hb ->.
    apply best_for_tier, elem_of_select_tier in Hb as (e & He & _ & Ho). simpl in He.
    rewrite lookup_app_r, Nat.sub_diag in He by lia. simplify_eq/=.
    destruct Ho as [Ho|Ho].
    + unfold is_ready in Ho; simpl in Ho. bsimp. lia.
    + rewrite (Ho r) in Hrd; [done|set_solver|done].
  - intros t Ht. unfold is_ready; simpl. by apply Z.leb_le.
Qed.
End pool_facts.

(** ** The address set *)
Lemma elem_of_addrs p a : a ∈ addrs p <-> exists e, e ∈ state p /\ entry_key e = a.
Proof.
  unfold addrs. rewrite elem_of_list_to_set, list_elem_of_fmap. naive_solver.
Qed.

Lemma state_add px p :
  state (add px p) = if decide (p_key px ∈ addrs p) then state p else state p ++ [ready_entry px].
Proof.
  unfold add. destruct (existsb _ _) eqn:E.
  - apply existsb_elem in E as (e & ? & ?). bsimp. rewrite decide_True; [done|].
    apply elem_of_addrs. eauto.
  - rewrite decide_False; [done|]. intros (e & He & Hk)%elem_of_addrs.
    enough (existsb (fun e => bool_decide (entry_key e = p_key px)) (state p) = true) by congruence.
    apply existsb_elem. exists e. rewrite bool_decide_eq_true_2; done.
Qed.

Lemma addrs_add px p : addrs (add px p) = {[p_key px]} ∪ addrs p.
Proof.
  apply set_eq. intros a. rewrite elem_of_union, elem_of_singleton, !elem_of_addrs, state_add.
  case_decide as Hd.
  - apply elem_of_addrs in Hd. naive_solver.
  - setoid_rewrite elem_of_app. setoid_rewrite list_elem_of_singleton. split.
    + intros (e & [He | ->] & <-); [right; eauto|by left].
    + intros [-> | (e & ? & ?)]; [exists (ready_entry px); split; [by right|done]|].
      exists e. split; [by left|done].
Qed.

Lemma elem_of_remove h q p e :
  e ∈ state (remove h q p).2 <-> e ∈ state p /\ entry_key e <> (h, q).
Proof.
  unfold remove; simpl. rewrite elem_of_retain, negb_true_iff, bool_decide_eq_false. tauto.
Qed.
Lemma addrs_remove h q p : addrs (remove h q p).2 = addrs p ∖ {[(h, q)]}.
Proof.
  apply set_eq. intros a. rewrite elem_of_difference, elem_of_singleton, !elem_of_addrs.
  setoid_rewrite elem_of_remove. naive_solver.
Qed.

Lemma filter_length_lt {A} (f : A -> bool) l :
  (length (List.filter f l) <= length l)%nat /\
  (length (List.filter f l) = length l <-> forall x, x ∈ l -> f x = true).
Proof.
  induction l as [|x l [Hle IH]]; simpl.
  { split; [done|]. split; [intros _ y Hy; by apply elem_of_nil in Hy|done]. }
  destruct (f x) eqn:E; simpl; split; [lia| |lia|].
  - split; [intros Hl y [->|Hy]%elem_of_cons; [done|apply IH; [lia|done]]|].
    intros Ha. f_equal. apply IH. intros y Hy. apply Ha. by right.
  - split; [lia|]. intros Ha. rewrite (Ha x) in E; [done|by left].
Qed.
Lemma remove_flag h q p : (remove h q p).1 = bool_decide ((h, q) ∈ addrs p).
Proof.
  unfold remove; simpl. unfold len, retain.
  match goal with |- context [List.filter ?f (state p)] => set (g := f) end.
  destruct (filter_length_lt g (state p)) as [_ Hl]. rewrite Nat.eqb_sym.
  destruct (Nat.eqb_spec (length (List.filter g (state p))) (length (state p))) as [E|E]; simpl.
  - symmetry. apply bool_decide_eq_false. intros (e & He & Hk)%elem_of_addrs.
    specialize (proj1 Hl E e He). unfold g. by rewrite bool_decide_eq_true_2.
  - symmetry. apply bool_decide_eq_true. apply dec_stable. intros Hn. apply E, Hl.
    intros e He. unfold g. rewrite bool_decide_eq_false_2; [done|]. intros Hk. apply Hn.
    apply elem_of_addrs. eauto.
Qed.

Definition keys_distinct (p : Pool) : Prop := NoDup (map entry_key (state p)).

(** The pool's address set under direct mutation. [add] admits exactly one new address, is a
    no-op on a pooled one, keeps every entry and keeps addresses distinct; [remove] drops exactly
    the entries at the address, keeps the others in order and reports whether one was there. *)
Theorem add_remove_sound : forall px h q p,
  addrs (add px p) = {[p_key px]} ∪ addrs p /\
  (p_key px ∈ addrs p -> add px p = p) /\
  state p `prefix_of` state (add px p) /\
  (keys_distinct p -> keys_distinct (add px p)) /\
  addrs (remove h q p).2 = addrs p ∖ {[(h, q)]} /\
  (remove h q p).1 = bool_decide ((h, q) ∈ addrs p) /\
  (forall e, e ∈ state (remove h q p).2 <-> e ∈ state p /\ entry_key e <> (h, q)) /\
  (keys_distinct p -> keys_distinct (remove h q p).2).
Proof.
  intros px h q p. split_and!.
  - apply addrs_add.
  - intros (e & He & Hk)%elem_of_addrs. unfold add.
    rewrite (proj2 (existsb_elem _ _)); [done|]. exists e. by rewrite bool_decide_eq_true_2.
  - rewrite state_add. case_decide; [done|]. by apply prefix_app_r.
  - unfold keys_distinct. rewrite state_add. case_decide as Hn; [done|]. intros Hd.
    rewrite map_app, NoDup_app. split_and!; [done| |apply NoDup_singleton].
    intros k Hk ->%list_elem_of_singleton. apply Hn. unfold addrs. by apply elem_of_list_to_set.
  - apply addrs_remove.
  - apply remove_flag.
  - intros. apply elem_of_remove.
  - unfold keys_distinct, remove, retain; simpl. induction (state p) as [|e l IH]; simpl; [done|].
    intros [Hn Hd]%NoDup_cons. destruct (negb _); simpl; [|auto]. apply NoDup_cons. split; [|auto].
    intros (e' & Hk & He')%list_elem_of_fmap. apply Hn, list_elem_of_fmap. exists e'. split; [done|].
    apply (elem_of_retain (fun e => negb (bool_decide (entry_key e = (h, q))))) in He' as [_ ?]. done.
Qed.
Lemma add_remove_sound_witness :
  let p := from_proxies (H := ascii_case) (map proxy slow_fast) PoolConfig_default in
  (remove (V4 1) 80 p).1 = true /\ length (state (remove (V4 1) 80 p).2) = 1%nat /\
  keys_distinct (remove (V4 1) 80 p).2 /\ add (new (V4 2) 80 ∅) p = p.
Proof.
  intros p. pose proof (add_remove_sound (new (V4 2) 80 ∅) (V4 1) 80 p) as (_ & Ha & _ & _ & _ & _ & _ & Hr).
  split; [vm_compute; reflexivity|]. split; [vm_compute; reflexivity|]. split.
  - apply Hr. vm_compute. apply NoDup_cons. split; [|apply NoDup_singleton].
    intros Hi%list_elem_of_singleton. discriminate.
  - apply Ha. apply elem_of_addrs. exists (ready_entry (record_attempt (Some (f_of_Z 1)) None (add_type Http (Some High) (new (V4 2) 80 ∅)))).
    split; [right; left|reflexivity].
Defined.

(** The proxies [try_get] considers. *)
Definition matches_get (s : Scheme) (country : option str) (p : Proxy) : Prop :=
  serves s p = true /\
  forall cc, country = Some cc -> exists g, p_geo p = Some g /\ eq_ignore_ascii_case (c_code g) cc = true.

(** The non-blocking checkout takes the first best match, benched or not: it fails only when
    no pooled proxy serves the scheme in the country asked for; otherwise exactly the chosen
    entry leaves, order kept, and no other match ranks before it. *)
Theorem try_get_sound : forall s country p,
  match try_get s country p with
  | None => forall e, e ∈ state p -> ~ matches_get s country (proxy e)
  | Some (px, p') =>
      exists i e, state p !! i = Some e /\ px = proxy e /\ matches_get s country px /\
        p' = set_state (delete i (state p)) p /\
        forall j e', state p !! j = Some e' -> matches_get s country (proxy e') ->
          rank_cmp (prefer_connect (config p)) (state p) i j <> Gt
  end.
Proof.
  intros s country p. unfold try_get.
  match goal with |- context [indices ?f (state p)] => set (g := f) end.
  assert (forall i, i ∈ indices g (state p) <->
            exists e, state p !! i = Some e /\ matches_get s country (proxy e)) as Hg.
  { intros i. rewrite elem_of_indices. apply exist_proper. intros e. unfold g, matches_get.
    rewrite andb_true_iff. apply and_iff_compat_l, and_iff_compat_l.
    destruct country as [cc|]; [|naive_solver]. destruct (p_geo (proxy e)); naive_solver. }
  destruct (best_by_priority _ _ _) as [i|] eqn:E; unfold best_by_priority in E.
  - pose proof (min_by_elem _ _ _ E) as (e & Hi & Hm)%Hg. unfold vec_remove. rewrite Hi.
    exists i, e. split_and!; [done..|]. intros j e' Hj Hm'.
    eapply min_by_least; [apply _|exact E|]. apply Hg. eauto.
  - apply min_by_None in E. intros e [i Hi]%list_elem_of_lookup Hm.
    assert (i ∈ indices g (state p)) as Hc by (apply Hg; eauto).
    rewrite E in Hc. by apply elem_of_nil in Hc.
Qed.

Example try_get_fast :
  let p := from_proxies (H := ascii_case) (map proxy slow_fast) PoolConfig_default in
  option_map (fun r => p_key r.1) (try_get SHttp None p) = Some (V4 2, 80).
Proof. vm_compute. reflexivity. Qed.

(** ** A full session map *)
Definition list_order : HashOrder.
Proof.
  refine {| first_key m := (map_to_list m).*1 !! 0%nat |}. intros m Hm.
  destruct (map_to_list m) as [|[k v] l] eqn:E; [by apply map_to_list_empty_iff in E|].
  exists k. split; [done|]. apply elem_of_dom. exists v. apply elem_of_map_to_list. rewrite E. left.
Defined.

Section sticky_demo.
#[local] Existing Instance list_order.
Definition sticky_config : PoolConfig :=
  {| max_tries := 3; max_error_rate := f_ratio 1 2; max_resp_time := f_of_Z 8; min_req := 5;
     countries := None; strategy := Sticky; sticky_header := None; max_sessions := 1;
     fail_timeout := 30 * 10 ^ 9; prefer_connect := false; http_allowed_codes := None;
     verify_on_lease := None; verify_target := (lit "1.1.1.1", 443); max_clients := 1024 |}.
Definition sticky_pool : Pool :=
  mkPool slow_fast {[KIp (V4 9) := (V4 7, 80)]} 0 sticky_config false 0 0.
(** The faster proxy is withdrawn while the selection waits for the pool's lock. *)
Definition withdrawn (k : nat) (p : Pool) : Pool := if (k =? 2)%nat then (remove (V4 2) 80 p).2 else p.
End sticky_demo.
