(* ===== verification/PoolSteps.v ===== *)
(** * Tasks over the pool (src/server.rs, [Pool::get], [Pool::wait_ready], the importer)

    The asynchronous operations of the pool as a step relation: any number of tasks, each at a
    program counter, interleaved with the importer, the returns of proxies, the live mutators and
    the end of the source. A step is one critical section or one atomic access; between a push
    and the [notify_waiters] that follows it other tasks may run. Of [try_select] the step is the
    section under the pool's lock: what its other sections read and write, the cursor and the pins,
    may change between any two steps ([EDrift]), so the lock may be taken with an old pin and an old
    cursor ([stale_select] of Pool.v). *)
From S2P Require Import Prelude F64 Text Types Addr Proxy Pool.
Open Scope Z_scope.

(** What the pool relies on of [tokio::sync::Notify]: a token created by [notified] is woken by
    every later [notify_waiters], and stays woken. *)
Class Notify := {
  nstate : Type;
  token : Type;
  notify_new : nstate;
  notified : nstate -> token;
  notify_waiters : nstate -> nstate;
  woken : nstate -> token -> bool;
  issued : nstate -> token -> Prop;
  issued_notified n : issued n (notified n);
  issued_mono n t : issued n t -> issued (notify_waiters n) t;
  issued_woken n t : issued n t -> woken (notify_waiters n) t = true;
}.

(** A counter of calls is such a [Notify]. *)
Definition counter_notify : Notify.
Proof.
  refine {| nstate := nat; token := nat; notify_new := 0%nat; notified n := n; notify_waiters := S;
            woken n t := (t <? n)%nat; issued n t := (t <= n)%nat |}; intros.
  - lia.
  - lia.
  - by apply Nat.ltb_lt, Nat.lt_succ_r.
Defined.

Definition VERIFY_MAX_ATTEMPTS : nat := 8.

Section tasks.
Context `{HO : HashOrder} `{N : Notify} `{UC : UnicodeCase}.

(** Program counters of [get] (with the count of failed verifications) and [wait_ready]. *)
Inductive Pc :=
| GStart (attempts : nat)
| GSelect (waker : token) (attempts : nat)
| GVerify (px : Proxy) (attempts : nat)
| GNotify (attempts : nat)
| GExhausted (waker : token) (attempts : nat)
| GLast
| GWait (waker : token) (attempts : nat)
| GDone (r : option Proxy)
| RStart (n : nat)
| RCheck (waker : token) (n : nat)
| RWait (waker : token) (n : nat)
| RDone.
Record Task := { t_scheme : Scheme; t_key : ClientKey; t_pc : Pc }.
Definition at_pc (t : Task) (pc : Pc) : Task :=
  {| t_scheme := t_scheme t; t_key := t_key t; t_pc := pc |}.

(** [pending] counts the pushes, and the end of the source, whose [notify_waiters] is still to
    come. *)
Record World := mkWorld { w_pool : Pool; w_rng : Z; w_notify : nstate; w_pending : nat }.
Definition with_pool (p : Pool) (w : World) : World := mkWorld p (w_rng w) (w_notify w) (w_pending w).
Definition pushed (p : Pool) (w : World) : World := mkWorld p (w_rng w) (w_notify w) (S (w_pending w)).
Definition notify_all (w : World) : World :=
  mkWorld (w_pool w) (w_rng w) (notify_waiters (w_notify w)) (pred (w_pending w)).

(** [put_inner] notifies only when it pushed. *)
Definition put_pushes (px : Proxy) (w : World) : bool := negb (unhealthy (config (w_pool w)) px).
Definition put_failed_world (now : Z) (px : Proxy) (w : World) : World :=
  let p := put_failed now px (w_pool w) in
  if put_pushes px w then pushed p w else with_pool p w.
Definition put_ok_world (px : Proxy) (w : World) : World :=
  let p := put_ok px (w_pool w) in
  if put_pushes px w then pushed p w else with_pool p w.

(** After a failed verification: counted, and given up at the bound. *)
Definition after_failure (attempts : nat) : Pc :=
  if (VERIFY_MAX_ATTEMPTS <=? S attempts)%nat then GDone None else GStart (S attempts).

#[local] Arguments after_failure : simpl never.

(** One step of a task at clock [now]; [live] is what the probe of [verify_live] answers.
    [None] is a task that cannot move. *)
Definition task_step (now : Z) (live : bool) (t : Task) (w : World) : option (Task * World) :=
  match t_pc t with
  | GStart a => Some (at_pc t (GSelect (notified (w_notify w)) a), w)
  | GSelect k a =>
      let '(o, p, rng) := try_select now (t_scheme t) (t_key t) (w_pool w) (w_rng w) in
      let w := mkWorld p rng (w_notify w) (w_pending w) in
      match o with
      | Some px =>
          Some (at_pc t (if verify_on_lease (config p) then GVerify px a else GDone (Some px)), w)
      | None => Some (at_pc t (GExhausted k a), w)
      end
  | GVerify px a =>
      if live then Some (at_pc t (GDone (Some px)), w)
      else Some (at_pc t (if put_pushes px w then GNotify a else after_failure a),
                 put_failed_world now px w)
  | GNotify a => Some (at_pc t (after_failure a), notify_all w)
  | GExhausted k a => Some (at_pc t (if exhausted (w_pool w) then GLast else GWait k a), w)
  | GLast =>
      let '(o, p, rng) := try_select now (t_scheme t) (t_key t) (w_pool w) (w_rng w) in
      Some (at_pc t (GDone o), mkWorld p rng (w_notify w) (w_pending w))
  | GWait k a => if woken (w_notify w) k then Some (at_pc t (GStart a), w) else None
  | GDone _ => None
  | RStart n =>
      Some (at_pc t (if (n =? 0)%nat then RDone else RCheck (notified (w_notify w)) n), w)
  | RCheck k n =>
      Some (at_pc t (if (n <=? len (w_pool w))%nat || exhausted (w_pool w) then RDone
                     else RWait k n), w)
  | RWait k n => if woken (w_notify w) k then Some (at_pc t (RStart n), w) else None
  | RDone => None
  end.

(** The rest of the program's operations on the pool. *)
Inductive EnvOp :=
| EImport (px : Proxy) (* the importer's push *)
| EEnd (* the end of the source *)
| ENotify (* a pending notify_waiters *)
| EPutOk (px : Proxy) | EPutFailed (now : Z) (px : Proxy)
| EAdd (px : Proxy) | ERemove (h : IpAddr) (q : Z)
| ETryGet (s : Scheme) (country : option str)
(* the cursor and the pins as the sections of the other tasks' [try_select] leave them *)
| EDrift (cursor : Z) (pins : gmap ClientKey (IpAddr * Z)).

Definition env_step (op : EnvOp) (w : World) : World :=
  match op with
  | EImport px =>
      if country_ok px (countries (config (w_pool w))) then pushed (import px (w_pool w)) w else w
  | EEnd => pushed (set_exhausted (w_pool w)) w
  | ENotify => notify_all w
  | EPutOk px => put_ok_world px w
  | EPutFailed now px => put_failed_world now px w
  | EAdd px =>
      (* pushes and notifies under the lock *)
      if decide (p_key px ∈ addrs (w_pool w)) then w
      else notify_all (pushed (add px (w_pool w)) w)
  | ERemove h q => with_pool (remove h q (w_pool w)).2 w
  | ETryGet s c =>
      match try_get s c (w_pool w) with Some (_, p) => with_pool p w | None => w end
  | EDrift n m => with_pool (drifted n m (w_pool w)) w
  end.

Inductive step : list Task * World -> list Task * World -> Prop :=
| step_task ts i t now live w t' w' :
    ts !! i = Some t -> task_step now live t w = Some (t', w') ->
    step (ts, w) (<[i := t']> ts, w')
| step_spawn ts w s k n :
    step (ts, w) (ts ++ [{| t_scheme := s; t_key := k;
                            t_pc := match n with Some n => RStart n | None => GStart 0 end |}], w)
| step_env ts w op : step (ts, w) (ts, env_step op w).

(** The relation is executable: a schedule determines the run. *)
Inductive Event :=
| VTask (i : nat) (now : Z) (live : bool)
| VSpawn (s : Scheme) (k : ClientKey) (wait_for : option nat)
| VEnv (op : EnvOp).
Definition exec (ev : Event) (st : list Task * World) : option (list Task * World) :=
  match ev with
  | VTask i now live =>
      let? t := st.1 !! i in
      let? (t', w') := task_step now live t st.2 in
      Some (<[i := t']> st.1, w')
  | VSpawn s k n =>
      Some (st.1 ++ [{| t_scheme := s; t_key := k;
                        t_pc := match n with Some n => RStart n | None => GStart 0 end |}], st.2)
  | VEnv op => Some (st.1, env_step op st.2)
  end.
Fixpoint run (evs : list Event) (st : list Task * World) : option (list Task * World) :=
  match evs with
  | [] => Some st
  | ev :: evs => let? st := exec ev st in run evs st
  end.
Lemma run_steps evs st st' : run evs st = Some st' -> rtc step st st'.
Proof.
  revert st. induction evs as [|ev evs IH]; intros [ts w]; simpl; [by intros [= ->]; constructor|].
  destruct (exec ev (ts, w)) as [st1|] eqn:E; [|done]. intros Hr.
  eapply rtc_l, IH, Hr. destruct ev; simpl in E.
  - destruct (ts !! i) as [t|] eqn:Hi; [|done].
    destruct (task_step now live t w) as [[t' w']|] eqn:Hs; simplify_eq. by econstructor.
  - simplify_eq. constructor.
  - simplify_eq. constructor.
Qed.

Definition reachable (cfg : PoolConfig) (rng : Z) : list Task * World -> Prop :=
  rtc step ([], mkWorld (spawned cfg) rng notify_new 0).

(** What a waiting task waits for. *)
Definition awaited (t : Task) (p : Pool) : Prop :=
  match t_pc t with
  | GExhausted _ _ => exists e, e ∈ state p /\ serves (t_scheme t) (proxy e) = true
  | GWait _ _ => exhausted p = true \/ exists e, e ∈ state p /\ serves (t_scheme t) (proxy e) = true
  | RWait _ n => exhausted p = true \/ (n <= len p)%nat
  | _ => False
  end.
Definition waker_of (pc : Pc) : option token :=
  match pc with
  | GSelect k _ | GExhausted k _ | GWait k _ | RCheck k _ | RWait k _ => Some k
  | _ => None
  end.
Definition task_ok (w : World) (t : Task) : Prop :=
  (forall k, waker_of (t_pc t) = Some k ->
     issued (w_notify w) k /\
     (awaited t (w_pool w) -> woken (w_notify w) k = true \/ (0 < w_pending w)%nat)) /\
  match t_pc t with
  | GStart a | GSelect _ a | GVerify _ a | GNotify a | GExhausted _ a | GWait _ a =>
      (a < VERIFY_MAX_ATTEMPTS)%nat
  | _ => True
  end.

(** ** Waiting *)
Definition shrinks (p p' : Pool) : Prop :=
  (forall e, e ∈ state p' -> e ∈ state p) /\ (len p' <= len p)%nat /\
  (exhausted p' = true -> exhausted p = true).

(** How a step changes what waiting tasks see: all are woken, or the pool only shrank, or a
    notification is owed. *)
Definition world_rel (w w' : World) : Prop :=
  (w_notify w' = w_notify w /\ (w_pending w <= w_pending w')%nat /\
   (shrinks (w_pool w) (w_pool w') \/ (0 < w_pending w')%nat)) \/
  w_notify w' = notify_waiters (w_notify w).

Lemma shrinks_refl p : shrinks p p.
Proof. split; [by intros|]. by split. Qed.
Lemma shrinks_state p s : (forall e, e ∈ s -> e ∈ state p) -> (length s <= len p)%nat ->
  shrinks p (set_state s p).
Proof. intros Hs Hl. split; [done|]. by split. Qed.

Lemma awaited_shrinks t p p' : shrinks p p' -> awaited t p' -> awaited t p.
Proof.
  intros (Hs & Hl & Hx). unfold awaited. destruct (t_pc t); try done.
  - intros (e & ? & ?). eauto.
  - intros [|(e & ? & ?)]; [auto|eauto].
  - intros [|]; [auto|]. right. lia.
Qed.

Lemma task_ok_mono w w' t : world_rel w w' -> task_ok w t -> task_ok w' t.
Proof.
  intros Hr [Hk Ha]. split; [|done]. intros k Hw. specialize (Hk k Hw) as [Hi Hwake].
  destruct Hr as [(Hn & Hp & Hs) | Hn]; rewrite Hn.
  - split; [done|]. intros Haw. destruct Hs as [Hs|Hs]; [|by right].
    apply (awaited_shrinks _ _ _ Hs), Hwake in Haw as [|]; [by left|right; lia].
  - split; [by apply issued_mono|]. intros _. left. by apply issued_woken.
Qed.

Lemma try_select_shrinks now s key p rng o p' rng' :
  try_select now s key p rng = (o, p', rng') -> shrinks p p'.
Proof.
  destruct o as [px|].
  - intros (e & _ & _ & Hp & _ & Hx & _)%try_select_Some. split_and!.
    + intros e' He'. rewrite Hp. by right.
    + unfold len. rewrite Hp; simpl. lia.
    + by rewrite Hx.
  - intros [-> _]%try_select_None. apply shrinks_refl.
Qed.

Lemma put_rel (b : bool) p w :
  (b = false -> shrinks (w_pool w) p) -> world_rel w (if b then pushed p w else with_pool p w).
Proof. intros H. left. destruct b; simpl; (split_and!; [done|lia|]); [right; lia|auto]. Qed.
Lemma put_inner_unhealthy px b p : negb (unhealthy (config p) px) = false -> shrinks p (put_inner px b p).
Proof. intros E. apply negb_false_iff in E. unfold put_inner. rewrite E. by split_and!. Qed.

Lemma task_step_rel now live t w t' w' :
  task_step now live t w = Some (t', w') -> world_rel w w'.
Proof.
  assert (world_rel w w) as Hrefl by (left; split_and!; [done|done|left; apply shrinks_refl]).
  unfold task_step. destruct (t_pc t) eqn:Hpc; intros Hst; simplify_eq; try done.
  - destruct (try_select _ _ _ _ _) as [[o p] rng] eqn:E. apply try_select_shrinks in E.
    destruct o; simplify_eq; left; split_and!; auto; simpl; lia.
  - destruct live; simplify_eq; [done|]. unfold put_failed_world. apply put_rel.
    apply put_inner_unhealthy.
  - by right.
  - destruct (try_select _ _ _ _ _) as [[o p] rng] eqn:E. apply try_select_shrinks in E.
    simplify_eq; left; split_and!; auto; simpl; lia.
  - destruct (woken _ _); naive_solver.
  - destruct (woken _ _); naive_solver.
Qed.

Lemma env_step_rel op w : world_rel w (env_step op w).
Proof.
  assert (world_rel w w) as Hrefl by (left; split_and!; [done|done|left; apply shrinks_refl]).
  destruct op; simpl.
  - destruct (country_ok _ _); [|done]. left. split_and!; simpl; [done|lia|right; lia].
  - left. split_and!; simpl; [done|lia|right; lia].
  - by right.
  - apply put_rel, put_inner_unhealthy.
  - apply put_rel, put_inner_unhealthy.
  - case_decide; [done|by right].
  - left. split_and!; simpl; [done|done|left]. apply shrinks_state.
    + by intros e [_ ?]%elem_of_retain.
    + apply filter_length_lt.
  - destruct (try_get _ _ _) as [[px p]|] eqn:E; [|done].
    unfold try_get in E. destruct (best_by_priority _ _ _); [|done].
    destruct (vec_remove _ _) as [[e rest]|] eqn:Hv; [|done]. simplify_eq.
    apply vec_remove_perm in Hv. left. split_and!; simpl; [done|done|left].
    apply shrinks_state; [intros e' He'; rewrite Hv; by right|unfold len; rewrite Hv; simpl; lia].
  - left. split_and!; [done|done|left; by split_and!].
Qed.

Lemma after_failure_ok a :
  after_failure a = GDone None \/ after_failure a = GStart (S a) /\ (S a < VERIFY_MAX_ATTEMPTS)%nat.
Proof. unfold after_failure. destruct (Nat.leb_spec VERIFY_MAX_ATTEMPTS (S a)); auto. Qed.

Lemma task_step_ok now live t w t' w' :
  task_step now live t w = Some (t', w') -> task_ok w t -> task_ok w' t'.
Proof.
  unfold task_step, task_ok, awaited. intros Hst [Hk Ha].
  pose proof after_failure_ok as Haf. destruct (t_pc t) eqn:Hpc; simpl in *.
  - simplify_eq/=. split; [|done]. intros k [= <-]. split; [apply issued_notified|done].
  - destruct (try_select _ _ _ _ _) as [[[px|] p] rng] eqn:E.
    + simplify_eq/=. destruct (verify_on_lease _); simpl; (split; [done|]); auto.
    + apply try_select_None in E as [-> Hno]. simplify_eq/=. split; [|done].
      intros k [= <-]. split; [by apply Hk|]. intros (e & He & Hs). by rewrite (Hno e He) in Hs.
  - destruct live; simplify_eq/=; [done|]. destruct (put_pushes _ _); simpl; [by split|].
    destruct (Haf attempts) as [->|[-> ?]]; by split.
  - simplify_eq/=. destruct (Haf attempts) as [->|[-> ?]]; by split.
  - simplify_eq/=. destruct (exhausted (w_pool w')) eqn:Hx; simpl; [done|]. split; [|done].
    intros k Hw. specialize (Hk k Hw) as [Hi Hk]. split; [done|].
    intros [|He]; [congruence|]. by apply Hk.
  - destruct (try_select _ _ _ _ _) as [[o p] rng]. by simplify_eq/=.
  - destruct (woken _ _); simplify_eq/=. done.
  - done.
  - simplify_eq/=. destruct (n =? 0)%nat; simpl; [done|]. split; [|done].
    intros k [= <-]. split; [apply issued_notified|done].
  - simplify_eq/=. destruct (_ || _) eqn:Hb; simpl; [done|]. bsimp. split; [|done].
    intros k Hw. specialize (Hk k Hw) as [Hi Hk]. split; [done|].
    intros [|He]; [congruence|lia].
  - destruct (woken _ _); by simplify_eq/=.
  - done.
Qed.

Lemma step_ok s s' : step s s' -> Forall (task_ok s.2) s.1 -> Forall (task_ok s'.2) s'.1.
Proof.
  destruct 1 as [ts i t now live w t' w' Hi Hst|ts w s k n|ts w op]; simpl; intros Hok.
  - apply Forall_insert; [|eapply task_step_ok; [done|by eapply Forall_lookup_1]].
    eapply Forall_impl; [done|]. intros u. by eapply task_ok_mono, task_step_rel.
  - apply Forall_app. split; [done|]. apply Forall_singleton. split; [by destruct n|].
    destruct n; simpl; [done|unfold VERIFY_MAX_ATTEMPTS; lia].
  - eapply Forall_impl; [done|]. intros u. apply task_ok_mono, env_step_rel.
Qed.
Lemma reachable_ok cfg rng s : reachable cfg rng s -> Forall (task_ok s.2) s.1.
Proof.
  intros Hr. eapply (rtc_ind_r (fun s => Forall (task_ok s.2) s.1)), Hr; [by constructor|].
  intros s1 s2 _ Hst. by apply step_ok.
Qed.

(** No wakeup is lost. However the tasks, the importer and the mutators interleave, once
    every owed notification has been delivered a task of [get] still asleep means that the
    source is live and no pooled proxy serves its scheme, and a task of [wait_ready] still
    asleep that the source is live and the pool is below its size. *)
Theorem no_lost_wakeup : forall cfg rng ts w t,
  reachable cfg rng (ts, w) -> w_pending w = 0%nat -> t ∈ ts ->
  match t_pc t with
  | GWait k _ => woken (w_notify w) k = false ->
      exhausted (w_pool w) = false /\ forall e, e ∈ state (w_pool w) -> serves (t_scheme t) (proxy e) = false
  | RWait k n => woken (w_notify w) k = false ->
      exhausted (w_pool w) = false /\ (len (w_pool w) < n)%nat
  | _ => True
  end.
Proof.
  intros cfg rng ts w t Hr Hp Ht. apply reachable_ok in Hr; simpl in Hr.
  rewrite Forall_forall in Hr. specialize (Hr t Ht) as [Hk _]. unfold awaited in Hk.
  destruct (t_pc t) as [| | | | | |k a| | | |k n|]; try done; simpl in Hk;
    intros Hw; specialize (Hk k eq_refl) as [_ Hk].
  - split.
    + apply not_true_is_false. intros Hx. destruct Hk as [? | ?]; [by left|congruence|lia].
    + intros e He. apply not_true_is_false. intros Hs.
      destruct Hk as [? | ?]; [right; eauto|congruence|lia].
  - split.
    + apply not_true_is_false. intros Hx. destruct Hk as [? | ?]; [by left|congruence|lia].
    + apply Nat.nle_gt. intros Hl. destruct Hk as [? | ?]; [by right|congruence|lia].
Qed.

(** ** Termination of [get] *)

(** A bound on the steps a task still takes once the source has ended. *)
Definition rank (pc : Pc) : nat :=
  let left a := (8 * (VERIFY_MAX_ATTEMPTS - a))%nat in
  match pc with
  | GWait _ a => left a + 6 | GStart a => left a + 5 | GSelect _ a => left a + 4
  | GVerify _ a => left a + 3 | GNotify a => left a + 2 | GExhausted _ a => left a + 2
  | GLast => 1 | GDone _ => 0
  | RWait _ _ => 3 | RStart _ => 2 | RCheck _ _ => 1 | RDone => 0
  end%nat.

Lemma after_failure_rank a :
  (a < VERIFY_MAX_ATTEMPTS)%nat -> (rank (after_failure a) < rank (GNotify a))%nat.
Proof.
  intros Ha. unfold VERIFY_MAX_ATTEMPTS in *. pose proof (after_failure_ok a) as [->|[-> ?]];
    unfold VERIFY_MAX_ATTEMPTS in *; simpl rank; unfold VERIFY_MAX_ATTEMPTS; lia.
Qed.

Lemma task_step_rank now live t w t' w' :
  exhausted (w_pool w) = true -> task_ok w t -> task_step now live t w = Some (t', w') ->
  (rank (t_pc t') < rank (t_pc t))%nat /\ exhausted (w_pool w') = true.
Proof.
  intros Hx [_ Ha] Hst. unfold task_step in Hst.
  destruct (t_pc t) eqn:Hpc.
  - simplify_eq. unfold at_pc, t_pc, rank. split; [lia|done].
  - destruct (try_select _ _ _ _ _) as [[[px|] p] rng] eqn:E.
    + apply try_select_Some in E as (e & _ & _ & _ & _ & Hx' & _). simplify_eq. rewrite <- Hx in *.
      split; [|done]. unfold at_pc, t_pc, rank. destruct (verify_on_lease _); lia.
    + apply try_select_None in E as [-> _]. simplify_eq. split; [|done].
      unfold at_pc, t_pc, rank. lia.
  - pose proof (after_failure_rank attempts Ha) as Hr. unfold put_failed_world in Hst.
    destruct live; simplify_eq.
    + split; [|done]. unfold at_pc, t_pc, rank. lia.
    + split.
      * unfold at_pc, t_pc. destruct (put_pushes _ _); unfold rank in *; lia.
      * unfold put_failed, put_inner. destruct (put_pushes _ _), (unhealthy _ _); done.
  - simplify_eq. split; [|done]. by apply after_failure_rank.
  - rewrite Hx in Hst. simplify_eq. unfold at_pc, t_pc, rank. split; [lia|done].
  - destruct (try_select _ _ _ _ _) as [[o p] rng] eqn:E. simplify_eq. split; [simpl; lia|].
    destruct o; [apply try_select_Some in E as (e & _ & _ & _ & _ & Hx' & _)|].
    + simpl. by rewrite Hx'.
    + by apply try_select_None in E as [-> _].
  - destruct (woken _ _); simplify_eq. unfold at_pc, t_pc, rank. split; [lia|done].
  - done.
  - simplify_eq. unfold at_pc, t_pc, rank. destruct (n =? 0)%nat; (split; [lia|done]).
  - rewrite Hx, orb_true_r in Hst. simplify_eq. unfold at_pc, t_pc, rank. split; [lia|done].
  - destruct (woken _ _); simplify_eq. unfold at_pc, t_pc, rank. split; [lia|done].
  - done.
Qed.

Lemma task_step_exhausted now live t w t' w' : task_step now live t w = Some (t', w') -> exhausted (w_pool w') = exhausted (w_pool w).
Proof.
  assert (forall now s k p rng o p' rng', try_select now s k p rng = (o, p', rng') -> exhausted p' = exhausted p) as Hsel.
  { intros now0 s k p rng o p' rng' E. destruct o; [by apply try_select_Some in E as (e & _ & _ & _ & _ & Hx & _)|by apply try_select_None in E as [-> _]]. }
  unfold task_step. intros E. destruct (t_pc t); try (simplify_eq; done).
  - destruct (try_select _ _ _ _ _) as [[o p] r] eqn:Es. apply Hsel in Es. by destruct o; simplify_eq.
  - destruct live; simplify_eq; [done|]. unfold put_failed_world, put_failed, put_inner. by destruct (put_pushes _ _), (unhealthy _ _).
  - destruct (try_select _ _ _ _ _) as [[o p] r] eqn:Es. apply Hsel in Es. by simplify_eq.
  - destruct (woken _ _); by simplify_eq.
  - destruct (woken _ _); by simplify_eq.
Qed.
Lemma env_step_exhausted op w :
  exhausted (w_pool w) = true -> exhausted (w_pool (env_step op w)) = true.
Proof.
  intros Hx. destruct op; simpl; try done.
  - unfold import. by destruct (country_ok _ _).
  - unfold put_ok_world, put_ok, put_inner. by destruct (put_pushes _ _), (unhealthy _ _).
  - unfold put_failed_world, put_failed, put_inner. by destruct (put_pushes _ _), (unhealthy _ _).
  - case_decide; [done|]. simpl. unfold add. by destruct (existsb _ _).
  - destruct (try_get _ _ _) as [[px p]|] eqn:E; [|done]. unfold try_get in E.
    destruct (best_by_priority _ _ _); [|done]. destruct (vec_remove _ _) as [[? ?]|]; by simplify_eq.
Qed.

(** A run in which task [i] takes [n] steps, everything else moving in between at will. *)
Inductive own_steps (i : nat) : nat -> list Task * World -> list Task * World -> Prop :=
| os_refl s : own_steps i 0 s s
| os_own ts t now live w t' w' n s :
    ts !! i = Some t -> task_step now live t w = Some (t', w') ->
    own_steps i n (<[i := t']> ts, w') s -> own_steps i (S n) (ts, w) s
| os_other ts j t now live w t' w' n s :
    j <> i -> ts !! j = Some t -> task_step now live t w = Some (t', w') ->
    own_steps i n (<[j := t']> ts, w') s -> own_steps i n (ts, w) s
| os_env ts w op n s :
    own_steps i n (ts, env_step op w) s -> own_steps i n (ts, w) s.

Lemma own_steps_rank i n s s' :
  own_steps i n s s' -> Forall (task_ok s.2) s.1 -> exhausted (w_pool s.2) = true ->
  forall t, s.1 !! i = Some t ->
  exists t', s'.1 !! i = Some t' /\ (n + rank (t_pc t') <= rank (t_pc t))%nat /\
    Forall (task_ok s'.2) s'.1 /\ exhausted (w_pool s'.2) = true.
Proof.
  induction 1 as [s|ts t now live w t' w' n s Hi Hst _ IH|ts j t now live w t' w' n s Hj Hi Hst _ IH
                 |ts w op n s _ IH]; simpl in *; intros Hok Hx u Hu.
  - eauto.
  - simplify_eq. pose proof (Forall_lookup_1 _ _ _ _ Hok Hi) as Ht.
    destruct (task_step_rank _ _ _ _ _ _ Hx Ht Hst) as [Hlt Hx'].
    pose proof (step_ok _ _ (step_task _ _ _ _ _ _ _ _ Hi Hst) Hok) as Hok'. simpl in Hok'.
    destruct (IH Hok' Hx' t') as (v & ? & ? & ?);
      [by eapply list_lookup_insert_eq, lookup_lt_Some|]. exists v. split; [done|]. split; [lia|done].
  - pose proof (Forall_lookup_1 _ _ _ _ Hok Hi) as Ht.
    destruct (task_step_rank _ _ _ _ _ _ Hx Ht Hst) as [_ Hx'].
    pose proof (step_ok _ _ (step_task _ _ _ _ _ _ _ _ Hi Hst) Hok) as Hok'. simpl in Hok'.
    apply (IH Hok' Hx'). by rewrite list_lookup_insert_ne.
  - apply IH; [|by apply env_step_exhausted|done].
    exact (step_ok _ _ (step_env ts w op) Hok).
Qed.

(** C39: [get] and [wait_ready] terminate once the source has ended. Whatever the other tasks and
    the mutators do, a task started by then takes at most 70 steps of its own (at most eight
    verifications); if it has stopped and no notification is owed, it has returned. *)
Theorem get_terminates : forall cfg rng ts w i t n ts' w',
  reachable cfg rng (ts, w) -> exhausted (w_pool w) = true -> ts !! i = Some t ->
  own_steps i n (ts, w) (ts', w') ->
  (n <= 70)%nat /\
  exists t', ts' !! i = Some t' /\
    ((forall now live, task_step now live t' w' = None) -> w_pending w' = 0%nat ->
     t_pc t' = RDone \/ exists r, t_pc t' = GDone r).
Proof.
  intros cfg rng ts w i t n ts' w' Hr Hx Ht Hs. apply reachable_ok in Hr.
  destruct (own_steps_rank _ _ _ _ Hs Hr Hx t Ht) as (t' & Ht' & Hn & Hok & Hx'). simpl in *.
  split; [|exists t'; split; [done|]].
  - assert (rank (t_pc t) <= 70)%nat; [|lia]. clear. destruct (t_pc t); simpl;
      unfold VERIFY_MAX_ATTEMPTS; lia.
  - intros Hstop Hp. pose proof (Forall_lookup_1 _ _ _ _ Hok Ht') as [Hk _].
    specialize (Hstop 0 true). unfold task_step, awaited in *. destruct (t_pc t') eqn:Hpc; try done; eauto.
    + by destruct (try_select _ _ _ _ _) as [[[px|] p] r].
    + by destruct (try_select _ _ _ _ _) as [[[px|] p] r].
    + destruct (Hk _ eq_refl) as [_ Hw]. destruct (woken _ _); [done|].
      destruct Hw as [? | ?]; [by left|done|lia].
    + destruct (Hk _ eq_refl) as [_ Hw]. destruct (woken _ _); [done|].
      destruct Hw as [? | ?]; [by left|done|lia].
Qed.

(** ** Ownership *)
Definition held (t : Task) : list Proxy :=
  match t_pc t with GVerify px _ | GDone (Some px) => [px] | _ => [] end.
Definition lent (ts : list Task) : list Proxy := ts ≫= held.

(** A proxy lost in a step: only an unhealthy one, and it is counted. *)
Definition lost_ok (p p' : Pool) (gone : list Proxy) : Prop :=
  (gone = [] /\ evictions p' = evictions p) \/
  exists px, gone = [px] /\ unhealthy (config p) px = true /\ evictions p' = u64 (evictions p + 1).

Lemma task_step_held now live t w t' w' :
  task_step now live t w = Some (t', w') ->
  exists gone, proxies (w_pool w) ++ held t ≡ₚ gone ++ proxies (w_pool w') ++ held t' /\
    lost_ok (w_pool w) (w_pool w') gone.
Proof.
  assert (forall now s k p rng o p' rng', try_select now s k p rng = (o, p', rng') ->
    proxies p ≡ₚ proxies p' ++ option_list o /\ evictions p' = evictions p) as Hsel.
  { intros now' s k p rng o p' rng' E. destruct o as [px|].
    - apply try_select_Some in E as (e & -> & _ & Hp & _ & _ & Hev & _). split; [|done].
      unfold proxies, proxies_of. by rewrite Hp, Permutation_app_comm.
    - apply try_select_None in E as [-> _]. simpl. by rewrite app_nil_r. }
  assert (forall a, held (at_pc t (after_failure a)) = []) as Haf.
  { intros a. by destruct (after_failure_ok a) as [E|[E _]]; unfold held, at_pc, t_pc; rewrite E. }
  unfold task_step. intros Hst.
  assert (forall pc, t_pc t = pc -> held t = match pc with GVerify px _ | GDone (Some px) => [px] | _ => [] end)
    as Hh by (by intros ? <-).
  destruct (t_pc t) eqn:Hpc; rewrite (Hh _ eq_refl).
  all: try (simplify_eq; exists []; (split; [done|by left])).
  - destruct (try_select _ _ _ _ _) as [[o p] r] eqn:E. apply Hsel in E as [E Hev].
    exists []. destruct o; simplify_eq; (split; [|by left]); simpl in *; rewrite !app_nil_r in *; [|done].
    by destruct (verify_on_lease _).
  - destruct live; simplify_eq; [exists []; split; [done|by left]|].
    unfold put_pushes, put_failed_world, put_pushes, put_failed, put_inner.
    destruct (unhealthy _ px) eqn:Hu; simpl.
    + exists [px]. rewrite Haf, app_nil_r. split; [by rewrite Permutation_app_comm|].
      right. by exists px.
    + exists []. split; [|by left].
      unfold proxies, proxies_of; simpl. rewrite map_app; simpl. by rewrite app_nil_r.
  - simplify_eq. exists []. rewrite Haf. split; [done|by left].
  - simplify_eq. exists []. split; [|by left]. by destruct (exhausted _).
  - destruct (try_select _ _ _ _ _) as [[o p] r] eqn:E. apply Hsel in E as [E Hev]. simplify_eq.
    exists []. simpl. rewrite app_nil_r. split; [by destruct o|by left].
  - destruct (woken _ _); simplify_eq. exists []. split; [done|by left].
  - simplify_eq. exists []. split; [|by left]. by destruct (n =? 0)%nat.
  - simplify_eq. exists []. split; [|by left]. by destruct (_ || _).
  - destruct (woken _ _); simplify_eq. exists []. split; [done|by left].
Qed.

(** A proxy is never shared and never lost. In every step of every task the pooled proxies
    together with those out on loan stay the same, as a multiset, so no proxy is handed to two
    clients; the one exception is a proxy that failed its verification and is unhealthy, which
    leaves, counted as an eviction. *)
Theorem checkout_conserves : forall ts i t now live w t' w',
  ts !! i = Some t -> task_step now live t w = Some (t', w') ->
  exists gone, proxies (w_pool w) ++ lent ts ≡ₚ gone ++ proxies (w_pool w') ++ lent (<[i := t']> ts) /\
    lost_ok (w_pool w) (w_pool w') gone.
Proof.
  intros ts i t now live w t' w' Hi Hst.
  destruct (task_step_held _ _ _ _ _ _ Hst) as (gone & Hp & Hg). exists gone. split; [|done].
  rewrite <- (take_drop_middle ts i t) at 1 by done.
  rewrite (insert_take_drop ts i t') by (by eapply lookup_lt_Some).
  unfold lent. rewrite !bind_app, !bind_cons.
  rewrite (Permutation_app_swap_app (take i ts ≫= held)).
  rewrite (Permutation_app_swap_app (take i ts ≫= held)). rewrite !app_assoc.
  rewrite app_assoc in Hp. by rewrite Hp.
Qed.
End tasks.

(** ** Concrete runs *)
Section run.
#[local] Existing Instance list_order.
#[local] Existing Instance counter_notify.
#[local] Existing Instance ascii_case.

Definition demo_proxy : Proxy := add_type Http (Some High) (new (V4 16843009) 8080 ∅).
Definition demo_key : ClientKey := KIp (V4 1).
Definition demo_task (pc : Pc) : Task := {| t_scheme := SHttp; t_key := demo_key; t_pc := pc |}.
Definition demo_world (entries : list Pooled) (over : bool) : World :=
  let p := set_state entries (spawned PoolConfig_default) in
  mkWorld (if over then set_exhausted p else p) rand_seed 0%nat 0.

Lemma no_lost_wakeup_witness :
  let t := demo_task (GWait 0%nat 0) in
  reachable PoolConfig_default rand_seed ([t], demo_world [] false) /\
  (woken (Notify := counter_notify) 0%nat 0%nat = false -> exhausted (w_pool (demo_world [] false)) = false).
Proof.
  intros t.
  assert (reachable PoolConfig_default rand_seed ([t], demo_world [] false)) as H.
  { apply (run_steps [VSpawn SHttp demo_key None; VTask 0 0 true; VTask 0 0 true; VTask 0 0 true]).
    vm_compute. reflexivity. }
  split; [exact H|]. intros Hw.
  exact (proj1 (no_lost_wakeup PoolConfig_default rand_seed [t] (demo_world [] false) t H eq_refl
                  ltac:(left) Hw)).
Defined.

Lemma drained_reachable :
  reachable PoolConfig_default rand_seed ([demo_task (GStart 0)], mkWorld (set_exhausted (spawned PoolConfig_default)) rand_seed 1%nat 0).
Proof.
  eapply rtc_l; [apply (step_env _ _ EEnd)|]. eapply rtc_l; [apply (step_env _ _ ENotify)|].
  eapply rtc_l; [apply (step_spawn _ _ SHttp demo_key None)|]. apply rtc_refl.
Qed.
Lemma get_terminates_witness :
  exists w', own_steps 0 4 ([demo_task (GStart 0)], mkWorld (set_exhausted (spawned PoolConfig_default)) rand_seed 1%nat 0)
               ([demo_task (GDone None)], w') /\ (4 <= 70)%nat.
Proof.
  set (w := mkWorld _ _ _ _).
  assert (own_steps 0 4 ([demo_task (GStart 0)], w) ([demo_task (GDone None)], w)) as H.
  { do 4 (eapply (os_own _ _ _ 0 true); [reflexivity|vm_compute; reflexivity|]; cbn [insert list_insert]).
    apply os_refl. }
  exists w. split; [exact H|].
  exact (proj1 (get_terminates _ _ _ _ 0 _ 4 _ _ drained_reachable eq_refl eq_refl H)).
Defined.

Lemma checkout_conserves_witness :
  exists t' w', task_step 0 true (demo_task (GSelect (N := counter_notify) 0%nat 0)) (demo_world [ready_entry demo_proxy] true)
                  = Some (t', w') /\
    exists gone, [demo_proxy] ≡ₚ gone ++ proxies (w_pool w') ++ lent [t'].
Proof.
  eexists _, _. split; [vm_compute; reflexivity|].
  destruct (checkout_conserves [demo_task (GSelect (N := counter_notify) 0%nat 0)] 0 _ 0 true
              (demo_world [ready_entry demo_proxy] true) _ _ eq_refl eq_refl) as (gone & H & _).
  exists gone. exact H.
Defined.

(** The deduplication of [add] does not extend to what is on loan: an address checked out, added
    again by the watcher or the re-check loop, then returned, is pooled twice. *)
Theorem checkout_add_duplicates :
  exists ts w, reachable PoolConfig_default rand_seed (ts, w) /\ ~ keys_distinct (w_pool w) /\
    proxies (w_pool w) = [demo_proxy; demo_proxy].
Proof.
  assert (forall w, proxies (w_pool w) = [demo_proxy; demo_proxy] -> ~ keys_distinct (w_pool w)) as Hd.
  { intros w E Hn. assert (map entry_key (state (w_pool w)) = map p_key (proxies (w_pool w))) as Hm.
    { unfold proxies, proxies_of. by rewrite map_map. }
    unfold keys_distinct in Hn. rewrite Hm, E in Hn. apply NoDup_cons in Hn as [Hn _]. apply Hn. left. }
  set (evs := [VEnv (EImport demo_proxy); VSpawn SHttp demo_key None; VTask 0 0 true; VTask 0 0 true;
               VEnv (EAdd demo_proxy); VEnv (EPutOk demo_proxy)]).
  set (s0 := (@nil Task, mkWorld (spawned PoolConfig_default) rand_seed notify_new 0)).
  assert (option_map (fun s => proxies (w_pool s.2)) (run evs s0) = Some [demo_proxy; demo_proxy]) as E
    by (vm_compute; reflexivity).
  destruct (run evs s0) as [[ts w]|] eqn:Hr; [|done]. injection E as E. exists ts, w.
  split_and!; [by apply (run_steps evs)|by apply Hd|done].
Qed.
End run.
