(* ===== verification/Holds.v ===== *)
(** * What a pool is filled with is what is taken from it

    An invariant of every proxy in a pool and in the hands of its tasks, kept by every step of
    PoolSteps.v, for any property of proxies that those brought in have. *)
From S2P Require Import Prelude F64 Text Types Addr Proxy Pool PoolSteps.
Open Scope Z_scope.

Section provenance.
Context `{HO : HashOrder} `{N : Notify} `{UC : UnicodeCase}.
Variable cfg : PoolConfig.
(** A property of proxies that every proxy brought into the pool has. *)
Variable S : Proxy -> Prop.
Definition brings (op : EnvOp) : Prop :=
  match op with
  | EImport px => country_ok px (countries cfg) = true -> S px
  | EPutOk px | EPutFailed _ px | EAdd px => S px
  | _ => True
  end.
Definition brings_ev (ev : Event) : Prop := match ev with VEnv op => brings op | _ => True end.
Definition task_holds (t : Task) : Prop := forall px, px ∈ held t -> S px /\ serves (t_scheme t) px = true.
Definition pool_holds (p : Pool) : Prop := config p = cfg /\ forall px, px ∈ proxies p -> S px.

Lemma proxies_push e p : proxies (push e p) = proxies p ++ [proxy e].
Proof. unfold proxies, proxies_of, push. cbn. by rewrite map_app. Qed.
Lemma pool_holds_push px b p : S px -> pool_holds p -> pool_holds (push {| proxy := px; blocked_until := b |} p).
Proof.
  intros Hs [Hc Hp]. split; [done|]. intros x. rewrite proxies_push, elem_of_app, list_elem_of_singleton.
  intros [?| ->]; [by apply Hp|done].
Qed.
Lemma pool_holds_sub p p' : config p' = config p -> (forall e, e ∈ state p' -> e ∈ state p) -> pool_holds p -> pool_holds p'.
Proof.
  intros Hc Hsub [Hcfg Hp]. split; [by rewrite Hc|]. intros x (e & -> & He)%list_elem_of_fmap.
  apply Hp, list_elem_of_fmap. exists e. split; [done|]. by apply Hsub.
Qed.
Lemma pool_holds_put px b p : S px -> pool_holds p -> pool_holds (put_inner px b p).
Proof. intros Hs Hp. unfold put_inner. case_match; [by eapply pool_holds_sub|by apply pool_holds_push]. Qed.
Lemma pool_holds_world (b : bool) p w : pool_holds p -> pool_holds (w_pool (if b then pushed p w else with_pool p w)).
Proof. by destruct b. Qed.
Lemma pool_holds_env op w : brings op -> pool_holds (w_pool w) -> pool_holds (w_pool (env_step op w)).
Proof.
  intros Hb Hp. pose proof Hp as [Hc _]. destruct op as [px| | |px|now px|px|h q|s c|n m]; cbn [env_step].
  - rewrite Hc. destruct (country_ok px (countries cfg)) eqn:E; [|done]. cbn. unfold import. rewrite Hc, E.
    apply pool_holds_push; [by apply Hb|done].
  - by apply (pool_holds_sub (w_pool w)).
  - done.
  - by apply pool_holds_world, pool_holds_put.
  - by apply pool_holds_world, pool_holds_put.
  - case_decide as Hd; [done|]. cbn. unfold add. destruct (existsb _ _); [done|]. by apply pool_holds_push.
  - apply (pool_holds_sub (w_pool w)); [done| |done]. by intros e [_ ?]%elem_of_retain.
  - destruct (try_get s c (w_pool w)) as [[px p]|] eqn:E; [|done]. cbn. unfold try_get in E.
    destruct (best_by_priority _ _ _); [|done]. destruct (vec_remove _ _) as [[e rest]|] eqn:Hv; [|done]. simplify_eq.
    apply vec_remove_perm in Hv. apply (pool_holds_sub (w_pool w)); [done| |done]. intros e' He'. rewrite Hv. by right.
  - by apply (pool_holds_sub (w_pool w)).
Qed.

Lemma selected_holds now s k p rng o p' rng' : try_select now s k p rng = (o, p', rng') -> pool_holds p ->
  pool_holds p' /\ forall px, o = Some px -> S px /\ serves s px = true.
Proof.
  intros E Hp. destruct o as [px|].
  - apply try_select_Some in E as (e & -> & [Hs _] & Hperm & Hc & _). split.
    + apply (pool_holds_sub p); [done| |done]. intros e' He'. rewrite Hperm. by right.
    + intros x [= <-]. split; [|exact Hs]. apply Hp, list_elem_of_fmap. exists e. split; [done|]. rewrite Hperm. by left.
  - apply try_select_None in E as [-> _]. done.
Qed.
Lemma task_step_holds now live t w t' w' : task_step now live t w = Some (t', w') ->
  task_holds t -> pool_holds (w_pool w) -> task_holds t' /\ pool_holds (w_pool w').
Proof.
  intros E Ht Hp. assert (forall pc, (forall px, px ∈ held (at_pc t pc) -> px ∈ held t) -> task_holds (at_pc t pc)) as Hsub.
  { intros pc Hpc px Hin. by apply Ht, Hpc. }
  assert (forall a, held (at_pc t (after_failure a)) = []) as Haf.
  { intros a. by destruct (after_failure_ok a) as [E0|[E0 _]]; unfold held, at_pc, t_pc; rewrite E0. }
  unfold task_step in E. destruct (t_pc t) as [a|k a|px a|a|k a| |k a|o|n|k n|k n|] eqn:Hpc.
  - simplify_eq. split; [|done]. apply Hsub. by intros px ?%elem_of_nil.
  - destruct (try_select _ _ _ _ _) as [[o p] rng] eqn:Es. pose proof (selected_holds _ _ _ _ _ _ _ _ Es Hp) as [Hp' Ho].
    destruct o as [px|]; simplify_eq; (split; [|exact Hp']).
    + intros x Hx. destruct (Ho px eq_refl) as [H1 H2].
      assert (x = px) as -> by (destruct (verify_on_lease _); by apply list_elem_of_singleton in Hx). by split.
    + by intros x ?%elem_of_nil.
  - assert (px ∈ held t) as Hin by (unfold held; rewrite Hpc; left). destruct (Ht px Hin) as [HS _].
    destruct live; simplify_eq; split.
    + apply Hsub. intros x ->%list_elem_of_singleton. done.
    + done.
    + apply Hsub. intros x Hx. destruct (put_pushes px w); [by apply elem_of_nil in Hx|]. rewrite Haf in Hx. by apply elem_of_nil in Hx.
    + by apply pool_holds_world, pool_holds_put.
  - simplify_eq. split; [|done]. intros x Hx. rewrite Haf in Hx. by apply elem_of_nil in Hx.
  - simplify_eq. split; [|done]. intros x Hx. destruct (exhausted _); by apply elem_of_nil in Hx.
  - destruct (try_select _ _ _ _ _) as [[o p] rng] eqn:Es. pose proof (selected_holds _ _ _ _ _ _ _ _ Es Hp) as [Hp' Ho].
    simplify_eq. split; [|exact Hp']. intros x Hx. destruct o as [px|]; [|by apply elem_of_nil in Hx].
    apply list_elem_of_singleton in Hx as ->. by apply Ho.
  - destruct (woken _ _); [|done]. simplify_eq. split; [|done]. by intros x ?%elem_of_nil.
  - done.
  - simplify_eq. split; [|done]. intros x Hx. destruct (n =? 0)%nat; by apply elem_of_nil in Hx.
  - simplify_eq. split; [|done]. intros x Hx. destruct (_ || _); by apply elem_of_nil in Hx.
  - destruct (woken _ _); [|done]. simplify_eq. split; [|done]. by intros x ?%elem_of_nil.
  - done.
Qed.
Lemma run_holds evs st st' : Forall brings_ev evs -> run evs st = Some st' ->
  Forall task_holds st.1 -> pool_holds (w_pool st.2) -> Forall task_holds st'.1 /\ pool_holds (w_pool st'.2).
Proof.
  intros Hb. revert st. induction Hb as [|ev evs Hev _ IH]; intros [ts w] E Ht Hp; [by injection E as <-|].
  cbn in E. destruct (exec ev (ts, w)) as [[ts1 w1]|] eqn:Ex; [|done]. cbn in E, Ht, Hp.
  apply (IH (ts1, w1) E); destruct ev as [i now live|s k n|op]; cbn in Ex.
  all: try (destruct (ts !! i) as [t|] eqn:Hi; [|done]; cbn in Ex; destruct (task_step now live t w) as [[t' w']|] eqn:Hst; [|done];
    simplify_eq; pose proof (task_step_holds _ _ _ _ _ _ Hst (Forall_lookup_1 _ _ _ _ Ht Hi) Hp) as [H1 H2]; cbn).
  - by apply Forall_insert.
  - simplify_eq. cbn. apply Forall_app_2; [done|]. apply Forall_cons_2; [|constructor]. intros x Hx. by destruct n; apply elem_of_nil in Hx.
  - simplify_eq. done.
  - done.
  - simplify_eq. done.
  - simplify_eq. by apply pool_holds_env.
Qed.
End provenance.
