(* ===== verification/Http.v ===== *)
(** * HTTP heads as the source reads and rewrites them (src/server.rs, src/negotiator.rs)

    The byte-level helpers of the relay (header lookup, stripping, injection, status parsing,
    [host:port] splitting) and the [CONNECT] request, with their exact effect on any input. *)
From S2P Require Import Prelude Text Types Addr Utils Proxy.
Open Scope Z_scope.

(** ** Operations *)
Definition inject_header (raw header_line : str) : str :=
  match position crlf raw with
  | Some pos => take (pos + 2) raw ++ header_line ++ drop (pos + 2) raw
  | None => raw
  end.

(** Is [line] a header line whose lower-cased text starts with [prefix]? *)
Definition header_prefix (name : str) : str := to_ascii_lowercase name ++ lit ":".
Definition is_header_line (prefix line : str) : bool := starts_with prefix (to_ascii_lowercase line).

(** [strip_header]'s loop; every round consumes a CRLF, so the length of the text is fuel
    enough. *)
Fixpoint strip_loop (prefix : str) (fuel : nat) (first : bool) (out rest : str) : str :=
  match fuel with
  | O => out ++ rest
  | S fuel =>
      match position crlf rest with
      | Some pos =>
          let advance := (pos + 2)%nat in
          let is_target := negb first && is_header_line prefix (from_utf8_lossy (take pos rest)) in
          let out := if is_target then out else out ++ take advance rest in
          strip_loop prefix fuel false out (drop advance rest)
      | None => out ++ rest
      end
  end.
Definition strip_header (raw name : str) : str :=
  strip_loop (header_prefix name) (S (length raw)) true [] raw.

Definition header_value (raw name : str) : option str :=
  let text := from_utf8_lossy raw in
  let? l := List.find (is_header_line (header_prefix name)) (drop 1 (lines text)) in
  Some (trim (drop (length name + 1) l)).

Definition parse_http_status (head : str) : Z :=
  default 0 (let? s := from_utf8 head in
             let? c := split_whitespace s !! 1%nat in parse_u16 c).

Definition request_has_body (raw : str) : bool :=
  match header_value raw (lit "Transfer-Encoding") with
  | Some _ => true
  | None =>
      match header_value raw (lit "Content-Length") with
      | Some v => match parse_u64 (trim v) with Some n => 0 <? n | None => true end
      | None => false
      end
  end.

Definition split_host_port (s : str) (dflt : Z) : str * Z :=
  let plain :=
    match rsplit_once ":"%char s with
    | Some ((_ :: _) as h, p) => (h, default dflt (parse_u16 p))
    | _ => (s, dflt)
    end in
  match strip_prefix (lit "[") s with
  | Some rest =>
      match split_once (lit "]:") rest with
      | Some (h, p) => (h, default dflt (parse_u16 p))
      | None => match strip_suffix (lit "]") rest with Some h => (h, dflt) | None => plain end
      end
  | None => plain
  end.

(** The credentials line shared by [CONNECT] and forwarded requests. *)
Definition basic_credentials (c : Credentials) : str :=
  base64_encode (username c ++ lit ":" ++ password c).
Definition proxy_auth_line (c : Credentials) : str :=
  lit "Proxy-Authorization: Basic " ++ basic_credentials c ++ crlf.

Definition strip_brackets (host : str) : str :=
  default host (let? h := strip_prefix (lit "[") host in strip_suffix (lit "]") h).
Definition connect_authority (host : str) (port : Z) : str * str :=
  let bare := strip_brackets host in
  if contains bare (lit ":")
  then (lit "[" ++ bare ++ lit "]:" ++ show_uint port, lit "[" ++ bare ++ lit "]")
  else (bare ++ lit ":" ++ show_uint port, bare).
Definition connect_request (host : str) (port : Z) (creds : option Credentials) : str :=
  let '(authority, host_hdr) := connect_authority host port in
  let auth := match creds with Some c => proxy_auth_line c | None => [] end in
  lit "CONNECT " ++ authority ++ lit " HTTP/1.1" ++ crlf ++
  lit "Host: " ++ host_hdr ++ crlf ++
  lit "User-Agent: PxBroker/" ++ pkg_version ++ lit "/" ++ crlf ++
  auth ++ lit "Connection: keep-alive" ++ crlf ++ crlf.

(** ** CRLF-separated text

    Any text is uniquely a list of CRLF-terminated pieces and an unterminated rest. *)
Definition unterminated (s : str) : Prop := contains s crlf = false.
Definition terminate (s : str) : str := s ++ crlf.
Definition framed (ls : list str) (rest : str) : str := concat (map terminate ls) ++ rest.

Lemma position_None p s : contains s p = false <-> position p s = None.
Proof.
  unfold contains. rewrite bool_decide_eq_false. destruct (position p s); [|naive_solver].
  split; [|done]. intros []. eauto.
Qed.

Lemma contains_cons x s p : contains (x :: s) p = false -> contains s p = false.
Proof.
  intros H. apply not_true_is_false. intros (a & b & ->)%contains_true.
  pose proof (contains_app p (x :: a) b). simpl in *. congruence.
Qed.

Lemma position_crlf l r : unterminated l -> position crlf (l ++ crlf ++ r) = Some (length l).
Proof.
  unfold unterminated. induction l as [|x l IH]; intros Hl.
  - cbn [app length]. assert (starts_with crlf (crlf ++ r) = true) as E by apply starts_with_app.
    cbn [crlf app] in E. unfold crlf in *. cbn [app position]. cbn [app] in E. by rewrite E.
  - pose proof (contains_cons _ _ _ Hl). cbn [app position].
    destruct (starts_with crlf _) eqn:E; [|by rewrite IH].
    apply starts_with_true in E as [q E]. exfalso. unfold crlf in E. simpl in E. injection E as -> E.
    destruct l as [|y l]; simpl in E; injection E as E1 E2; [discriminate E1|subst y].
    pose proof (contains_app crlf [] l) as Hc. unfold crlf in *. simpl in Hc, Hl. congruence.
Qed.

Lemma framed_cons l ls rest : framed (l :: ls) rest = l ++ crlf ++ framed ls rest.
Proof. unfold framed, terminate. simpl. by rewrite <- !app_assoc. Qed.

Lemma framed_exists s : exists ls rest, Forall unterminated ls /\ unterminated rest /\ s = framed ls rest.
Proof.
  induction s as [s IH] using (induction_ltof1 _ (@length ascii)). unfold ltof in IH.
  destruct (position crlf s) as [i|] eqn:E.
  - pose proof (position_Some _ _ _ E) as [Hs Hi].
    destruct (IH (drop (i + 2) s)) as (ls & rest & Hls & Hr & Hd).
    { pose proof (f_equal length Hs) as Hl. rewrite !length_app in Hl. simpl in Hl.
      rewrite length_drop. lia. }
    exists (take i s :: ls), rest. split_and!; [|done|].
    + constructor; [|done]. unfold unterminated. apply not_true_is_false.
      intros (a & b & Hab)%contains_true.
      pose proof (position_first _ _ _ E (length a)) as Hf.
      assert (length a < i)%nat as Ha.
      { apply (f_equal length) in Hab. rewrite length_take, !length_app in Hab. simpl in Hab. lia. }
      specialize (Hf Ha). rewrite Hs, Hab, <- !app_assoc, drop_app_length in Hf.
      by rewrite starts_with_app in Hf.
    + rewrite framed_cons, <- Hd. exact Hs.
  - exists [], s. split_and!; [constructor|by apply position_None|done].
Qed.

Definition target_line (prefix : str) (l : str) : bool := is_header_line prefix (from_utf8_lossy l).

Lemma strip_loop_framed prefix fuel first out ls rest :
  Forall unterminated ls -> unterminated rest -> (length ls < fuel)%nat ->
  strip_loop prefix fuel first out (framed ls rest) =
    out ++ framed (match ls with
                   | [] => []
                   | l :: ls' => (if first then [l] else retain (fun l => negb (target_line prefix l)) [l]) ++
                                 retain (fun l => negb (target_line prefix l)) ls'
                   end) rest.
Proof.
  intros Hls Hr. revert fuel first out. induction Hls as [|l ls Hl Hls IH]; intros fuel first out Hf;
    (destruct fuel as [|fuel]; [simpl in Hf; lia|]); cbn [strip_loop].
  - unfold framed; simpl. by rewrite (proj1 (position_None _ _) Hr).
  - rewrite framed_cons, position_crlf by done.
    replace (drop (length l + 2) (l ++ crlf ++ framed ls rest)) with (framed ls rest)
      by (by rewrite drop_app_add).
    replace (take (length l + 2) (l ++ crlf ++ framed ls rest)) with (terminate l)
      by (by rewrite take_app_add).
    rewrite take_app_length. rewrite IH by (simpl in Hf; lia). fold (target_line prefix l).
    assert (forall (f : str -> bool) ls, match ls with [] => [] | l :: ls' =>
              (if false then [l] else retain f [l]) ++ retain f ls' end = retain f ls) as Hre.
    { intros f [|x xs]; [done|]. unfold retain; simpl. by destruct (f x). }
    rewrite Hre. destruct first; simpl.
    + unfold framed; simpl. by rewrite <- !app_assoc.
    + destruct (target_line prefix l); simpl; [done|]. unfold framed; simpl. by rewrite <- !app_assoc.
Qed.

Lemma strip_header_framed name l ls rest :
  Forall unterminated (l :: ls) -> unterminated rest ->
  strip_header (framed (l :: ls) rest) name =
    framed (l :: retain (fun l => negb (target_line (header_prefix name) l)) ls) rest.
Proof.
  intros Hls Hr. unfold strip_header. rewrite strip_loop_framed; [done|done|done|].
  clear. induction (l :: ls) as [|x xs IH]; [simpl; lia|]. rewrite framed_cons, !length_app. simpl in *. lia.
Qed.
Lemma strip_header_unterminated name rest : unterminated rest -> strip_header rest name = rest.
Proof.
  intros Hr. unfold strip_header.
  by rewrite (strip_loop_framed _ _ true [] [] rest (Forall_nil_2 _) Hr (Nat.lt_0_succ _)).
Qed.

Lemma inject_header_framed h l ls rest :
  unterminated l -> inject_header (framed (l :: ls) rest) h = l ++ crlf ++ h ++ framed ls rest.
Proof.
  intros Hl. unfold inject_header. rewrite framed_cons, position_crlf by done.
  rewrite take_app_add, drop_app_add. simpl. by rewrite <- app_assoc.
Qed.
Lemma inject_header_unterminated h rest : unterminated rest -> inject_header rest h = rest.
Proof. intros Hr. unfold inject_header. by rewrite (proj1 (position_None _ _) Hr). Qed.

Lemma strip_header_first raw name l ls rest :
  raw = framed (l :: ls) rest -> Forall unterminated (l :: ls) -> unterminated rest ->
  exists ls', strip_header raw name = framed (l :: ls') rest /\ Forall unterminated ls' /\
    (forall x, x ∈ ls' <-> x ∈ ls /\ target_line (header_prefix name) x = false).
Proof.
  intros -> Hls Hr. rewrite strip_header_framed by done. eexists. split_and!; [done| |].
  - rewrite Forall_cons, !Forall_forall in *. destruct Hls as [_ Hls]. intros x Hx.
    apply elem_of_retain in Hx. naive_solver.
  - intros x. rewrite elem_of_retain, negb_true_iff. tauto.
Qed.

(** The head a relay forwards for credentials [creds] (src/server.rs, [relay], the HTTP branch). *)
Definition forwarded_head (raw : str) (creds : option Credentials) : str :=
  let sanitized := strip_header raw (lit "Proxy-Authorization") in
  match creds with
  | Some c => inject_header sanitized (proxy_auth_line c)
  | None => sanitized
  end.

Lemma alpha_not_lf n : alpha n <> LF.
Proof.
  unfold alpha. destruct (nth_in_or_default (Z.to_nat (Z.land n 63)) ALPHABET "="%char) as [Hi|Hd];
    [|by rewrite Hd].
  assert (forallb (fun c => negb (bool_decide (c = LF))) ALPHABET = true) as Hf by (vm_compute; reflexivity).
  rewrite forallb_forall in Hf. specialize (Hf _ Hi). by bsimp.
Qed.
Lemma base64_no_lf s : LF ∉ base64_encode s.
Proof.
  unfold base64_encode. intros Hin. apply list_elem_of_In, in_concat in Hin as (c & Hc & Hl).
  apply in_map_iff in Hc as (k & <- & _). unfold b64_chunk in Hl. simpl in Hl.
  destruct Hl as [E|[E|[E|[E|[]]]]]; try (by eapply alpha_not_lf);
    (case_match; [by eapply alpha_not_lf|done]).
Qed.
Lemma no_lf_unterminated s : LF ∉ s -> unterminated s.
Proof.
  intros H. apply not_true_is_false. intros (a & b & ->)%contains_true. apply H.
  rewrite !elem_of_app. right. left. by right; left.
Qed.
Definition auth_line (c : Credentials) : str := lit "Proxy-Authorization: Basic " ++ basic_credentials c.
Lemma auth_line_unterminated c : unterminated (auth_line c).
Proof.
  apply no_lf_unterminated. unfold auth_line. rewrite elem_of_app. intros [H|H].
  - assert (forallb (fun c => negb (bool_decide (c = LF))) (lit "Proxy-Authorization: Basic ") = true) as Hf
      by (vm_compute; reflexivity).
    rewrite forallb_elem in Hf. specialize (Hf _ H). by bsimp.
  - by eapply base64_no_lf.
Qed.

(** [strip_header] removes exactly the header's lines. Read any head as CRLF-terminated lines
    and a rest: the request line, the rest and every line whose lower-cased text does not start
    with [name:] are kept byte for byte and in order, every other line goes. *)
Theorem strip_header_exact : forall raw name, exists ls rest,
  raw = framed ls rest /\ Forall unterminated ls /\ unterminated rest /\
  strip_header raw name =
    framed (match ls with
            | [] => []
            | l :: ls => l :: retain (fun l => negb (is_header_line (header_prefix name) (from_utf8_lossy l))) ls
            end) rest.
Proof.
  intros raw name. destruct (framed_exists raw) as (ls & rest & Hls & Hr & ->).
  exists ls, rest. split_and!; [done..|]. destruct ls as [|l ls].
  - by apply strip_header_unterminated.
  - by apply strip_header_framed.
Qed.

Definition sample_head : str :=
  framed [lit "GET http://a/ HTTP/1.1"; lit "Host: a"; lit "PROXY-authorization: Basic c2VjcmV0"; []] [].
Lemma sample_framed :
  Forall unterminated [lit "GET http://a/ HTTP/1.1"; lit "Host: a"; lit "PROXY-authorization: Basic c2VjcmV0"; []]
  /\ unterminated [].
Proof. split; [repeat constructor|reflexivity]. Qed.
(** [head] is a request or response head: it ends with the first blank line in it. *)
Definition is_head (head : str) : Prop :=
  ends_with crlf2 head = true /\
  forall s1 s2, head = s1 ++ s2 -> s2 <> [] -> ends_with crlf2 s1 = false.

Lemma is_head_check head :
  ends_with crlf2 head = true ->
  forallb (fun n => negb (ends_with crlf2 (take n head))) (seq 0 (length head)) = true ->
  is_head head.
Proof.
  intros He Hf. split; [done|]. intros s1 s2 E H2. rewrite forallb_forall in Hf.
  specialize (Hf (length s1)). rewrite negb_true_iff in Hf.
  assert (take (length s1) head = s1) as Ht by (by rewrite E, take_app_length).
  rewrite Ht in Hf. apply Hf, in_seq. rewrite E, length_app. destruct s2; [done|]. simpl. lia.
Qed.

(** ** Lookup after stripping *)
Lemma split_char_app sep w s : sep ∉ w -> split_char sep (w ++ sep :: s) = w :: split_char sep s.
Proof.
  induction w as [|c w IH]; simpl; intros Hn; [by rewrite decide_True|].
  rewrite decide_False by set_solver. rewrite IH by set_solver. done.
Qed.
Lemma split_char_none sep w : sep ∉ w -> split_char sep w = [w].
Proof.
  induction w as [|c w IH]; simpl; intros Hn; [done|].
  rewrite decide_False by set_solver. rewrite IH by set_solver. done.
Qed.
Lemma split_char_not_nil sep s : split_char sep s <> [].
Proof. destruct s as [|c s]; simpl; [done|]. case_decide; [done|]. by destruct (split_char sep s). Qed.
Lemma strip_cr_app w : strip_cr (w ++ [CR]) = w.
Proof. unfold strip_cr. by rewrite (proj2 (strip_suffix_Some [CR] (w ++ [CR]) w) eq_refl). Qed.

Lemma lines_framed ls rest :
  Forall (fun l => LF ∉ l) ls -> LF ∉ rest ->
  lines (framed ls rest) = ls ++ match rest with [] => [] | _ => [rest] end.
Proof.
  intros Hls Hr. induction Hls as [|l ls Hl Hls IH].
  - unfold framed, lines; simpl. rewrite split_char_none by done. by destruct rest.
  - rewrite framed_cons. unfold lines in *. change crlf with ([CR] ++ [LF]).
    rewrite <- app_assoc, (app_assoc l), <- !app_comm_cons, app_nil_l.
    rewrite split_char_app by (rewrite elem_of_app, list_elem_of_singleton; intros [? | E]; [done|discriminate E]).
    pose proof (split_char_not_nil LF (framed ls rest)) as Hn.
    destruct (split_char LF (framed ls rest)) as [|w ws]; [done|].
    cbn [removelast last map app] in *. rewrite strip_cr_app. by f_equal.
Qed.

Definition ascii_text (s : str) : Prop := forallb is_ascii s = true.
Lemma ascii_text_app s t : ascii_text (s ++ t) <-> ascii_text s /\ ascii_text t.
Proof. unfold ascii_text. rewrite forallb_app. apply andb_true_iff. Qed.
Lemma ascii_text_framed ls rest :
  ascii_text (framed ls rest) <-> Forall ascii_text ls /\ ascii_text rest.
Proof.
  induction ls as [|l ls IH]; [unfold framed; simpl; rewrite Forall_nil; tauto|].
  rewrite framed_cons, !ascii_text_app, IH, Forall_cons. assert (ascii_text crlf) by reflexivity. tauto.
Qed.

(** The head ends every line with CRLF and is plain ASCII. *)
Definition clean_head (raw : str) : Prop :=
  exists l ls rest, raw = framed (l :: ls) rest /\ ascii_text raw /\
    Forall (fun l => LF ∉ l) (l :: ls) /\ rest = [].

Lemma header_value_framed l ls name :
  ascii_text (framed (l :: ls) []) -> Forall (fun l => LF ∉ l) (l :: ls) ->
  header_value (framed (l :: ls) []) name =
    (let? x := List.find (is_header_line (header_prefix name)) ls in Some (trim (drop (length name + 1) x))).
Proof.
  intros Ha Hl. unfold header_value. rewrite from_utf8_lossy_ascii by done.
  rewrite lines_framed by (done || set_solver). by rewrite app_nil_r.
Qed.

Lemma app_char_inj c (a b r1 r2 : str) : c ∉ a -> c ∉ b -> a ++ c :: r1 = b ++ c :: r2 -> a = b.
Proof.
  intros Ha Hb E. apply (f_equal (split_once [c])) in E.
  rewrite !split_once_char in E by done. by simplify_eq.
Qed.

(** The two readings of a head agree where it is well formed: in an ASCII head whose lines all
    end with CRLF, stripping a header leaves none for the lookup to find, and leaves the lookup of
    every header whose name differs in case-folded text unchanged. *)
Theorem strip_then_lookup : forall raw name other,
  clean_head raw ->
  header_value (strip_header raw name) name = None /\
  (contains other (lit ":") = false -> contains name (lit ":") = false ->
   to_ascii_lowercase other <> to_ascii_lowercase name ->
   header_value (strip_header raw name) other = header_value raw other).
Proof.
  intros raw name other (l & ls & rest & Hraw & Ha & Hl & ->).
  assert (Forall unterminated (l :: ls)) as Hu by (eapply Forall_impl; [exact Hl|apply no_lf_unterminated]).
  rewrite Hraw in *. rewrite strip_header_framed by done.
  set (ls' := retain _ ls). apply ascii_text_framed in Ha as Ha'. destruct Ha' as [Hfa _].
  apply Forall_cons in Hfa as [Hla Hlsa]. apply Forall_cons in Hl as Hl2. destruct Hl2 as [Hl1 Hls].
  assert (forall P, Forall P ls -> Forall P ls') as Hsub.
  { intros P HP. rewrite Forall_forall in *. intros x Hx. apply elem_of_retain in Hx as [_ Hx]. auto. }
  assert (ascii_text (framed (l :: ls') [])) as Ha'.
  { apply ascii_text_framed. split; [|done]. apply Forall_cons. auto. }
  assert (Forall (fun l => LF ∉ l) (l :: ls')) as Hl' by (apply Forall_cons; auto).
  rewrite !header_value_framed by done.
  split.
  - destruct (List.find _ ls') as [x|] eqn:E; [|done]. exfalso.
    apply find_some in E as [Hx Ht]. apply list_elem_of_In, elem_of_retain in Hx as [Hn Hx].
    rewrite Forall_forall in Hlsa. unfold target_line in Hn.
    rewrite from_utf8_lossy_ascii in Hn by (by apply Hlsa). by rewrite Ht in Hn.
  - intros Ho Hn Hne. f_equal. subst ls'. clear -Hlsa Ho Hn Hne.
    enough (List.find (is_header_line (header_prefix other)) (retain (fun l => negb (target_line (header_prefix name) l)) ls)
            = List.find (is_header_line (header_prefix other)) ls) as -> by done.
    induction Hlsa as [|x ls Hx Hls IH]; simpl; [done|].
    unfold target_line at 1. rewrite from_utf8_lossy_ascii by done.
    destruct (is_header_line (header_prefix name) x) eqn:En; simpl; [|by rewrite IH].
    destruct (is_header_line (header_prefix other) x) eqn:Eo; [|done]. exfalso.
    unfold is_header_line, header_prefix in *. apply starts_with_true in En as [r1 E1], Eo as [r2 E2].
    apply Hne. rewrite E1, <- !app_assoc in E2. change (lit ":") with [":"%char] in *.
    assert (forall s, contains s [":"%char] = false -> ":"%char ∉ to_ascii_lowercase s) as Hc.
    { intros s Hs (y & Hy & Hin)%list_elem_of_fmap.
      assert (y = ":"%char) as ->; [|apply list_elem_of_split in Hin as (a & b & ->)].
      - clear -Hy. destruct y as [[] [] [] [] [] [] [] []]; try discriminate Hy; reflexivity.
      - pose proof (contains_app [":"%char] a b) as Hab. cbn [app] in Hab. congruence. }
    symmetry. eapply app_char_inj; eauto.
Qed.
Lemma strip_then_lookup_witness :
  clean_head sample_head /\
  header_value (strip_header sample_head (lit "Proxy-Authorization")) (lit "Proxy-Authorization") = None /\
  header_value (strip_header sample_head (lit "Proxy-Authorization")) (lit "host") = Some (lit "a").
Proof.
  assert (clean_head sample_head) as H.
  { eexists _, _, []. split; [reflexivity|]. split; [reflexivity|]. split; [|reflexivity].
    repeat constructor; intros Hin; vm_compute in Hin;
      repeat (apply elem_of_cons in Hin as [Hin|Hin]; [discriminate Hin|]); by apply elem_of_nil in Hin. }
  split; [exact H|].
  destruct (strip_then_lookup sample_head (lit "Proxy-Authorization") (lit "host") H) as [Ha Hb].
  split; [exact Ha|]. rewrite Hb; [vm_compute; reflexivity|vm_compute; reflexivity..|].
  vm_compute. discriminate.
Defined.

(** Our own line is one the lookup finds. *)
Lemma alpha_ascii n : is_ascii (alpha n) = true.
Proof.
  unfold alpha. destruct (nth_in_or_default (Z.to_nat (Z.land n 63)) ALPHABET "="%char) as [Hi|Hd]; [|by rewrite Hd].
  assert (forallb is_ascii ALPHABET = true) as Hf by (vm_compute; reflexivity). rewrite forallb_forall in Hf. by apply Hf.
Qed.
Lemma base64_ascii s : ascii_text (base64_encode s).
Proof.
  apply forallb_forall. unfold base64_encode. intros c Hin. apply in_concat in Hin as (t & Ht & Hl).
  apply in_map_iff in Ht as (k & <- & _). unfold b64_chunk in Hl. cbn in Hl.
  destruct Hl as [<-|[<-|[<-|[<-|[]]]]]; try apply alpha_ascii; case_match; apply alpha_ascii || done.
Qed.
Lemma auth_line_ok c : ascii_text (auth_line c) /\ LF ∉ auth_line c.
Proof.
  unfold auth_line. split; [apply ascii_text_app; split; [reflexivity|apply base64_ascii]|]. rewrite elem_of_app. intros [H|H].
  - revert H. apply (bool_decide_unpack (LF ∉ _)). by vm_compute.
  - by eapply base64_no_lf.
Qed.

(** C10: what of the client's [Proxy-Authorization] a forwarded request carries. Read as lines ended by
    CRLF, the head handed upstream is the client's request line, then our credentials line for this
    proxy when it has credentials (nothing a username holds can break out of it), then, in order,
    exactly those lines of the client whose lower-cased text does not start with
    [proxy-authorization:], and what follows the last CRLF. So in an ASCII head with no bare LF the
    lookup that authenticates clients finds our own credentials or nothing. A header that the client
    starts after a bare LF is part of the line before it here, and goes through with it. *)
Theorem forwarded_head_auth : forall raw creds l ls rest,
  raw = framed (l :: ls) rest -> Forall unterminated (l :: ls) -> unterminated rest ->
  let ours := match creds with Some c => [auth_line c] | None => [] end in
  Forall unterminated ours /\
  forwarded_head raw creds =
    framed (l :: ours ++
      retain (fun x => negb (starts_with (lit "proxy-authorization:") (to_ascii_lowercase (from_utf8_lossy x)))) ls) rest /\
  (clean_head raw ->
     header_value (forwarded_head raw creds) (lit "Proxy-Authorization") =
       (let? c := creds in Some (trim (lit " Basic " ++ basic_credentials c)))).
Proof.
  intros raw creds l ls rest Hraw Hls Hr ours. assert (Forall unterminated ours) as Hours
    by (unfold ours; destruct creds; constructor; [apply auth_line_unterminated|constructor]).
  assert (forwarded_head raw creds = framed (l :: ours ++ retain (fun x => negb (target_line (header_prefix (lit "Proxy-Authorization")) x)) ls) rest) as E.
  { unfold forwarded_head, ours. rewrite Hraw, strip_header_framed by done. destruct creds as [c|]; [|done].
    apply Forall_cons in Hls as [Hl _]. rewrite inject_header_framed by done. unfold proxy_auth_line.
    cbn [app]. rewrite !framed_cons. unfold auth_line. by rewrite <- !app_assoc. }
  split; [done|]. split; [exact E|]. intros Hc. destruct creds as [c|].
  2: { unfold forwarded_head. by apply strip_then_lookup. }
  destruct Hc as (l' & ls' & rest' & Hraw' & Ha & Hl & ->). unfold ours in *.
  assert (Forall unterminated (l' :: ls')) as Hu by (eapply Forall_impl; [exact Hl|apply no_lf_unterminated]).
  assert (forwarded_head raw (Some c) = framed (l' :: auth_line c :: retain (fun x => negb (target_line (header_prefix (lit "Proxy-Authorization")) x)) ls') []) as E'.
  { unfold forwarded_head. rewrite Hraw', strip_header_framed by done. apply Forall_cons in Hu as [Hl' _].
    rewrite inject_header_framed by done. unfold proxy_auth_line. rewrite !framed_cons. unfold auth_line. by rewrite <- !app_assoc. }
  rewrite E'. destruct (auth_line_ok c) as [Hca Hcl]. rewrite Hraw', ascii_text_framed in Ha. destruct Ha as [Ha _].
  apply Forall_cons in Ha as [Hla Hlsa], Hl as [Hl1 Hls'].
  assert (forall P : str -> Prop, Forall P ls' -> Forall P (retain (fun x => negb (target_line (header_prefix (lit "Proxy-Authorization")) x)) ls')) as Hsub.
  { intros P HP. rewrite Forall_forall in *. intros x Hx. apply elem_of_retain in Hx as [_ Hx]. auto. }
  rewrite header_value_framed; [| |by repeat apply Forall_cons_2; auto].
  - assert (is_header_line (header_prefix (lit "Proxy-Authorization")) (auth_line c) = true) as Hm.
    { unfold is_header_line, auth_line, to_ascii_lowercase. rewrite map_app. reflexivity. }
    cbn [List.find]. rewrite Hm. reflexivity.
  - apply ascii_text_framed. split; [|done]. by repeat apply Forall_cons_2; auto.
Qed.
Lemma forwarded_head_auth_witness :
  forwarded_head sample_head (Some {| username := lit "u"; password := lit "p" |}) =
    framed [lit "GET http://a/ HTTP/1.1"; lit "Proxy-Authorization: Basic dTpw"; lit "Host: a"; []] [] /\
  header_value (forwarded_head sample_head (Some {| username := lit "u"; password := lit "p" |})) (lit "Proxy-Authorization") =
    Some (lit "Basic dTpw").
Proof.
  destruct (forwarded_head_auth sample_head (Some {| username := lit "u"; password := lit "p" |}) _ _ []
              eq_refl (proj1 sample_framed) (proj2 sample_framed)) as (_ & H & Hv).
  split; [exact H|]. rewrite Hv; [reflexivity|]. eexists _, _, []. split; [reflexivity|]. split; [reflexivity|]. split; [|reflexivity].
  repeat constructor; apply (bool_decide_unpack _); vm_compute; exact I.
Defined.

(** Where a line ends with a bare LF the two readings differ: the lookup that authenticates the
    client splits on LF, the stripping on CRLF only, so the secret is accepted and forwarded. *)
Theorem bare_lf_forwards_secret :
  exists raw secret,
    header_value raw (lit "Proxy-Authorization") = Some secret /\
    forwarded_head raw None = raw /\ contains raw secret = true.
Proof.
  exists (lit "GET http://a/ HTTP/1.1" ++ crlf ++ lit "Host: a" ++ [LF] ++
          lit "Proxy-Authorization: Basic c2VjcmV0" ++ crlf ++ crlf), (lit "Basic c2VjcmV0").
  vm_compute. done.
Qed.

(** ** [host:port] *)
Lemma split_host_port_plain h p d :
  h <> [] -> strip_prefix (lit "[") h = None -> 0 <= p <= 65535 ->
  split_host_port (h ++ lit ":" ++ show_uint p) d = (h, p).
Proof.
  intros Hne Hb Hp. unfold split_host_port.
  assert (strip_prefix (lit "[") (h ++ lit ":" ++ show_uint p) = None) as ->.
  { destruct h as [|c h]; [done|]. simpl in *. by case_decide. }
  change (lit ":") with [":"%char]. cbn [app]. rewrite rsplit_once_char by (by apply show_uint_not_in).
  destruct h as [|c h]; [done|].
  exact (f_equal (fun o => (c :: h, default d o)) (parse_show_uint 65535 p Hp)).
Qed.

Lemma position_pair c c2 h r : c ∉ h -> position [c; c2] (h ++ c :: c2 :: r) = Some (length h).
Proof.
  intros Hc. induction h as [|x h IH].
  - cbn [app]. pose proof (starts_with_app [c; c2] r) as E. cbn [app] in E. cbn [position]. by rewrite E.
  - cbn [app position]. rewrite IH by set_solver. destruct (starts_with _ _) eqn:E; [|done].
    apply starts_with_true in E as [q E]. simplify_eq/=. set_solver.
Qed.
Lemma split_host_port_bracketed h p d :
  "]"%char ∉ h -> 0 <= p <= 65535 ->
  split_host_port (lit "[" ++ h ++ lit "]:" ++ show_uint p) d = (h, p).
Proof.
  intros Hh Hp. unfold split_host_port.
  rewrite (proj2 (strip_prefix_Some (lit "[") _ _) eq_refl).
  unfold split_once. change (lit "]:") with ["]"%char; ":"%char]. cbn [app].
  rewrite position_pair by done. cbn [length].
  rewrite take_app_length. rewrite drop_app_add. cbn [drop].
  exact (f_equal (fun o => (h, default d o)) (parse_show_uint 65535 p Hp)).
Qed.
Lemma split_host_port_no_port h d :
  ":"%char ∉ h -> strip_prefix (lit "[") h = None -> split_host_port h d = (h, d).
Proof. intros Hc Hb. unfold split_host_port. by rewrite Hb, rsplit_once_None. Qed.

Lemma not_contains_char c s : contains s [c] = false -> c ∉ s.
Proof.
  intros H Hin. apply list_elem_of_split in Hin as (a & b & ->).
  pose proof (contains_app [c] a b) as Hab. cbn [app] in Hab. congruence.
Qed.

(** The authority of a [CONNECT] request parses back. For every host name or IP literal,
    bracketed by the caller or not, and every port, what [connect_request] writes as the request
    target is read by [split_host_port] as the bare host and that port, whatever the default; an
    IPv6 literal is bracketed exactly once. *)
Theorem connect_authority_roundtrip : forall host port d,
  strip_brackets host <> [] -> "]"%char ∉ strip_brackets host -> "["%char ∉ strip_brackets host ->
  0 <= port <= 65535 ->
  split_host_port (connect_authority host port).1 d = (strip_brackets host, port) /\
  strip_brackets (connect_authority host port).2 = strip_brackets host /\
  (connect_authority (connect_authority host port).2 port) = connect_authority host port.
Proof.
  intros host port d Hne Hr Hl Hp.
  assert (strip_brackets (strip_brackets host) = strip_brackets host) as Hid.
  { unfold strip_brackets at 1. destruct (strip_brackets host) as [|c b] eqn:E; [done|].
    simpl. rewrite decide_False; [done|]. intros <-. set_solver. }
  assert (strip_brackets (lit "[" ++ strip_brackets host ++ lit "]") = strip_brackets host) as Hbr.
  { unfold strip_brackets at 1. rewrite (proj2 (strip_prefix_Some (lit "[") _ _) eq_refl).
    by rewrite (proj2 (strip_suffix_Some (lit "]") _ _) eq_refl). }
  assert (strip_brackets (connect_authority host port).2 = strip_brackets host) as H2.
  { unfold connect_authority. by destruct (contains _ _). }
  split_and!; [|done|unfold connect_authority in *; by rewrite H2].
  unfold connect_authority. destruct (contains _ _) eqn:E; simpl fst.
  - by apply split_host_port_bracketed.
  - apply split_host_port_plain; [done| |done].
    destruct (strip_brackets host) as [|c b]; [done|]. simpl. rewrite decide_False; [done|].
    intros <-. set_solver.
Qed.
Lemma connect_authority_roundtrip_witness :
  split_host_port (connect_authority (lit "[2001:db8::1]") 443).1 80 = (lit "2001:db8::1", 443).
Proof.
  refine (proj1 (connect_authority_roundtrip (lit "[2001:db8::1]") 443 80 _ _ _ _)).
  - vm_compute. discriminate.
  - apply not_contains_char. vm_compute. reflexivity.
  - apply not_contains_char. vm_compute. reflexivity.
  - lia.
Defined.
