(* ===== verification/Net.v ===== *)
(** * Connections

    A connection is what the peer will do to it, as a script, and what has been written to it.
    A read takes the next event: a byte, an error, or silence until the caller's deadline; the
    end of the script is the end of the stream. A write is scripted in the same way, and may be
    cut short by an error or by the deadline. Everything the source does to a socket goes
    through [read_byte], [read_exact] and [write_all], in a state-and-error monad. *)
From S2P Require Import Prelude Text.
Open Scope Z_scope.

Inductive RxEvent := RxByte (c : ascii) | RxFail | RxHang.
Inductive TxEvent := TxOk | TxFail (written : nat) | TxHang (written : nat).
Record Conn := mkConn { rx : list RxEvent; tx : list TxEvent; sent : str }.

Inductive IoErr := IoEof | IoFail | IoHang.

Definition M (E A : Type) : Type := Conn -> result A E * Conn.
Definition ret {E A} (a : A) : M E A := fun c => (Ok a, c).
Definition fail {E A} (e : E) : M E A := fun c => (Err e, c).
Definition bind {E A B} (m : M E A) (k : A -> M E B) : M E B :=
  fun c => match m c with (Ok a, c) => k a c | (Err e, c) => (Err e, c) end.
(** [map_err]. *)
Definition map_err {E F A} (f : E -> F) (m : M E A) : M F A :=
  fun c => match m c with (Ok a, c) => (Ok a, c) | (Err e, c) => (Err (f e), c) end.
(** [let _ = ..]: the outcome is dropped. *)
Definition ignore {E F A} (m : M E A) : M F unit := fun c => (Ok tt, (m c).2).

Notation "'bind!' x ':=' m 'in' k" := (bind m (fun x => k))
  (at level 10, x pattern, m at level 100, k at level 200) : rs_scope.
Notation "'run!' m 'in' k" := (bind m (fun _ => k))
  (at level 10, m at level 100, k at level 200) : rs_scope.

Definition read_byte : M IoErr ascii := fun c =>
  match rx c with
  | RxByte b :: r => (Ok b, mkConn r (tx c) (sent c))
  | RxFail :: r => (Err IoFail, mkConn r (tx c) (sent c))
  | RxHang :: _ => (Err IoHang, c)
  | [] => (Err IoEof, c)
  end.
Fixpoint read_exact (n : nat) : M IoErr str :=
  match n with
  | O => ret []
  | S n => bind! b := read_byte in bind! s := read_exact n in ret (b :: s)
  end.
Definition write_all (s : str) : M IoErr unit := fun c =>
  match tx c with
  | [] => (Ok tt, mkConn (rx c) [] (sent c ++ s))
  | TxOk :: t => (Ok tt, mkConn (rx c) t (sent c ++ s))
  | TxFail n :: t => (Err IoFail, mkConn (rx c) t (sent c ++ take n s))
  | TxHang n :: _ => (Err IoHang, mkConn (rx c) (tx c) (sent c ++ take n s))
  end.

(** A byte-at-a-time read loop: append each byte to the buffer until [stop] decides. The script
    is finite, so the loop is structural in it. *)
Section read_loop.
Context {A E : Type} (stop : str -> option (result A E)) (on_err : str -> IoErr -> E).
Fixpoint read_loop_on (r : list RxEvent) (buf : str) : result A E * list RxEvent :=
  match r with
  | RxByte b :: r =>
      match stop (buf ++ [b]) with
      | Some res => (res, r)
      | None => read_loop_on r (buf ++ [b])
      end
  | RxFail :: r => (Err (on_err buf IoFail), r)
  | RxHang :: _ => (Err (on_err buf IoHang), r)
  | [] => (Err (on_err buf IoEof), [])
  end.
Definition read_loop (buf : str) : M E A := fun c =>
  let '(res, r) := read_loop_on (rx c) buf in (res, mkConn r (tx c) (sent c)).
End read_loop.

(** ** Facts *)
Definition bytes (s : str) : list RxEvent := map RxByte s.
Lemma bytes_app s t : bytes (s ++ t) = bytes s ++ bytes t.
Proof. apply map_app. Qed.
Definition open_conn (s : str) : Conn := mkConn (bytes s) [] [].

(** A computation that writes nothing. *)
Definition silent {E A} (m : M E A) : Prop := forall c, sent (m c).2 = sent c /\ tx (m c).2 = tx c.
Lemma silent_bind {E A B} (m : M E A) (k : A -> M E B) :
  silent m -> (forall a, silent (k a)) -> silent (bind m k).
Proof.
  intros Hm Hk c. unfold bind. specialize (Hm c). destruct (m c) as [[a|e] c']; [|done].
  destruct (Hk a c') as [-> ->]. done.
Qed.
Lemma silent_ret {E A} (a : A) : silent (E := E) (ret a).
Proof. done. Qed.
Lemma silent_read_byte : silent read_byte.
Proof. intros [r t s]. unfold read_byte; simpl. by destruct r as [|[] ?]. Qed.
Lemma silent_read_exact n : silent (read_exact n).
Proof.
  induction n as [|n IH]; [apply silent_ret|].
  apply silent_bind; [apply silent_read_byte|]. intros b.
  apply silent_bind; [apply IH|]. intros s. apply silent_ret.
Qed.
Lemma silent_read_loop {A E} stop on_err buf : silent (@read_loop A E stop on_err buf).
Proof. intros c. unfold read_loop. by destruct (read_loop_on _ _ _ _). Qed.
Lemma silent_map_err {E F A} (f : E -> F) (m : M E A) : silent m -> silent (map_err f m).
Proof. intros Hm c. unfold map_err. specialize (Hm c). by destruct (m c) as [[a|e] c']. Qed.

(** A computation only ever appends to what it sent. *)
Definition appends {E A} (m : M E A) : Prop := forall c, exists s, sent (m c).2 = sent c ++ s.
Lemma appends_silent {E A} (m : M E A) : silent m -> appends m.
Proof. intros H c. exists []. by rewrite app_nil_r, (proj1 (H c)). Qed.
Lemma appends_bind {E A B} (m : M E A) (k : A -> M E B) :
  appends m -> (forall a, appends (k a)) -> appends (bind m k).
Proof.
  intros Hm Hk c. unfold bind. destruct (Hm c) as [s Hs]. destruct (m c) as [[a|e] c']; [|eauto].
  destruct (Hk a c') as [s' Hs']. exists (s ++ s'). simpl in *. by rewrite Hs', Hs, app_assoc.
Qed.
Lemma appends_write_all s : appends (write_all s).
Proof. intros [r t o]. unfold write_all; simpl. destruct t as [|[] ?]; simpl; eauto. Qed.
Lemma appends_ignore {E F A} (m : M E A) : appends m -> appends (ignore (F := F) m).
Proof. intros H c. apply H. Qed.
Lemma appends_map_err {E F A} (f : E -> F) (m : M E A) : appends m -> appends (map_err f m).
Proof. intros Hm c. unfold map_err. specialize (Hm c). by destruct (m c) as [[a|e] c']. Qed.
#[export] Hint Resolve silent_bind silent_ret silent_read_byte silent_read_exact silent_read_loop
  silent_map_err appends_bind appends_silent appends_write_all appends_ignore appends_map_err : proxybroker.

Lemma read_exact_bytes s r t o :
  read_exact (length s) (mkConn (bytes s ++ r) t o) = (Ok s, mkConn r t o).
Proof.
  induction s as [|b s IH] in o |- *; [done|]. simpl. unfold bind at 1. cbn [read_byte bytes map app rx tx sent].
  unfold bind. by rewrite IH.
Qed.

(** The loop over plain input stops at the first prefix [stop] accepts. *)
Lemma read_loop_bytes {A E} (stop : str -> option (result A E)) on_err s r buf res :
  (forall s1 s2, s = s1 ++ s2 -> s1 <> [] -> s2 <> [] -> stop (buf ++ s1) = None) ->
  s <> [] -> stop (buf ++ s) = Some res ->
  read_loop_on stop on_err (bytes s ++ r) buf = (res, r).
Proof.
  revert buf. induction s as [|b s IH]; intros buf Hno Hne Hs; [done|]. cbn [bytes map app read_loop_on].
  destruct s as [|b2 s].
  - by rewrite Hs.
  - rewrite (Hno [b] (b2 :: s)) by done. fold (bytes (b2 :: s)). apply IH; [|done|].
    + intros s1 s2 Es H1 H2. rewrite <- app_assoc. apply (Hno (b :: s1) s2); [|done|done].
      by rewrite Es.
    + by rewrite <- app_assoc.
Qed.

(** What the loop buffered is a prefix of the input. *)
Lemma read_loop_on_inv {A E} (stop : str -> option (result A E)) on_err (P : str -> Prop) r buf :
  P buf -> (forall b c, P b -> stop (b ++ [c]) = None -> P (b ++ [c])) ->
  match read_loop_on stop on_err r buf with
  | (res, _) => (exists b c, P b /\ stop (b ++ [c]) = Some res) \/ (exists b e, P b /\ res = Err (on_err b e))
  end.
Proof.
  revert buf. induction r as [|ev r IH]; intros buf HP Hst; simpl; [eauto|].
  destruct ev; [|eauto|eauto]. destruct (stop (buf ++ [c])) eqn:Es; [eauto|]. apply IH; auto.
Qed.
