(* ===== verification/Negotiator.v ===== *)
(** * Negotiation (src/negotiator.rs)

    From a fresh TCP connection to a proxy to a stream tunnelled to a target. The byte-level
    SOCKS handshakes and TLS belong to libraries and are operations of the class [TunnelLibs];
    [CONNECT], the SMTP banner and the choice of protocol are the source's own. *)
From S2P Require Import Prelude Text Types Addr Utils Proxy Http Net.
Open Scope Z_scope.

Record Target := { tg_host : str; tg_ip : option IpAddr; tg_port : Z }.
Inductive Stream := Plain (c : Conn) | Tls (c : Conn).
(** [AsyncRead] and [AsyncWrite]: a read, write, flush or shutdown is the inner transport's own. *)
Definition stream_conn (s : Stream) : Conn := match s with Plain c | Tls c => c end.
Definition with_conn (s : Stream) (c : Conn) : Stream :=
  match s with Plain _ => Plain c | Tls _ => Tls c end.

(** How a library handshake fails: an I/O timeout of its own, any other error, or silence until
    the caller's deadline. *)
Inductive LibErr := LibTimedOut | LibOther | LibHang.
(** What a TLS client asks about the server's certificates and signatures, and its configuration. *)
Record ServerCertVerifier := {
  verify_server_cert : list str -> str -> bool;
  verify_tls12_signature : str -> str -> bool;
  verify_tls13_signature : str -> str -> bool;
}.
Definition AcceptAllVerifier : ServerCertVerifier :=
  {| verify_server_cert _ _ := true; verify_tls12_signature _ _ := true; verify_tls13_signature _ _ := true |}.
Record ClientConfig := { cfg_verifier : ServerCertVerifier; cfg_client_auth : bool }.
Definition tls_config : ClientConfig := {| cfg_verifier := AcceptAllVerifier; cfg_client_auth := false |}.

Class TunnelLibs : Type := {
  socks4_connect : Z -> Z -> Conn -> result Conn LibErr;
  socks5_connect : IpAddr + str -> Z -> option Credentials -> Conn -> result Conn LibErr;
  server_name_ok : str -> bool;
  tls_connect : ClientConfig -> str -> Conn -> result Conn LibErr;
}.

Definition SMTP_READY : Z := 220.
Definition MAX_CONNECT_HEAD : nat := 8192.

(** ** CONNECT *)
Definition read_head : M ProxyError str :=
  read_loop
    (fun buf => if ends_with crlf2 buf then Some (Ok buf)
                else if (MAX_CONNECT_HEAD <? length buf)%nat then Some (Err BadResponse) else None)
    (fun buf e => match e with
                  | IoHang => Timeout
                  | IoFail => Reset
                  | IoEof => match buf with [] => EmptyRecv | _ => Reset end
                  end) [].

Definition io_deadline (e : IoErr) : ProxyError := match e with IoHang => Timeout | _ => Reset end.

Definition http_connect (target : Target) (creds : option Credentials) : M ProxyError unit :=
  run! map_err io_deadline (write_all (connect_request (tg_host target) (tg_port target) creds)) in
  bind! head := read_head in
  if get_status_code head 9 12 =? 200 then ret tt else fail BadStatus.

Definition read_smtp_banner : M ProxyError unit :=
  bind! buf := map_err io_deadline (read_exact 3) in
  if get_status_code buf 0 3 =? SMTP_READY then ret tt else fail BadStatus.

Section negotiate.
Context `{TunnelLibs}.

Definition map_socks_err (e : LibErr) : ProxyError :=
  match e with LibTimedOut | LibHang => Timeout | LibOther => BadResponse end.

Definition socks4 (tcp : Conn) (target : Target) : result Stream ProxyError :=
  match tg_ip target with
  | Some (V4 ip) =>
      match socks4_connect ip (tg_port target) tcp with
      | Ok c => Ok (Plain c)
      | Err e => Err (map_socks_err e)
      end
  | _ => Err BadResponse
  end.

Definition socks5 (tcp : Conn) (target : Target) (creds : option Credentials) : result Stream ProxyError :=
  let dest := match tg_ip target with Some ip => inl ip | None => inr (tg_host target) end in
  match socks5_connect dest (tg_port target) creds tcp with
  | Ok c => Ok (Plain c)
  | Err e => Err (map_socks_err e)
  end.

Definition tls_upgrade (tcp : Conn) (host : str) : result Stream ProxyError :=
  if negb (server_name_ok host) then Err BadResponse
  else match tls_connect tls_config host tcp with
       | Ok c => Ok (Tls c)
       | Err LibHang => Err Timeout
       | Err _ => Err BadResponse
       end.

(** The upgrade does not depend on what the server presents: with a library that fails a handshake for
    its certificates and signatures only when the verifier refuses them, it is the transport alone. *)
Lemma tls_any_certificate (presents : Conn -> list str * str * str) (transport : str -> Conn -> result Conn LibErr) tcp host :
  (forall cfg name c, tls_connect cfg name c =
     let '(chain, signed, signature) := presents c in
     let v := cfg_verifier cfg in
     if verify_server_cert v chain name && (verify_tls12_signature v signed signature || verify_tls13_signature v signed signature)
     then transport name c else Err LibOther) ->
  server_name_ok host = true ->
  tls_upgrade tcp host = match transport host tcp with Ok c => Ok (Tls c) | Err LibHang => Err Timeout | Err _ => Err BadResponse end.
Proof. intros Hlib Hn. unfold tls_upgrade. rewrite Hn, Hlib. by destruct (presents tcp) as [[chain signed] signature]. Qed.

Definition negotiate (proto : Proto) (tcp : Conn) (target : Target) (creds : option Credentials)
  : result Stream ProxyError :=
  match proto with
  | Http => Ok (Plain tcp)
  | Socks4 => socks4 tcp target
  | Socks5 => socks5 tcp target creds
  | Connect80 | Connect25 =>
      match http_connect target creds tcp with
      | (Err e, _) => Err e
      | (Ok _, tcp) =>
          if decide (proto = Connect25) then
            match read_smtp_banner tcp with
            | (Err e, _) => Err e
            | (Ok _, tcp) => Ok (Plain tcp)
            end
          else Ok (Plain tcp)
      end
  | Https =>
      match http_connect target creds tcp with
      | (Err e, _) => Err e
      | (Ok _, tcp) => tls_upgrade tcp (tg_host target)
      end
  end.

(** The TCP dial: refused, silent until the deadline, or connected. *)
Inductive Dial := DialHang | DialErr | DialOk (c : Conn).
Definition probe_tunnel (d : Dial) (target : Target) (creds : option Credentials) : bool :=
  match d with
  | DialOk tcp => is_ok (negotiate Connect80 tcp target creds)
  | _ => false
  end.
End negotiate.

Definition tunnel_proto (p : Proxy) : option Proto :=
  match List.find (fun c => has_type c p) [Socks5; Socks4; Connect80] with
  | Some c => Some c
  | None => if has_type Https p then Some Connect80 else None
  end.

(** ** What a CONNECT consumes *)

Definition head_stop (buf : str) : option (result str ProxyError) :=
  if ends_with crlf2 buf then Some (Ok buf)
  else if (MAX_CONNECT_HEAD <? length buf)%nat then Some (Err BadResponse) else None.

Lemma ends_with_length p s : ends_with p s = true -> (length p <= length s)%nat.
Proof. intros (r & ->)%ends_with_true. rewrite length_app. lia. Qed.

Lemma app_snoc_split {A} (s : list A) x s1 s2 :
  s ++ [x] = s1 ++ s2 -> s2 <> [] -> exists s3, s2 = s3 ++ [x] /\ s = s1 ++ s3.
Proof.
  intros E H2. destruct (exists_last H2) as (s3 & y & ->). rewrite app_assoc in E.
  apply app_inj_tail in E as [-> ->]. eauto.
Qed.

(** The state of the head loop: nothing in the buffer ends a head, and the buffer is bounded. *)
Definition head_open (buf : str) : Prop :=
  (forall s1 s2, buf = s1 ++ s2 -> ends_with crlf2 s1 = false) /\ (length buf <= MAX_CONNECT_HEAD)%nat.

Lemma head_open_step buf b :
  head_open buf -> head_stop (buf ++ [b]) = None -> head_open (buf ++ [b]).
Proof.
  unfold head_stop. intros [Hn Hl] Hs. destruct (ends_with crlf2 (buf ++ [b])) eqn:E; [done|].
  destruct (Nat.ltb_spec MAX_CONNECT_HEAD (length (buf ++ [b]))); [done|]. split; [|lia].
  intros s1 s2 Es. destruct (decide (s2 = [])) as [->|H2].
  - rewrite app_nil_r in Es. by rewrite <- Es.
  - apply app_snoc_split in Es as (s3 & -> & ->); [|done]. by apply (Hn s1 s3).
Qed.

Lemma read_head_inv r buf res r' on_err :
  head_open buf -> read_loop_on head_stop on_err r buf = (res, r') ->
  match res with
  | Ok h => exists s, h = buf ++ s /\ r = bytes s ++ r' /\ is_head h /\
                      (length h <= S MAX_CONNECT_HEAD)%nat
  | Err _ => (length r <= length r' + (S MAX_CONNECT_HEAD - length buf) + 1)%nat
  end.
Proof.
  revert buf. induction r as [|ev r IH]; intros buf Ho E; simpl in E; [simplify_eq; simpl; lia|].
  destruct Ho as [Hn Hl]. destruct ev as [b| |]; simplify_eq; [|simpl; lia|simpl; lia].
  destruct (head_stop (buf ++ [b])) as [res0|] eqn:Es.
  - simplify_eq. unfold head_stop in Es. destruct (ends_with crlf2 (buf ++ [b])) eqn:Ee.
    + simplify_eq. exists [b]. split_and!; [done|done| |].
      * split; [done|]. intros s1 s2 E H2. apply app_snoc_split in E as (s3 & -> & ->); [|done].
        by apply (Hn s1 s3).
      * rewrite length_app; simpl. lia.
    + destruct (_ <? _)%nat; simplify_eq. simpl. lia.
  - pose proof (head_open_step buf b (conj Hn Hl) Es) as Ho. specialize (IH _ Ho E). destruct res.
    + destruct IH as (s & -> & -> & ? & ?). exists (b :: s). by rewrite <- app_assoc in *.
    + destruct Ho as [_ Ho]. rewrite length_app in *. simpl in *. lia.
Qed.

Lemma head_open_nil : head_open [].
Proof. split; [|simpl; lia]. intros [|] s2 E; [reflexivity|done]. Qed.

Lemma http_connect_inv target creds tcp c' :
  http_connect target creds tcp = (Ok tt, c') ->
  exists head, rx tcp = bytes head ++ rx c' /\ is_head head /\ (length head <= S MAX_CONNECT_HEAD)%nat /\
    get_status_code head 9 12 = 200 /\
    sent c' = sent tcp ++ connect_request (tg_host target) (tg_port target) creds.
Proof.
  unfold http_connect, bind, map_err. intros E.
  destruct (write_all _ tcp) as [[[]|e] c1] eqn:Ew; [|done].
  assert (rx c1 = rx tcp /\ sent c1 = sent tcp ++ connect_request (tg_host target) (tg_port target) creds)
    as [Hr1 Hs1].
  { unfold write_all in Ew. destruct (tx tcp) as [|[] ?]; by simplify_eq. }
  unfold read_head, read_loop in E. fold head_stop in E.
  destruct (read_loop_on _ _ (rx c1) []) as [[h|e] r'] eqn:El; [|done].
  apply (read_head_inv _ _ (Ok h)) in El; [|apply head_open_nil].
  destruct El as (s & -> & Hr & Hh & Hlen). destruct (Z.eqb_spec (get_status_code ([] ++ s) 9 12) 200); [|done].
  unfold ret in E. simplify_eq/=. exists s. rewrite <- Hr1. split_and!; done.
Qed.

Lemma http_connect_run target creds r t o head :
  is_head head -> (length head <= S MAX_CONNECT_HEAD)%nat -> t = [] \/ (exists t', t = TxOk :: t') ->
  http_connect target creds (mkConn (bytes head ++ r) t o) =
    ((if get_status_code head 9 12 =? 200 then Ok tt else Err BadStatus),
     mkConn r (tail t) (o ++ connect_request (tg_host target) (tg_port target) creds)).
Proof.
  intros [Hh Hfirst] Hl Ht. unfold http_connect, bind, map_err.
  assert (write_all (connect_request (tg_host target) (tg_port target) creds) (mkConn (bytes head ++ r) t o)
          = (Ok tt, mkConn (bytes head ++ r) (tail t) (o ++ connect_request (tg_host target) (tg_port target) creds)))
    as -> by (by destruct Ht as [->|[t' ->]]).
  unfold read_head, read_loop. cbn [rx tx sent].
  rewrite (read_loop_bytes _ _ head r [] (Ok head)).
  - by destruct (get_status_code head 9 12 =? 200).
  - intros s1 s2 E H1 H2. simpl. rewrite (Hfirst s1 s2) by done.
    rewrite (proj2 (Nat.ltb_ge _ _)); [done|].
    apply (f_equal length) in E. rewrite length_app in E. destruct s2; simpl in *; [done|lia].
  - intros ->. apply ends_with_length in Hh. simpl in Hh. lia.
  - simpl. by rewrite Hh.
Qed.

Section theorems.
Context `{TunnelLibs}.

(** C11: a tunnel through [CONNECT] is exactly the connection past the proxy's answer. When the
    negotiation succeeds, what was written is one [CONNECT] request, what was read is one
    response head, ended by its first blank line, within the bound and with status 200, and
    every later byte of the tunnel is still unread; [CONNECT:25] also takes the three bytes of
    the banner, which are 220. *)
Theorem connect_tunnel_sound : forall proto target creds tcp s,
  proto = Connect80 \/ proto = Connect25 -> negotiate proto tcp target creds = Ok s ->
  exists c head banner, s = Plain c /\ rx tcp = bytes (head ++ banner) ++ rx c /\
    is_head head /\ (length head <= S MAX_CONNECT_HEAD)%nat /\ get_status_code head 9 12 = 200 /\
    sent c = sent tcp ++ connect_request (tg_host target) (tg_port target) creds /\
    match proto with
    | Connect25 => length banner = 3%nat /\ get_status_code banner 0 3 = 220
    | _ => banner = []
    end.
Proof.
  intros proto target creds tcp s Hp E.
  assert (exists c1, http_connect target creds tcp = (Ok tt, c1)) as [c1 Hc].
  { unfold negotiate in E. destruct Hp as [->| ->];
      destruct (http_connect target creds tcp) as [[[]|] c1]; eauto; done. }
  pose proof (http_connect_inv _ _ _ _ Hc) as (head & Hr & Hh & Hl & Hst & Hs).
  unfold negotiate in E. rewrite Hc in E. destruct Hp as [->| ->]; simpl in E.
  - simplify_eq. exists c1, head, []. rewrite app_nil_r. split_and!; done.
  - unfold read_smtp_banner, bind, map_err in E.
    destruct (read_exact 3 c1) as [[b|e] c2] eqn:Eb; [|done].
    destruct (Z.eqb_spec (get_status_code b 0 3) SMTP_READY) as [Hb|]; [|done].
    unfold ret in E. simplify_eq. exists c2, head, b.
    assert (rx c1 = bytes b ++ rx c2 /\ length b = 3%nat /\ sent c2 = sent c1) as (Hr2 & Hl2 & Hs2).
    { unfold read_exact, read_byte, bind, ret in Eb. destruct c1 as [r t o]; simpl in *.
      destruct r as [|[b0| |] [|[b1| |] [|[b2| |] r]]]; simplify_eq/=; done. }
    split_and!; [done| |done|done|done|by rewrite Hs2|done|done].
    unfold bytes in *. by rewrite Hr, Hr2, map_app, app_assoc.
Qed.

(** And every well-formed answer is accepted or refused on its status alone, with nothing
    of what follows it read. *)
Theorem connect_tunnel_complete : forall target creds r o head,
  is_head head -> (length head <= S MAX_CONNECT_HEAD)%nat ->
  negotiate Connect80 (mkConn (bytes head ++ r) [] o) target creds =
    (if get_status_code head 9 12 =? 200
     then Ok (Plain (mkConn r [] (o ++ connect_request (tg_host target) (tg_port target) creds)))
     else Err BadStatus).
Proof.
  intros target creds r o head Hh Hl. unfold negotiate.
  rewrite (http_connect_run _ _ _ _ _ _ Hh Hl) by (by left).
  by destruct (get_status_code head 9 12 =? 200).
Qed.

(** The tunnel protocol is opaque and offered exactly when the proxy has one. It is a
    protocol the proxy is known to support (a checked HTTPS proxy counts as supporting
    [CONNECT]), negotiating it never terminates TLS nor reads the tunnel's banner, and there is
    none only for a proxy with no SOCKS, CONNECT:80 or HTTPS type. *)
Theorem tunnel_proto_opaque : forall p,
  match tunnel_proto p with
  | Some proto =>
      (has_type proto p = true \/ proto = Connect80 /\ has_type Https p = true) /\
      proto <> Https /\ proto <> Connect25 /\ proto <> Http /\
      forall tcp target creds s, negotiate proto tcp target creds = Ok s -> exists c, s = Plain c
  | None => forall proto, has_type proto p = true -> proto = Http \/ proto = Connect25
  end.
Proof.
  intros p.
  assert (forall proto, proto <> Https -> forall tcp target creds s,
            negotiate proto tcp target creds = Ok s -> exists c, s = Plain c) as Hplain.
  { intros proto Hne tcp target creds s E. unfold negotiate, socks4, socks5 in E.
    destruct proto; try done; repeat case_match; simplify_eq; eauto. }
  unfold tunnel_proto. destruct (List.find _ _) as [c|] eqn:E.
  - apply find_some in E as [Hin Ht]. simpl in Hin.
    assert (c = Socks5 \/ c = Socks4 \/ c = Connect80) as Hc by naive_solver.
    split_and!; [by left|naive_solver|naive_solver|naive_solver|].
    apply Hplain. naive_solver.
  - assert (forall c, In c [Socks5; Socks4; Connect80] -> has_type c p = false) as Hn
      by (intros c Hc; exact (find_none _ _ E c Hc)).
    destruct (has_type Https p) eqn:Hh.
    + split_and!; [by right|done|done|done|by apply Hplain].
    + intros proto Hp. destruct proto; auto; try congruence;
        rewrite Hn in Hp; simpl; auto; done.
Qed.
End theorems.

(** No answer of a proxy makes the CONNECT read without bound: whatever the outcome, at most
    8194 bytes or events are consumed. *)
Theorem read_head_bounded : forall c,
  (length (rx c) <= length (rx (read_head c).2) + 8194)%nat.
Proof.
  intros c. change 8194%nat with (S (S MAX_CONNECT_HEAD)). unfold read_head, read_loop. fold head_stop.
  destruct (read_loop_on _ _ (rx c) []) as [res r'] eqn:E. cbn [snd rx].
  apply read_head_inv in E; [|apply head_open_nil]. destruct res as [h|e].
  - destruct E as (s & -> & -> & _ & Hl). unfold bytes. rewrite length_app, length_map.
    cbn [app] in *. lia.
  - cbn [length] in E. lia.
Qed.

(** Libraries that refuse everything, enough for a concrete CONNECT. *)
Definition no_libs : TunnelLibs :=
  {| socks4_connect _ _ _ := Err LibOther; socks5_connect _ _ _ _ := Err LibOther;
     server_name_ok _ := true; tls_connect _ _ _ := Err LibOther |}.
Definition ok_head : str := lit "HTTP/1.1 200 OK" ++ crlf2.
Lemma ok_head_is_head : is_head ok_head.
Proof. apply is_head_check; vm_compute; reflexivity. Qed.
Definition demo_target : Target := {| tg_host := lit "judge"; tg_ip := None; tg_port := 80 |}.
Lemma connect_tunnel_sound_witness :
  exists c, negotiate (H := no_libs) Connect80 (open_conn (ok_head ++ lit "tunnel")) demo_target None = Ok (Plain c) /\
    exists head banner, rx (open_conn (ok_head ++ lit "tunnel")) = bytes (head ++ banner) ++ rx c.
Proof.
  eexists. split; [vm_compute; reflexivity|].
  destruct (connect_tunnel_sound (H := no_libs) Connect80 demo_target None (open_conn (ok_head ++ lit "tunnel")) _
              (or_introl eq_refl) eq_refl) as (c & head & banner & [= <-] & Hr & _).
  exists head, banner. exact Hr.
Defined.
Lemma connect_tunnel_complete_witness :
  negotiate (H := no_libs) Connect80 (mkConn (bytes ok_head ++ bytes (lit "tunnel")) [] []) demo_target None =
    Ok (Plain (mkConn (bytes (lit "tunnel")) [] (connect_request (lit "judge") 80 None))).
Proof.
  refine (connect_tunnel_complete (H := no_libs) demo_target None (bytes (lit "tunnel")) [] ok_head ok_head_is_head _).
  apply Nat.leb_le. vm_compute. reflexivity.
Defined.
