(* ===== verification/Lease.v ===== *)
(** * Verify on lease (src/server.rs, [Pool::get], [verify_live])

    The tasks of PoolSteps.v with the liveness probe in place of its answer: before [get] hands a
    proxy out it opens a CONNECT tunnel through it to the configured target. *)
From S2P Require Import Prelude F64 Text Types Addr Utils Proxy Pool PoolSteps Holds Http Net Negotiator.
Open Scope Z_scope.

Section lease.
Context `{HO : HashOrder} `{N : Notify} `{UC : UnicodeCase} `{TL : TunnelLibs}.

(** The probe's target is left to the proxy to resolve. *)
Definition verify_live (cfg : PoolConfig) (d : Dial) (px : Proxy) : bool :=
  let '(host, port) := verify_target cfg in
  probe_tunnel d {| tg_host := host; tg_ip := None; tg_port := port |} (p_auth px).

(** A step of a task, when [d] is how the dial of its probe goes. *)
Inductive LeaseEvent := LsTask (i : nat) (now : Z) (d : Dial) | LsSpawn (s : Scheme) (k : ClientKey) (wait_for : option nat) | LsEnv (op : EnvOp).
Definition probed (st : list Task * World) (i : nat) (d : Dial) : bool :=
  match t_pc <$> st.1 !! i with Some (GVerify px _) => verify_live (config (w_pool st.2)) d px | _ => false end.
Definition as_event (st : list Task * World) (ev : LeaseEvent) : Event :=
  match ev with
  | LsTask i now d => VTask i now (probed st i d)
  | LsSpawn s k n => VSpawn s k n
  | LsEnv op => VEnv op
  end.
Fixpoint lease_run (evs : list LeaseEvent) (st : list Task * World) : option (list Task * World) :=
  match evs with [] => Some st | ev :: evs => let? st := exec (as_event st ev) st in lease_run evs st end.

Lemma lease_run_app evs1 evs2 st : lease_run (evs1 ++ evs2) st = let? st := lease_run evs1 st in lease_run evs2 st.
Proof. revert st. induction evs1 as [|x evs IH]; intros st; cbn; [done|]. by destruct (exec _ st); cbn. Qed.
Lemma lease_run_snoc evs ev st : lease_run (evs ++ [ev]) st = let? st := lease_run evs st in exec (as_event st ev) st.
Proof. rewrite lease_run_app. destruct (lease_run evs st) as [st1|]; cbn; [|done]. by destruct (exec _ st1). Qed.
(** A run with probes is a run. *)
Lemma lease_is_run evs st st' : lease_run evs st = Some st' -> exists vs, run vs st = Some st'.
Proof.
  revert st. induction evs as [|ev evs IH]; intros st E; cbn in E; [by exists []|].
  destruct (exec (as_event st ev) st) as [st1|] eqn:Ex; [|done]. destruct (IH st1 E) as [vs Hv]. exists (as_event st ev :: vs). cbn. by rewrite Ex.
Qed.

Lemma lease_config evs cfg rng ts w : lease_run evs ([], mkWorld (spawned cfg) rng notify_new 0) = Some (ts, w) -> config (w_pool w) = cfg.
Proof.
  intros [vs Hv]%lease_is_run. destruct (run_holds cfg (fun _ => True) vs ([], mkWorld (spawned cfg) rng notify_new 0) (ts, w)) as [_ [H _]]; try done.
  apply Forall_true. intros [| |[]]; done.
Qed.
Lemma lease_run_exhausted evs st st' : lease_run evs st = Some st' -> exhausted (w_pool st.2) = true -> exhausted (w_pool st'.2) = true.
Proof.
  revert st. induction evs as [|ev evs IH]; intros [ts w] E Hx; cbn in E; [by injection E as <-|].
  destruct (exec _ _) as [st1|] eqn:Ex; [|done]. apply (IH st1 E). destruct ev as [i now d|s k n|op]; cbn in Ex.
  - destruct (ts !! i) as [t|]; [|done]. cbn in Ex. destruct (task_step _ _ t w) as [[t' w']|] eqn:Es; [|done]. injection Ex as <-.
    cbn. by rewrite (task_step_exhausted _ _ _ _ _ _ Es).
  - by injection Ex as <-.
  - injection Ex as <-. by apply env_step_exhausted.
Qed.

(** How task [i] came by [px]: through a tunnel it opened, or in its last look at a pool whose source had ended. *)
Definition vetted (cfg : PoolConfig) (t : Task) (w : World) (d : Dial) (px : Proxy) : Prop :=
  (exists a c head r, t_pc t = GVerify px a /\ d = DialOk c /\ rx c = bytes head ++ r /\ is_head head /\
     (length head <= S MAX_CONNECT_HEAD)%nat /\ get_status_code head 9 12 = 200) \/
  (t_pc t = GLast /\ exhausted (w_pool w) = true).
Definition leased (cfg : PoolConfig) (rng : Z) (evs : list LeaseEvent) (i : nat) (px : Proxy) : Prop :=
  exists evs1 now d evs2 ts w t, evs = evs1 ++ LsTask i now d :: evs2 /\
    lease_run evs1 ([], mkWorld (spawned cfg) rng notify_new 0) = Some (ts, w) /\ ts !! i = Some t /\ vetted cfg t w d px.
Lemma leased_mono cfg rng evs ev i px : leased cfg rng evs i px -> leased cfg rng (evs ++ [ev]) i px.
Proof.
  intros (evs1 & now & d & evs2 & ts & w & t & -> & H). exists evs1, now, d, (evs2 ++ [ev]), ts, w, t. by rewrite <- app_assoc.
Qed.
Lemma probe_opened cfg d px : verify_live cfg d px = true -> exists c head r, d = DialOk c /\ rx c = bytes head ++ r /\ is_head head /\
  (length head <= S MAX_CONNECT_HEAD)%nat /\ get_status_code head 9 12 = 200.
Proof.
  unfold verify_live, probe_tunnel, negotiate. destruct (verify_target cfg) as [host port]. destruct d as [| |c]; try done.
  destruct (http_connect _ _ c) as [[[]|e] c'] eqn:E; [|done]. intros _.
  apply http_connect_inv in E as (head & Hr & Hh & Hl & Hs & _). by exists c, head, (rx c').
Qed.
(** The only steps that hand a proxy out, when it is to be verified. *)
Lemma handed_out now live t w t' w' px : task_step now live t w = Some (t', w') -> t_pc t' = GDone (Some px) ->
  verify_on_lease (config (w_pool w)) <> None -> (t_pc t = GLast) \/ (live = true /\ exists a, t_pc t = GVerify px a).
Proof.
  intros E Hd Hv. unfold task_step in E. destruct (t_pc t) as [a|k a|q a|a|k a| |k a|r|n|k n|k n|] eqn:Hpc; try (by left).
  all: try (simplify_eq; cbn in Hd; repeat case_match; done).
  - destruct (try_select _ _ _ _ _) as [[o p] r] eqn:Es. destruct o as [q|]; simplify_eq; cbn in Hd; try done.
    assert (config p = config (w_pool w)) as Hc by (by apply try_select_Some in Es as (e & _ & _ & _ & Hc & _)).
    rewrite Hc in Hd. by destruct (verify_on_lease _).
  - destruct live; simplify_eq; cbn in Hd.
    + simplify_eq. right. eauto.
    + destruct (put_pushes q w); [done|]. by destruct (after_failure_ok a) as [E0|[E0 _]]; rewrite E0 in Hd.
  - simplify_eq. cbn in Hd. by destruct (after_failure_ok a) as [E0|[E0 _]]; rewrite E0 in Hd.
  - destruct (woken _ _); by simplify_eq.
  - destruct (woken _ _); by simplify_eq.
Qed.
(** A last look is taken when the source has ended. *)
Lemma last_look now live t w t' w' : task_step now live t w = Some (t', w') -> t_pc t' = GLast -> exhausted (w_pool w') = true.
Proof.
  intros E Hl. unfold task_step in E. destruct (t_pc t) as [a|k a|q a|a|k a| |k a|r|n|k n|k n|] eqn:Hpc.
  all: try (simplify_eq; cbn in Hl; repeat case_match; done).
  - destruct (try_select _ _ _ _ _) as [[o p] r] eqn:Es. destruct o as [q|]; simplify_eq; cbn in Hl; try done. by destruct (verify_on_lease _).
  - destruct live; simplify_eq; cbn in Hl; try done.
    destruct (put_pushes q w); try done. by destruct (after_failure_ok a) as [E0|[E0 _]]; rewrite E0 in Hl.
  - simplify_eq. cbn in Hl. by destruct (after_failure_ok a) as [E0|[E0 _]]; rewrite E0 in Hl.
  - destruct (try_select _ _ _ _ _) as [[o p] r] eqn:Es. by simplify_eq.
  - destruct (woken _ _); by simplify_eq.
  - destruct (woken _ _); by simplify_eq.
Qed.

Definition lease_ok (cfg : PoolConfig) (rng : Z) (evs : list LeaseEvent) (ts : list Task) (w : World) : Prop :=
  forall i t, ts !! i = Some t -> (t_pc t = GLast -> exhausted (w_pool w) = true) /\
    forall px, t_pc t = GDone (Some px) -> leased cfg rng evs i px.
Lemma lease_run_ok cfg rng evs ts w : verify_on_lease cfg <> None ->
  lease_run evs ([], mkWorld (spawned cfg) rng notify_new 0) = Some (ts, w) -> lease_ok cfg rng evs ts w.
Proof.
  intros Hv. revert ts w. induction evs as [|ev evs IH] using rev_ind; intros ts w E; [injection E as <- <-; intros i t Hi; done|].
  rewrite lease_run_snoc in E. destruct (lease_run evs _) as [[ts1 w1]|] eqn:E1; [|done]. specialize (IH ts1 w1 eq_refl).
  pose proof (lease_config _ _ _ _ _ E1) as Hc. cbn [mbind option_bind] in E. destruct ev as [i now d|s k n|op]; cbn [as_event exec fst snd] in E.
  - destruct (ts1 !! i) as [t|] eqn:Hi; [|done]. cbn [mbind option_bind] in E.
    destruct (task_step _ _ t w1) as [[t' w']|] eqn:Es; [|done]. injection E as <- <-. pose proof (task_step_exhausted _ _ _ _ _ _ Es) as Hx.
    intros j u Hj. apply list_lookup_insert_Some in Hj as [(<- & <- & _)|[_ Hj]].
    + split; [by eapply last_look|]. intros px Hd. exists evs, now, d, [], ts1, w1, t. split_and!; [done..|].
      destruct (handed_out _ _ _ _ _ _ _ Es Hd) as [Hl|[Hlive [a Ha]]]; [by rewrite Hc|right|left].
      * split; [done|]. by apply (IH i t Hi).
      * unfold probed in Hlive. cbn in Hlive. rewrite Hi in Hlive. cbn in Hlive. rewrite Ha in Hlive.
        apply probe_opened in Hlive as (c & head & r & H). by exists a, c, head, r.
    + destruct (IH j u Hj) as [H1 H2]. split; [by rewrite Hx|]. intros px Hd. by apply leased_mono, H2.
  - injection E as <- <-. intros j u Hj. apply lookup_app_Some in Hj as [Hj|[_ Hj]].
    + destruct (IH j u Hj) as [H1 H2]. split; [done|]. intros px Hd. by apply leased_mono, H2.
    + apply list_lookup_singleton_Some in Hj as [_ <-]. by destruct n.
  - injection E as <- <-. intros j u Hj. destruct (IH j u Hj) as [H1 H2]. split; [intros Hl; by apply env_step_exhausted, H1|].
    intros px Hd. by apply leased_mono, H2.
Qed.

(** C8: verify-on-lease. When it is asked for, a client gets a proxy in one of two ways only, whatever the other
    tasks, the importer and the mutators do meanwhile: the probe [get] made through that very proxy
    was answered by a complete response head, within its bound, of status 200 ([vetted]); or it was found in the last
    look at a pool whose source has ended, which the code does not probe. While the source is live
    every proxy handed out was probed. *)
Theorem lease_verified : forall cfg rng evs ts w i t px,
  verify_on_lease cfg <> None -> lease_run evs ([], mkWorld (spawned cfg) rng notify_new 0) = Some (ts, w) ->
  ts !! i = Some t -> t_pc t = GDone (Some px) ->
  exists evs1 now d evs2 ts1 w1 t1, evs = evs1 ++ LsTask i now d :: evs2 /\
    lease_run evs1 ([], mkWorld (spawned cfg) rng notify_new 0) = Some (ts1, w1) /\ ts1 !! i = Some t1 /\ vetted cfg t1 w1 d px /\
    (exhausted (w_pool w) = false -> exists a, t_pc t1 = GVerify px a).
Proof.
  intros cfg rng evs ts w i t px Hv E Hi Hd. destruct (lease_run_ok _ _ _ _ _ Hv E i t Hi) as [_ H].
  destruct (H px Hd) as (evs1 & now & d & evs2 & ts1 & w1 & t1 & -> & E1 & Hi1 & Hvet).
  exists evs1, now, d, evs2, ts1, w1, t1. do 4 (split; [done|]). intros Hx.
  destruct Hvet as [(a & c & head & r & Ha & _)|[_ Hx1]]; [by exists a|]. exfalso.
  rewrite lease_run_app, E1 in E. cbn [mbind option_bind] in E. pose proof (lease_run_exhausted _ _ _ E Hx1) as He. cbn in He. by rewrite He in Hx.
Qed.
End lease.

(** ** A probe that answers, one that does not, and the last look *)
Section lease_demo.
#[local] Existing Instances list_order counter_notify ascii_case no_libs.
Definition verifying : PoolConfig :=
  let d := PoolConfig_default in
  {| max_tries := max_tries d; max_error_rate := max_error_rate d; max_resp_time := max_resp_time d; min_req := min_req d;
     countries := countries d; strategy := strategy d; sticky_header := sticky_header d; max_sessions := max_sessions d;
     fail_timeout := fail_timeout d; prefer_connect := prefer_connect d; http_allowed_codes := http_allowed_codes d;
     verify_on_lease := Some (10 ^ 9); verify_target := verify_target d; max_clients := max_clients d |}.
Definition good_probe : Dial := DialOk (open_conn ok_head).
(** A probe that is refused, then one that is answered; and a client that finds its proxy in the last look. *)
Definition lease_events : list LeaseEvent :=
  [LsSpawn SHttp demo_key None; LsEnv (EImport demo_proxy)] ++ replicate 6 (LsTask 0 0 DialErr) ++ [LsTask 0 0 good_probe].
Definition late_events : list LeaseEvent :=
  [LsSpawn SHttp demo_key None; LsTask 0 0 DialErr; LsTask 0 0 DialErr; LsEnv (EImport demo_proxy); LsEnv EEnd; LsTask 0 0 DialErr; LsTask 0 0 DialErr].
Abbreviation demo_leases evs := (lease_run evs ([], mkWorld (spawned verifying) rand_seed notify_new 0)).
Definition leases (st : list Task * World) : list Pc * bool := (map t_pc st.1, exhausted (w_pool st.2)).
Lemma lease_verified_witness : exists ts w evs1 now c evs2, demo_leases lease_events = Some (ts, w) /\
  map t_pc ts = [GDone (Some demo_proxy)] /\ lease_events = evs1 ++ LsTask 0 now (DialOk c) :: evs2 /\
  exists head r, rx c = bytes head ++ r /\ get_status_code head 9 12 = 200.
Proof.
  assert (E0 : leases <$> demo_leases lease_events = Some ([GDone (Some demo_proxy)], false)) by (vm_compute; reflexivity).
  destruct (demo_leases lease_events) as [[ts w]|] eqn:E; [|discriminate E0]. cbn in E0. injection E0 as Ht Hx.
  destruct ts as [|t [|]]; try discriminate Ht. injection Ht as Ht.
  destruct (lease_verified verifying rand_seed lease_events [t] w 0 t demo_proxy ltac:(discriminate) E eq_refl Ht)
    as (evs1 & now & d & evs2 & ts1 & w1 & t1 & He & _ & _ & Hv & Hlive).
  destruct (Hlive Hx) as [a Ha]. destruct Hv as [(a' & c & head & r & _ & Hd & Hr & _ & _ & Hst)|[Hv _]]; [|rewrite Ha in Hv; discriminate Hv].
  exists [t], w, evs1, now, c, evs2. split; [reflexivity|]. split; [cbn; by rewrite Ht|]. split; [by rewrite He, Hd|]. exists head, r. by split.
Defined.
(** No probe of it would be answered, and it is handed out. *)
Example last_look_unprobed : leases <$> demo_leases late_events = Some ([GDone (Some demo_proxy)], true) /\
  Forall (fun ev => match ev with LsTask _ _ d => verify_live verifying d demo_proxy = false | _ => True end) late_events.
Proof. split; [vm_compute; reflexivity|]. repeat constructor. Qed.
End lease_demo.
