(* ===== verification/Client.v ===== *)
(** * The client side of the local server (src/server.rs)

    The front-end sniffing, the HTTP and SOCKS5 parsers of a client's first request, and the
    small decisions taken from it. *)
From S2P Require Import Prelude F64 Text Types Addr Utils Proxy Pool Http Net.
Open Scope Z_scope.

Inductive Frontend := HttpForward | HttpConnect | FSocks5.
#[export] Instance Frontend_eq_dec : EqDecision Frontend.
Proof. solve_decision. Defined.

Record ClientRequest := {
  rq_scheme : Scheme;
  rq_frontend : Frontend;
  rq_host : str;
  rq_port : Z;
  rq_raw : str;
  rq_proxy_auth : option str;
  rq_path : str;
}.
Record AuthExpect := { ax_user : str; ax_pass : str; ax_basic : str }.

(** [serve]'s precomputation from [user:pass]. *)
Definition auth_expect (up : str) : AuthExpect :=
  let '(user, pass) := default (up, []) (split_once (lit ":") up) in
  {| ax_user := user; ax_pass := pass; ax_basic := lit "Basic " ++ base64_encode up |}.

(** ** HTTP requests *)
Definition http_target (uri : str) (rest : list str) : option str :=
  let host_hdr :=
    let? l := List.find (fun l => starts_with (lit "host:") (to_ascii_lowercase l)) rest in
    Some (trim (drop 5 l)) in
  match strip_prefix (lit "http://") uri with
  | Some r => match split_char "/"%char r with h :: _ => Some h | [] => host_hdr end
  | None => host_hdr
  end.

Definition parse_http (buf : str) : option ClientRequest :=
  match lines (from_utf8_lossy buf) with
  | [] => None
  | first :: rest =>
      match split_whitespace first with
      | method :: uri :: _ =>
          let proxy_auth := header_value buf (lit "Proxy-Authorization") in
          if eq_ignore_ascii_case method (lit "CONNECT") then
            let '(host, port) := split_host_port uri 443 in
            Some {| rq_scheme := SHttps; rq_frontend := HttpConnect; rq_host := host; rq_port := port;
                    rq_raw := []; rq_proxy_auth := proxy_auth; rq_path := uri |}
          else
            let? host_port := http_target uri rest in
            let '(host, port) := split_host_port host_port 80 in
            Some {| rq_scheme := SHttp; rq_frontend := HttpForward; rq_host := host; rq_port := port;
                    rq_raw := buf; rq_proxy_auth := proxy_auth; rq_path := uri |}
      | _ => None
      end
  end.

(** ** The SOCKS5 handshake; the version byte is already read. Every failure ends the parse. *)
Definition m_some {A} (m : M IoErr A) : M unit A := map_err (fun _ => tt) m.
Definition reject {A} (reply : list Z) : M unit A := run! ignore (write_all (bs reply)) in fail tt.
Definition be16 (s : str) : Z := be_value 8 (map byte s).
Definition len_byte (s : str) : nat := match s with c :: _ => Z.to_nat (byte c) | [] => 0 end.

Definition SOCKS_NO_METHOD : list Z := [5; 255].
Definition SOCKS_NO_COMMAND : list Z := [5; 7; 0; 1; 0; 0; 0; 0; 0; 0].
Definition SOCKS_NO_ADDRESS_TYPE : list Z := [5; 8; 0; 1; 0; 0; 0; 0; 0; 0].

Definition socks5_methods (expected_auth : option AuthExpect) : M unit unit :=
  bind! nmethods := m_some (read_exact 1) in
  bind! methods := m_some (read_exact (len_byte nmethods)) in
  match expected_auth with
  | None =>
      if negb (bool_decide (chr 0 ∈ methods)) then reject SOCKS_NO_METHOD
      else m_some (write_all (bs [5; 0]))
  | Some exp =>
      if negb (bool_decide (chr 2 ∈ methods)) then reject SOCKS_NO_METHOD
      else
        run! m_some (write_all (bs [5; 2])) in
        bind! vu := m_some (read_exact 2) in
        bind! user := m_some (read_exact (len_byte (drop 1 vu))) in
        bind! pl := m_some (read_exact 1) in
        bind! pass := m_some (read_exact (len_byte pl)) in
        if bool_decide (user = ax_user exp) && bool_decide (pass = ax_pass exp)
        then m_some (write_all (bs [1; 0]))
        else reject [1; 1]
  end.

Definition socks5_address (atyp : Z) : M unit (str * Z) :=
  if atyp =? 1 then
    bind! a := m_some (read_exact 4) in
    bind! p := m_some (read_exact 2) in
    ret (v4_show (be_value 8 (map byte a)), be16 p)
  else if atyp =? 4 then
    bind! a := m_some (read_exact 16) in
    bind! p := m_some (read_exact 2) in
    ret (v6_show (be_value 8 (map byte a)), be16 p)
  else if atyp =? 3 then
    bind! l := m_some (read_exact 1) in
    bind! d := m_some (read_exact (len_byte l)) in
    bind! p := m_some (read_exact 2) in
    ret (from_utf8_lossy d, be16 p)
  else reject SOCKS_NO_ADDRESS_TYPE.

Definition parse_socks5_request (expected_auth : option AuthExpect) : M unit ClientRequest :=
  run! socks5_methods expected_auth in
  bind! hdr := m_some (read_exact 4) in
  let h i := default 0 (byte <$> hdr !! i) in
  if negb (h 0%nat =? 5) then fail tt
  else if negb (h 1%nat =? 1) then reject SOCKS_NO_COMMAND
  else
    bind! hp := socks5_address (h 3%nat) in
    let '(host, port) := hp in
    ret {| rq_scheme := SHttps; rq_frontend := FSocks5; rq_host := host; rq_port := port; rq_raw := [];
           rq_proxy_auth := None; rq_path := host ++ lit ":" ++ show_uint port |}.

(** ** The first request: a first byte of 5 is SOCKS5, anything else HTTP. *)
Definition MAX_CLIENT_HEAD : nat := 65536.
Definition client_head (first : str) : M unit str :=
  read_loop
    (fun buf => if ends_with crlf2 buf || (MAX_CLIENT_HEAD <? length buf)%nat then Some (Ok buf) else None)
    (fun _ _ => tt) first.

Definition parse_client_request (expected_auth : option AuthExpect) : M unit ClientRequest :=
  bind! first := m_some (read_exact 1) in
  if match first with c :: _ => byte c =? 5 | [] => false end
  then parse_socks5_request expected_auth
  else
    bind! buf := client_head first in
    match parse_http buf with Some r => ret r | None => fail tt end.

(** ** Small decisions of the handler *)
Definition bad_gateway : str := lit "HTTP/1.1 502 Bad Gateway" ++ crlf2.
Definition socks_failure : str := bs [5; 1; 0; 1; 0; 0; 0; 0; 0; 0].
Definition terminal_failure (f : Frontend) : str :=
  match f with FSocks5 => socks_failure | _ => bad_gateway end.

Definition client_key (config : PoolConfig) (peer_ip : IpAddr) (req : ClientRequest) : ClientKey :=
  let by_header :=
    if decide (rq_scheme req = SHttp) then
      let? name := sticky_header config in header_value (rq_raw req) name
    else None in
  match by_header with Some v => KHeader v | None => KIp peer_ip end.

(** ** The gate, the parsers and the small components *)

(** The RFC 1929 exchange of a SOCKS5 client that knows the credentials. *)
Definition socks5_login (exp : AuthExpect) (read : str) : Prop :=
  exists n methods ver ul pl rest,
    read = n :: methods ++ ver :: ul :: ax_user exp ++ pl :: ax_pass exp ++ rest /\
    length methods = Z.to_nat (byte n) /\ chr 2 ∈ methods /\
    length (ax_user exp) = Z.to_nat (byte ul) /\ length (ax_pass exp) = Z.to_nat (byte pl).

Lemma read_exact_inv n c s c' :
  read_exact n c = (Ok s, c') -> rx c = bytes s ++ rx c' /\ length s = n /\ sent c' = sent c /\ tx c' = tx c.
Proof.
  revert c s. induction n as [|n IH]; intros c s E; simpl in E; [by unfold ret in E; simplify_eq|].
  unfold bind in E. destruct (read_byte c) as [[b|e] c1] eqn:Eb; [|done].
  assert (rx c = RxByte b :: rx c1 /\ sent c1 = sent c /\ tx c1 = tx c) as (Hr & Hs & Ht).
  { unfold read_byte in Eb. destruct (rx c) as [|[b0| |] r]; by simplify_eq/=. }
  destruct (read_exact n c1) as [[s1|e] c2] eqn:E1; [|done]. unfold ret in E. simplify_eq.
  apply IH in E1 as (H1 & H2 & H3 & H4). rewrite Hr, H1, H3, H4, <- H2. done.
Qed.
Lemma write_all_inv s c u c' : write_all s c = (Ok u, c') -> rx c' = rx c /\ sent c' = sent c ++ s.
Proof. unfold write_all. destruct (tx c) as [|[] ?]; intros; by simplify_eq. Qed.

Lemma bind_inv {E A B} (m : M E A) (k : A -> M E B) c b c' :
  bind m k c = (Ok b, c') -> exists a c1, m c = (Ok a, c1) /\ k a c1 = (Ok b, c').
Proof. unfold bind. destruct (m c) as [[a|e] c1]; [eauto|done]. Qed.
Lemma m_some_inv {A} (m : M IoErr A) c a c' : m_some m c = (Ok a, c') -> m c = (Ok a, c').
Proof. unfold m_some, map_err. destruct (m c) as [[?|e] c1]; congruence. Qed.
Lemma reject_inv {A} l c (a : A) c' : reject l c = (Ok a, c') -> False.
Proof. unfold reject, bind, ignore, fail. done. Qed.

(** Runs a successful parse backwards, one read or write at a time. *)
Ltac parse_inv :=
  repeat match goal with
    | H : bind _ _ _ = (Ok _, _) |- _ => apply bind_inv in H as (? & ? & ? & H)
    | H : m_some _ _ = (Ok _, _) |- _ => apply m_some_inv in H
    | H : read_exact _ _ = (Ok _, _) |- _ => apply read_exact_inv in H as (? & ? & ? & ?)
    | H : write_all _ _ = (Ok _, _) |- _ => apply write_all_inv in H as (? & ?)
    | H : reject _ _ = (Ok _, _) |- _ => by apply reject_inv in H
    | H : fail _ _ = (Ok _, _) |- _ => discriminate H
    | H : ret _ _ = (Ok _, _) |- _ => unfold ret in H; simplify_eq
    | H : context [let '(_, _) := ?p in _] |- _ => destruct p
    end.

Lemma len1 {A} (l : list A) : length l = 1%nat -> exists a, l = [a].
Proof. destruct l as [|a [|]]; try done. eauto. Qed.
Lemma len2 {A} (l : list A) : length l = 2%nat -> exists a b, l = [a; b].
Proof. destruct l as [|a [|b [|]]]; try done. eauto. Qed.

Lemma socks5_methods_inv auth c u c' :
  socks5_methods auth c = (Ok u, c') ->
  exists read, rx c = bytes read ++ rx c' /\
    match auth with
    | Some exp => socks5_login exp read /\ sent c' = sent c ++ bs [5; 2; 1; 0]
    | None => (exists n methods, read = n :: methods /\ chr 0 ∈ methods /\ length methods = Z.to_nat (byte n)) /\
              sent c' = sent c ++ bs [5; 0]
    end.
Proof.
  intros E. unfold socks5_methods in E.
  apply bind_inv in E as (nm & c1 & Hn & E). apply m_some_inv, read_exact_inv in Hn as (Hn & [n ->]%len1 & Hns & _).
  apply bind_inv in E as (methods & c2 & Hm & E). apply m_some_inv, read_exact_inv in Hm as (Hm & Hml & Hms & _).
  destruct auth as [exp|]; case_bool_decide as Hin; cbn [negb] in E; try (by apply reject_inv in E).
  - apply bind_inv in E as ([] & c3 & Hw & E). apply m_some_inv, write_all_inv in Hw as (Hr3 & Hs3).
    apply bind_inv in E as (vu & c4 & Hv & E). apply m_some_inv, read_exact_inv in Hv as (Hv & (ver & ul & ->)%len2 & Hs4 & _).
    apply bind_inv in E as (user & c5 & Hu & E). apply m_some_inv, read_exact_inv in Hu as (Hu & Hul & Hs5 & _).
    apply bind_inv in E as (plb & c6 & Hp & E). apply m_some_inv, read_exact_inv in Hp as (Hp & [pl ->]%len1 & Hs6 & _).
    apply bind_inv in E as (pass & c7 & Hq & E). apply m_some_inv, read_exact_inv in Hq as (Hq & Hql & Hs7 & _).
    destruct (bool_decide (user = _) && bool_decide (pass = _)) eqn:Eq; [|by apply reject_inv in E].
    bsimp. subst. apply m_some_inv, write_all_inv in E as (Hr8 & Hs8).
    exists (n :: methods ++ ver :: ul :: ax_user exp ++ pl :: ax_pass exp ++ []). split; [|split].
    + rewrite Hn, Hm, <- Hr3, Hv, Hu, Hp, Hq, <- Hr8, app_nil_r. unfold bytes.
      cbn [map app]. rewrite !map_app. cbn [map app]. rewrite !map_app. cbn [map app].
      by rewrite <- !app_assoc, <- !app_comm_cons, <- !app_assoc.
    + exists n, methods, ver, ul, pl, []. done.
    + rewrite Hs8, Hs7, Hs6, Hs5, Hs4, Hs3, Hms, Hns, <- app_assoc. done.
  - apply m_some_inv, write_all_inv in E as (Hr3 & Hs3). exists (n :: methods). split; [|split].
    + by rewrite Hn, Hm, <- Hr3.
    + exists n, methods. done.
    + by rewrite Hs3, Hms, Hns.
Qed.

(** A computation that, when it succeeds, read some bytes and wrote nothing. *)
Definition consumes {A} (m : M unit A) : Prop :=
  forall c a c', m c = (Ok a, c') -> exists s, rx c = bytes s ++ rx c' /\ sent c' = sent c.
Lemma consumes_bind {A B} (m : M unit A) (k : A -> M unit B) :
  consumes m -> (forall a, consumes (k a)) -> consumes (bind m k).
Proof.
  intros Hm Hk c b c' (a & c1 & H1 & H2)%bind_inv.
  apply Hm in H1 as (s & E1 & S1). apply Hk in H2 as (t & E2 & S2). exists (s ++ t).
  by rewrite E1, E2, S2, S1, bytes_app, <- app_assoc.
Qed.
Lemma consumes_read_exact n : consumes (m_some (read_exact n)).
Proof. intros c s c' (H1 & _ & H2 & _)%m_some_inv%read_exact_inv. eauto. Qed.
Lemma consumes_ret {A} (a : A) : consumes (ret a).
Proof. intros c b c' [= _ <-]. by exists []. Qed.
Lemma consumes_reject {A} l : consumes (A := A) (reject l).
Proof. intros c a c' []%reject_inv. Qed.
#[export] Hint Resolve consumes_bind consumes_read_exact consumes_ret consumes_reject : proxybroker.
Lemma socks5_address_consumes atyp : consumes (socks5_address atyp).
Proof. unfold socks5_address. repeat case_match; eauto 8 with proxybroker. Qed.

Lemma parse_socks5_inv auth c req c' :
  parse_socks5_request auth c = (Ok req, c') ->
  rq_scheme req = SHttps /\ rq_frontend req = FSocks5 /\ rq_raw req = [] /\ rq_proxy_auth req = None /\
  exists read more, rx c = bytes (read ++ more) ++ rx c' /\
    match auth with
    | Some exp => socks5_login exp read /\ sent c' = sent c ++ bs [5; 2; 1; 0]
    | None => sent c' = sent c ++ bs [5; 0]
    end.
Proof.
  intros E. unfold parse_socks5_request in E.
  apply bind_inv in E as ([] & c1 & Hm & E). apply socks5_methods_inv in Hm as (read & Hr & Hm).
  apply bind_inv in E as (hdr & c2 & Hh & E). apply m_some_inv, read_exact_inv in Hh as (Hh & _ & Hs2 & _).
  cbv zeta in E. destruct (negb (_ =? 5)); [done|]. destruct (negb (_ =? 1)); [by apply reject_inv in E|].
  apply bind_inv in E as ([host port] & c3 & Ha & E). unfold ret in E. simplify_eq. simpl.
  assert (exists more, rx c2 = bytes more ++ rx c' /\ sent c' = sent c2) as (more & Hr3 & Hs3).
  { by eapply socks5_address_consumes. }
  split_and!; [done..|]. exists read, (hdr ++ more). split.
  - by rewrite Hr, Hh, Hr3, !bytes_app, <- !app_assoc.
  - destruct auth; [destruct Hm as [? Hm]; split; [done|]|destruct Hm as [_ Hm]]; by rewrite Hs3, Hs2, Hm.
Qed.

(** ** What the parsers accept *)
Lemma bind_ok {E A B} (m : M E A) (k : A -> M E B) c a c1 : m c = (Ok a, c1) -> bind m k c = k a c1.
Proof. unfold bind. by intros ->. Qed.
Lemma m_read n s r t o : length s = n ->
  m_some (read_exact n) (mkConn (bytes s ++ r) t o) = (Ok s, mkConn r t o).
Proof. intros <-. unfold m_some, map_err. by rewrite read_exact_bytes. Qed.
Lemma m_write s r o : m_some (write_all s) (mkConn r [] o) = (Ok tt, mkConn r [] (o ++ s)).
Proof. done. Qed.
(** One read of known bytes at the front of the input. *)
Ltac read_front := erewrite bind_ok by (apply m_read; first [reflexivity | eassumption]).

(** A SOCKS5 destination and its encoding. *)
Inductive SocksDest := DestV4 (a : Z) | DestV6 (a : Z) | DestName (d : str).
Definition dest_ok (d : SocksDest) : Prop :=
  match d with
  | DestV4 a => 0 <= a < 2 ^ 32 | DestV6 a => 0 <= a < 2 ^ 128
  | DestName s => (length s <= 255)%nat
  end.
Definition encode_dest (d : SocksDest) : str :=
  match d with
  | DestV4 a => chr 1 :: bs (be_digits 8 4 a)
  | DestV6 a => chr 4 :: bs (be_digits 8 16 a)
  | DestName s => chr 3 :: chr (Z.of_nat (length s)) :: s
  end.
Definition dest_host (d : SocksDest) : str :=
  match d with DestV4 a => v4_show a | DestV6 a => v6_show a | DestName s => from_utf8_lossy s end.
Definition encode_login (auth : option AuthExpect) : str :=
  match auth with
  | Some exp => chr 1 :: chr (Z.of_nat (length (ax_user exp))) :: ax_user exp ++
                chr (Z.of_nat (length (ax_pass exp))) :: ax_pass exp
  | None => []
  end.
Definition encode_socks5 (auth : option AuthExpect) (methods : str) (d : SocksDest) (port : Z) : str :=
  chr (Z.of_nat (length methods)) :: methods ++ encode_login auth ++
  bs [5; 1; 0] ++ encode_dest d ++ bs (be_digits 8 2 port).
Definition socks5_answers (auth : option AuthExpect) : str :=
  match auth with Some _ => bs [5; 2; 1; 0] | None => bs [5; 0] end.
Definition auth_method (auth : option AuthExpect) : Z := match auth with Some _ => 2 | None => 0 end.

Lemma len_byte_chr n s : (n <= 255)%nat -> len_byte (chr (Z.of_nat n) :: s) = n.
Proof. intros. unfold len_byte. rewrite byte_chr by lia. lia. Qed.
Lemma map_byte_bs l : Forall (fun z => 0 <= z < 2 ^ 8) l -> map byte (bs l) = l.
Proof.
  induction 1 as [|z l Hz Hl IH]; [done|]. unfold bs in *. simpl. rewrite byte_chr by lia. by f_equal.
Qed.
Lemma be_bytes n a : 0 <= a < 2 ^ (8 * Z.of_nat n) -> be_value 8 (map byte (bs (be_digits 8 n a))) = a.
Proof.
  intros Ha. rewrite map_byte_bs by (apply be_digits_range; lia). by apply be_value_digits.
Qed.
Lemma bs_length l : length (bs l) = length l.
Proof. apply length_map. Qed.
Lemma be_bytes_length n a : length (bs (be_digits 8 n a)) = n.
Proof. by rewrite bs_length, be_digits_length. Qed.

Lemma socks5_methods_run auth methods r o :
  (length methods <= 255)%nat -> chr (auth_method auth) ∈ methods ->
  match auth with Some exp => (length (ax_user exp) <= 255)%nat /\ (length (ax_pass exp) <= 255)%nat | None => True end ->
  socks5_methods auth (mkConn (bytes (chr (Z.of_nat (length methods)) :: methods ++ encode_login auth) ++ r) [] o) =
    (Ok tt, mkConn r [] (o ++ socks5_answers auth)).
Proof.
  intros Hl Hm Ha. unfold socks5_methods.
  change (bytes (?c :: ?s)) with (bytes [c] ++ bytes s). rewrite <- app_assoc.
  read_front. rewrite len_byte_chr by done. rewrite bytes_app, <- app_assoc. read_front.
  destruct auth as [exp|]; simpl auth_method in Hm; rewrite bool_decide_eq_true_2 by done; cbn [negb].
  - destruct Ha as [Hu Hp]. rewrite (bind_ok _ _ _ _ _ (m_write _ _ _)). cbn [encode_login].
    change (bytes (?c1 :: ?c2 :: ?s)) with (bytes [c1; c2] ++ bytes s). rewrite <- app_assoc. read_front.
    cbn [drop]. rewrite len_byte_chr by done. rewrite bytes_app, <- app_assoc. read_front.
    change (bytes (?c :: ?s)) with (bytes [c] ++ bytes s). rewrite <- app_assoc. read_front.
    rewrite len_byte_chr by done. read_front.
    rewrite !bool_decide_eq_true_2 by done. cbn [andb]. rewrite m_write. by rewrite <- app_assoc.
  - simpl. by rewrite m_write.
Qed.

Lemma socks5_address_run d port r t o :
  dest_ok d -> 0 <= port <= 65535 ->
  exists atyp rest, encode_dest d = chr atyp :: rest /\ 0 <= atyp < 256 /\
    socks5_address atyp (mkConn (bytes (rest ++ bs (be_digits 8 2 port)) ++ r) t o) =
      (Ok (dest_host d, port), mkConn r t o).
Proof.
  intros Hd Hp. assert (be16 (bs (be_digits 8 2 port)) = port) as Hport by (apply be_bytes; simpl; lia).
  destruct d as [a|a|s]; simpl in Hd; cbn [encode_dest dest_host]; unfold socks5_address; eexists _, _;
    (split; [reflexivity|]); (split; [lia|]); cbn [Z.eqb Pos.eqb].
  - rewrite bytes_app, <- app_assoc. erewrite bind_ok by (apply m_read, be_bytes_length).
    erewrite bind_ok by (apply m_read, be_bytes_length). unfold ret. by rewrite Hport, be_bytes.
  - rewrite bytes_app, <- app_assoc. erewrite bind_ok by (apply m_read, be_bytes_length).
    erewrite bind_ok by (apply m_read, be_bytes_length). unfold ret. by rewrite Hport, be_bytes.
  - cbn [app]. change (bytes (?c :: ?s)) with (bytes [c] ++ bytes s). rewrite <- app_assoc. read_front.
    rewrite len_byte_chr by done. rewrite bytes_app, <- app_assoc. read_front.
    erewrite bind_ok by (apply m_read, be_bytes_length). unfold ret. by rewrite Hport.
Qed.

(** C12: the SOCKS5 front end understands every well-formed CONNECT. For any offered methods that
    include the one the server requires, any credentials that match, any destination (IPv4, IPv6
    or name) and any port, the handshake is answered as RFC 1928 and RFC 1929 prescribe and the
    request names exactly that destination; the bytes after it are left unread. *)
Theorem socks5_parse_complete : forall auth methods d port r,
  (length methods <= 255)%nat -> chr (auth_method auth) ∈ methods ->
  match auth with Some exp => (length (ax_user exp) <= 255)%nat /\ (length (ax_pass exp) <= 255)%nat | None => True end ->
  dest_ok d -> 0 <= port <= 65535 ->
  parse_client_request auth (mkConn (bytes (chr 5 :: encode_socks5 auth methods d port) ++ r) [] []) =
    (Ok {| rq_scheme := SHttps; rq_frontend := FSocks5; rq_host := dest_host d; rq_port := port;
           rq_raw := []; rq_proxy_auth := None; rq_path := dest_host d ++ lit ":" ++ show_uint port |},
     mkConn r [] (socks5_answers auth)).
Proof.
  intros auth methods d port r Hl Hm Ha Hd Hp. unfold parse_client_request.
  change (bytes (chr 5 :: ?s)) with (bytes [chr 5] ++ bytes s). rewrite <- app_assoc. read_front.
  cbv iota. change (byte (chr 5) =? 5) with true. cbv iota.
  unfold parse_socks5_request, encode_socks5.
  rewrite (app_assoc methods), app_comm_cons, bytes_app, <- app_assoc.
  rewrite (bind_ok _ _ _ _ _ (socks5_methods_run auth methods _ [] Hl Hm Ha)).
  destruct (socks5_address_run d port r [] ([] ++ socks5_answers auth) Hd Hp) as (atyp & rest & He & Hat & Hrun).
  rewrite He. change (bs [5; 1; 0] ++ (chr atyp :: rest) ++ ?s) with ([chr 5; chr 1; chr 0; chr atyp] ++ rest ++ s).
  rewrite bytes_app, <- app_assoc. read_front. cbv zeta. cbn [lookup list_lookup fmap option_fmap option_map from_option id].
  change (byte (chr 5) =? 5) with true. change (byte (chr 1) =? 1) with true. cbn [negb].
  rewrite byte_chr by done. by rewrite (bind_ok _ _ _ _ _ Hrun).
Qed.
Lemma socks5_parse_complete_witness :
  (parse_client_request None (mkConn (bytes (chr 5 :: encode_socks5 None [chr 0] (DestName (lit "a.b")) 443) ++ bytes (lit "x")) [] [])).2
    = mkConn (bytes (lit "x")) [] (bs [5; 0]).
Proof.
  rewrite (socks5_parse_complete None [chr 0] (DestName (lit "a.b")) 443 (bytes (lit "x")));
    [reflexivity|simpl; lia|left|exact I|simpl; lia|lia].
Defined.

(** ** HTTP requests *)

(** A visible ASCII token. *)
Definition visible (c : ascii) : bool := between 33 126 c.
Definition token (s : str) : Prop := s <> [] /\ forallb visible s = true.

Lemma visible_no_ws c s : visible c = true -> ws_len white_space (c :: s) = 0%nat.
Proof.
  intros Hv. unfold ws_len.
  assert (forall w, In w white_space -> starts_with w (c :: s) = false) as Hn.
  { intros w Hw.
    assert (forallb (fun w => match w with d :: _ => negb (visible d) | [] => false end) white_space = true) as Hf
      by (vm_compute; reflexivity).
    rewrite forallb_forall in Hf. specialize (Hf _ Hw). destruct w as [|d w]; [done|].
    apply negb_true_iff in Hf. apply not_true_is_false. intros (r & E)%starts_with_true.
    injection E as -> _. congruence. }
  destruct (List.find _ _) as [w|] eqn:E; [|done]. apply find_some in E as [Hw Hs].
  by rewrite Hn in Hs.
Qed.
Lemma split_ws_token t s :
  forallb visible t = true ->
  split_ws_from 0 (t ++ s) =
    match split_ws_from 0 s with w :: ws => (t ++ w) :: ws | [] => match t with [] => [] | _ => [t] end end.
Proof.
  induction t as [|c t IH]; simpl; intros Hv; [by destruct (split_ws_from 0 s)|].
  apply andb_prop in Hv as [Hc Hv]. rewrite visible_no_ws by done. rewrite IH by done.
  destruct (split_ws_from 0 s); [|done]. by destruct t.
Qed.
Lemma split_whitespace_3 a b c :
  token a -> token b -> token c ->
  split_whitespace (a ++ lit " " ++ b ++ lit " " ++ c) = [a; b; c].
Proof.
  intros [Ha Va] [Hb Vb] [Hc Vc]. unfold split_whitespace.
  assert (forall s, split_ws_from 0 (lit " " ++ s) = [] :: split_ws_from 0 s) as Hsp by done.
  rewrite split_ws_token, Hsp, split_ws_token, Hsp by done.
  rewrite <- (app_nil_r c), split_ws_token by done. simpl. rewrite !app_nil_r.
  rewrite !bool_decide_eq_false_2 by done. done.
Qed.
Lemma visible_not_lf c : visible c = true -> c <> LF.
Proof. by intros H ->. Qed.
Lemma visible_ascii s : forallb visible s = true -> ascii_text s.
Proof.
  unfold ascii_text. rewrite !forallb_forall. intros H x Hx. specialize (H x Hx).
  unfold visible, between, is_ascii in *. bsimp. apply Z.ltb_lt. lia.
Qed.
Lemma visible_no_lf s : forallb visible s = true -> LF ∉ s.
Proof. intros H Hin. rewrite forallb_elem in H. by specialize (H _ Hin). Qed.

Definition request_line (method uri : str) : str := method ++ lit " " ++ uri ++ lit " " ++ lit "HTTP/1.1".
Lemma request_line_clean method uri :
  token method -> token uri ->
  ascii_text (request_line method uri) /\ LF ∉ request_line method uri /\
  split_whitespace (request_line method uri) = [method; uri; lit "HTTP/1.1"].
Proof.
  intros Hm Hu. pose proof Hm as [_ Vm]. pose proof Hu as [_ Vu]. unfold request_line. split_and!.
  - rewrite !ascii_text_app. split_and!; [by apply visible_ascii|done|by apply visible_ascii|done|done].
  - assert (LF ∉ lit " " /\ LF ∉ lit "HTTP/1.1") as [? ?].
    { split; intros Hin; vm_compute in Hin;
        repeat (apply elem_of_cons in Hin as [Hin|Hin]; [discriminate Hin|]); by apply elem_of_nil in Hin. }
    rewrite !elem_of_app. pose proof (visible_no_lf _ Vm). pose proof (visible_no_lf _ Vu). tauto.
  - by apply split_whitespace_3.
Qed.

Lemma parse_http_framed method uri hs :
  token method -> token uri -> Forall ascii_text hs -> Forall (fun l => LF ∉ l) hs ->
  let raw := framed (request_line method uri :: hs) [] in
  parse_http raw =
    (let auth := header_value raw (lit "Proxy-Authorization") in
     if eq_ignore_ascii_case method (lit "CONNECT") then
       Some {| rq_scheme := SHttps; rq_frontend := HttpConnect; rq_host := (split_host_port uri 443).1;
               rq_port := (split_host_port uri 443).2; rq_raw := []; rq_proxy_auth := auth; rq_path := uri |}
     else
       let? hp := http_target uri hs in
       Some {| rq_scheme := SHttp; rq_frontend := HttpForward; rq_host := (split_host_port hp 80).1;
               rq_port := (split_host_port hp 80).2; rq_raw := raw; rq_proxy_auth := auth; rq_path := uri |}).
Proof.
  intros Hm Hu Hha Hhl raw. destruct (request_line_clean method uri Hm Hu) as (Ha & Hl & Hs).
  unfold parse_http. rewrite from_utf8_lossy_ascii.
  2: { apply ascii_text_framed. split; [by constructor|done]. }
  unfold raw. rewrite lines_framed by (try done; try constructor; try done; apply not_elem_of_nil).
  rewrite app_nil_r, Hs. destruct (eq_ignore_ascii_case method (lit "CONNECT")).
  - by destruct (split_host_port uri 443).
  - destruct (http_target uri hs); [|done]. by destruct (split_host_port _ 80).
Qed.

Lemma client_head_run c head r t o :
  ends_with crlf2 (c :: head) = true ->
  (forall s1 s2, c :: head = s1 ++ s2 -> s2 <> [] -> ends_with crlf2 s1 = false) ->
  (length head <= MAX_CLIENT_HEAD)%nat ->
  client_head [c] (mkConn (bytes head ++ r) t o) = (Ok (c :: head), mkConn r t o).
Proof.
  intros He Hf Hl. unfold client_head, read_loop. cbn [rx tx sent].
  rewrite (read_loop_bytes _ _ head r [c] (Ok (c :: head))); [done| | |].
  - intros s1 s2 E H1 H2. cbn [app]. rewrite (Hf (c :: s1) s2) by (done || by rewrite E).
    cbn [orb]. rewrite (proj2 (Nat.ltb_ge _ _)); [done|].
    apply (f_equal length) in E. rewrite length_app in E. destruct s2; [done|]. cbn [length] in *. lia.
  - intros ->. by destruct c as [[] [] [] [] [] [] [] []].
  - cbn [app]. by rewrite He.
Qed.

(** The HTTP front end reads exactly the client's head and targets what it names. For any
    visible method and path and any well-formed ASCII headers, a request for [http://host:port/..]
    is parsed, whatever its headers say, as a forward request to that host and port with the raw
    head kept byte for byte, a [CONNECT host:port] as a tunnel to them, and the bytes after the
    blank line are left unread. *)
Theorem http_parse_complete : forall method host port path hs r auth,
  token method -> token host -> token (lit "/" ++ path) -> ":"%char ∉ host -> "/"%char ∉ host ->
  "["%char ∉ host -> 0 <= port <= 65535 ->
  Forall ascii_text hs -> Forall (fun l => LF ∉ l) hs ->
  let authority := host ++ lit ":" ++ show_uint port in
  let connect := eq_ignore_ascii_case method (lit "CONNECT") in
  let uri := if connect then authority else lit "http://" ++ authority ++ lit "/" ++ path in
  let raw := framed (request_line method uri :: hs) [] in
  is_head raw -> (length raw <= S MAX_CLIENT_HEAD)%nat ->
  parse_client_request auth (mkConn (bytes raw ++ r) [] []) =
    (Ok {| rq_scheme := if connect then SHttps else SHttp;
           rq_frontend := if connect then HttpConnect else HttpForward;
           rq_host := host; rq_port := port; rq_raw := if connect then [] else raw;
           rq_proxy_auth := header_value raw (lit "Proxy-Authorization"); rq_path := uri |},
     mkConn r [] []).
Proof.
  intros method host port path hs r auth Hm Hh Hpa Hc Hsl Hbr Hp Ha Hl authority connect uri raw
    [He Hf] Hlen.
  assert (exists c rest, raw = c :: rest /\ byte c <> 5) as (c & rest & Hraw & H5).
  { destruct Hm as [Hne Hv]. destruct method as [|c m]; [done|]. eexists c, _. split; [reflexivity|].
    simpl in Hv. apply andb_prop in Hv as [Hv _]. unfold visible, between in Hv. bsimp. lia. }
  assert (length rest <= MAX_CLIENT_HEAD)%nat as Hlr.
  { rewrite Hraw in Hlen. by apply le_S_n. }
  assert (strip_prefix (lit "[") host = None) as Hb.
  { destruct host as [|x h]; [by destruct Hh|]. simpl. rewrite decide_False; [done|]. intros <-. set_solver. }
  assert (forall d, split_host_port authority d = (host, port)) as Hsp
    by (intros d; apply split_host_port_plain; [by destruct Hh|done|done]).
  assert (forallb visible (show_uint port) = true) as Hvp.
  { apply forallb_elem. pose proof (show_uint_digits port) as Hd. rewrite Forall_forall in Hd.
    intros x Hx. specialize (Hd _ Hx). unfold is_digit, visible, between in *. bsimp.
    apply andb_true_intro. split; apply Z.leb_le; lia. }
  assert (token authority) as Hta.
  { destruct Hh as [Hne Hv]. unfold authority. split; [by destruct host|]. by rewrite !forallb_app, Hv, Hvp. }
  assert (token uri) as Htu.
  { unfold uri. destruct connect; [done|]. split; [done|]. destruct Hta as [_ Hv], Hpa as [_ Hv2].
    rewrite !forallb_app in *. by rewrite Hv, Hv2. }
  unfold parse_client_request. rewrite Hraw. change (bytes (?a :: ?s)) with (bytes [a] ++ bytes s).
  rewrite <- app_assoc. read_front. cbv iota. rewrite (proj2 (Z.eqb_neq _ _)) by done.
  rewrite Hraw in He, Hf.
  erewrite bind_ok by (by apply client_head_run). rewrite <- Hraw. unfold raw.
  rewrite parse_http_framed by done. cbv zeta. fold connect. fold raw. unfold uri in *.
  destruct connect; cbv iota.
  - by rewrite Hsp.
  - unfold http_target. rewrite (proj2 (strip_prefix_Some (lit "http://") _ _) eq_refl).
    change (lit "/") with ["/"%char]. cbn [app]. rewrite split_char_app; [by rewrite Hsp|].
    unfold authority. rewrite !elem_of_app. intros [?|[?|?]]; [done| |].
    + apply list_elem_of_singleton in H. discriminate H.
    + by eapply show_uint_not_in; [|eassumption].
Qed.

Lemma http_parse_complete_witness :
  (parse_client_request None (mkConn (bytes (lit "GET http://a:8080/x HTTP/1.1" ++ crlf ++ crlf) ++ bytes (lit "more")) [] [])).2
    = mkConn (bytes (lit "more")) [] [].
Proof.
  pose proof (http_parse_complete (lit "GET") (lit "a") 8080 (lit "x") [[]] (bytes (lit "more")) None) as H.
  assert (forall t, t <> [] -> forallb visible t = true -> token t) as Ht by (intros; split; assumption).
  cbv zeta in H.
  change (eq_ignore_ascii_case (lit "GET") (lit "CONNECT")) with false in H. cbv iota in H.
  change (framed [request_line (lit "GET") (lit "http://" ++ (lit "a" ++ lit ":" ++ show_uint 8080) ++ lit "/" ++ lit "x"); []] [])
    with (lit "GET http://a:8080/x HTTP/1.1" ++ crlf ++ crlf) in H.
  rewrite H; [reflexivity|apply Ht; [discriminate|reflexivity]..|apply not_elem_check; reflexivity|apply not_elem_check; reflexivity|
    apply not_elem_check; reflexivity|lia|repeat constructor|repeat constructor; apply not_elem_of_nil| |].
  - apply is_head_check; vm_compute; reflexivity.
  - apply Nat.leb_le. vm_compute. reflexivity.
Defined.
