(* ===== verification/Relay.v ===== *)
(** * One relay attempt (src/server.rs, [relay])

    From the dial of a proxy to the splice, with the commit boundary. A task that would wait for
    ever on a socket without a deadline is the outcome [None]. Splicing
    ([tokio::io::copy_bidirectional]) is the operation of the class [Splice]. *)
From S2P Require Import Prelude F64 Text Types Addr Utils Proxy Pool Http Net Negotiator Client.
Open Scope Z_scope.

Definition choose_proto (p : Proxy) (s : Scheme) : Proto :=
  match s with
  | SHttps => default Connect80 (tunnel_proto p)
  | SHttp => default Http (List.find (fun c => has_type c p) [Http; Connect80; Socks5; Socks4])
  end.

(** ** One relay attempt *)
Inductive RelayOutcome :=
| ROk
| RetryableFailure (e : ProxyError)
| ClientCommitted (e : ProxyError)
| ClientGone.
#[export] Instance RelayOutcome_eq_dec : EqDecision RelayOutcome.
Proof. solve_decision. Defined.

Definition MAX_STATUS_LINE : nat := 256.
Definition read_status_line : M ProxyError str :=
  read_loop
    (fun head => if ends_with [LF] head || (MAX_STATUS_LINE <=? length head)%nat then Some (Ok head) else None)
    (fun _ e => match e with IoHang => Timeout | IoFail => Reset | IoEof => EmptyRecv end) [].

(** [copy_bidirectional] between the client and the tunnel: did it end without an error, and what
    the client's connection is then. [None] when it never ends. *)
Class Splice : Type := { splice : Conn -> Stream -> option (bool * Conn) }.

Definition peer (p : Proxy) : str := ip_show (p_host p) ++ lit ":" ++ show_uint (p_port p).
Definition info_line (p : Proxy) : str := lit "X-Proxy-Info: " ++ peer p ++ crlf.
Definition connect_ack (p : Proxy) : str :=
  lit "HTTP/1.1 200 Connection established" ++ crlf ++ info_line p ++ crlf.
Definition socks_ack : str := bs [5; 0; 0; 1; 0; 0; 0; 0; 0; 0].

Section relay.
Context `{TunnelLibs} `{Splice}.

(** A write without a deadline: [None] when it never completes, else whether it succeeded. *)
Definition write_forever (s : str) (c : Conn) : option (bool * Conn) :=
  match write_all s c with
  | (Ok _, c) => Some (true, c)
  | (Err IoHang, _) => None
  | (Err _, c) => Some (false, c)
  end.

Definition relay_splice (client : Conn) (upstream : Stream) : option (RelayOutcome * Conn) :=
  let? (okay, client) := splice client upstream in
  Some (if okay : bool then ROk else ClientCommitted ErrorOnStream, client).

(** Writes what the client is to see first; a failure means the client is gone. *)
Definition relay_ack (ack : str) (client : Conn) (upstream : Stream) : option (RelayOutcome * Conn) :=
  let? (written, client) := write_forever ack client in
  if written : bool then relay_splice client upstream else Some (ClientGone, client).

(** The HTTP branch after the request went upstream: peek at the status line, gate on it, and
    replay it with [X-Proxy-Info]. *)
Definition relay_response (client : Conn) (p : Proxy) (upstream : Stream)
    (allowed_codes : option (list Z)) : option (RelayOutcome * Conn) :=
  match read_status_line (stream_conn upstream) with
  | (Err e, _) => Some (RetryableFailure e, client)
  | (Ok line, up) =>
      let code := parse_http_status line in
      if match allowed_codes with Some allowed => negb (bool_decide (code ∈ allowed)) | None => false end
      then Some (RetryableFailure (DisallowedStatus code), client)
      else relay_ack (inject_header line (info_line p)) client (with_conn upstream up)
  end.

Definition relay (client : Conn) (d : Dial) (p : Proxy) (proto : Proto) (target : Target)
    (req : ClientRequest) (allowed_codes : option (list Z)) : option (RelayOutcome * Conn) :=
  match d with
  | DialHang => Some (RetryableFailure Timeout, client)
  | DialErr => Some (RetryableFailure ConnFailed, client)
  | DialOk tcp =>
      match negotiate proto tcp target (p_auth p) with
      | Err e => Some (RetryableFailure e, client)
      | Ok upstream =>
          match rq_frontend req with
          | HttpConnect => relay_ack (connect_ack p) client upstream
          | FSocks5 => relay_ack socks_ack client upstream
          | HttpForward =>
              let? (written, up) := write_forever (forwarded_head (rq_raw req) (p_auth p))
                                      (stream_conn upstream) in
              if negb written then Some (RetryableFailure Reset, client)
              else if request_has_body (rq_raw req) then relay_splice client (with_conn upstream up)
              else relay_response client p (with_conn upstream up) allowed_codes
          end
      end
  end.
End relay.

(** A splice that copies what the upstream has to say. *)
Fixpoint plain_bytes (r : list RxEvent) : str :=
  match r with RxByte b :: r => b :: plain_bytes r | _ => [] end.
Definition copy_splice : Splice :=
  {| splice c up := Some (true, mkConn (rx c) (tx c) (sent c ++ plain_bytes (rx (stream_conn up)))) |}.

(** ** The commit boundary *)
Section relay_facts.
Context `{TL : TunnelLibs} `{SP : Splice}.

Lemma relay_splice_inv client up out client' :
  relay_splice client up = Some (out, client') ->
  exists b, splice client up = Some (b, client') /\ out = if b : bool then ROk else ClientCommitted ErrorOnStream.
Proof.
  unfold relay_splice. destruct (splice client up) as [[b c]|]; [|done]. intros [= <- <-]. by exists b.
Qed.
Lemma relay_ack_inv ack client up out client' :
  relay_ack ack client up = Some (out, client') ->
  (exists c1 b, write_all ack client = (Ok tt, c1) /\ splice c1 up = Some (b, client') /\
     out = if b : bool then ROk else ClientCommitted ErrorOnStream) \/
  (exists e, write_all ack client = (Err e, client') /\ out = ClientGone).
Proof.
  unfold relay_ack, write_forever. destruct (write_all ack client) as [[[]|e] c1] eqn:E.
  - intros (b & ? & ?)%relay_splice_inv. left. eauto.
  - destruct e; intros Hs; simplify_eq; right; eauto.
Qed.

(** What the client has been sent of this proxy when the splice begins: the acknowledgement of
    its front-end, the rewritten status line, or nothing when the request carries a body. *)
Definition first_words (p : Proxy) (req : ClientRequest) (ack : str) : Prop :=
  match rq_frontend req with
  | HttpConnect => ack = connect_ack p
  | FSocks5 => ack = socks_ack
  | HttpForward => request_has_body (rq_raw req) = false /\ exists line, ack = inject_header line (info_line p)
  end.

Lemma relay_cases client d p proto target req codes out client' :
  relay client d p proto target req codes = Some (out, client') ->
  match out with
  | RetryableFailure _ => client' = client
  | ClientGone => exists ack e, first_words p req ack /\ write_all ack client = (Err e, client')
  | ROk | ClientCommitted _ =>
      exists c1 up b, splice c1 up = Some (b, client') /\
        ((exists ack, first_words p req ack /\ write_all ack client = (Ok tt, c1)) \/
         (rq_frontend req = HttpForward /\ request_has_body (rq_raw req) = true /\ c1 = client))
  end.
Proof.
  assert (forall ack up, first_words p req ack -> relay_ack ack client up = Some (out, client') ->
    match out with
    | RetryableFailure _ => client' = client
    | ClientGone => exists ack e, first_words p req ack /\ write_all ack client = (Err e, client')
    | ROk | ClientCommitted _ =>
        exists c1 up b, splice c1 up = Some (b, client') /\
          ((exists ack, first_words p req ack /\ write_all ack client = (Ok tt, c1)) \/
           (rq_frontend req = HttpForward /\ request_has_body (rq_raw req) = true /\ c1 = client))
    end) as Hack.
  { intros ack up Hf [(c1 & b & Hw & Hs & ->)|(e & Hw & ->)]%relay_ack_inv; [|eauto].
    destruct b; exists c1, up; eexists; (split; [done|left; eauto]). }
  unfold relay. destruct d as [| |tcp]; [intros [= <- <-]; done..|].
  destruct (negotiate _ _ _ _) as [up|e]; [|intros [= <- <-]; done].
  unfold first_words in *. destruct (rq_frontend req) eqn:Hfr.
  - destruct (write_forever _ _) as [[w up']|]; [|done]. destruct w; simpl; [|intros [= <- <-]; done].
    destruct (request_has_body (rq_raw req)) eqn:Hb.
    + intros (b & Hs & ->)%relay_splice_inv. destruct b; exists client; eauto 10.
    + unfold relay_response. destruct (read_status_line _) as [[line|e] up2]; [|intros [= <- <-]; done].
      match goal with |- (if ?g then _ else _) = _ -> _ => destruct g end;
        [intros [= <- <-]; done|]. apply Hack. eauto.
  - by apply Hack.
  - by apply Hack.
Qed.

(** C9: the commit boundary. A relay attempt that reports a retryable failure has not touched the
    client's connection: nothing was read from it, nothing written to it. Every other outcome
    comes after exactly one acknowledgement in the client's own protocol (or, for a request with
    a body, at the splice), and the upstream is blamed only after that write succeeded. *)
Theorem relay_commit_boundary : forall client d p proto target req codes out client',
  relay client d p proto target req codes = Some (out, client') ->
  match out with
  | RetryableFailure _ => client' = client
  | ClientGone => exists ack e, first_words p req ack /\ write_all ack client = (Err e, client')
  | ROk | ClientCommitted _ =>
      exists c1 up b, splice c1 up = Some (b, client') /\
        ((exists ack, first_words p req ack /\ write_all ack client = (Ok tt, c1)) \/
         (rq_frontend req = HttpForward /\ request_has_body (rq_raw req) = true /\ c1 = client))
  end.
Proof. exact relay_cases. Qed.

(** The status gate. When the relay of a bodiless request is allowed only some statuses, a
    client that receives anything at all receives a status line whose code is one of them. *)
Theorem relay_status_gate : forall client d p proto target req codes out client',
  rq_frontend req = HttpForward -> request_has_body (rq_raw req) = false ->
  relay client d p proto target req (Some codes) = Some (out, client') -> client' <> client ->
  exists line, parse_http_status line ∈ codes /\ (length line <= S MAX_STATUS_LINE)%nat /\
    ((exists e, write_all (inject_header line (info_line p)) client = (Err e, client')) \/
     exists c1 up b, write_all (inject_header line (info_line p)) client = (Ok tt, c1) /\
                     splice c1 up = Some (b, client')).
Proof.
  intros client d p proto target req codes out client' Hf Hb. unfold relay.
  destruct d as [| |tcp]; [intros [= <- <-]; done..|].
  destruct (negotiate _ _ _ _) as [up|e]; [|intros [= <- <-]; done]. rewrite Hf.
  destruct (write_forever _ _) as [[w up']|]; [|done]. destruct w; simpl; [|intros [= <- <-]; done].
  rewrite Hb. unfold relay_response.
  destruct (read_status_line _) as [[line|e] up2] eqn:El; [|intros [= <- <-]; done].
  case_bool_decide as Hin; simpl; [|intros [= <- <-]; done]. intros Hr _. exists line. split; [done|]. split.
  - clear -El. unfold read_status_line, read_loop in El.
    match type of El with context [read_loop_on ?s ?o ?r ?b] =>
      pose proof (read_loop_on_inv s o (fun buf => (length buf < MAX_STATUS_LINE)%nat) r b) as Hi;
      destruct (read_loop_on s o r b) as [res r'] end.
    simplify_eq. destruct Hi as [(b & c & Hlt & Hs)|(b & e & _ & Hs)]; [apply Nat.ltb_lt; reflexivity| | |done].
    + intros b c Hlt Hs. destruct (ends_with _ _); [done|]. cbn [orb] in Hs.
      destruct (MAX_STATUS_LINE <=? length (b ++ [c]))%nat eqn:Ele; [done|]. by apply Nat.leb_gt in Ele.
    + case_match; simplify_eq. rewrite length_app; simpl. lia.
  - apply relay_ack_inv in Hr as [(c1 & b & ? & ? & _)|(e & ? & _)]; [right|left]; eauto.
Qed.
End relay_facts.


(** ** The protocol chosen *)
Lemma serves_types s p :
  serves s p = existsb (fun t => has_type t p) (match s with SHttp => HTTP_PROTOS | SHttps => HTTPS_PROTOS end).
Proof.
  unfold serves, schemes. destruct (existsb _ HTTP_PROTOS) eqn:E1, (existsb _ HTTPS_PROTOS) eqn:E2, s;
    rewrite ?E1, ?E2; try (apply bool_decide_eq_true_2; simpl; set_solver);
    apply bool_decide_eq_false_2; simpl; set_solver.
Qed.

(** The relay never terminates the client's TLS. For either scheme the protocol chosen is
    neither HTTPS nor CONNECT:25, so what the client is spliced to is the plain stream; and for a
    proxy that selection would return for the scheme it is one the proxy is known to support (a
    checked HTTPS proxy standing for [CONNECT]). *)
Theorem choose_proto_plain : forall `{TunnelLibs} p s,
  choose_proto p s <> Https /\ choose_proto p s <> Connect25 /\
  (forall tcp target creds st, negotiate (choose_proto p s) tcp target creds = Ok st -> exists c, st = Plain c) /\
  (serves s p = true ->
     has_type (choose_proto p s) p = true \/ (choose_proto p s = Connect80 /\ has_type Https p = true)).
Proof.
  intros TL p s. rewrite serves_types.
  assert (choose_proto p s <> Https /\ choose_proto p s <> Connect25 /\
    (existsb (fun t => has_type t p) (match s with SHttp => HTTP_PROTOS | SHttps => HTTPS_PROTOS end) = true ->
     has_type (choose_proto p s) p = true \/ (choose_proto p s = Connect80 /\ has_type Https p = true))) as (H1 & H2 & H3).
  { unfold choose_proto, tunnel_proto. destruct s; simpl;
      destruct (has_type Http p) eqn:?, (has_type Https p) eqn:?, (has_type Connect80 p) eqn:?,
        (has_type Socks5 p) eqn:?, (has_type Socks4 p) eqn:?; simpl;
      (split; [done|split; [done|intros ?; try done; auto]]). }
  split_and!; [done|done| |done].
  intros tcp target creds st E. unfold negotiate, socks4, socks5 in E.
  destruct (choose_proto p s); try done; repeat case_match; simplify_eq; eauto.
Qed.
Lemma choose_proto_plain_witness :
  has_type (choose_proto (add_type Https None (new (V4 1) 443 ∅)) SHttps) (add_type Https None (new (V4 1) 443 ∅)) = true \/
  (choose_proto (add_type Https None (new (V4 1) 443 ∅)) SHttps = Connect80 /\ has_type Https (add_type Https None (new (V4 1) 443 ∅)) = true).
Proof.
  refine (proj2 (proj2 (proj2 (choose_proto_plain (H := no_libs) _ SHttps))) _). vm_compute. reflexivity.
Defined.

(** ** A concrete relay *)
Definition demo_px : Proxy := add_type Http (Some High) (new (V4 16843009) 8080 ∅).
Definition demo_raw : str := lit "GET http://a/ HTTP/1.1" ++ crlf ++ lit "Host: a" ++ crlf2.
Definition demo_req : ClientRequest :=
  {| rq_scheme := SHttp; rq_frontend := HttpForward; rq_host := lit "a"; rq_port := 80;
     rq_raw := demo_raw; rq_proxy_auth := None; rq_path := lit "http://a/" |}.
Definition demo_answer (status : str) : Conn :=
  open_conn (lit "HTTP/1.1 " ++ status ++ crlf ++ lit "Content-Length: 0" ++ crlf2).
Definition demo_relay (status : str) :=
  relay (H := no_libs) (H0 := copy_splice) (open_conn []) (DialOk (demo_answer status)) demo_px Http
    demo_target demo_req (Some [200]).

Lemma relay_commit_boundary_witness :
  demo_relay (lit "403 Forbidden") = Some (RetryableFailure (DisallowedStatus 403), open_conn []).
Proof.
  assert (exists c, demo_relay (lit "403 Forbidden") = Some (RetryableFailure (DisallowedStatus 403), c)) as [c H]
    by (eexists; vm_compute; reflexivity).
  rewrite H. pose proof (relay_commit_boundary (TL := no_libs) (SP := copy_splice) _ _ _ _ _ _ _ _ _ H) as Hc.
  simpl in Hc. rewrite Hc. reflexivity.
Defined.
Lemma relay_status_gate_witness :
  exists c line, demo_relay (lit "200 OK") = Some (ROk, c) /\ parse_http_status line ∈ [200].
Proof.
  assert (exists c, demo_relay (lit "200 OK") = Some (ROk, c) /\ c <> open_conn []) as (c & H & Hne).
  { eexists. split; [vm_compute; reflexivity|]. discriminate. }
  destruct (relay_status_gate (TL := no_libs) (SP := copy_splice) (open_conn [])
              (DialOk (demo_answer (lit "200 OK"))) demo_px Http demo_target demo_req [200] ROk c
              eq_refl eq_refl H Hne)
    as (line & Hl & _).
  exists c, line. split; [exact H|exact Hl].
Defined.
(** What the client of an allowed answer receives. *)
Example demo_relay_sent :
  (option_map (fun r => sent r.2) (demo_relay (lit "200 OK"))) =
    Some (lit "HTTP/1.1 200 OK" ++ crlf ++ lit "X-Proxy-Info: 1.1.1.1:8080" ++ crlf ++
          lit "Content-Length: 0" ++ crlf2).
Proof. vm_compute. reflexivity. Qed.

(** A status line that ends in a bare LF passes the reader, but is replayed without
    [X-Proxy-Info]. *)
Theorem bare_lf_no_info : forall p line,
  unterminated (line ++ [LF]) -> inject_header (line ++ [LF]) (info_line p) = line ++ [LF].
Proof. intros p line Hu. by apply inject_header_unterminated. Qed.
