(* ===== verification/Server.v ===== *)
(** * The handler of the local server (src/server.rs, [handle_client])

    The credentials gate, the control API, the history and the retry loop over the pool. *)
From S2P Require Import Prelude F64 Text Types Addr Utils Proxy Pool PoolSteps Http Net Negotiator Client Relay.
Open Scope Z_scope.

(** ** History: a bounded map, cleared whole when a new key would exceed it. *)
Abbreviation History := (gmap str str).
Definition HISTORY_CAP : nat := N.to_nat 10000.
Definition history_record (key proxy : str) (m : History) : History :=
  let m := if (HISTORY_CAP <=? size m)%nat && negb (bool_decide (is_Some (m !! key))) then ∅ else m in
  <[key := proxy]> m.
Definition history_get (key : str) (m : History) : option str := m !! key.

(** ** The control API *)
Definition control_remove_allowed (auth_configured : bool) (peer_ip : IpAddr) : bool :=
  auth_configured || is_loopback peer_ip.

Definition splitn3 (sep : ascii) (s : str) : list str :=
  match split_once [sep] s with
  | None => [s]
  | Some (a, r) => a :: match split_once [sep] r with None => [r] | Some (b, c) => [b; c] end
  end.
Definition history_key (peer_ip : IpAddr) (path : str) : str := ip_show peer_ip ++ lit "-" ++ path.
Definition no_content : str := lit "HTTP/1.1 204 No Content" ++ crlf2.
Definition forbidden : str := lit "HTTP/1.1 403 Forbidden" ++ crlf ++ lit "Content-Length: 0" ++ crlf2.
Definition dquote : str := ["034"%char].
Definition history_reply (proxy : str) : str :=
  let body := lit "{" ++ dquote ++ lit "proxy" ++ dquote ++ lit ": " ++ dquote ++ proxy ++ dquote ++
              lit "}" ++ crlf in
  lit "HTTP/1.1 200 OK" ++ crlf ++ lit "Content-Type: application/json" ++ crlf ++
  lit "Content-Length: " ++ show_uint (Z.of_nat (length body)) ++ crlf ++
  lit "Access-Control-Allow-Origin: *" ++ crlf ++
  lit "Access-Control-Allow-Credentials: true" ++ crlf2 ++ body.

(** [serve_control], up to the write of its reply. *)
Definition serve_control (req : ClientRequest) (pool : Pool) (history : History) (peer_ip : IpAddr)
    (remove_allowed : bool) : str * Pool :=
  let rest := trim_from [lit "/"] 0
                (default (rq_path req) (strip_prefix (lit "http://proxycontrol") (rq_path req))) in
  match splitn3 "/"%char rest with
  | [_; op; params] =>
      if decide (op = lit "remove") then
        if negb remove_allowed then (forbidden, pool)
        else
          let '(h, p) := split_host_port params 0 in
          (no_content, match ip_parse h with Some ip => (remove ip p pool).2 | None => pool end)
      else if decide (op = lit "history") then
        let url := default [] (strip_prefix (lit "url:") params) in
        match history_get (history_key peer_ip url) history with
        | Some proxy => (history_reply proxy, pool)
        | None => (no_content, pool)
        end
      else (no_content, pool)
  | _ => (no_content, pool)
  end.

(** ** The handler *)

(** What happens around one step of a task: the rest of the program's operations on the pool just
    before it, the clock, and what the liveness probe answers. *)
Record Moment := { mo_env : list EnvOp; mo_now : Z; mo_live : bool }.

(** What the world does during one attempt: moment by moment while [get] runs, and in the moments
    that are left then, until the proxy is given back; to the dial; and the clock at the return. *)
Record Attempt := { at_script : list Moment; at_dial : Dial; at_put_now : Z }.

Section handler.
Context `{HO : HashOrder} `{N : Notify} `{UC : UnicodeCase} `{TunnelLibs} `{Splice}.

(** [pool.get(..).await] along a script, with what is left of it: [None] while it still waits when
    the script ends. *)
Fixpoint get_run (script : list Moment) (t : Task) (w : World) : option (option Proxy * World * list Moment) :=
  match t_pc t with
  | GDone r => Some (r, w, script)
  | _ =>
      match script with
      | [] => None
      | m :: script =>
          let w := fold_left (fun w op => env_step op w) (mo_env m) w in
          match task_step (mo_now m) (mo_live m) t w with
          | Some (t', w') => get_run script t' w'
          | None => get_run script t w
          end
      end
  end.
Definition get (script : list Moment) (s : Scheme) (key : ClientKey) (w : World) :=
  get_run script {| t_scheme := s; t_key := key; t_pc := GStart 0 |} w.
(** The others, while the proxy is out. *)
Definition meanwhile (script : list Moment) (w : World) : World :=
  fold_left (fun w m => fold_left (fun w op => env_step op w) (mo_env m) w) script w.

(** [put_ok] and [put_failed], with the notification they end in. *)
Definition settle_ok (px : Proxy) (w : World) : World :=
  if put_pushes px w then notify_all (put_ok_world px w) else put_ok_world px w.
Definition settle_failed (now : Z) (px : Proxy) (w : World) : World :=
  if put_pushes px w then notify_all (put_failed_world now px w) else put_failed_world now px w.
Definition rotate (w : World) : World := with_pool (add_rotation (w_pool w)) w.

Record HState := mkH { h_client : Conn; h_world : World; h_history : History }.

(** The attempt loop; [n] attempts remain, [attempt] were made. *)
Fixpoint attempts (world : nat -> Attempt) (peer_ip : IpAddr) (key : ClientKey) (target : Target)
    (req : ClientRequest) (n attempt : nat) (h : HState) : option HState :=
  match n with
  | O =>
      let? (_, client) := write_forever (terminal_failure (rq_frontend req)) (h_client h) in
      Some (mkH client (h_world h) (h_history h))
  | S n =>
      let a := world attempt in
      let? (got, w, rest) := get (at_script a) (rq_scheme req) key (h_world h) in
      match got with
      | None =>
          let? (_, client) := write_forever (terminal_failure (rq_frontend req)) (h_client h) in
          Some (mkH client w (h_history h))
      | Some p =>
          let w := if (0 <? attempt)%nat then rotate w else w in
          let proto := choose_proto p (rq_scheme req) in
          let? (out, client) := relay (h_client h) (at_dial a) p proto target req
                                  (http_allowed_codes (config (w_pool w))) in
          match out with
          | ROk =>
              let p := record_attempt (Some f_zero) None p in
              let hist := history_record (history_key peer_ip (rq_path req)) (peer p) (h_history h) in
              Some (mkH client (settle_ok p (meanwhile rest w)) hist)
          | RetryableFailure e =>
              let p := record_attempt None (Some e) p in
              attempts world peer_ip key target req n (S attempt)
                (mkH client (settle_failed (at_put_now a) p (meanwhile rest w)) (h_history h))
          | ClientCommitted e =>
              let p := record_attempt None (Some e) p in
              Some (mkH client (settle_failed (at_put_now a) p (meanwhile rest w)) (h_history h))
          | ClientGone =>
              let p := record_attempt (Some f_zero) None p in
              Some (mkH client (settle_ok p (meanwhile rest w)) (h_history h))
          end
      end
  end.

Definition auth_required : str :=
  lit "HTTP/1.1 407 Proxy Authentication Required" ++ crlf ++
  lit "Proxy-Authenticate: Basic realm=" ++ dquote ++ lit "proxybroker" ++ dquote ++ crlf2.

(** The HTTP credentials gate; a SOCKS5 client was authenticated by the handshake. *)
Definition auth_refused (expected_auth : option AuthExpect) (req : ClientRequest) : bool :=
  negb (bool_decide (rq_frontend req = FSocks5)) &&
  match expected_auth with
  | Some exp => negb (bool_decide (rq_proxy_auth req = Some (ax_basic exp)))
  | None => false
  end.

Definition serve_request (world : nat -> Attempt) (lookup_ip : str -> option (list IpAddr))
    (max_tries : nat) (expected_auth : option AuthExpect) (peer_ip : IpAddr)
    (req : ClientRequest) (h : HState) : option HState :=
  if auth_refused expected_auth req then
    let? (_, client) := write_forever auth_required (h_client h) in
    Some (mkH client (h_world h) (h_history h))
  else if decide (rq_host req = lit "proxycontrol") then
    let '(reply, pool) := serve_control req (w_pool (h_world h)) (h_history h) peer_ip
                            (control_remove_allowed (bool_decide (is_Some expected_auth)) peer_ip) in
    let? (_, client) := write_forever reply (h_client h) in
    Some (mkH client (with_pool pool (h_world h)) (h_history h))
  else
    let key := client_key (config (w_pool (h_world h))) peer_ip req in
    let target := {| tg_host := rq_host req; tg_ip := ok (resolve lookup_ip (rq_host req));
                     tg_port := rq_port req |} in
    attempts world peer_ip key target req max_tries 0 h.

Definition handle_client (world : nat -> Attempt) (lookup_ip : str -> option (list IpAddr))
    (max_tries : nat) (expected_auth : option AuthExpect) (peer_ip : IpAddr) (h : HState)
    : option HState :=
  match parse_client_request expected_auth (h_client h) with
  | (Err _, client) => Some (mkH client (h_world h) (h_history h))
  | (Ok req, client) =>
      serve_request world lookup_ip max_tries expected_auth peer_ip req
        (mkH client (h_world h) (h_history h))
  end.
End handler.

(** ** The retry loop *)
Section handler_facts.
Context `{HO : HashOrder} `{N : Notify} `{UC : UnicodeCase} `{TL : TunnelLibs} `{SP : Splice}.

(** [k] evictions were counted from [p] to [p']. *)
Definition counted (k : nat) (p p' : Pool) : Prop :=
  evictions p' = Nat.iter k (fun e => u64 (e + 1)) (evictions p).
Lemma counted_trans j k p q r : counted j p q -> counted k q r -> counted (k + j) p r.
Proof. unfold counted. intros -> ->. by rewrite Nat.iter_add. Qed.

(** The keys of the pooled proxies, those of [held] and those that left for good. *)
Definition conserves (w : World) (held : list Proxy) (w' : World) (held' : list Proxy) : Prop :=
  exists gone, map p_key (proxies (w_pool w) ++ held) ≡ₚ gone ++ map p_key (proxies (w_pool w') ++ held') /\
    counted (length gone) (w_pool w) (w_pool w').
Lemma conserves_refl w held : conserves w held w held.
Proof. by exists []. Qed.
Lemma conserves_trans w1 h1 w2 h2 w3 h3 :
  conserves w1 h1 w2 h2 -> conserves w2 h2 w3 h3 -> conserves w1 h1 w3 h3.
Proof.
  intros (g1 & Hp1 & Hc1) (g2 & Hp2 & Hc2). exists (g2 ++ g1). split.
  - by rewrite Hp1, Hp2, app_assoc, (Permutation_app_comm g1 g2).
  - rewrite length_app. eauto using counted_trans.
Qed.
Lemma conserves_keys w held w' held' held2 :
  map p_key held = map p_key held2 -> conserves w held w' held' -> conserves w held2 w' held'.
Proof. intros E (g & Hp & Hc). exists g. split; [|done]. by rewrite map_app, <- E, <- map_app. Qed.

Lemma task_step_conserves now live t w t' w' :
  task_step now live t w = Some (t', w') -> conserves w (held t) w' (held t').
Proof.
  intros (gone & Hp & Hl)%task_step_held. exists (map p_key gone). split.
  - by rewrite Hp, map_app.
  - destruct Hl as [[-> Hev]|(px & -> & _ & Hev)]; exact Hev.
Qed.

Definition quiet (script : list Moment) : Prop := Forall (fun m => mo_env m = []) script.

Lemma meanwhile_quiet script w : quiet script -> meanwhile script w = w.
Proof. unfold meanwhile. intros Hq. revert w. induction Hq as [|m script Hm _ IH]; intros w; [done|]. cbn. by rewrite Hm, IH. Qed.
(** What is left of the script. *)
Lemma get_run_rest script t w r w' rest : get_run script t w = Some (r, w', rest) -> exists used, script = used ++ rest.
Proof.
  revert t w. induction script as [|m script IH]; intros t w E; cbn [get_run] in E.
  - destruct (t_pc t); try done. injection E as _ _ <-. by exists [].
  - assert (forall t w, get_run script t w = Some (r, w', rest) -> exists used, m :: script = used ++ rest) as Hgo.
    { intros t' w1 (used & ->)%IH. by exists (m :: used). }
    destruct (t_pc t); try (destruct (task_step _ _ t _) as [[t' w1]|]; by eapply Hgo). injection E as _ _ <-. by exists [].
Qed.
Lemma get_run_conserves script t w r w' rest :
  quiet script -> get_run script t w = Some (r, w', rest) -> conserves w (held t) w' (option_list r) /\ quiet rest.
Proof.
  intros Hq E. split.
  2: { destruct (get_run_rest _ _ _ _ _ _ E) as [used ->]. by apply Forall_app in Hq as [_ ?]. }
  revert t w E. induction Hq as [|m script Hm Hq IH]; intros t w E; cbn [get_run] in E.
  - destruct (t_pc t) as [| | | | | | |[px|]| | | |] eqn:Hpc; simplify_eq; unfold held; rewrite Hpc;
      apply conserves_refl.
  - rewrite Hm in E. simpl fold_left in E.
    assert (forall r0, t_pc t = GDone r0 -> r0 = r /\ w = w' -> conserves w (held t) w' (option_list r)) as Hd.
    { intros r0 Hpc [-> ->]. unfold held. rewrite Hpc. destruct r; apply conserves_refl. }
    assert (match task_step (mo_now m) (mo_live m) t w with
            | Some (t', w1) => get_run script t' w1 | None => get_run script t w end = Some (r, w', rest) ->
            conserves w (held t) w' (option_list r)) as Hgo.
    { destruct (task_step _ _ t w) as [[t' w1]|] eqn:Hst; [|apply IH].
      intros Hr. apply task_step_conserves in Hst. eapply conserves_trans; [exact Hst|]. by apply IH. }
    destruct (t_pc t) eqn:Hpc; auto. simplify_eq. by eapply Hd.
Qed.

Lemma put_conserves (b : option Z) px w :
  conserves w [px] (with_pool (put_inner px b (w_pool w)) w) [].
Proof.
  unfold conserves, put_inner; simpl. destruct (unhealthy _ px).
  - exists [p_key px]. split; [|done]. rewrite map_app, app_nil_r. simpl.
    by rewrite Permutation_app_comm.
  - exists []. split; [|done]. unfold proxies, proxies_of; simpl.
    by rewrite app_nil_r, (map_app proxy).
Qed.
Lemma conserves_pool w held w1 w2 held' :
  w_pool w1 = w_pool w2 -> conserves w held w1 held' -> conserves w held w2 held'.
Proof. intros E (g & ? & ?). exists g. by rewrite <- E. Qed.
Lemma settle_ok_conserves px w : conserves w [px] (settle_ok px w) [].
Proof.
  eapply conserves_pool; [|apply (put_conserves None)].
  unfold settle_ok, put_ok_world. by destruct (put_pushes _ _).
Qed.
Lemma settle_failed_conserves now px w : conserves w [px] (settle_failed now px w) [].
Proof.
  eapply conserves_pool; [|apply (put_conserves (Some (now + fail_timeout (config (w_pool w)))))].
  unfold settle_failed, put_failed_world. by destruct (put_pushes _ _).
Qed.
Lemma rotate_conserves held w : conserves w held (rotate w) held.
Proof. by exists []. Qed.

(** The handler returns what it takes. Whatever the upstreams and the client do, when a
    request has been served or given up every proxy checked out for it is back in the pool,
    its statistics updated, or was evicted as unhealthy and counted. *)
Theorem attempts_conserve : forall world peer_ip key target req n attempt h h',
  (forall k, quiet (at_script (world k))) ->
  attempts world peer_ip key target req n attempt h = Some h' ->
  exists gone, map p_key (proxies (w_pool (h_world h))) ≡ₚ
                 gone ++ map p_key (proxies (w_pool (h_world h'))) /\
    counted (length gone) (w_pool (h_world h)) (w_pool (h_world h')).
Proof.
  intros world peer_ip key target req n attempt h h' Hq E.
  enough (conserves (h_world h) [] (h_world h') []) as Hc by (unfold conserves in Hc; by rewrite !app_nil_r in Hc).
  revert attempt h E. induction n as [|n IH]; intros attempt h E; cbn [attempts] in E.
  - destruct (write_forever _ _) as [[b c]|]; simplify_eq. apply conserves_refl.
  - destruct (get _ _ _ _) as [[[got w] rest]|] eqn:Hg; [|done].
    apply get_run_conserves in Hg as [Hg Hrest]; [|apply Hq]. change (held _) with (@nil Proxy) in Hg.
    destruct got as [p|]; [|destruct (write_forever _ _) as [[b c]|]; by simplify_eq].
    eapply conserves_trans; [exact Hg|]. simpl option_list.
    set (w1 := if (0 <? attempt)%nat then rotate w else w) in E.
    assert (conserves w [p] w1 [p]) as Hw1
      by (unfold w1; destruct (0 <? attempt)%nat; [apply rotate_conserves|apply conserves_refl]).
    eapply conserves_trans; [exact Hw1|].
    rewrite (meanwhile_quiet _ _ Hrest) in E. fold w1 in E.
    destruct (relay _ _ _ _ _ _ _) as [[out c]|]; [|done].
    assert (forall t e, conserves w1 [p] w1 [record_attempt t e p]) as Hrec.
    { intros t e. eapply conserves_keys; [|apply conserves_refl]. simpl. by rewrite record_attempt_key. }
    destruct out as [|e|e|]; simplify_eq; (eapply conserves_trans; [apply Hrec|]).
    + apply settle_ok_conserves.
    + eapply conserves_trans; [apply settle_failed_conserves|]. exact (IH _ _ E).
    + apply settle_failed_conserves.
    + apply settle_ok_conserves.
Qed.

(** One client, one answer. A request that ends has had exactly one conversation: either
    every attempt failed before the client saw anything and the only bytes written to it are
    the failure reply of its own protocol, or one attempt, started on the untouched connection,
    committed and nothing followed it. *)
Theorem attempts_one_answer : forall world peer_ip key target req n attempt h h',
  attempts world peer_ip key target req n attempt h = Some h' ->
  (exists b, write_forever (terminal_failure (rq_frontend req)) (h_client h) = Some (b, h_client h') /\
     h_history h' = h_history h) \/
  (exists k p proto codes out, (attempt <= k < attempt + n)%nat /\
     relay (h_client h) (at_dial (world k)) p proto target req codes = Some (out, h_client h') /\
     proto = choose_proto p (rq_scheme req) /\ (forall e, out <> RetryableFailure e) /\
     h_history h' = if decide (out = ROk)
                    then history_record (history_key peer_ip (rq_path req)) (peer p) (h_history h)
                    else h_history h).
Proof.
  intros world peer_ip key target req n attempt h h'. revert attempt h.
  induction n as [|n IH]; intros attempt h E; cbn [attempts] in E.
  - destruct (write_forever _ _) as [[b c]|]; simplify_eq. left. eauto.
  - destruct (get _ _ _ _) as [[[got w] rest]|]; [|done].
    destruct got as [p|]; [|destruct (write_forever _ _) as [[b c]|]; simplify_eq; left; eauto].
    set (w1 := if (0 <? attempt)%nat then rotate w else w) in E.
    destruct (relay _ _ _ _ _ _ _) as [[out c]|] eqn:Hr; [|done].
    pose proof (relay_cases _ _ _ _ _ _ _ _ _ Hr) as Hcases.
    destruct out as [|e|e|]; simplify_eq.
    + right. exists attempt, p, (choose_proto p (rq_scheme req)), (http_allowed_codes (config (w_pool w1))), ROk. split; [lia|]. split; [exact Hr|].
      split_and!; [done|done|by rewrite decide_True].
    + apply IH in E as [E|(k & q & pr & cs & out & Hk & E)]; [by left|].
      right. exists k, q, pr, cs, out. split; [lia|exact E].
    + right. exists attempt, p, (choose_proto p (rq_scheme req)), (http_allowed_codes (config (w_pool w1))), (ClientCommitted e). split; [lia|]. split; [exact Hr|].
      split_and!; [done|done|by rewrite decide_False].
    + right. exists attempt, p, (choose_proto p (rq_scheme req)), (http_allowed_codes (config (w_pool w1))), ClientGone. split; [lia|]. split; [exact Hr|].
      split_and!; [done|done|by rewrite decide_False].
Qed.
End handler_facts.


(** ** The gate *)
Section gate.
Context `{HO : HashOrder} `{N : Notify} `{UC : UnicodeCase} `{TL : TunnelLibs} `{SP : Splice}.

(** The client proved it knows the credentials [exp]: in the SOCKS5 handshake, or in the header
    of an HTTP request. *)
Definition authenticated (exp : AuthExpect) (c : Conn) (req : ClientRequest) : Prop :=
  (rq_frontend req = FSocks5 /\
     exists read rest, rx c = bytes (chr 5 :: read) ++ rest /\ socks5_login exp read) \/
  (rq_frontend req <> FSocks5 /\ rq_proxy_auth req = Some (ax_basic exp)).

Lemma parse_client_request_auth exp c req c' :
  parse_client_request (Some exp) c = (Ok req, c') -> auth_refused (Some exp) req = false ->
  authenticated exp c req.
Proof.
  intros E Hr. unfold auth_refused in Hr. apply andb_false_iff in Hr.
  unfold parse_client_request in E. apply bind_inv in E as (fst & c1 & Hf & E).
  apply m_some_inv, read_exact_inv in Hf as (Hf & [b ->]%len1 & _). cbn [bytes map app] in Hf.
  destruct (Z.eqb_spec (byte b) 5) as [Hb|Hb].
  - apply parse_socks5_inv in E as (_ & Hs & _ & _ & read & more & Hc & Hl & _). left. split; [done|].
    exists read, (bytes more ++ rx c'). split; [|done]. rewrite Hf, Hc, bytes_app, <- app_assoc.
    assert (chr 5 = b) as -> by (rewrite <- Hb; apply chr_byte). done.
  - right. apply bind_inv in E as (buf & c2 & _ & E).
    destruct (parse_http buf) as [r|] eqn:Ep; [|done]. unfold ret in E. simplify_eq.
    assert (rq_frontend req <> FSocks5) as Hfr
      by (unfold parse_http in Ep; repeat case_match; by simplify_eq/=).
    split; [done|]. destruct Hr as [Hr|Hr]; by bsimp.
Qed.

(** With credentials configured nothing happens without them. A connection whose client did
    not present them leaves the pool, its statistics and the history exactly as they were: no
    proxy is drawn, no control request is served, and an HTTP client is told 407. *)
Theorem auth_gate : forall world lookup_ip max_tries exp peer_ip h h',
  handle_client world lookup_ip max_tries (Some exp) peer_ip h = Some h' ->
  (exists req c, parse_client_request (Some exp) (h_client h) = (Ok req, c) /\
                 authenticated exp (h_client h) req) \/
  (h_world h' = h_world h /\ h_history h' = h_history h /\
   forall req c, parse_client_request (Some exp) (h_client h) = (Ok req, c) ->
     exists b, write_forever auth_required c = Some (b, h_client h')).
Proof.
  intros world lookup_ip max_tries exp peer_ip h h' E. unfold handle_client in E.
  destruct (parse_client_request (Some exp) (h_client h)) as [[req|e] c] eqn:Ep.
  - destruct (auth_refused (Some exp) req) eqn:Hr.
    + right. unfold serve_request in E. rewrite Hr in E. cbn [h_client h_world h_history] in E.
      destruct (write_forever auth_required c) as [[b c1]|] eqn:Ew; [|done]. simplify_eq. simpl.
      split_and!; [done|done|]. intros req0 c0 [= <- <-]. eauto.
    + left. exists req, c. split; [done|]. by eapply parse_client_request_auth.
  - right. simplify_eq. split_and!; [done|done|]. intros req0 c0 [=].
Qed.

(** The control API touches one address, and only when it may. Whatever the request, the pool
    after it is the pool before it, or the pool less the entries at the one address the request
    named, and then only if the server authenticates its clients or the peer is on this host;
    a refused removal answers 403. *)
Theorem serve_control_effects : forall req pool history peer_ip allowed reply pool',
  serve_control req pool history peer_ip allowed = (reply, pool') ->
  (pool' = pool \/ (allowed = true /\ reply = no_content /\ exists ip port, pool' = (remove ip port pool).2)) /\
  (reply = forbidden -> allowed = false /\ pool' = pool) /\
  (reply = no_content \/ reply = forbidden \/
   exists url proxy, history_get (history_key peer_ip url) history = Some proxy /\ reply = history_reply proxy).
Proof.
  intros req pool history peer_ip allowed reply pool' E. unfold serve_control in E. cbv zeta in E.
  assert (no_content <> forbidden) as Hnf by (vm_compute; discriminate).
  assert (forall p, history_reply p <> forbidden) as Hhf by (intros p; unfold history_reply; discriminate).
  revert E Hnf Hhf. generalize no_content, forbidden, history_reply. intros nc fb hr E Hnf Hhf.
  assert (nc = reply -> pool = pool' ->
    (pool' = pool \/ (allowed = true /\ reply = nc /\ exists ip port, pool' = (remove ip port pool).2)) /\
    (reply = fb -> allowed = false /\ pool' = pool) /\
    (reply = nc \/ reply = fb \/
     exists url proxy, history_get (history_key peer_ip url) history = Some proxy /\ reply = hr proxy)) as Hno.
  { intros <- <-. split; [by left|]. split; [|by left]. intros Hc. by destruct (Hnf Hc). }
  destruct (splitn3 _ _) as [|a [|op [|params [|]]]]; try (injection E as E1 E2; exact (Hno E1 E2)).
  case_decide; [|case_decide; [|injection E as E1 E2; exact (Hno E1 E2)]].
  - destruct allowed; cbn [negb] in E.
    2: { injection E as <- <-. split; [by left|]. split; [done|]. by right; left. }
    destruct (split_host_port params 0) as [host port].
    destruct (ip_parse host) as [ip|]; [|injection E as E1 E2; exact (Hno E1 E2)].
    injection E as <- <-. split; [right; split; [done|]; split; [done|by exists ip, port]|].
    split; [|by left]. intros Hc. by destruct (Hnf Hc).
  - destruct (history_get _ history) as [p|] eqn:Hg; [|injection E as E1 E2; exact (Hno E1 E2)].
    injection E as <- <-. split; [by left|]. split; [|right; right; eauto]. intros Hr. by apply Hhf in Hr.
Qed.
End gate.

(** The history answers with the last upstream recorded for a target, and stays within its
    cap: recording never grows the map beyond it, and forgets another target only when a new one
    arrives at the cap, in which case all are forgotten. *)
Theorem history_record_sound : forall key proxy (m : History) k,
  (size m <= HISTORY_CAP)%nat ->
  (size (history_record key proxy m) <= HISTORY_CAP)%nat /\
  history_get key (history_record key proxy m) = Some proxy /\
  (k <> key -> history_get k (history_record key proxy m) =
     if (HISTORY_CAP <=? size m)%nat && negb (bool_decide (is_Some (m !! key)))
     then None else history_get k m).
Proof.
  intros key proxy m k Hm. unfold history_record, history_get.
  assert (1 <= HISTORY_CAP)%nat as H1 by (apply Nat.leb_le; vm_compute; reflexivity).
  generalize dependent HISTORY_CAP. intros cap Hm H1.
  split_and!; [| by rewrite lookup_insert_eq |].
  - destruct (m !! key) as [v|] eqn:Ek.
    + rewrite bool_decide_eq_true_2, andb_false_r by eauto. rewrite map_size_insert, Ek. done.
    + rewrite bool_decide_eq_false_2, andb_true_r by (intros [? He]; discriminate He).
      destruct (Nat.leb_spec cap (size m)); rewrite map_size_insert.
      * by rewrite lookup_empty, map_size_empty.
      * rewrite Ek. lia.
  - intros Hk. rewrite lookup_insert_ne by done. by destruct (_ && _).
Qed.
Lemma history_record_sound_witness :
  history_get (lit "a") (history_record (lit "a") (lit "b") ∅) = Some (lit "b").
Proof.
  refine (proj1 (proj2 (history_record_sound (lit "a") (lit "b") ∅ (lit "c") _))).
  rewrite map_size_empty. apply Nat.leb_le. vm_compute. reflexivity.
Defined.

(** ** Concrete requests *)
Section demo.
#[local] Existing Instance list_order.
#[local] Existing Instance counter_notify.
#[local] Existing Instance ascii_case.
#[local] Existing Instance no_libs.
#[local] Existing Instance copy_splice.

Definition tick : Moment := {| mo_env := []; mo_now := 0; mo_live := true |}.
(** The first upstream refuses the connection, the second answers. *)
Definition demo_attempt (k : nat) : Attempt :=
  {| at_script := [tick; tick; tick];
     at_dial := match k with O => DialErr | _ => DialOk (demo_answer (lit "200 OK")) end;
     at_put_now := 0 |}.
Definition demo_other : Proxy := add_type Http (Some High) (new (V4 33686018) 3128 ∅).
Definition demo_state : HState :=
  mkH (open_conn demo_raw)
      (mkWorld (from_proxies [demo_px; demo_other] PoolConfig_default) rand_seed 0%nat 0) ∅.
Definition demo_run := attempts demo_attempt (V4 1) (KIp (V4 1)) demo_target demo_req 3 0 demo_state.
Lemma demo_quiet k : quiet (at_script (demo_attempt k)).
Proof. repeat constructor. Qed.

(** The first proxy fails and is benched, the second serves; both are back, one rotation is
    counted, and the client sees one answer. *)
Example demo_run_result :
  option_map (fun h => (sent (h_client h), map p_key (proxies (w_pool (h_world h))),
                        rotations (w_pool (h_world h)))) demo_run =
    Some (lit "HTTP/1.1 200 OK" ++ crlf ++ lit "X-Proxy-Info: 2.2.2.2:3128" ++ crlf ++
          lit "Content-Length: 0" ++ crlf2, [(V4 16843009, 8080); (V4 33686018, 3128)], 1).
Proof. vm_compute. reflexivity. Qed.

Lemma attempts_conserve_witness :
  exists h', demo_run = Some h' /\
    exists gone, map p_key (proxies (w_pool (h_world demo_state))) ≡ₚ
                   gone ++ map p_key (proxies (w_pool (h_world h'))).
Proof.
  destruct demo_run as [h'|] eqn:E; [|exfalso; vm_compute in E; discriminate E].
  exists h'. split; [reflexivity|].
  destruct (attempts_conserve demo_attempt (V4 1) (KIp (V4 1)) demo_target demo_req 3 0 demo_state h'
              demo_quiet E) as (gone & H & _).
  exists gone. exact H.
Defined.
Lemma attempts_one_answer_witness :
  exists h', demo_run = Some h' /\
    ((exists b, write_forever (terminal_failure HttpForward) (h_client demo_state) = Some (b, h_client h')) \/
     (exists k, (0 <= k < 3)%nat)).
Proof.
  destruct demo_run as [h'|] eqn:E; [|exfalso; vm_compute in E; discriminate E].
  exists h'. split; [reflexivity|].
  destruct (attempts_one_answer demo_attempt (V4 1) (KIp (V4 1)) demo_target demo_req 3 0 demo_state h' E)
    as [(b & H & _)|(k & _ & _ & _ & _ & H & _)]; [left; exists b; exact H|right; exists k; exact H].
Defined.

Definition demo_exp : AuthExpect := auth_expect (lit "u:p").
Lemma auth_gate_witness :
  exists h', handle_client demo_attempt (fun _ => None) 3 (Some demo_exp) (V4 1) demo_state = Some h' /\
    h_history h' = h_history demo_state.
Proof.
  destruct (handle_client demo_attempt (fun _ => None) 3 (Some demo_exp) (V4 1) demo_state) as [h'|] eqn:E;
    [|exfalso; vm_compute in E; discriminate E].
  exists h'. split; [reflexivity|].
  destruct (auth_gate demo_attempt (fun _ => None) 3 demo_exp (V4 1) demo_state h' E) as [(req & c & Hp & Ha)|H].
  - exfalso. destruct Ha as [[Hf _]|[_ Ha]].
    + assert (option_map rq_frontend (ok (parse_client_request (Some demo_exp) (h_client demo_state)).1) =
              Some HttpForward) as Hx by (vm_compute; reflexivity).
      rewrite Hp in Hx. simpl in Hx. congruence.
    + assert (option_map rq_proxy_auth (ok (parse_client_request (Some demo_exp) (h_client demo_state)).1) =
              Some None) as Hx by (vm_compute; reflexivity).
      rewrite Hp in Hx. simpl in Hx. congruence.
  - exact (proj1 (proj2 H)).
Defined.

Lemma serve_control_effects_witness :
  let req := {| rq_scheme := SHttp; rq_frontend := HttpForward; rq_host := lit "proxycontrol"; rq_port := 80;
                rq_raw := []; rq_proxy_auth := None;
                rq_path := lit "http://proxycontrol/api/remove/1.1.1.1:8080" |} in
  let pool := w_pool (h_world demo_state) in
  (serve_control req pool ∅ (V4 1) false).1 = forbidden /\
  (serve_control req pool ∅ (V4 1) false).2 = pool /\
  length (state (serve_control req pool ∅ (V4 1) true).2) = 1%nat.
Proof.
  intros req pool. assert ((serve_control req pool ∅ (V4 1) false).1 = forbidden) as H by (vm_compute; reflexivity).
  split; [exact H|]. split; [|vm_compute; reflexivity].
  exact (proj2 (proj1 (proj2 (serve_control_effects req pool ∅ (V4 1) false _ _
                                (surjective_pairing _))) H)).
Defined.
End demo.
