(* ===== verification/Trades.v ===== *)
(** * What comes to the pool and what leaves it (src/server.rs)

    The account that the gateway's handlers and the connector share: the addresses that the other
    users of the pool bring and take, those evicted, and those that stay. *)
From S2P Require Import Prelude F64 Text Types Addr Proxy Pool PoolSteps Holds Server.
Open Scope Z_scope.

Section trades.
Context `{HO : HashOrder} `{N : Notify} `{UC : UnicodeCase}.

(** Addresses are [brought] and [taken] by others; some are evicted, and counted; the rest stay,
    in the pool or in the hands at work. *)
Definition trades (brought taken : list (IpAddr * Z)) (w : World) (held : list Proxy) (w' : World) (held' : list Proxy) : Prop :=
  exists gone, map p_key (proxies (w_pool w) ++ held) ++ brought ≡ₚ gone ++ taken ++ map p_key (proxies (w_pool w') ++ held') /\
    counted (length gone) (w_pool w) (w_pool w').
Lemma conserves_trades w held w' held' : conserves w held w' held' -> trades [] [] w held w' held'.
Proof. intros (g & H & Hc). exists g. split; [|done]. by rewrite app_nil_r. Qed.
Lemma trades_frame b t w h w' h' l r : trades b t w h w' h' -> trades b t w (l ++ h ++ r) w' (l ++ h' ++ r).
Proof.
  intros (g & H & Hc). exists g. split; [|done]. rewrite !map_app in *.
  transitivity ((map p_key l ++ map p_key r) ++ (map p_key (proxies (w_pool w)) ++ map p_key h) ++ b); [solve_Permutation|].
  rewrite H. solve_Permutation.
Qed.
Lemma trades_trans b1 t1 b2 t2 w1 h1 w2 h2 w3 h3 :
  trades b1 t1 w1 h1 w2 h2 -> trades b2 t2 w2 h2 w3 h3 -> trades (b1 ++ b2) (t1 ++ t2) w1 h1 w3 h3.
Proof.
  intros (g1 & H1 & C1) (g2 & H2 & C2). exists (g1 ++ g2). split; [|rewrite length_app, Nat.add_comm; by eapply counted_trans].
  rewrite app_assoc, H1.
  transitivity (g1 ++ t1 ++ (map p_key (proxies (w_pool w2) ++ h2) ++ b2)); [solve_Permutation|]. rewrite H2. solve_Permutation.
Qed.
Lemma trades_same w w' h : proxies (w_pool w') = proxies (w_pool w) -> evictions (w_pool w') = evictions (w_pool w) -> trades [] [] w h w' h.
Proof. intros Hp He. exists []. split; [|exact He]. by rewrite app_nil_r, Hp. Qed.
Lemma trades_refl w h : trades [] [] w h w h.
Proof. by apply trades_same. Qed.
Lemma trades_pool b t w h w' h' p : w_pool w' = p -> trades b t w h (with_pool p w) h' -> trades b t w h w' h'.
Proof. intros <- (g & H & Hc). by exists g. Qed.
(** A call that only takes addresses out of the pool, and evicts none. *)
Lemma trades_taken p w gone : proxies (w_pool w) ≡ₚ gone ++ proxies p -> evictions p = evictions (w_pool w) ->
  trades [] (map p_key gone) w [] (with_pool p w) [].
Proof. intros Hp He. exists []. split; [|exact He]. cbn. by rewrite !app_nil_r, Hp, map_app. Qed.
Lemma trades_pushed e p w : w_pool w = p -> trades [p_key (proxy e)] [] w [] (with_pool (push e p) w) [].
Proof. intros <-. exists []. split; [|done]. cbn. unfold proxies, proxies_of, push. cbn. by rewrite !map_app, !app_nil_r. Qed.
Lemma trades_put (b : option Z) px w : trades [p_key px] [] w [] (with_pool (put_inner px b (w_pool w)) w) [].
Proof.
  destruct (put_conserves b px w) as (g & H & Hc). exists g. split; [|done]. rewrite app_nil_r, <- H. by rewrite map_app.
Qed.
Lemma removed_split k (p : Pool) : proxies p ≡ₚ
  map proxy (List.filter (fun e => bool_decide (entry_key e = k)) (state p)) ++
  proxies (set_state (retain (fun e => negb (bool_decide (entry_key e = k))) (state p)) p).
Proof.
  unfold proxies, proxies_of, set_state, retain. cbn. rewrite <- map_app. apply Permutation_map.
  induction (state p) as [|e l IH]; [done|]. cbn. case_bool_decide; cbn; [by constructor|]. by rewrite <- Permutation_middle, <- IH.
Qed.
Lemma trades_remove hst q w : exists taken, trades [] taken w [] (with_pool (remove hst q (w_pool w)).2 w) [].
Proof. eexists. apply trades_taken; [apply (removed_split (hst, q))|done]. Qed.

(** What an operation of the others brings, and whether it can take. *)
Definition op_brought (op : EnvOp) (w : World) : list (IpAddr * Z) :=
  match op with
  | EImport px => if country_ok px (countries (config (w_pool w))) then [p_key px] else []
  | EPutOk px | EPutFailed _ px => [p_key px]
  | EAdd px => if decide (p_key px ∈ addrs (w_pool w)) then [] else [p_key px]
  | _ => []
  end.
Definition op_takes (op : EnvOp) : bool := match op with ERemove _ _ | ETryGet _ _ => true | _ => false end.
Lemma env_trades op w : exists taken, trades (op_brought op w) taken w [] (env_step op w) [] /\ (op_takes op = false -> taken = []).
Proof.
  destruct op as [px| | |px|now px|px|hst q|s c|n m]; cbn [op_brought op_takes env_step].
  - exists []. split; [|done]. destruct (country_ok px _) eqn:E; [|apply trades_refl].
    eapply trades_pool; [done|]. unfold import. rewrite E. by apply (trades_pushed (ready_entry px)).
  - exists []. split; [by apply trades_same|done].
  - exists []. split; [by apply trades_same|done].
  - exists []. split; [|done]. eapply trades_pool, (trades_put None). unfold put_ok_world. by destruct (put_pushes px w).
  - exists []. split; [|done]. eapply trades_pool, trades_put. unfold put_failed_world. by destruct (put_pushes px w).
  - exists []. split; [|done]. case_decide as Hd; [apply trades_refl|]. eapply trades_pool; [done|]. cbn. unfold add.
    destruct (existsb _ _) eqn:E; [|by apply (trades_pushed (ready_entry px))]. exfalso.
    apply existsb_elem in E as (e & He & Hk%bool_decide_eq_true). apply Hd, elem_of_addrs. by exists e.
  - destruct (trades_remove hst q w) as [taken H]. by exists taken.
  - destruct (try_get s c (w_pool w)) as [[px p]|] eqn:E; [|exists []; split; [apply trades_refl|done]].
    unfold try_get in E. destruct (best_by_priority _ _ _); [|done]. destruct (vec_remove _ _) as [[e rest]|] eqn:Hv; [|done].
    simplify_eq. apply vec_remove_perm in Hv. exists [p_key (proxy e)]. split; [|done]. apply (trades_taken _ _ [proxy e]); [|done].
    unfold proxies, proxies_of, set_state. cbn. by rewrite Hv.
  - exists []. split; [by apply trades_same|done].
Qed.

(** ** Over a script *)
(** The addresses an operation may bring. *)
Definition op_key (op : EnvOp) : option (IpAddr * Z) :=
  match op with EImport px | EPutOk px | EPutFailed _ px | EAdd px => Some (p_key px) | _ => None end.
(** [ops] are the others' operations: nothing is brought but by them, nothing is taken but by removals and checkouts. *)
Definition accounts (ops : list EnvOp) (w : World) (held : list Proxy) (w' : World) (held' : list Proxy) : Prop :=
  exists brought taken, trades brought taken w held w' held' /\
    (forall k, k ∈ brought -> exists op, op ∈ ops /\ op_key op = Some k) /\
    (Forall (fun op => op_takes op = false) ops -> taken = []).
Lemma accounts_conserves ops w held w' held' : conserves w held w' held' -> accounts ops w held w' held'.
Proof. intros H%conserves_trades. exists [], []. split; [done|]. split; [by intros k ?%elem_of_nil|done]. Qed.
Lemma accounts_trans ops w1 h1 w2 h2 w3 h3 : accounts ops w1 h1 w2 h2 -> accounts ops w2 h2 w3 h3 -> accounts ops w1 h1 w3 h3.
Proof.
  intros (b1 & t1 & H1 & B1 & T1) (b2 & t2 & H2 & B2 & T2). exists (b1 ++ b2), (t1 ++ t2).
  split; [by eapply trades_trans|]. split; [intros k [?|?]%elem_of_app; auto|]. intros Hq. by rewrite T1, T2.
Qed.
Lemma accounts_mono ops ops' w h w' h' : (forall op, op ∈ ops -> op ∈ ops') -> accounts ops w h w' h' -> accounts ops' w h w' h'.
Proof.
  intros Hin (b & t & H & B & T). exists b, t. split; [done|]. split.
  - intros k (op & ? & ?)%B. exists op. auto.
  - rewrite !Forall_forall in *. auto.
Qed.
Lemma accounts_env ops w held : accounts ops w held (fold_left (fun w op => env_step op w) ops w) held.
Proof.
  assert (forall l w, (forall op, op ∈ l -> op ∈ ops) -> accounts ops w held (fold_left (fun w op => env_step op w) l w) held) as H; [|by apply H].
  clear w. induction l as [|op l IH]; intros w Hin; cbn; [apply accounts_conserves, conserves_refl|].
  eapply accounts_trans; [|apply IH; intros o Ho; apply Hin; by right].
  destruct (env_trades op w) as (taken & Ht & Hq). exists (op_brought op w), taken.
  split; [apply (trades_frame _ _ _ _ _ _ held []) in Ht; by rewrite !app_nil_r in Ht|]. split.
  - intros k Hk. exists op. split; [apply Hin; by left|]. destruct op; cbn in Hk |- *; try (by apply elem_of_nil in Hk);
      repeat case_match; try (by apply elem_of_nil in Hk); by apply list_elem_of_singleton in Hk as ->.
  - intros Ho. apply Hq. rewrite Forall_forall in Ho. apply Ho, Hin. by left.
Qed.
Definition script_ops (script : list Moment) : list EnvOp := concat (map mo_env script).
Lemma accounts_meanwhile script w held : accounts (script_ops script) w held (meanwhile script w) held.
Proof.
  unfold meanwhile. revert w. induction script as [|m script IH]; intros w; [apply accounts_conserves, conserves_refl|]. cbn [fold_left].
  eapply accounts_trans; [eapply accounts_mono, accounts_env|eapply accounts_mono, IH];
    intros op Hop; unfold script_ops; cbn; apply elem_of_app; auto.
Qed.
Lemma get_run_accounts script t w r w' rest : get_run script t w = Some (r, w', rest) ->
  accounts (script_ops script) w (held t) w' (option_list r).
Proof.
  revert t w. induction script as [|m script IH]; intros t w E; cbn [get_run] in E.
  - destruct (t_pc t) as [| | | | | | |o| | | |] eqn:Hpc; try done. injection E as -> -> _. unfold held. rewrite Hpc.
    destruct r; apply accounts_conserves, conserves_refl.
  - assert (forall w1, w1 = fold_left (fun w op => env_step op w) (mo_env m) w ->
      match task_step (mo_now m) (mo_live m) t w1 with Some (t', w') => get_run script t' w' | None => get_run script t w1 end = Some (r, w', rest) ->
      accounts (script_ops (m :: script)) w (held t) w' (option_list r)) as Hgo.
    { intros w1 -> E1. eapply accounts_trans; [eapply accounts_mono, (accounts_env (mo_env m)); intros op Hop; unfold script_ops; cbn; apply elem_of_app; by left|].
      destruct (task_step _ _ t _) as [[t' w2]|] eqn:Es.
      - eapply accounts_trans; [apply accounts_conserves, (task_step_conserves _ _ _ _ _ _ Es)|].
        eapply accounts_mono; [|by apply IH]. intros op Hop. unfold script_ops. cbn. apply elem_of_app. by right.
      - eapply accounts_mono; [|by apply IH]. intros op Hop. unfold script_ops. cbn. apply elem_of_app. by right. }
    destruct (t_pc t) as [| | | | | | |o| | | |] eqn:Hpc; try (by eapply Hgo). injection E as -> -> _. unfold held. rewrite Hpc.
    destruct r; apply accounts_conserves, conserves_refl.
Qed.

(** ** What holds of the pool holds of what [get] gives *)
Lemma ops_holds cfg S ops w : Forall (brings cfg S) ops -> pool_holds cfg S (w_pool w) ->
  pool_holds cfg S (w_pool (fold_left (fun w op => env_step op w) ops w)).
Proof.
  revert w. induction ops as [|op ops IH]; intros w Ho Hp; cbn; [done|]. apply Forall_cons in Ho as [H1 H2].
  apply IH; [done|]. by apply pool_holds_env.
Qed.
Lemma meanwhile_holds cfg S script w : Forall (fun m => Forall (brings cfg S) (mo_env m)) script -> pool_holds cfg S (w_pool w) ->
  pool_holds cfg S (w_pool (meanwhile script w)).
Proof.
  intros H. revert w. unfold meanwhile. induction H as [|m script Hm _ IH]; intros w Hp; [done|]. cbn. apply IH. by apply ops_holds.
Qed.
Lemma get_run_holds cfg S script : Forall (fun m => Forall (brings cfg S) (mo_env m)) script -> forall t w r w' rest,
  get_run script t w = Some (r, w', rest) -> task_holds S t -> pool_holds cfg S (w_pool w) ->
  (forall px, r = Some px -> S px /\ serves (t_scheme t) px = true) /\ pool_holds cfg S (w_pool w').
Proof.
  induction 1 as [|m script Hm _ IH]; intros t w r w' rest E Ht Hp; cbn [get_run] in E.
  { destruct (t_pc t) eqn:Hpc; try done. injection E as <- <- <-. split; [|done]. intros px ->. apply Ht. unfold held. rewrite Hpc. left. }
  assert (forall w1, pool_holds cfg S (w_pool w1) ->
    match task_step (mo_now m) (mo_live m) t w1 with Some (t', w2) => get_run script t' w2 | None => get_run script t w1 end = Some (r, w', rest) ->
    (forall px, r = Some px -> S px /\ serves (t_scheme t) px = true) /\ pool_holds cfg S (w_pool w')) as Hgo.
  { intros w1 Hp1 E1. destruct (task_step _ _ t w1) as [[t' w2]|] eqn:Es; [|by eapply IH].
    destruct (task_step_holds _ _ _ _ _ _ _ _ Es Ht Hp1) as [Ht' Hp2].
    assert (t_scheme t' = t_scheme t) as <- by (unfold task_step in Es; repeat case_match; by simplify_eq). by eapply IH. }
  destruct (t_pc t) eqn:Hpc; try (eapply Hgo; [by apply ops_holds|exact E]).
  injection E as <- <- <-. split; [|done]. intros px ->. apply Ht. unfold held. rewrite Hpc. left.
Qed.
Lemma pool_holds_settle cfg S now px w : S px -> pool_holds cfg S (w_pool w) ->
  pool_holds cfg S (w_pool (settle_ok px w)) /\ pool_holds cfg S (w_pool (settle_failed now px w)).
Proof.
  intros HS Hp. unfold settle_ok, settle_failed, put_ok_world, put_failed_world, put_ok, put_failed.
  split; destruct (put_pushes px w); cbn; by apply pool_holds_put.
Qed.
Lemma get_serves script s key w p w' rest : get script s key w = Some (Some p, w', rest) -> serves s p = true.
Proof.
  intros E. refine (proj2 (proj1 (get_run_holds (config (w_pool w)) (fun _ => True) script _ _ _ _ _ _ E _ _) p eq_refl)).
  - apply Forall_true. intros m. apply Forall_true. by intros [].
  - by intros px ?%elem_of_nil.
  - by split.
Qed.
End trades.
