(* ===== verification/Judge.v ===== *)
(** * Judges (src/judge.rs)

    The endpoints that echo a request, their verification and the pool of those that work.
    URL parsing (the [url] crate) and the direct fetch (the HTTP client library) are the
    operations of the class [WebLibs]. *)
From S2P Require Import Prelude Text Types Addr Utils.
Open Scope Z_scope.

Record Url := { u_scheme : str; u_host : option str; u_path : str; u_query : option str }.
Class WebLibs : Type := {
  url_parse : str -> option Url;
  (** [client.get(url)] with headers, to the status and, when it can be read, the body text. *)
  fetch : str -> headers -> option (Z * option str);
}.

Record Marks := { mk_via : nat; mk_proxy : nat }.
Definition marks_default : Marks := {| mk_via := 0; mk_proxy := 0 |}.
Record Judge := {
  j_url : str;
  j_scheme : JudgeScheme;
  j_host : str;
  j_path : str;
  j_ip : option IpAddr;
  j_marks : Marks;
}.
Definition judge_at (ip : IpAddr) (m : Marks) (j : Judge) : Judge :=
  {| j_url := j_url j; j_scheme := j_scheme j; j_host := j_host j; j_path := j_path j;
     j_ip := Some ip; j_marks := m |}.

Definition judge_scheme_of (s : str) : option JudgeScheme :=
  if decide (s = lit "http") then Some JHttp
  else if decide (s = lit "https") then Some JHttps
  else if decide (s = lit "smtp") then Some JSmtp
  else None.

Section judge.
Context `{WebLibs} `{Regexes} `{UnicodeCase}.
Variable lookup_ip : str -> option (list IpAddr).

(** [Judge::parse]. *)
Definition judge_parse (url : str) : option Judge :=
  let? parsed := url_parse url in
  let? scheme := judge_scheme_of (u_scheme parsed) in
  let? host := u_host parsed in
  let path := match u_query parsed with
              | Some q => u_path parsed ++ lit "?" ++ q
              | None => u_path parsed
              end in
  Some {| j_url := url; j_scheme := scheme; j_host := host; j_path := path; j_ip := None;
          j_marks := marks_default |}.

(** Does any of the host's real addresses occur among those found in a page? *)
Definition ip_visible (real_ext_ips : list IpAddr) (found : gset str) : bool :=
  existsb (fun ip => bool_decide (ip_show ip ∈ found)) real_ext_ips.

(** [Judge::probe], with the marker drawn: the judge with what the probe recorded, when it is
    usable. (An unusable judge is dropped, its partial update with it.) *)
Definition probe (marker : str) (real_ext_ips : list IpAddr) (j : Judge) : option Judge :=
  match resolve lookup_ip (j_host j) with
  | Err _ => None
  | Ok ip =>
      if decide (j_scheme j = JSmtp) then Some (judge_at ip (j_marks j) j)
      else
        match fetch (j_url j) (request_headers (Some marker)) with
        | None => None
        | Some (status, body) =>
            if negb (status =? 200) then None
            else
              let? body := body in
              let page := to_lowercase body in
              if ip_visible real_ext_ips (get_all_ip page) && contains page marker
              then Some (judge_at ip {| mk_via := matches_count (lit "via") page;
                                        mk_proxy := matches_count (lit "proxy") page |} j)
              else None
        end
  end.

Record JudgePool := { jp_http : list Judge; jp_https : list Judge; jp_smtp : list Judge }.
Definition jp_empty : JudgePool := {| jp_http := []; jp_https := []; jp_smtp := [] |}.
Definition bucket (s : JudgeScheme) (p : JudgePool) : list Judge :=
  match s with JHttp => jp_http p | JHttps => jp_https p | JSmtp => jp_smtp p end.
Definition push_judge (p : JudgePool) (j : Judge) : JudgePool :=
  match j_scheme j with
  | JHttp => {| jp_http := jp_http p ++ [j]; jp_https := jp_https p; jp_smtp := jp_smtp p |}
  | JHttps => {| jp_http := jp_http p; jp_https := jp_https p ++ [j]; jp_smtp := jp_smtp p |}
  | JSmtp => {| jp_http := jp_http p; jp_https := jp_https p; jp_smtp := jp_smtp p ++ [j] |}
  end.

(** [JudgePool::probe_all]; every probe draws its own marker. *)
Definition probe_all (marker : Judge -> str) (real_ext_ips : list IpAddr) (candidates : list Judge)
  : JudgePool :=
  fold_left push_judge (omap (fun j => probe (marker j) real_ext_ips j) candidates) jp_empty.

(** [choose], from the draw [r]. *)
Definition random_judge (r : nat) (s : JudgeScheme) (p : JudgePool) : option Judge :=
  bucket s p !! (r mod length (bucket s p))%nat.
Definition jp_is_empty (p : JudgePool) : bool :=
  bool_decide (jp_http p = []) && bool_decide (jp_https p = []) && bool_decide (jp_smtp p = []).
End judge.

(** ** Facts *)
Lemma bucket_push s p j :
  bucket s (push_judge p j) = bucket s p ++ (if decide (j_scheme j = s) then [j] else []).
Proof. unfold push_judge. destruct (j_scheme j), s; simpl; by rewrite ?app_nil_r. Qed.
Lemma bucket_fold s l p :
  bucket s (fold_left push_judge l p) = bucket s p ++ retain (fun j => bool_decide (j_scheme j = s)) l.
Proof.
  revert p. induction l as [|j l IH]; intros p; simpl; [by rewrite app_nil_r|].
  rewrite IH, bucket_push, <- app_assoc. f_equal. by case_decide; case_bool_decide.
Qed.
Lemma random_judge_elem r s p j : random_judge r s p = Some j -> j ∈ bucket s p.
Proof. apply list_elem_of_lookup_2. Qed.
Lemma random_judge_None r s p : random_judge r s p = None <-> bucket s p = [].
Proof.
  unfold random_judge. split; [|by intros ->]. intros E%lookup_ge_None.
  destruct (bucket s p) as [|j l]; [done|].
  pose proof (Nat.mod_upper_bound r (length (j :: l)) ltac:(simpl; lia)). lia.
Qed.

Section facts.
Context `{W : WebLibs} `{R : Regexes} `{UC : UnicodeCase}.
Variable lookup_ip : str -> option (list IpAddr).

Definition reflects (marker : str) (real : list IpAddr) (j : Judge) (m : Marks) : Prop :=
  exists body, fetch (j_url j) (request_headers (Some marker)) = Some (200, Some body) /\
    contains (to_lowercase body) marker = true /\
    (exists ip, ip ∈ real /\ ip_show ip ∈ get_all_ip (to_lowercase body)) /\
    m = {| mk_via := matches_count (lit "via") (to_lowercase body);
           mk_proxy := matches_count (lit "proxy") (to_lowercase body) |}.

Lemma ip_visible_iff real found :
  ip_visible real found = true <-> exists ip, ip ∈ real /\ ip_show ip ∈ found.
Proof. unfold ip_visible. rewrite existsb_elem. by setoid_rewrite bool_decide_eq_true. Qed.

Lemma probe_iff marker real j j' :
  probe lookup_ip marker real j = Some j' <->
  exists ip m, resolve lookup_ip (j_host j) = Ok ip /\ j' = judge_at ip m j /\
    ((j_scheme j = JSmtp /\ m = j_marks j) \/ (j_scheme j <> JSmtp /\ reflects marker real j m)).
Proof.
  unfold probe, reflects. destruct (resolve lookup_ip (j_host j)) as [ip|e]; [|naive_solver].
  case_decide as Hs; [naive_solver|].
  destruct (fetch _ _) as [[status body]|]; [|naive_solver].
  destruct (Z.eqb_spec status 200) as [->|]; simpl; [|naive_solver].
  destruct body as [body|]; [|naive_solver].
  destruct (ip_visible _ _) eqn:Ev; simpl.
  - apply ip_visible_iff in Ev. destruct (contains _ marker) eqn:Ec; naive_solver congruence.
  - split; [done|]. intros (ip' & m & [= <-] & _ & [[? _]|(_ & b & [= <-] & _ & Hip & _)]); [done|].
    apply ip_visible_iff in Hip. congruence.
Qed.

(** C26: the judge pool holds exactly the judges that verified. A judge is in the bucket of a
    scheme when some candidate of that scheme resolved and, unless it is an SMTP judge, answered
    200 with a page that echoes both the marker and one of this host's addresses; it carries
    that address and, as its baseline, that page's counts of [via] and [proxy]; and a random
    judge for a scheme is one of that bucket, there being none only when it is empty. *)
Theorem judge_pool_sound : forall marker real candidates s r,
  let pool := probe_all lookup_ip marker real candidates in
  (forall j', j' ∈ bucket s pool <->
    exists j ip m, j ∈ candidates /\ j_scheme j = s /\ j' = judge_at ip m j /\
      resolve lookup_ip (j_host j) = Ok ip /\
      ((s = JSmtp /\ m = j_marks j) \/ (s <> JSmtp /\ reflects (marker j) real j m))) /\
  match random_judge r s pool with
  | Some j => j ∈ bucket s pool /\ j_scheme j = s
  | None => bucket s pool = []
  end.
Proof.
  intros marker real candidates s r pool.
  assert (forall j', j' ∈ bucket s pool <->
    exists j ip m, j ∈ candidates /\ j_scheme j = s /\ j' = judge_at ip m j /\
      resolve lookup_ip (j_host j) = Ok ip /\
      ((s = JSmtp /\ m = j_marks j) \/ (s <> JSmtp /\ reflects (marker j) real j m))) as Hb.
  { intros j'. unfold pool, probe_all. rewrite bucket_fold.
    assert (bucket s jp_empty = []) as -> by (by destruct s). simpl.
    rewrite elem_of_retain, bool_decide_eq_true, list_elem_of_omap. setoid_rewrite probe_iff.
    split.
    - intros (Hs & j & Hj & ip & m & Hr & -> & Hm). simpl in Hs. subst s. eauto 10.
    - intros (j & ip & m & Hj & Hs & -> & Hr & Hm). split; [done|]. exists j. split; [done|].
      exists ip, m. subst s. done. }
  split; [exact Hb|]. destruct (random_judge r s pool) as [j|] eqn:E.
  - apply random_judge_elem in E. split; [done|]. apply Hb in E as (j0 & ip & m & _ & Hs & -> & _). done.
  - by apply random_judge_None in E.
Qed.
End facts.
