(* ===== verification/Checker.v ===== *)
(** * The checker (src/checker.rs)

    Validating one proxy across the requested protocols and classifying what was seen. One
    connection attempt runs on a scripted connection (Net.v); [flate2] is the class [Flate]; the
    floating-point power of the backoff is the class [Powi], since the language leaves its
    precision open. *)
From S2P Require Import Prelude F64 Text Types Addr Utils Proxy Http Net Negotiator Judge.
Open Scope Z_scope.

(** [read_to_string] of a gzip or deflate body: the text, when it decodes. *)
Class Flate : Type := { gunzip : str -> option str; inflate : str -> option str }.
Class Powi : Type := { powi : f64 -> Z -> f64 }.

(** ** Retry policy *)
Record RetryPolicy := {
  rp_max_tries : nat;
  retry_on : gset ProxyError;
  backoff : Z;
  factor : f64;
  jitter : f64;
  max_backoff : Z;
}.
Definition RetryPolicy_default : RetryPolicy :=
  {| rp_max_tries := 3; retry_on := {[Timeout]}; backoff := 0; factor := f_one; jitter := f_zero;
     max_backoff := 0 |}.
Definition tries (n : nat) : RetryPolicy :=
  {| rp_max_tries := n; retry_on := retry_on RetryPolicy_default; backoff := 0; factor := f_one;
     jitter := f_zero; max_backoff := 0 |}.
Definition transient (n : nat) : RetryPolicy :=
  {| rp_max_tries := n; retry_on := {[Timeout; Reset; ConnFailed; EmptyRecv]}; backoff := 0;
     factor := f_one; jitter := f_zero; max_backoff := 0 |}.

(** [backoff_for], from the jitter draw [r] in [-1, 1]; [None] is a panic of [from_secs_f64]. *)
Definition backoff_for `{Powi} (rp : RetryPolicy) (i : Z) (r : f64) : option Z :=
  if backoff rp =? 0 then Some 0
  else
    let d := f_mul (as_secs_f64 (backoff rp)) (powi (factor rp) i) in
    let d := if f_gtb (jitter rp) f_zero then f_mul d (f_add f_one (f_mul (jitter rp) r)) else d in
    let d := if negb (max_backoff rp =? 0) then f_min d (as_secs_f64 (max_backoff rp)) else d in
    from_secs_f64 (f_max d f_zero).

(** ** Configuration and modes *)
Record LivenessTarget := { lt_host : str; lt_path : str; lt_ip : IpAddr; lt_scheme : JudgeScheme }.
Inductive CheckMode := Judged | Liveness (lt : LivenessTarget).
Inductive Probe := PJudged (j : Judge) | PLiveness (lt : LivenessTarget).

Record Checker := {
  ck_judges : JudgePool;
  ck_real_ext_ips : list IpAddr;
  ck_requested : list TypeSpec;
  ck_timeout : Z;
  ck_post : bool;
  ck_strict : bool;
  ck_relaxed_validity : bool;
  ck_trust_check : bool;
  ck_dnsbl : list str;
  ck_mode : CheckMode;
  ck_retry : RetryPolicy;
}.
Record CheckerConfig := {
  cc_judges : list str;
  cc_types : list TypeSpec;
  cc_timeout : Z;
  cc_retry : RetryPolicy;
  cc_post : bool;
  cc_strict : bool;
  cc_relaxed_validity : bool;
  cc_trust_check : bool;
  cc_dnsbl : list str;
  cc_liveness_url : option str;
}.

Record Observation := { ob_level : option AnonLevel; ob_caps : Caps; ob_trust : TrustReport }.
Definition ob_default : Observation := {| ob_level := None; ob_caps := caps_default; ob_trust := [] |}.
Inductive Attempt := Working (o : Observation) | Invalid.

(** ** Trust *)
Definition BENIGN : list str :=
  [lit "host"; lit "connection"; lit "content-length"; lit "x-forwarded-for"; lit "via"].
Definition plausible_name (name : str) : bool :=
  negb (bool_decide (name = [])) && forallb (fun b => is_ascii_alphanumeric b || bool_decide (b = "-"%char)) name.
(** A line that reads as a header we did not send. *)
Definition injected_line (sent : list str) (line : str) : bool :=
  match split_once (lit ": ") line with
  | None => false
  | Some (name, _) =>
      let name := to_ascii_lowercase (trim name) in
      plausible_name name &&
      negb (bool_decide (name ∈ map to_ascii_lowercase sent)) && negb (bool_decide (name ∈ BENIGN))
  end.
Definition assess (sent_header_names : list str) (canary content : str) : TrustReport :=
  (if negb (contains content canary) then [CanaryMismatch] else []) ++
  (if existsb (injected_line sent_header_names) (lines content) then [InjectedHeader] else []).
Definition sent_header_names : list str :=
  map fst (request_headers None) ++ [lit "Host"; lit "Connection"; lit "Content-Length"].

(** ** The response *)
Definition MAX_JUDGE_RESPONSE : Z := 1024 * 1024.
(** [take(limit).read_to_end]. *)
Fixpoint read_limited (limit : Z) (r : list RxEvent) : result str IoErr :=
  if limit <=? 0 then Ok []
  else
    match r with
    | [] => Ok []
    | RxByte b :: r => let! s := read_limited (limit - 1) r in Ok (b :: s)
    | RxFail :: _ => Err IoFail
    | RxHang :: _ => Err IoHang
    end.
Definition read_response (c : Conn) : result str ProxyError :=
  match read_limited (MAX_JUDGE_RESPONSE + 1) (rx c) with
  | Err e => Err (io_deadline e)
  | Ok buf =>
      if (length buf =? 0)%nat then Err EmptyRecv
      else if MAX_JUDGE_RESPONSE <? Z.of_nat (length buf) then Err BadResponse
      else Ok buf
  end.

Definition split_head_body (raw : str) : str * str :=
  match position crlf2 raw with Some i => (take i raw, drop (i + 4) raw) | None => (raw, []) end.

Definition decompress `{Flate} `{UnicodeCase} (head body : str) : str :=
  let head_lower := to_lowercase (from_utf8_lossy head) in
  let enc := trim <$> find_map (strip_prefix (lit "content-encoding:")) (lines head_lower) in
  let decoded :=
    match enc with
    | Some e => if decide (e = lit "gzip") then gunzip body
                else if decide (e = lit "deflate") then inflate body else None
    | None => None
    end in
  default (from_utf8_lossy body) decoded.

Definition caps_from_content (content : str) : Caps :=
  {| cookie_echo := contains content (lit "cookie=ok");
     referer_echo := contains content (lit "https://www.google.com/") |}.
Definition response_is_valid `{Regexes} (content marker : str) : bool :=
  let caps := caps_from_content content in
  contains content marker && negb (bool_decide (get_all_ip content = ∅)) && referer_echo caps && cookie_echo caps.

(** ** Requests *)
Definition render_request (method path : str) (hdrs : headers) : str :=
  let headers := join crlf (map (fun kv => kv.1 ++ lit ": " ++ kv.2) hdrs) in
  method ++ lit " " ++ path ++ lit " HTTP/1.1" ++ crlf ++ headers ++ crlf2.
Definition request_path (proto : Proto) (host path : str) : str :=
  if uses_full_path proto then lit "http://" ++ host ++ path else path.
Definition build_liveness_request (lt : LivenessTarget) (proto : Proto) : str :=
  let hdrs := imap_insert (lit "Connection") (lit "close")
                (imap_insert (lit "Host") (lt_host lt) (request_headers None)) in
  render_request (lit "GET") (request_path proto (lt_host lt) (lt_path lt)) hdrs.
Definition build_request (post : bool) (marker : str) (j : Judge) (proto : Proto) : str :=
  let hdrs := imap_insert (lit "Content-Length") (lit "0")
                (imap_insert (lit "Connection") (lit "close")
                   (imap_insert (lit "Host") (j_host j) (request_headers (Some marker)))) in
  render_request (if post then lit "POST" else lit "GET") (request_path proto (j_host j) (j_path j)) hdrs.

(** ** Admission by type and level *)
Definition requested_map (requested : list TypeSpec) : gmap Proto (option (list AnonLevel)) :=
  fold_left (fun m t => <[ts_proto t := ts_levels t]> m) requested ∅.
(** Does a confirmed type satisfy the request? *)
Definition type_matches (requested : gmap Proto (option (list AnonLevel))) (strict : bool)
    (proto : Proto) (lvl : option AnonLevel) : bool :=
  match requested !! proto with
  | None | Some None => true
  | Some (Some []) => true
  | Some (Some levels) =>
      if negb (checks_anon_level proto) then strict
      else match lvl with Some l => bool_decide (l ∈ levels) | None => false end
  end.
(** The loop over the confirmed types: an early success when not strict, the types to remove
    when strict. *)
Fixpoint types_loop (requested : gmap Proto (option (list AnonLevel))) (strict : bool)
    (confirmed : list (Proto * option AnonLevel)) (to_remove : list Proto) : bool * list Proto :=
  match confirmed with
  | [] => (false, to_remove)
  | (proto, lvl) :: confirmed =>
      if type_matches requested strict proto lvl then
        if negb strict then (true, to_remove) else types_loop requested strict confirmed to_remove
      else types_loop requested strict confirmed (if strict then to_remove ++ [proto] else to_remove)
  end.
Definition types_passed (requested : list TypeSpec) (strict : bool) (p : Proxy) : bool * Proxy :=
  if decide (requested = []) then (true, p)
  else
    match types_loop (requested_map requested) strict (types_list (p_types p)) [] with
    | (true, _) => (true, p)
    | (false, to_remove) =>
        let p := fold_left (fun p q => remove_type q p) to_remove p in
        (strict && is_working p, p)
    end.

Section checker.
Context `{TunnelLibs} `{Regexes} `{UnicodeCase} `{Flate} `{Powi} `{WebLibs}.
Variable lookup_ip : str -> option (list IpAddr).

(** [LivenessTarget::resolve]. *)
Definition liveness_resolve (url : str) : option LivenessTarget :=
  let? j := judge_parse url in
  if decide (j_scheme j = JSmtp) then None
  else
    let? ip := ok (resolve lookup_ip (j_host j)) in
    Some {| lt_host := j_host j; lt_path := j_path j; lt_ip := ip; lt_scheme := j_scheme j |}.

(** [Checker::new]; [default_judges] are the bundled URLs. *)
Definition checker_new (default_judges : list str) (marker : Judge -> str) (cfg : CheckerConfig)
    (real_ext_ips : list IpAddr) : result Checker Error :=
  if decide (cc_types cfg = []) then Err NoTypes
  else
    let urls := if decide (cc_judges cfg = []) then default_judges else cc_judges cfg in
    let candidates := omap judge_parse urls in
    let judges := probe_all lookup_ip marker real_ext_ips candidates in
    let mode :=
      if jp_is_empty judges then
        match cc_liveness_url cfg with
        | Some url => ok_or (Liveness <$> liveness_resolve url) NoJudges
        | None => Err NoJudges
        end
      else Ok Judged in
    let! mode := mode in
    Ok {| ck_judges := judges; ck_real_ext_ips := real_ext_ips; ck_requested := cc_types cfg; ck_timeout := cc_timeout cfg;
          ck_post := cc_post cfg; ck_strict := cc_strict cfg;
          ck_relaxed_validity := cc_relaxed_validity cfg; ck_trust_check := cc_trust_check cfg;
          ck_dnsbl := cc_dnsbl cfg; ck_mode := mode; ck_retry := cc_retry cfg |}.

Variable ck : Checker.

Definition in_dnsbl (host : IpAddr) : bool :=
  let queries := omap (dnsbl_query host) (ck_dnsbl ck) in
  if decide (queries = []) then false else existsb (fun q => is_ok (resolve lookup_ip q)) queries.

Definition anonymity_level (content : str) (j : Judge) : AnonLevel :=
  let lower := to_lowercase content in
  let found := get_all_ip lower in
  let via := (mk_via (j_marks j) <? matches_count (lit "via") lower)%nat ||
             (mk_proxy (j_marks j) <? matches_count (lit "proxy") lower)%nat in
  if ip_visible (ck_real_ext_ips ck) found then Transparent
  else if via then Anonymous else High.

(** The verdict on a 200 response of a judge. *)
Definition judge_response (proto : Proto) (j : Judge) (marker content : str) : Attempt :=
  let valid := if ck_relaxed_validity ck
               then contains content marker && negb (bool_decide (get_all_ip content = ∅))
               else response_is_valid content marker in
  if negb valid then Invalid
  else Working {| ob_level := if checks_anon_level proto then Some (anonymity_level content j) else None;
                  ob_caps := caps_from_content content;
                  ob_trust := if ck_trust_check ck then assess sent_header_names marker content else [] |}.

(** [attempt], with the marker drawn for it. *)
Definition attempt (d : Dial) (proto : Proto) (pr : Probe) (target : Target) (marker : str)
  : result Attempt ProxyError :=
  match d with
  | DialHang => Err Timeout
  | DialErr => Err ConnFailed
  | DialOk tcp =>
      let! stream := negotiate proto tcp target None in
      if decide (proto = Connect25) then Ok (Working ob_default)
      else
        let request := match pr with
                       | PJudged j => build_request (ck_post ck) marker j proto
                       | PLiveness lt => build_liveness_request lt proto
                       end in
        match write_all request (stream_conn stream) with
        | (Err e, _) => Err (io_deadline e)
        | (Ok _, c) =>
            let! raw := read_response c in
            let '(head, body) := split_head_body raw in
            if negb (get_status_code head 9 12 =? 200) then Err BadStatus
            else
              match pr with
              | PLiveness _ => Ok (Working ob_default)
              | PJudged j => Ok (judge_response proto j marker (decompress head body))
              end
        end
  end.

(** What the world does in one attempt. *)
Record CheckEnv := { ce_dial : Dial; ce_marker : str; ce_rtt : f64; ce_jitter : f64 }.

(** The probe and target for a protocol, from the draw of a judge. *)
Definition probe_target (draw : nat) (proto : Proto) : option (Probe * Target) :=
  let scheme := judge_scheme proto in
  match ck_mode ck with
  | Judged =>
      let? j := random_judge draw scheme (ck_judges ck) in
      Some (PJudged j, {| tg_host := j_host j; tg_ip := j_ip j; tg_port := default_port scheme |})
  | Liveness lt =>
      Some (PLiveness lt, {| tg_host := lt_host lt; tg_ip := Some (lt_ip lt);
                             tg_port := default_port (lt_scheme lt) |})
  end.

(** [check_one]'s loop: [n] attempts remain, [i] were made. A panic of the backoff is [None]. *)
Fixpoint check_loop (world : nat -> CheckEnv) (proto : Proto) (pr : Probe) (target : Target)
    (n i : nat) (p : Proxy) : option (bool * Proxy) :=
  match n with
  | O => Some (false, p)
  | S n =>
      let e := world i in
      match attempt (ce_dial e) proto pr target (ce_marker e) with
      | Ok (Working obs) =>
          let p := record_attempt (Some (ce_rtt e)) None p in
          let p := record_probe_latency (ce_rtt e) p in
          let p := add_type proto (ob_level obs) p in
          let p := record_caps (ob_caps obs) p in
          Some (true, record_trust (ob_trust obs) p)
      | Ok Invalid => Some (false, record_attempt None (Some BadResponse) p)
      | Err err =>
          let p := record_attempt None (Some err) p in
          if bool_decide (err ∈ retry_on (ck_retry ck)) && (i + 1 <? rp_max_tries (ck_retry ck))%nat then
            let? _ := backoff_for (ck_retry ck) (Z.of_nat i) (ce_jitter e) in
            check_loop world proto pr target n (S i) p
          else Some (false, p)
      end
  end.
Definition check_one (world : nat -> CheckEnv) (draw : nat) (p : Proxy) (proto : Proto)
  : option (bool * Proxy) :=
  match probe_target draw proto with
  | None => Some (false, p)
  | Some (pr, target) => check_loop world proto pr target (rp_max_tries (ck_retry ck)) 0 p
  end.

Definition ngtrs (p : Proxy) : list Proto :=
  List.filter (fun q =>
    existsb (fun t => bool_decide (ts_proto t = q)) (ck_requested ck) &&
    (bool_decide (p_expected_types p = ∅) || bool_decide (q ∈ p_expected_types p))) Protos.ALL.
Fixpoint check_all (world : Proto -> nat -> CheckEnv) (draw : Proto -> nat) (l : list Proto)
    (any : bool) (p : Proxy) : option (bool * Proxy) :=
  match l with
  | [] => Some (any, p)
  | q :: l =>
      let? (b, p) := check_one (world q) (draw q) p q in
      check_all world draw l (any || b) p
  end.
Definition check (world : Proto -> nat -> CheckEnv) (draw : Proto -> nat) (p : Proxy)
  : option (bool * Proxy) :=
  if negb (bool_decide (ck_dnsbl ck = [])) && in_dnsbl (p_host p) then Some (false, p)
  else
    let? (any, p) := check_all world draw (ngtrs p) false p in
    Some (if any : bool then types_passed (ck_requested ck) (ck_strict ck) p else (false, p)).
End checker.

(** ** Attempts *)
Section facts.
Context `{TL : TunnelLibs} `{R : Regexes} `{UC : UnicodeCase} `{F : Flate} `{P : Powi} `{W : WebLibs}.
Variable lookup_ip : str -> option (list IpAddr).
Variable ck : Checker.

Lemma anonymity_visible content j :
  anonymity_level ck content j <> Transparent ->
  forall ip, ip ∈ ck_real_ext_ips ck -> ip_show ip ∉ get_all_ip (to_lowercase content).
Proof.
  unfold anonymity_level. destruct (ip_visible _ _) eqn:E; [done|]. intros _ ip Hip Hin.
  assert (ip_visible (ck_real_ext_ips ck) (get_all_ip (to_lowercase content)) = true); [|congruence].
  apply ip_visible_iff. eauto.
Qed.

(** C13: a proxy is confirmed only on evidence. When an attempt reports that a proxy works, the
    tunnel was negotiated, and (CONNECT:25 apart, where the tunnel is the whole check) exactly
    the test request was written to it and a complete response within the cap came back with
    status 200; from a judge, its text carries this attempt's marker and some address, unless
    relaxed also our Referer and Cookie, an anonymity level is recorded for plain HTTP only, and
    a level other than Transparent means none of this host's addresses is in the page. *)
Theorem attempt_working_sound : forall d proto pr target marker obs,
  attempt ck d proto pr target marker = Ok (Working obs) ->
  exists tcp stream, d = DialOk tcp /\ negotiate proto tcp target None = Ok stream /\
  (proto = Connect25 \/
   exists c raw,
     write_all (match pr with
                | PJudged j => build_request (ck_post ck) marker j proto
                | PLiveness lt => build_liveness_request lt proto end) (stream_conn stream) = (Ok tt, c) /\
     read_response c = Ok raw /\ get_status_code (split_head_body raw).1 9 12 = 200 /\
     match pr with
     | PLiveness _ => obs = ob_default
     | PJudged j =>
         let content := decompress (split_head_body raw).1 (split_head_body raw).2 in
         contains content marker = true /\ get_all_ip content <> ∅ /\
         (ck_relaxed_validity ck = false ->
            contains content (lit "cookie=ok") = true /\
            contains content (lit "https://www.google.com/") = true) /\
         ob_caps obs = caps_from_content content /\
         match ob_level obs with
         | None => proto <> Http
         | Some l => proto = Http /\
             (l <> Transparent -> forall ip, ip ∈ ck_real_ext_ips ck ->
                ip_show ip ∉ get_all_ip (to_lowercase content))
         end
     end).
Proof.
  intros d proto pr target marker obs E. unfold attempt in E. destruct d as [| |tcp]; [done..|].
  destruct (negotiate proto tcp target None) as [stream|e] eqn:En; [|done].
  exists tcp, stream. split; [done|]. split; [done|]. case_decide as H25; [by left|]. right.
  destruct (write_all _ (stream_conn stream)) as [[[]|e] c] eqn:Ew; [|done].
  destruct (read_response c) as [raw|e] eqn:Er; [|done].
  exists c, raw. split; [done|]. split; [done|]. destruct (split_head_body raw) as [head body].
  destruct (Z.eqb_spec (get_status_code head 9 12) 200) as [Hst|]; simpl in E; [|done].
  split; [done|]. destruct pr as [j|lt]; [|by simplify_eq].
  cbv zeta. simpl fst. simpl snd. set (content := decompress head body) in *.
  unfold judge_response in E.
  assert (contains content marker = true /\ get_all_ip content <> ∅ /\
          (ck_relaxed_validity ck = false -> contains content (lit "cookie=ok") = true /\
             contains content (lit "https://www.google.com/") = true)) as (Hm & Hip & Hv).
  { destruct (ck_relaxed_validity ck); [|unfold response_is_valid in E];
      (destruct (contains content marker); [|done]); case_bool_decide; simpl in E; try done.
    destruct (contains content (lit "https://www.google.com/")), (contains content (lit "cookie=ok"));
      simpl in E; try done. }
  destruct (negb _); [done|]. simplify_eq. simpl. split_and!; [done|done|done|done|].
  destruct proto; simpl; try done. split; [done|]. intros Hl. exact (anonymity_visible content j Hl).
Qed.

Definition attempt_at (world : nat -> CheckEnv) (proto : Proto) (pr : Probe) (target : Target) (i : nat) :=
  attempt ck (ce_dial (world i)) proto pr target (ce_marker (world i)).

(** The run of the retry loop that made attempts [i] to [k], [p] before and [p'] after it. *)
Definition loop_ran (world : nat -> CheckEnv) (proto : Proto) (pr : Probe) (target : Target)
    (i k : nat) (p : Proxy) (b : bool) (p' : Proxy) : Prop :=
  (i <= k < rp_max_tries (ck_retry ck))%nat /\
  (forall m, (i <= m < k)%nat -> exists e, attempt_at world proto pr target m = Err e /\ e ∈ retry_on (ck_retry ck)) /\
  p_requests p' = Nat.iter (S k - i) (fun n => u32 (n + 1)) (p_requests p) /\
  match attempt_at world proto pr target k with
  | Ok (Working obs) => b = true /\ p_types p' = <[proto := ob_level obs]> (p_types p)
  | Ok Invalid => b = false /\ p_types p' = p_types p
  | Err e => b = false /\ p_types p' = p_types p /\
             (e ∉ retry_on (ck_retry ck) \/ S k = rp_max_tries (ck_retry ck))
  end.

Lemma check_loop_ran world proto pr target n i p b p' :
  (i + n = rp_max_tries (ck_retry ck))%nat ->
  check_loop ck world proto pr target n i p = Some (b, p') ->
  (n = 0%nat /\ b = false /\ p' = p) \/ exists k, loop_ran world proto pr target i k p b p'.
Proof.
  revert i p. induction n as [|n IH]; intros i p Hn E; simpl in E; [left; by simplify_eq|]. right.
  pose proof (eq_refl (attempt_at world proto pr target i)) as Ea. unfold attempt_at in Ea at 1.
  destruct (attempt ck _ _ _ _ _) as [[obs|]|e].
  - simplify_eq. exists i. unfold loop_ran. rewrite <- Ea. split; [lia|]. split; [lia|].
    split; [|done]. by replace (S i - i)%nat with 1%nat by lia.
  - simplify_eq. exists i. unfold loop_ran. rewrite <- Ea. split; [lia|]. split; [lia|].
    split; [|done]. by replace (S i - i)%nat with 1%nat by lia.
  - destruct (bool_decide _ && _) eqn:Eb.
    + apply andb_prop in Eb as [Er Hlt]. bsimp.
      destruct (backoff_for _ _ _); [|done]. apply IH in E as [(-> & _ & _)|(k & Hk & Hall & Hreq & Hend)]; [lia| |lia].
      exists k. split; [lia|]. split; [|split].
      * intros m Hm. destruct (decide (m = i)) as [->|]; [eauto|]. apply Hall. lia.
      * rewrite Hreq, record_attempt_requests. replace (S k - i)%nat with ((S k - S i) + 1)%nat by lia.
        by rewrite Nat.iter_add.
      * by rewrite record_attempt_types in Hend.
    + simplify_eq. exists i. unfold loop_ran. rewrite <- Ea. split; [lia|]. split; [lia|].
      split; [by replace (S i - i)%nat with 1%nat by lia|]. split_and!; [done|done|].
      apply andb_false_iff in Eb as [Eb|Eb]; bsimp; [by left|right; lia].
Qed.

(** One protocol is tried within the retry policy. Without a judge for the scheme the proxy
    is untouched; otherwise at most [max_tries] attempts are made, all but the last failed with
    a retryable error, each is counted in the request statistics, the proxy gains the protocol
    exactly when the last one worked, and trying stops at the first outcome that is not
    retryable. *)
Theorem check_one_sound : forall world draw p proto b p',
  check_one ck world draw p proto = Some (b, p') ->
  (b = false /\ p' = p /\ (probe_target ck draw proto = None \/ rp_max_tries (ck_retry ck) = 0%nat)) \/
  exists pr target k, probe_target ck draw proto = Some (pr, target) /\
    loop_ran world proto pr target 0 k p b p'.
Proof.
  intros world draw p proto b p' E. unfold check_one in E.
  destruct (probe_target ck draw proto) as [[pr target]|]; [|simplify_eq; auto].
  apply check_loop_ran in E as [(Hz & -> & ->)|(k & Hk)]; [auto| |done]. right. eauto.
Qed.
End facts.

(** ** Admission *)
Lemma elem_of_types_list t q l : (q, l) ∈ types_list t <-> t !! q = Some l.
Proof.
  unfold types_list. rewrite list_elem_of_omap. split.
  - intros (q' & _ & (l' & Hl & E)%fmap_Some). simplify_eq. done.
  - intros Hl. exists q. split; [destruct q; simpl; set_solver|]. by rewrite Hl.
Qed.

Lemma types_loop_lax req confirmed rm :
  types_loop req false confirmed rm = (existsb (fun c => type_matches req false c.1 c.2) confirmed, rm).
Proof.
  induction confirmed as [|[q l] c IH]; simpl; [done|]. by destruct (type_matches req false q l).
Qed.
Lemma types_loop_strict req confirmed rm :
  types_loop req true confirmed rm =
    (false, rm ++ map fst (retain (fun c => negb (type_matches req true c.1 c.2)) confirmed)).
Proof.
  revert rm. induction confirmed as [|[q l] c IH]; intros rm; simpl; [by rewrite app_nil_r|].
  destruct (type_matches req true q l); simpl; [done|]. by rewrite IH, <- app_assoc.
Qed.

Lemma remove_types_lookup rm p q :
  p_types (fold_left (fun p q => remove_type q p) rm p) !! q =
    if decide (q ∈ rm) then None else p_types p !! q.
Proof.
  revert p. induction rm as [|r rm IH]; intros p; simpl; [done|]. rewrite IH. simpl.
  destruct (decide (q ∈ rm)) as [Hin|Hin].
  - by rewrite decide_True by (by right).
  - destruct (decide (q = r)) as [->|Hne].
    + rewrite decide_True by (by left). apply lookup_delete_eq.
    + rewrite decide_False by (intros [?|?]%elem_of_cons; done). by apply lookup_delete_ne.
Qed.
Lemma remove_types_key rm p : p_key (fold_left (fun p q => remove_type q p) rm p) = p_key p.
Proof. revert p. induction rm as [|r rm IH]; intros p; simpl; [done|]. by rewrite IH. Qed.

Definition passes (requested : list TypeSpec) (strict : bool) (q : Proto) (l : option AnonLevel) : bool :=
  type_matches (requested_map requested) strict q l.

Lemma types_passed_spec requested strict p :
  requested <> [] ->
  let '(b, p') := types_passed requested strict p in
  p_key p' = p_key p /\
  if strict then
    (forall q, p_types p' !! q =
       match p_types p !! q with
       | Some l => if passes requested true q l then Some l else None
       | None => None end) /\
    (b = true <-> p_types p' <> ∅)
  else p' = p /\ (b = true <-> exists q l, p_types p !! q = Some l /\ passes requested false q l = true).
Proof.
  intros Hr. unfold types_passed. rewrite decide_False by done. destruct strict.
  - rewrite types_loop_strict. simpl. split; [apply remove_types_key|]. split.
    + intros q. rewrite remove_types_lookup. case_decide as Hin.
      * apply list_elem_of_fmap in Hin as ([q' l] & -> & Hin). apply elem_of_retain in Hin as [Hn Hin].
        apply elem_of_types_list in Hin. simpl in *. rewrite Hin. unfold passes. bsimp. by rewrite Hn.
      * destruct (p_types p !! q) as [l|] eqn:El; [|done]. unfold passes.
        destruct (type_matches _ true q l) eqn:Em; [done|]. exfalso. apply Hin, list_elem_of_fmap.
        exists (q, l). split; [done|]. apply elem_of_retain. simpl. rewrite Em. split; [done|].
        by apply elem_of_types_list.
    + unfold is_working. rewrite negb_true_iff, bool_decide_eq_false. done.
  - rewrite types_loop_lax. destruct (existsb _ _) eqn:Ee; simpl.
    + split_and!; [done|done|]. split; [|done]. intros _.
      apply existsb_elem in Ee as ([q l] & Hin & Hm). apply elem_of_types_list in Hin. eauto.
    + split_and!; [done|done|]. split; [done|]. intros (q & l & Hl & Hm).
      assert (existsb (fun c => type_matches (requested_map requested) false c.1 c.2) (types_list (p_types p)) = true);
        [|congruence].
      apply existsb_elem. exists (q, l). split; [by apply elem_of_types_list|done].
Qed.

(** Admission by type and level. Not strict, a proxy is admitted whole, and is, exactly when
    some confirmed type satisfies the request; strict, it keeps exactly the confirmed types that
    do, and is admitted when any is left. A type satisfies the request when the request does not
    restrict it, or its level is among those asked for; a level asked of a protocol that has none
    is no restriction when strict and never satisfied when not. *)
Theorem types_passed_sound : forall requested strict p,
  requested <> [] ->
  let '(b, p') := types_passed requested strict p in
  p_key p' = p_key p /\
  (if strict then
    (forall q, p_types p' !! q =
       match p_types p !! q with
       | Some l => if passes requested true q l then Some l else None
       | None => None end) /\
    (b = true <-> p_types p' <> ∅)
  else p' = p /\ (b = true <-> exists q l, p_types p !! q = Some l /\ passes requested false q l = true)) /\
  (forall q l, passes requested strict q l = true <->
     match requested_map requested !! q with
     | Some (Some levels) => levels = [] \/ (if checks_anon_level q then exists v, l = Some v /\ v ∈ levels
                                             else strict = true)
     | _ => True
     end).
Proof.
  intros requested strict p Hr. pose proof (types_passed_spec requested strict p Hr) as Hs.
  destruct (types_passed requested strict p) as [b p']. destruct Hs as [? ?]. split; [done|]. split; [done|].
  intros q l. unfold passes, type_matches. destruct (requested_map requested !! q) as [[[|v vs]|]|]; try naive_solver.
  destruct (checks_anon_level q); simpl; [|naive_solver].
  destruct l as [w|]; [rewrite bool_decide_eq_true|]; naive_solver.
Qed.
Lemma types_passed_sound_witness :
  let http := add_type Http (Some Transparent) (new (V4 1) 80 ∅) in
  let both := add_type Https None http in
  let req := [{| ts_proto := Http; ts_levels := Some [High] |}; {| ts_proto := Https; ts_levels := Some [High] |}] in
  (types_passed req true both).1 = true /\ has_type Http (types_passed req true both).2 = false /\
  p_key (types_passed req true both).2 = (V4 1, 80).
Proof.
  intros http both req. split; [vm_compute; reflexivity|]. split; [vm_compute; reflexivity|].
  pose proof (types_passed_sound req true both ltac:(discriminate)) as H.
  destruct (types_passed req true both) as [b p']. exact (proj1 H).
Defined.

Section check_facts.
Context `{TL : TunnelLibs} `{R : Regexes} `{UC : UnicodeCase} `{F : Flate} `{P : Powi} `{W : WebLibs}.
Variable lookup_ip : str -> option (list IpAddr).
Variable ck : Checker.

Definition types_from (p : Proxy) (extra : list Proto) (p' : Proxy) : Prop :=
  forall q, is_Some (p_types p' !! q) -> is_Some (p_types p !! q) \/ q ∈ extra.

Lemma check_loop_types world proto pr target n i p b p' :
  check_loop ck world proto pr target n i p = Some (b, p') ->
  types_from p [proto] p' /\ (b = true -> is_Some (p_types p' !! proto)) /\ p_key p' = p_key p.
Proof.
  revert i p. induction n as [|n IH]; intros i p E; simpl in E.
  { simplify_eq. split_and!; [intros q ?; by left|done|done]. }
  destruct (attempt ck _ _ _ _ _) as [[obs|]|e].
  - simplify_eq. simpl. split_and!; [|by rewrite lookup_insert_eq|done]. intros q Hq. simpl in Hq.
    destruct (decide (q = proto)) as [->|]; [right; left|]. left. by rewrite lookup_insert_ne in Hq.
  - simplify_eq. split_and!; [intros q ?; by left|done|done].
  - destruct (_ && _).
    + destruct (backoff_for _ _ _); [|done]. apply IH in E as (H1 & H2 & H3). split_and!; [|done|done].
      intros q Hq. by apply H1 in Hq.
    + simplify_eq. split_and!; [intros q ?; by left|done|done].
Qed.
Lemma check_all_types world draw l any p b p' :
  check_all ck world draw l any p = Some (b, p') ->
  types_from p l p' /\ p_key p' = p_key p /\
  (b = true -> any = true \/ exists q, q ∈ l /\ is_Some (p_types p' !! q)).
Proof.
  revert any p. induction l as [|q l IH]; intros any p E; simpl in E.
  { simplify_eq. split_and!; [intros r ?; by left|done|by left]. }
  destruct (check_one ck (world q) (draw q) p q) as [[b1 p1]|] eqn:E1; [|done].
  assert (types_from p [q] p1 /\ (b1 = true -> is_Some (p_types p1 !! q)) /\ p_key p1 = p_key p) as (H1 & H2 & H3).
  { unfold check_one in E1. destruct (probe_target _ _ _) as [[pr tg]|]; [by eapply check_loop_types|].
    simplify_eq. split_and!; [intros r ?; by left|done|done]. }
  pose proof (IH _ _ E) as (I1 & I2 & I3). split_and!; [|congruence|].
  - intros r Hr. apply I1 in Hr as [Hr|Hr]; [|right; by right].
    apply H1 in Hr as [Hr|Hr]; [by left|]. right. set_solver.
  - intros Hb. apply I3 in Hb as [Hb|(r & Hr & Hs)]; [|right; exists r; split; [by right|done]].
    apply orb_true_iff in Hb as [Hb|Hb]; [by left|]. right. exists q. split; [left|].
    clear -H2 Hb E. specialize (H2 Hb). revert E. generalize (any || b1) as a. revert p1 H2.
    induction l as [|r l IH]; intros p1 H2 a E; simpl in E; [by simplify_eq|].
    destruct (check_one ck (world r) (draw r) p1 r) as [[b2 p2]|] eqn:E2; [|done].
    eapply IH, E. unfold check_one in E2. destruct (probe_target _ _ _) as [[pr tg]|]; [|by simplify_eq].
    clear -E2 H2. revert E2. generalize (rp_max_tries (ck_retry ck)) as n. generalize 0%nat as i.
    intros i n. revert i p1 H2. induction n as [|n IH]; intros i p1 H2 E2; simpl in E2; [by simplify_eq|].
    destruct (attempt ck _ _ _ _ _) as [[obs|]|e]; [|by simplify_eq|].
    + simplify_eq. simpl. apply lookup_insert_is_Some. destruct (decide (r = q)); auto.
    + destruct (_ && _); [|by simplify_eq]. destruct (backoff_for _ _ _); [|done]. by eapply IH, E2.
Qed.

Lemma check_key world draw p b p' :
  check lookup_ip ck world draw p = Some (b, p') -> p_key p' = p_key p.
Proof.
  unfold check. intros E. destruct (_ && _); [by injection E as <- <-|].
  destruct (check_all ck world draw (ngtrs ck p) false p) as [[any p1]|] eqn:Ea; [|done].
  apply check_all_types in Ea as (_ & Hk & _). destruct any; [|by injection E as <- <-].
  destruct (decide (ck_requested ck = [])) as [Hn|Hn].
  - unfold types_passed in E. rewrite decide_True in E by done. by injection E as <- <-.
  - pose proof (types_passed_spec (ck_requested ck) (ck_strict ck) p1 Hn) as Ht.
    injection E as E. rewrite E in Ht. by rewrite <- Hk, (proj1 Ht).
Qed.

(** What a whole check guarantees. *)
Lemma check_spec : forall world draw p b p',
  ck_requested ck <> [] ->
  check lookup_ip ck world draw p = Some (b, p') ->
  p_key p' = p_key p /\ types_from p (ngtrs ck p) p' /\
  (ck_dnsbl ck <> [] -> in_dnsbl lookup_ip ck (p_host p) = true -> b = false /\ p' = p) /\
  (b = true ->
     (ck_dnsbl ck = [] \/ in_dnsbl lookup_ip ck (p_host p) = false) /\
     p_types p' <> ∅ /\ ngtrs ck p <> [] /\
     (ck_strict ck = true -> forall q l, p_types p' !! q = Some l -> passes (ck_requested ck) true q l = true)).
Proof.
  intros world draw p b p' Hreq E. unfold check in E.
  destruct (negb (bool_decide (ck_dnsbl ck = [])) && in_dnsbl lookup_ip ck (p_host p)) eqn:Ed.
  { simplify_eq. split_and!; [done|intros q ?; by left|done|done]. }
  destruct (check_all ck world draw (ngtrs ck p) false p) as [[any p1]|] eqn:Ea; [|done].
  apply check_all_types in Ea as (Hf & Hk & Hany).
  assert (ck_dnsbl ck = [] \/ in_dnsbl lookup_ip ck (p_host p) = false) as Hd.
  { apply andb_false_iff in Ed as [Ed|Ed]; bsimp; auto. }
  destruct any; [|injection E as <- <-; split_and!; [done|done|intros Hn Hi; destruct Hd; congruence|done]].
  destruct (Hany eq_refl) as [|(q & Hq & Hs)]; [done|].
  pose proof (types_passed_spec (ck_requested ck) (ck_strict ck) p1 Hreq) as Ht.
  injection E as E. rewrite E in Ht. destruct Ht as [Hk2 Ht]. destruct (ck_strict ck).
  - destruct Ht as [Ht Hb]. split_and!; [congruence| |intros Hn Hi; destruct Hd; congruence|].
    + intros r Hr. apply Hf. rewrite Ht in Hr. destruct (p_types p1 !! r); [eauto|by destruct Hr].
    + intros Hb2. split_and!; [done|by apply Hb| |].
      * intros Hn. rewrite Hn in Hq. by apply elem_of_nil in Hq.
      * intros _ r l Hr. rewrite Ht in Hr. destruct (p_types p1 !! r); [|done]. case_match; congruence.
  - destruct Ht as [-> Hb]. split_and!; [done|done|intros Hn Hi; destruct Hd; congruence|]. intros Hb2.
    split_and!; [done| | |done].
    + intros Hn. rewrite Hn, lookup_empty in Hs. by destruct Hs.
    + intros Hn. rewrite Hn in Hq. by apply elem_of_nil in Hq.
Qed.

(** [proto] is confirmed at attempt [k], counted from [i]: that attempt works, and every one before it
    met an error that is retried. *)
Definition confirmed_at (world : nat -> CheckEnv) (proto : Proto) (pr : Probe) (target : Target) (i k : nat) (obs : Observation) : Prop :=
  (i <= k < rp_max_tries (ck_retry ck))%nat /\
  attempt ck (ce_dial (world k)) proto pr target (ce_marker (world k)) = Ok (Working obs) /\
  forall j, (i <= j < k)%nat -> exists e,
    attempt ck (ce_dial (world j)) proto pr target (ce_marker (world j)) = Err e /\ e ∈ retry_on (ck_retry ck).
Definition confirms (world : Proto -> nat -> CheckEnv) (draw : Proto -> nat) (q : Proto) (obs : Observation) : Prop :=
  exists pr target k, probe_target ck (draw q) q = Some (pr, target) /\ confirmed_at (world q) q pr target 0 k obs.

(** What a run of the attempts for [q] leaves of the types. *)
Definition left_by (b : bool) (conf : Observation -> Prop) (q : Proto) (p p' : Proxy) : Prop :=
  if b then exists obs, conf obs /\ p_types p' = <[q := ob_level obs]> (p_types p)
  else p_types p' = p_types p /\ forall obs, ~ conf obs.
Lemma left_by_conf b conf conf' q p p' : (forall obs, conf obs <-> conf' obs) -> left_by b conf q p p' -> left_by b conf' q p p'.
Proof. intros H. unfold left_by. destruct b; [|by intros [? Hn]; split; [|intros obs ?%H; by eapply Hn]]. intros (obs & ? & ?). exists obs. by rewrite <- H. Qed.
Lemma check_loop_confirms world proto pr target n i p b p' : (n + i = rp_max_tries (ck_retry ck))%nat ->
  check_loop ck world proto pr target n i p = Some (b, p') ->
  left_by b (fun obs => exists k, confirmed_at world proto pr target i k obs) proto p p'.
Proof.
  revert i p. induction n as [|n IH]; intros i p Hn E; simpl in E.
  { simplify_eq. split; [done|]. intros obs (k & ? & _). lia. }
  destruct (attempt ck (ce_dial (world i)) proto pr target (ce_marker (world i))) as [[obs|]|e] eqn:Ea.
  - simplify_eq. exists obs. split; [|done]. exists i. split; [lia|]. split; [done|]. intros j ?; lia.
  - simplify_eq. split; [done|]. intros obs (k & Hk & Hw & Hj). destruct (decide (k = i)) as [->|]; [congruence|].
    destruct (Hj i ltac:(lia)) as (e & He & _). congruence.
  - destruct (bool_decide (e ∈ retry_on (ck_retry ck)) && (i + 1 <? rp_max_tries (ck_retry ck))%nat) eqn:Hr.
    + bsimp. destruct (backoff_for _ _ _); [|done]. apply IH in E; [|lia].
      assert (p_types (record_attempt None (Some e) p) = p_types p) as Ht by done. unfold left_by in *. rewrite Ht in E.
      destruct b; [destruct E as (obs & (k & Hk & Hw & Hj) & E)|destruct E as [E Hno]].
      * exists obs. split; [|done]. exists k. split; [lia|]. split; [done|]. intros j Hl.
        destruct (decide (j = i)) as [->|]; [eauto|]. apply Hj. lia.
      * split; [done|]. intros obs (k & Hk & Hw & Hj). apply (Hno obs). exists k.
        destruct (decide (k = i)) as [->|]; [congruence|]. split; [lia|]. split; [done|]. intros j Hl. apply Hj. lia.
    + simplify_eq. split; [done|]. intros obs (k & Hk & Hw & Hj). destruct (decide (k = i)) as [->|]; [congruence|].
      destruct (Hj i ltac:(lia)) as (e' & He & Hin). rewrite Ea in He. injection He as <-.
      rewrite bool_decide_eq_true_2 in Hr by done. cbn in Hr. apply Nat.ltb_ge in Hr. lia.
Qed.
Lemma check_one_confirms world draw q p b p' : check_one ck (world q) (draw q) p q = Some (b, p') ->
  left_by b (confirms world draw q) q p p'.
Proof.
  unfold check_one. destruct (probe_target ck (draw q) q) as [[pr target]|] eqn:Et.
  - intros E%check_loop_confirms; [|lia]. eapply left_by_conf, E. intros obs. unfold confirms. rewrite Et. split.
    + intros [k Hk]. by exists pr, target, k.
    + intros (pr' & target' & k & [= <- <-] & Hk). by exists k.
  - intros [= <- <-]. split; [done|]. intros obs (pr & target & k & E & _). congruence.
Qed.
(** The types after all of [l]: a confirmed protocol with the level that was seen, the others as before. *)
Definition confirmed_types (world : Proto -> nat -> CheckEnv) (draw : Proto -> nat) (l : list Proto) (p p' : Proxy) : Prop :=
  forall q, (exists obs, q ∈ l /\ confirms world draw q obs /\ p_types p' !! q = Some (ob_level obs)) \/
    ((q ∈ l -> forall obs, ~ confirms world draw q obs) /\ p_types p' !! q = p_types p !! q).
Lemma check_all_confirms world draw l any p b p' : NoDup l -> check_all ck world draw l any p = Some (b, p') ->
  confirmed_types world draw l p p' /\ (b = true <-> any = true \/ exists q obs, q ∈ l /\ confirms world draw q obs).
Proof.
  revert any p. induction l as [|q l IH]; intros any p Hd E; simpl in E.
  { simplify_eq. split; [intros q; right; split; [by intros ?%elem_of_nil|done]|]. split; [by left|].
    intros [?|(q & obs & ?%elem_of_nil & _)]; done. }
  apply NoDup_cons in Hd as [Hq Hd]. destruct (check_one ck (world q) (draw q) p q) as [[b1 p1]|] eqn:E1; [|done].
  apply check_one_confirms in E1. destruct (IH _ _ Hd E) as [H1 H2]. split.
  - intros r. destruct (H1 r) as [(obs & Hr & Hc & Ht)|[Hn Ht]]; [left; exists obs; split; [by right|done]|].
    unfold left_by in E1. destruct (decide (r = q)) as [->|Hne].
    + destruct b1; [destruct E1 as (obs & Hc & E1)|destruct E1 as [E1 Hno]].
      * left. exists obs. rewrite Ht, E1, lookup_insert_eq. split; [by left|done].
      * right. rewrite Ht, E1. done.
    + right. split; [intros [->|?]%elem_of_cons; [done|by apply Hn]|]. rewrite Ht.
      destruct b1; [destruct E1 as (obs & _ & E1); by rewrite E1, lookup_insert_ne|by destruct E1 as [-> _]].
  - rewrite H2, orb_true_iff. unfold left_by in E1. split.
    + intros [[?|?]|(r & obs & ? & ?)]; [by left| |right; exists r, obs; split; [by right|done]]. subst b1.
      destruct E1 as (obs & ? & _). right. exists q, obs. split; [by left|done].
    + intros [?|(r & obs & [->|?]%elem_of_cons & ?)]; [by left; left| |right; eauto]. left. right.
      destruct b1; [done|]. destruct E1 as [_ Hno]. by destruct (Hno obs).
Qed.
Lemma ngtrs_NoDup p : NoDup (ngtrs ck p).
Proof. unfold ngtrs. apply NoDup_ListNoDup, List.NoDup_filter, NoDup_ListNoDup, (bool_decide_unpack _). by vm_compute. Qed.

(** C14: a whole check, exactly. A proxy on a configured blocklist is rejected untouched. Otherwise each
    protocol that is requested and, where the proxy names any, expected is attempted, and is confirmed
    just when one of its attempts works and those before it met errors that are retried; a confirmed
    protocol is on the proxy with the level that was seen, every other as it was before, and the
    address is unchanged. Nothing confirmed, the check fails and drops no type. Something confirmed,
    the admission test decides, on all the types the proxy then has: not strict, it passes just when
    one of them satisfies the request, and keeps all; strict, it keeps exactly those that do, and passes
    just when one is left. *)
Theorem check_sound : forall world draw p b p',
  check lookup_ip ck world draw p = Some (b, p') ->
  p_key p' = p_key p /\ types_from p (ngtrs ck p) p' /\
  (ck_dnsbl ck <> [] -> in_dnsbl lookup_ip ck (p_host p) = true -> b = false /\ p' = p) /\
  (ck_dnsbl ck = [] \/ in_dnsbl lookup_ip ck (p_host p) = false -> exists p1,
     p_key p1 = p_key p /\ confirmed_types world draw (ngtrs ck p) p p1 /\
     ((b = false /\ p' = p1 /\ forall q obs, q ∈ ngtrs ck p -> ~ confirms world draw q obs) \/
      (exists q obs, q ∈ ngtrs ck p /\ confirms world draw q obs) /\
      if ck_strict ck then
        (forall q, p_types p' !! q =
           match p_types p1 !! q with
           | Some l => if passes (ck_requested ck) true q l then Some l else None
           | None => None end) /\
        (b = true <-> p_types p' <> ∅)
      else p' = p1 /\ (b = true <-> exists q l, p_types p1 !! q = Some l /\ passes (ck_requested ck) false q l = true))).
Proof.
  intros world draw p b p' E. split; [by eapply check_key|]. unfold check in E.
  destruct (negb (bool_decide (ck_dnsbl ck = [])) && in_dnsbl lookup_ip ck (p_host p)) eqn:Ed.
  { simplify_eq. apply andb_true_iff in Ed as [Hn%negb_true_iff%bool_decide_eq_false Hi]. split; [intros q ?; by left|]. split; [done|]. intros [?|?]; congruence. }
  destruct (check_all ck world draw (ngtrs ck p) false p) as [[any p1]|] eqn:Ea; [|done].
  pose proof (check_all_types _ _ _ _ _ _ _ Ea) as (Hf & Hk & _).
  pose proof (check_all_confirms _ _ _ _ _ _ _ (ngtrs_NoDup p) Ea) as [Hc Hany].
  assert (types_from p (ngtrs ck p) p' /\ ((b = false /\ p' = p1 /\ forall q obs, q ∈ ngtrs ck p -> ~ confirms world draw q obs) \/
      (exists q obs, q ∈ ngtrs ck p /\ confirms world draw q obs) /\
      if ck_strict ck then (forall q, p_types p' !! q = match p_types p1 !! q with
           | Some l => if passes (ck_requested ck) true q l then Some l else None | None => None end) /\
        (b = true <-> p_types p' <> ∅)
      else p' = p1 /\ (b = true <-> exists q l, p_types p1 !! q = Some l /\ passes (ck_requested ck) false q l = true))) as [H1 H2].
  { destruct any.
    - destruct (proj1 Hany eq_refl) as [|(q & obs & Hq & Ho)]; [done|].
      assert (ck_requested ck <> []) as Hreq.
      { intros Hn. unfold ngtrs in Hq. rewrite Hn in Hq. apply list_elem_of_In, filter_In in Hq as [_ Hq]. done. }
      pose proof (types_passed_spec (ck_requested ck) (ck_strict ck) p1 Hreq) as Ht. injection E as E. rewrite E in Ht.
      destruct Ht as [_ Ht]. split; [|right; split; [eauto|done]]. intros r Hr. apply Hf. destruct (ck_strict ck).
      + destruct Ht as [Ht _]. rewrite Ht in Hr. destruct (p_types p1 !! r); [eauto|by destruct Hr].
      + by destruct Ht as [-> _].
    - injection E as <- <-. split; [done|]. left. split; [done|]. split; [done|]. intros q obs Hq Ho.
      assert (false = true); [|done]. apply Hany. right. eauto. }
  split; [done|]. split; [|intros _; by exists p1]. intros Hn Hi. rewrite bool_decide_eq_false_2, Hi in Ed by done. done.
Qed.
End check_facts.

(** ** The response reader *)
Lemma read_limited_bytes s r limit :
  0 <= limit ->
  read_limited limit (bytes s ++ r) =
    if limit <=? Z.of_nat (length s) then Ok (take (Z.to_nat limit) s)
    else let! t := read_limited (limit - Z.of_nat (length s)) r in Ok (s ++ t).
Proof.
  revert limit. induction s as [|c s IH]; intros limit Hl.
  - cbn [bytes map app length]. destruct (Z.leb_spec limit (Z.of_nat 0)).
    + replace limit with 0 by lia. by destruct r.
    + rewrite Z.sub_0_r. by destruct (read_limited limit r).
  - cbn [bytes map app length read_limited]. destruct (Z.leb_spec limit 0).
    + rewrite (proj2 (Z.leb_le _ _)) by lia. by replace (Z.to_nat limit) with 0%nat by lia.
    + rewrite IH by lia. replace (limit - Z.of_nat (S (length s))) with (limit - 1 - Z.of_nat (length s)) by lia.
      destruct (Z.leb_spec (limit - 1) (Z.of_nat (length s))).
      * rewrite (proj2 (Z.leb_le _ _)) by lia. by replace (Z.to_nat limit) with (S (Z.to_nat (limit - 1))) by lia.
      * rewrite (proj2 (Z.leb_gt _ _)) by lia. by destruct (read_limited _ r).
Qed.

(** A response is taken whole or not at all. For every response text: nothing is an empty
    response; anything past the 1 MiB cap is refused whatever the proxy goes on to send, fail or
    withhold; and a text within the cap is returned exactly when the peer closes after it, while
    an error or silence before that fails the attempt. *)
Theorem read_response_exact : forall s r t o,
  read_response (mkConn (bytes s ++ r) t o) =
    if MAX_JUDGE_RESPONSE <? Z.of_nat (length s) then Err BadResponse
    else match r with
         | [] => if (length s =? 0)%nat then Err EmptyRecv else Ok s
         | RxFail :: _ => Err Reset
         | RxHang :: _ => Err Timeout
         | RxByte _ :: _ => read_response (mkConn (bytes s ++ r) t o)
         end.
Proof.
  intros s r t o. assert (0 < MAX_JUDGE_RESPONSE) as Hpos by reflexivity.
  unfold read_response. cbn [rx]. rewrite read_limited_bytes by lia.
  generalize dependent MAX_JUDGE_RESPONSE. intros cap Hpos.
  destruct (Z.ltb_spec cap (Z.of_nat (length s))) as [Hgt|Hle].
  - rewrite (proj2 (Z.leb_le _ _)) by lia. rewrite length_take.
    assert (Nat.min (Z.to_nat (cap + 1)) (length s) = Z.to_nat (cap + 1)) as -> by lia.
    rewrite (proj2 (Nat.eqb_neq _ _)) by lia. by rewrite (proj2 (Z.ltb_lt _ _)) by lia.
  - rewrite (proj2 (Z.leb_gt _ _)) by lia. destruct r as [|[c| |] r].
    + cbn [read_limited]. rewrite (proj2 (Z.leb_gt _ _)) by lia. rewrite app_nil_r.
      rewrite (proj2 (Z.ltb_ge _ _)) by lia. done.
    + done.
    + cbn [read_limited]. by rewrite (proj2 (Z.leb_gt _ _)) by lia.
    + cbn [read_limited]. by rewrite (proj2 (Z.leb_gt _ _)) by lia.
Qed.

(** ** A concrete check *)
Section demo.
Definition sample_find (s : str) (i : nat) : option (nat * nat) :=
  if (i <=? length s)%nat then
    let? k := position (lit "1.2.3.4") (drop i s) in Some (i + k, i + k + 7)%nat
  else None.
Definition sample_regexes : Regexes.
Proof.
  refine {| ipv4_find_at := sample_find; port_find_at _ _ := None; ipv6_find_at _ _ := None |}.
  intros find s i a b [->|[->| ->]]; [|done|done]. unfold sample_find.
  destruct (Nat.leb_spec i (length s)); [|done].
  destruct (position _ _) as [k|] eqn:E; [|done]. intros [= <- <-].
  apply position_Some in E as [E _]. apply (f_equal length) in E.
  rewrite !length_app, length_take, !length_drop in E. change (length (lit "1.2.3.4")) with 7%nat in E. lia.
Defined.
#[local] Existing Instance sample_regexes.
#[local] Existing Instance no_libs.
#[local] Existing Instance ascii_case.
#[local] Instance no_flate : Flate := {| gunzip _ := None; inflate _ := None |}.
#[local] Instance one_powi : Powi := {| powi _ _ := f_one |}.

Definition demo_judge : Judge :=
  {| j_url := lit "http://judge/"; j_scheme := JHttp; j_host := lit "judge"; j_path := lit "/";
     j_ip := Some (V4 9); j_marks := marks_default |}.
Definition demo_ck : Checker :=
  {| ck_judges := push_judge jp_empty demo_judge; ck_real_ext_ips := [V4 16909060];
     ck_requested := [{| ts_proto := Http; ts_levels := Some [Transparent] |}]; ck_timeout := 8 * 10 ^ 9;
     ck_post := false; ck_strict := true; ck_relaxed_validity := false; ck_trust_check := true;
     ck_dnsbl := []; ck_mode := Judged; ck_retry := RetryPolicy_default |}.
(** A judge that echoes the request it was sent and the address it saw. *)
Definition demo_page (marker : str) : str :=
  lit "HTTP/1.1 200 OK" ++ crlf2 ++ build_request false marker demo_judge Http ++ lit "1.2.3.4".
Definition demo_env (d : Dial) : CheckEnv :=
  {| ce_dial := d; ce_marker := lit "4711"; ce_rtt := f_one; ce_jitter := f_zero |}.
(** The first connection times out, the second is answered. *)
Definition demo_world (q : Proto) (i : nat) : CheckEnv :=
  match i with O => demo_env DialHang | _ => demo_env (DialOk (open_conn (demo_page (lit "4711")))) end.
Definition demo_px : Proxy := new (V4 1) 80 ∅.

Lemma attempt_working_sound_witness :
  exists obs, attempt demo_ck (DialOk (open_conn (demo_page (lit "4711")))) Http (PJudged demo_judge)
                demo_target (lit "4711") = Ok (Working obs) /\
    exists tcp stream, DialOk (open_conn (demo_page (lit "4711"))) = DialOk tcp /\
      negotiate Http tcp demo_target None = Ok stream.
Proof.
  eexists. split; [vm_compute; reflexivity|].
  edestruct (attempt_working_sound demo_ck (DialOk (open_conn (demo_page (lit "4711")))) Http (PJudged demo_judge)
               demo_target (lit "4711")) as (tcp & stream & H1 & H2 & _); [vm_compute; reflexivity|].
  exists tcp, stream. split; [exact H1|exact H2].
Defined.

Lemma check_one_sound_witness :
  exists p', check_one demo_ck (demo_world Http) 0 demo_px Http = Some (true, p') /\
    has_type Http p' = true /\ p_requests p' = 2 /\ p_errors p' !! Timeout = Some 1.
Proof.
  assert (option_map (fun r => (r.1, has_type Http r.2, p_requests r.2, p_errors r.2 !! Timeout))
            (check_one demo_ck (demo_world Http) 0 demo_px Http) = Some (true, true, 2, Some 1)) as H
    by (vm_compute; reflexivity).
  destruct (check_one demo_ck (demo_world Http) 0 demo_px Http) as [[b p']|] eqn:E; [|discriminate H].
  exists p'. injection H as -> H1 H2 H3.
  destruct (check_one_sound demo_ck (demo_world Http) 0 demo_px Http true p' E) as [(Hf & _)|_];
    [discriminate Hf|]. split_and!; assumption || reflexivity.
Defined.

Lemma check_sound_witness :
  exists p', check (fun _ => None) demo_ck demo_world (fun _ => 0%nat) demo_px = Some (true, p') /\
    exists q obs, q ∈ ngtrs demo_ck demo_px /\ confirms demo_ck demo_world (fun _ => 0%nat) q obs.
Proof.
  assert (option_map fst (check (fun _ => None) demo_ck demo_world (fun _ => 0%nat) demo_px) = Some true) as H
    by (vm_compute; reflexivity).
  destruct (check _ _ _ _ _) as [[b p']|] eqn:E; [|discriminate H]. injection H as ->.
  exists p'. split; [reflexivity|].
  destruct (check_sound (fun _ => None) demo_ck demo_world (fun _ => 0%nat) demo_px true p' E) as (_ & _ & _ & H).
  destruct (H (or_introl eq_refl)) as (p1 & _ & _ & [[H1 _]|[H1 _]]); [discriminate H1|]. exact H1.
Defined.

(** The honeypot scan does not accuse a judge that echoes the raw request, and does notice a
    header added on the way. *)
Example honest_echo : assess sent_header_names (lit "4711") (demo_page (lit "4711")) = [].
Proof. vm_compute. reflexivity. Qed.
Example added_header :
  assess sent_header_names (lit "4711") (demo_page (lit "4711") ++ crlf ++ lit "X-Ad: yes") = [InjectedHeader].
Proof. vm_compute. reflexivity. Qed.
End demo.

(** ** The interface of the re-checker: a check keeps the address of what it checks. *)
Class Prober : Type := {
  prober_check : Z -> Proxy -> option (bool * Proxy);
  prober_key seed p b p' : prober_check seed p = Some (b, p') -> p_key p' = p_key p;
}.
Definition checker_prober `{TunnelLibs} `{Regexes} `{UnicodeCase} `{Flate} `{Powi}
    (lookup_ip : str -> option (list IpAddr)) (ck : Checker)
    (world : Z -> Proto -> nat -> CheckEnv) (draw : Z -> Proto -> nat) : Prober.
Proof.
  refine {| prober_check seed p := check lookup_ip ck (world seed) (draw seed) p |}.
  intros seed p b p'. apply check_key.
Defined.
