(* ===== verification/Store.v ===== *)
(** * The durable record of a proxy (src/persist.rs)

    The in-memory store, and the SQLite store as the effect of its upsert statement and its query
    on the one table; rows keep counters as SQLite's signed integers and types as JSON. The
    contract both implement is one fold per upsert; the refinement theorem states that they
    answer the same, within the range of a [u32]. *)
From S2P Require Import Prelude F64 Text Types Addr Proxy ProxyJson.
Open Scope Z_scope.

Abbreviation Key := (IpAddr * Z)%type.
Definition alpha_new : f64 := f_ratio 3 10.
Definition alpha_old : f64 := f_ratio 7 10.
(** [0.3 * sample + 0.7 * prev]. *)
Definition fold_ewma (prev sample : f64) : f64 := f_add (f_mul alpha_new sample) (f_mul alpha_old prev).
Definition sample_of (p : Proxy) : f64 := if is_working p then f_one else f_zero.

(** ** The in-memory store *)
Record MRecord := {
  r_types : gmap Proto (option AnonLevel);
  r_requests : Z;
  r_errors : Z;
  r_ewma_success : f64;
  r_avg_latency : f64;
  r_uptime_checks : Z;
}.
Abbreviation MemoryStore := (gmap Key MRecord).

Definition memory_fold (p : Proxy) (rec : MRecord) : MRecord :=
  let latency := avg_resp_time p in
  {| r_types := if bool_decide (p_types p = ∅) then r_types rec else p_types p;
     r_requests := sat_add 32 (r_requests rec) (p_requests p);
     r_errors := sat_add 32 (r_errors rec) (errors_total p);
     r_ewma_success := fold_ewma (r_ewma_success rec) (sample_of p);
     r_avg_latency := if f_gtb latency f_zero then fold_ewma (r_avg_latency rec) latency else r_avg_latency rec;
     r_uptime_checks := sat_add 64 (r_uptime_checks rec) (Z.b2z (is_working p)) |}.
Definition memory_first (p : Proxy) : MRecord :=
  {| r_types := p_types p; r_requests := p_requests p; r_errors := errors_total p;
     r_ewma_success := sample_of p; r_avg_latency := avg_resp_time p;
     r_uptime_checks := Z.b2z (is_working p) |}.
Definition memory_upsert (p : Proxy) (m : MemoryStore) : MemoryStore :=
  <[p_key p := match m !! p_key p with Some rec => memory_fold p rec | None => memory_first p end]> m.
Definition memory_restore (kr : Key * MRecord) : Proxy :=
  let '((host, port), rec) := kr in
  with_ewma (Some (r_ewma_success rec))
    (restored host port (r_types rec) (r_requests rec) (r_errors rec) (r_avg_latency rec)).
Definition memory_load (m : MemoryStore) : list Proxy := map memory_restore (map_to_list m).

(** ** The SQLite table, keyed by its primary key (host text, port) *)
Record Row := {
  w_types : json;
  w_requests : Z;
  w_errors : Z;
  w_ewma_success : f64;
  w_avg_latency : f64;
  w_first_seen : Z;
  w_last_seen : Z;
  w_uptime_checks : Z;
}.
Abbreviation Table := (gmap (str * Z) Row).
Definition json_is_empty (j : json) : bool := match j with JArr [] => true | _ => false end.

(** The row of [VALUES], and the [DO UPDATE SET] of a conflicting one. *)
Definition excluded_row (now : Z) (p : Proxy) : Row :=
  {| w_types := types_to_json (p_types p); w_requests := p_requests p; w_errors := errors_total p;
     w_ewma_success := sample_of p; w_avg_latency := avg_resp_time p; w_first_seen := now;
     w_last_seen := now; w_uptime_checks := Z.b2z (is_working p) |}.
Definition sql_update (excluded old : Row) : Row :=
  {| w_types := if negb (json_is_empty (w_types excluded)) then w_types excluded else w_types old;
     w_requests := w_requests old + w_requests excluded;
     w_errors := w_errors old + w_errors excluded;
     w_ewma_success := fold_ewma (w_ewma_success old) (w_ewma_success excluded);
     w_avg_latency := if f_gtb (w_avg_latency excluded) f_zero
                      then fold_ewma (w_avg_latency old) (w_avg_latency excluded) else w_avg_latency old;
     w_first_seen := w_first_seen old;
     w_last_seen := w_last_seen excluded;
     w_uptime_checks := w_uptime_checks old + w_uptime_checks excluded |}.
Definition sql_upsert (now : Z) (p : Proxy) (t : Table) : Table :=
  let key := (ip_show (p_host p), p_port p) in
  <[key := match t !! key with
           | Some old => sql_update (excluded_row now p) old
           | None => excluded_row now p end]> t.
Definition sql_restore (kr : str * Z * Row) : option Proxy :=
  let '((host, port), row) := kr in
  let? host := ip_parse host in
  Some (with_ewma (Some (w_ewma_success row))
          (restored host (u16 port) (types_from_json (w_types row)) (u32 (w_requests row))
             (u32 (w_errors row)) (w_avg_latency row))).
Definition sql_load (t : Table) : list Proxy := omap sql_restore (map_to_list t).

(** *** Opening a database: its [user_version], and the table if it was created. The statements of
    [upsert] and [load] fail without the table; a busy or broken file is not modelled. *)
Definition SCHEMA_VERSION : Z := 1.
Record SqlDb := { sd_version : Z; sd_table : option Table }.
Definition sd_fresh : SqlDb := {| sd_version := 0; sd_table := None |}.
Definition migrate (db : SqlDb) : SqlDb :=
  if sd_version db <? 1 then {| sd_version := 1; sd_table := Some (default ∅ (sd_table db)) |} else db.
Definition sql_open (db : SqlDb) : SqlDb := migrate db.
Definition sql_store_upsert (now : Z) (p : Proxy) (db : SqlDb) : option SqlDb :=
  (fun t => {| sd_version := sd_version db; sd_table := Some (sql_upsert now p t) |}) <$> sd_table db.
Definition sql_store_load (db : SqlDb) : option (list Proxy) := sql_load <$> sd_table db.
(** The runs of a program over one file: each opens it and upserts what it checks. *)
Definition sql_session (db : SqlDb) (ps : list (Z * Proxy)) : option SqlDb :=
  fold_left (fun db x => db ≫= sql_store_upsert x.1 x.2) ps (Some (sql_open db)).
Definition sql_sessions (runs : list (list (Z * Proxy))) : option SqlDb :=
  fold_left (fun db ps => db ≫= fun db => sql_session db ps) runs (Some sd_fresh).

(** ** Refinement *)
Definition host_ok (h : IpAddr) : Prop := ip_parse (ip_show h) = Some h.
Definition storable (p : Proxy) : Prop :=
  host_ok (p_host p) /\ 0 <= p_port p < 2 ^ 16 /\ 0 <= p_requests p.

(** A row says what a record says. *)
Definition row_of (rec : MRecord) (row : Row) : Prop :=
  types_from_json (w_types row) = r_types rec /\
  w_requests row = r_requests rec /\ w_errors row = r_errors rec /\
  w_ewma_success row = r_ewma_success rec /\ w_avg_latency row = r_avg_latency rec /\
  0 <= r_requests rec /\ 0 <= r_errors rec.

Definition sim (m : MemoryStore) (t : Table) : Prop :=
  (forall h q, host_ok h -> option_Forall2 row_of (m !! (h, q)) (t !! (ip_show h, q))) /\
  (forall h q, is_Some (m !! (h, q)) -> host_ok h /\ 0 <= q < 2 ^ 16) /\
  (forall s q, is_Some (t !! (s, q)) -> exists h, host_ok h /\ s = ip_show h).
(** Every counter is bounded by what was upserted so far. *)
Definition below (b : Z) (m : MemoryStore) : Prop :=
  forall k rec, m !! k = Some rec -> r_requests rec <= b /\ r_errors rec <= b.

Lemma json_is_empty_types t : json_is_empty (types_to_json t) = bool_decide (t = ∅).
Proof.
  destruct (json_is_empty (types_to_json t)) eqn:E; symmetry.
  - apply bool_decide_eq_true. rewrite <- (types_json_roundtrip t).
    destruct (types_to_json t) as [| | | |[|]|]; try done.
  - apply bool_decide_eq_false. intros ->. discriminate E.
Qed.

Lemma errors_total_range p : 0 <= errors_total p < 2 ^ 32.
Proof. unfold errors_total. apply wrap_bounds. lia. Qed.

Lemma row_of_first now p : 0 <= p_requests p -> row_of (memory_first p) (excluded_row now p).
Proof.
  intros. pose proof (errors_total_range p). split; [exact (types_json_roundtrip (p_types p))|].
  unfold memory_first, excluded_row. cbn [r_requests r_errors r_ewma_success r_avg_latency w_requests
    w_errors w_ewma_success w_avg_latency]. split_and!; try done; lia.
Qed.
Lemma row_of_fold now p rec row b :
  0 <= p_requests p -> row_of rec row -> r_requests rec <= b -> r_errors rec <= b ->
  b + p_requests p + errors_total p < 2 ^ 32 ->
  row_of (memory_fold p rec) (sql_update (excluded_row now p) row).
Proof.
  intros Hp (Ht & Hr & He & Hw & Hl & Hr0 & He0) Hrb Heb Hb. pose proof (errors_total_range p).
  unfold row_of, sql_update, memory_fold, excluded_row.
  cbn [r_types r_requests r_errors r_ewma_success r_avg_latency w_types w_requests w_errors
    w_ewma_success w_avg_latency].
  rewrite json_is_empty_types, Hr, He, Hw, Hl. unfold sat_add.
  split_and!; try done; try lia.
  case_bool_decide as E; cbn [negb]; [done|]. apply types_json_roundtrip.
Qed.

Definition counters (p : Proxy) : Z := p_requests p + errors_total p.

Lemma below_upsert p m b : 0 <= p_requests p -> 0 <= b -> below b m -> below (b + counters p) (memory_upsert p m).
Proof.
  intros Hr Hb0 Hb k rec Hin. unfold memory_upsert, counters in *. pose proof (errors_total_range p).
  apply lookup_insert_Some in Hin as [[<- <-]|[_ Hin]].
  - destruct (m !! p_key p) as [rec|] eqn:Em; simpl; [|lia]. destruct (Hb _ _ Em). unfold sat_add. lia.
  - destruct (Hb _ _ Hin). lia.
Qed.
Lemma sim_upsert now p m t b :
  storable p -> sim m t -> 0 <= b -> below b m -> b + counters p < 2 ^ 32 ->
  sim (memory_upsert p m) (sql_upsert now p t) /\ below (b + counters p) (memory_upsert p m).
Proof.
  intros (Hh & Hq & Hr) (Hs & Hm & Ht) Hb0 Hb Hlt. unfold counters in Hlt. pose proof (errors_total_range p).
  unfold memory_upsert, sql_upsert, p_key. pose proof (Hs (p_host p) (p_port p) Hh) as Hk.
  assert (row_of (match m !! (p_host p, p_port p) with Some rec => memory_fold p rec | None => memory_first p end)
            (match t !! (ip_show (p_host p), p_port p) with
             | Some old => sql_update (excluded_row now p) old | None => excluded_row now p end)) as Hrow.
  { destruct (m !! (p_host p, p_port p)) as [rec|] eqn:Em; inversion_clear Hk as [? row Hrow|].
    - destruct (Hb _ _ Em). eapply row_of_fold; [done|done|done|done|lia].
    - by apply row_of_first. }
  split; [split_and!|by apply below_upsert].
  - intros h q Hok. destruct (decide ((h, q) = (p_host p, p_port p))) as [E|E].
    + injection E as -> ->. rewrite !lookup_insert_eq. by constructor.
    + rewrite !lookup_insert_ne; [by apply Hs| |congruence].
      intros [= E1 E2]. apply E. f_equal; [|done].
      apply (f_equal ip_parse) in E1. unfold host_ok in *. rewrite Hok, Hh in E1. congruence.
  - intros h q. rewrite lookup_insert_is_Some. intros [[= <- <-]|[_ Hin]]; [done|by apply Hm].
  - intros s q. rewrite lookup_insert_is_Some. intros [[= <- <-]|[_ Hin]]; [eauto|by eapply Ht].
Qed.

(** A history of upserts with their times. *)
Definition memory_run (ps : list (Z * Proxy)) : MemoryStore := fold_left (fun m x => memory_upsert x.2 m) ps ∅.
Definition sql_run (ps : list (Z * Proxy)) : Table := fold_left (fun t x => sql_upsert x.1 x.2 t) ps ∅.
Definition total (ps : list (Z * Proxy)) : Z := fold_right (fun x acc => counters x.2 + acc) 0 ps.

Lemma total_nonneg ps : Forall (fun x => storable x.2) ps -> 0 <= total ps.
Proof.
  induction 1 as [|x ps (_ & _ & Hr) Hps IH]; simpl; [lia|].
  unfold counters. pose proof (errors_total_range x.2). lia.
Qed.
Lemma sim_runs ps m t b :
  Forall (fun x => storable x.2) ps -> sim m t -> 0 <= b -> below b m -> b + total ps < 2 ^ 32 ->
  let m' := fold_left (fun m x => memory_upsert x.2 m) ps m in
  sim m' (fold_left (fun t x => sql_upsert x.1 x.2 t) ps t) /\ below (b + total ps) m'.
Proof.
  intros Hps. revert m t b. induction Hps as [|x ps Hx Hps IH]; intros m t b Hs Hb0 Hb Hlt; simpl in *.
  - by rewrite Z.add_0_r.
  - pose proof (total_nonneg _ Hps). pose proof Hx as (_ & _ & Hr).
    assert (0 <= counters x.2) by (unfold counters; pose proof (errors_total_range x.2); lia).
    destruct (sim_upsert x.1 x.2 m t b) as [Hs' Hb']; [done|done|done|done|lia|].
    rewrite Z.add_assoc. apply IH; [done|lia|done|lia].
Qed.

Lemma elem_of_memory_load m p :
  p ∈ memory_load m <-> exists h q rec, m !! (h, q) = Some rec /\ p = memory_restore ((h, q), rec).
Proof.
  unfold memory_load. rewrite list_elem_of_fmap. split.
  - intros ([[h q] rec] & -> & Hin%elem_of_map_to_list). eauto.
  - intros (h & q & rec & Hm & ->). exists ((h, q), rec). split; [done|]. by apply elem_of_map_to_list.
Qed.
Lemma elem_of_sql_load t p :
  p ∈ sql_load t <-> exists s q row, t !! (s, q) = Some row /\ sql_restore ((s, q), row) = Some p.
Proof.
  unfold sql_load. rewrite list_elem_of_omap. split.
  - intros ([[s q] row] & Hin%elem_of_map_to_list & E). eauto.
  - intros (s & q & row & Ht & E). exists ((s, q), row). split; [|done]. by apply elem_of_map_to_list.
Qed.

Lemma restore_agrees h q rec row b :
  host_ok h -> 0 <= q < 2 ^ 16 -> row_of rec row -> r_requests rec <= b -> r_errors rec <= b -> b < 2 ^ 32 ->
  sql_restore ((ip_show h, q), row) = Some (memory_restore ((h, q), rec)).
Proof.
  intros Hh Hq (Ht & Hr & He & Hw & Hl & ? & ?) ? ? ?. unfold sql_restore, memory_restore. rewrite Hh.
  rewrite Ht, Hr, He, Hw, Hl, !wrap_small by lia. done.
Qed.

(** C29: the two stores remember the same. After any history of upserts whose counters stay within
    a [u32] in total, a warm start from the in-memory store and one from the SQLite store
    reconstruct exactly the same proxies: types kept over failing checks, summed statistics, and
    the folded success rate and latency. *)
Theorem stores_agree : forall ps,
  Forall (fun x => storable x.2) ps -> total ps < 2 ^ 32 ->
  forall p, p ∈ memory_load (memory_run ps) <-> p ∈ sql_load (sql_run ps).
Proof.
  intros ps Hps Hlt p. pose proof (total_nonneg _ Hps).
  destruct (sim_runs ps ∅ ∅ 0) as [(Hs & Hm & Ht) Hb]; [done| |done| |lia|].
  { split_and!; [|intros h q; rewrite lookup_empty; by intros [? ?]..].
    intros h q _. rewrite !lookup_empty. constructor. }
  { intros k rec Hk. by rewrite lookup_empty in Hk. }
  fold (memory_run ps) in *. fold (sql_run ps) in *. simpl in Hb.
  rewrite elem_of_memory_load, elem_of_sql_load. split.
  - intros (h & q & rec & Hin & ->). destruct (Hm h q) as [Hh Hq]; [eauto|].
    pose proof (Hs h q Hh) as Hk. rewrite Hin in Hk. inversion Hk as [? row Hrow E1 E2|]; subst.
    destruct (Hb _ _ Hin). exists (ip_show h), q, row. split; [done|]. by eapply restore_agrees.
  - intros (s & q & row & Hin & E). destruct (Ht s q) as (h & Hh & ->); [eauto|].
    pose proof (Hs h q Hh) as Hk. rewrite Hin in Hk. inversion Hk as [rec ? Hrow E1 E2|]; subst.
    destruct (Hm h q) as [_ Hq]; [eauto|]. symmetry in E1. destruct (Hb _ _ E1).
    exists h, q, rec. split; [done|].
    pose proof (restore_agrees h q rec row (total ps) Hh Hq Hrow ltac:(lia) ltac:(lia) ltac:(lia)) as Er.
    congruence.
Qed.

(** One upsert touches one record. Any other address is remembered as before, the upserted one
    keeps its confirmed types when the new sample has none and its latency when there was none,
    its counters never wrap, and its success rate is the exponential fold of the samples. *)
Theorem memory_upsert_sound : forall p m k,
  p_key p <> k ->
  memory_upsert p m !! k = m !! k /\
  exists rec, memory_upsert p m !! p_key p = Some rec /\
    match m !! p_key p with
    | None => rec = memory_first p
    | Some old =>
        (is_working p = false -> r_types rec = r_types old) /\
        (is_working p = true -> r_types rec = p_types p) /\
        r_requests rec = Z.min (r_requests old + p_requests p) (2 ^ 32 - 1) /\
        r_errors rec = Z.min (r_errors old + errors_total p) (2 ^ 32 - 1) /\
        r_ewma_success rec = fold_ewma (r_ewma_success old) (if is_working p then f_one else f_zero) /\
        (f_gtb (avg_resp_time p) f_zero = false -> r_avg_latency rec = r_avg_latency old)
    end.
Proof.
  intros p m k Hk. unfold memory_upsert. split; [by rewrite lookup_insert_ne|].
  rewrite lookup_insert_eq. eexists. split; [done|]. destruct (m !! p_key p) as [old|]; [|done].
  unfold memory_fold, sample_of, is_working, sat_add.
  cbn [r_types r_requests r_errors r_ewma_success r_avg_latency].
  destruct (bool_decide (p_types p = ∅)); cbn [negb]; split_and!; try done; by intros ->.
Qed.

Definition seen_px (reqs : Z) : Proxy :=
  set_stats reqs ∅ [f_one] (add_type Http (Some High) (new (V4 16843009) 8080 ∅)).
Lemma stores_agree_witness :
  let ps := [(100, seen_px 3); (200, seen_px 4)] in
  (exists p, p ∈ memory_load (memory_run ps)) /\
  forall p, p ∈ memory_load (memory_run ps) <-> p ∈ sql_load (sql_run ps).
Proof.
  intros ps. split.
  - eexists. apply elem_of_memory_load. exists (V4 16843009), 8080. eexists. split; [|reflexivity].
    vm_compute. reflexivity.
  - apply (stores_agree ps).
    + assert (forall n, 0 <= n -> storable (seen_px n)) as H.
      { intros n Hn. split; [exact (ip_parse_v4_show 16843009 ltac:(lia))|]. split; [simpl; lia|exact Hn]. }
      repeat constructor; apply H; lia.
    + vm_compute. reflexivity.
Defined.
Lemma memory_upsert_sound_witness :
  exists rec, memory_upsert (seen_px 3) ∅ !! (V4 16843009, 8080) = Some rec /\ rec = memory_first (seen_px 3).
Proof.
  destruct (memory_upsert_sound (seen_px 3) ∅ (V4 1, 1) ltac:(discriminate)) as (_ & rec & H1 & H2).
  exists rec. split; [exact H1|exact H2].
Defined.

(** ** Opening the file again *)
Lemma sql_session_table ps db t : sd_table (sql_open db) = Some t ->
  sql_session db ps = Some {| sd_version := sd_version (sql_open db); sd_table := Some (fold_left (fun t x => sql_upsert x.1 x.2 t) ps t) |}.
Proof.
  unfold sql_session. generalize (sql_open db) as d. clear db. intros d. revert d t.
  induction ps as [|x ps IH]; intros d t Ht; cbn [fold_left]; [destruct d; cbn in *; by rewrite Ht|].
  cbn [mbind option_bind]. unfold sql_store_upsert at 2. rewrite Ht. cbn [fmap option_fmap option_map].
  by rewrite (IH _ (sql_upsert x.1 x.2 t)).
Qed.
Lemma sql_sessions_table runs : runs <> [] ->
  sql_sessions runs = Some {| sd_version := SCHEMA_VERSION; sd_table := Some (sql_run (concat runs)) |}.
Proof.
  unfold sql_sessions, sql_run. destruct runs as [|ps runs]; [done|]. intros _. cbn [fold_left mbind option_bind concat].
  rewrite (sql_session_table ps sd_fresh ∅) by done. rewrite fold_left_app. cbn [sd_version sql_open].
  generalize (fold_left (fun t x => sql_upsert x.1 x.2 t) ps ∅) as t. induction runs as [|qs runs IH]; intros t; [done|].
  cbn [fold_left mbind option_bind concat]. rewrite (sql_session_table qs _ t) by done. rewrite fold_left_app. cbn. apply IH.
Qed.
(** A database opened again keeps its rows: what any number of runs upsert, one after the other, is
    what one run of all of it leaves, the table is created once, and a fresh file loads nothing. A
    file of a later version, or one whose version is set and whose table is missing, is opened
    without complaint and left as it is. *)
Theorem sql_reopened : forall runs db,
  (runs <> [] -> exists d, sql_sessions runs = Some d /\ sd_version d = SCHEMA_VERSION /\
     sql_store_load d = Some (sql_load (sql_run (concat runs))) /\ sql_open d = d) /\
  sql_store_load (sql_open sd_fresh) = Some [] /\
  sql_open (sql_open db) = sql_open db /\ (1 <= sd_version db -> sql_open db = db).
Proof.
  intros runs db. split; [|split; [done|]].
  - intros Hne. eexists. split; [by apply sql_sessions_table|]. done.
  - unfold sql_open, migrate. destruct (Z.ltb_spec (sd_version db) 1) as [Hv|Hv]; cbn [sd_version].
    + split; [done|lia].
    + by rewrite (proj2 (Z.ltb_ge _ _) Hv).
Qed.

(** Beyond a [u32] the two differ: the in-memory counter saturates, the column keeps the sum and
    loading truncates it. *)
Theorem stores_overflow_differ :
  let ps := [(100, seen_px (2 ^ 32 - 1)); (200, seen_px (2 ^ 32 - 1))] in
  map p_requests (memory_load (memory_run ps)) = [2 ^ 32 - 1] /\
  map p_requests (sql_load (sql_run ps)) = [2 ^ 32 - 2].
Proof. vm_compute. done. Qed.

(** ** The interface the re-checker writes to ([trait Store]) *)
Class Store : Type := {
  store : Type;
  store_upsert : Z -> Proxy -> store -> store;
  store_load : store -> list Proxy;
  (** What was just upserted is remembered, as working at the rate it was folded to. *)
  store_remembers now p s : storable p -> exists p', p' ∈ store_load (store_upsert now p s) /\ p_key p' = p_key p;
}.
#[export] Instance memory_store : Store.
Proof.
  refine {| store := MemoryStore; store_upsert _ p m := memory_upsert p m; store_load := memory_load |}.
  intros _ p m _. unfold memory_upsert. eexists. split.
  - apply elem_of_memory_load. exists (p_host p), (p_port p). eexists. split; [|reflexivity].
    apply lookup_insert_eq.
  - reflexivity.
Defined.
Definition sqlite_store : Store.
Proof.
  refine {| store := Table; store_upsert := sql_upsert; store_load := sql_load |}.
  intros now p t (Hh & Hq & _). unfold sql_upsert.
  set (row := match _ !! _ with Some old => _ | None => _ end).
  eexists. split.
  - apply elem_of_sql_load. exists (ip_show (p_host p)), (p_port p), row. split; [apply lookup_insert_eq|].
    unfold sql_restore. rewrite Hh, (wrap_small 16) by done. reflexivity.
  - reflexivity.
Defined.
