(* ===== verification/Redis.v ===== *)
(** * The Redis store (src/persist.rs, [RedisStore])

    The database as the store sees it: a hash of strings per proxy, the set of members and the
    schema marker; [upsert_lua] is the script, one command after the other over Lua numbers and
    strings, [redis_load] the reading back. Lua's numbers and the texts they are written as are
    Redis's and are a class, the text of JSON serde_json's. The store refines the same contract as the
    in-memory one, as long as counters fit in 32 bits. *)
From S2P Require Import Prelude F64 Text Types Addr Proxy ProxyJson Store.
Open Scope Z_scope.

(** Lua numbers. Counters are whole numbers, exact below 2^53. *)
Class Lua := {
  lnum : Type;
  l_int : Z -> lnum;
  l_float : f64 -> lnum;
  l_add : lnum -> lnum -> lnum;
  l_mul : lnum -> lnum -> lnum;
  l_pos : lnum -> bool; (* [> 0] *)
  tonumber : str -> option lnum;
  l_show : lnum -> str; (* how a number is passed to a command *)
  f64_arg : f64 -> str; (* how the client passes a double *)
  parse_f64 : str -> option f64; (* [str::parse] *)
  l_add_int a b : 0 <= a -> 0 <= b -> a + b < 2 ^ 53 -> l_add (l_int a) (l_int b) = l_int (a + b);
  l_add_float x y : l_add (l_float x) (l_float y) = l_float (f_add x y);
  l_mul_float x y : l_mul (l_float x) (l_float y) = l_float (f_mul x y);
  l_pos_float x : l_pos (l_float x) = f_gtb x f_zero;
  tonumber_int a : 0 <= a < 2 ^ 53 -> tonumber (show_uint a) = Some (l_int a);
  l_show_int a : 0 <= a < 2 ^ 53 -> l_show (l_int a) = show_uint a;
  tonumber_arg x : tonumber (f64_arg x) = Some (l_float x);
  tonumber_show x : tonumber (l_show (l_float x)) = Some (l_float x);
  parse_show x : parse_f64 (l_show (l_float x)) = Some x;
}.
(** The text of JSON values, as [to_string] and [from_str] deal with a list of types. *)
Class JsonText := {
  json_text : json -> str;
  json_parse : str -> option json;
  json_text_nil : json_text (JArr []) = lit "[]";
  json_parse_types t : json_parse (json_text (types_to_json t)) = Some (types_to_json t);
}.

Section redis.
Context `{Lua} `{JsonText}.

Record Db := { db_hashes : gmap str (gmap str str); db_sets : gmap str (gset str); db_strings : gmap str str }.
Definition db_empty : Db := {| db_hashes := ∅; db_sets := ∅; db_strings := ∅ |}.
Definition SET_KEY : str := lit "proxybroker:proxies".
Definition SCHEMA_KEY : str := lit "proxybroker:schema".
Definition REDIS_SCHEMA_VERSION : str := lit "1".
Definition proxy_key (host : IpAddr) (port : Z) : str :=
  lit "proxybroker:proxy:" ++ ip_show host ++ lit ":" ++ show_uint port.

(** [RedisStore::open]; [None] is the error. *)
Definition redis_open (db : Db) : option Db :=
  match db_strings db !! SCHEMA_KEY with
  | Some v =>
      if decide (v = REDIS_SCHEMA_VERSION)
      then Some {| db_hashes := db_hashes db; db_sets := db_sets db;
                   db_strings := <[SCHEMA_KEY := REDIS_SCHEMA_VERSION]> (db_strings db) |}
      else None
  | None => Some {| db_hashes := db_hashes db; db_sets := db_sets db;
                    db_strings := <[SCHEMA_KEY := REDIS_SCHEMA_VERSION]> (db_strings db) |}
  end.

(** ** The script *)
Record LuaArgs := {
  arg_host : str; arg_port : str; arg_types : str; arg_sample : str; arg_working : str; arg_latency : str;
  arg_now : str; arg_requests : str; arg_errors : str;
}.
Definition num (x : option str) : lnum := default (l_int 0) (x ≫= tonumber).
Definition lua_fold (new old : lnum) : lnum := l_add (l_mul (l_float alpha_new) new) (l_mul (l_float alpha_old) old).
(** [None] is an arithmetic error of the script, which then has written nothing. *)
Definition upsert_lua (key set_key : str) (a : LuaArgs) (db : Db) : option Db :=
  let cur := default ∅ (db_hashes db !! key) in
  let first := bool_decide (cur = ∅) in
  let? sample := tonumber (arg_sample a) in
  let? working := tonumber (arg_working a) in
  let? latency := tonumber (arg_latency a) in
  let ewma := if first then sample else lua_fold sample (num (cur !! lit "ewma_success")) in
  let avglat :=
    if first then latency
    else if l_pos latency then lua_fold latency (num (cur !! lit "avg_latency"))
    else num (cur !! lit "avg_latency") in
  let types := if decide (arg_types a <> lit "[]") then arg_types a else default (arg_types a) (cur !! lit "types") in
  let? requests := tonumber (arg_requests a) in
  let? errors := tonumber (arg_errors a) in
  let fields := [
    (lit "host", arg_host a); (lit "port", arg_port a); (lit "types", types);
    (lit "requests", l_show (l_add (num (cur !! lit "requests")) requests));
    (lit "errors", l_show (l_add (num (cur !! lit "errors")) errors));
    (lit "ewma_success", l_show ewma); (lit "avg_latency", l_show avglat);
    (lit "first_seen", if first then arg_now a else default (arg_now a) (cur !! lit "first_seen"));
    (lit "last_seen", arg_now a);
    (lit "uptime_checks", l_show (l_add (num (cur !! lit "uptime_checks")) working))] in
  Some {| db_hashes := <[key := fold_left (fun h kv => <[kv.1 := kv.2]> h) fields cur]> (db_hashes db);
          db_sets := <[set_key := {[arg_host a ++ lit ":" ++ arg_port a]} ∪ default ∅ (db_sets db !! set_key)]> (db_sets db);
          db_strings := db_strings db |}.

Definition lua_args (now : Z) (p : Proxy) : LuaArgs :=
  {| arg_host := ip_show (p_host p); arg_port := show_uint (p_port p); arg_types := json_text (types_to_json (p_types p));
     arg_sample := f64_arg (sample_of p); arg_working := show_uint (Z.b2z (is_working p));
     arg_latency := f64_arg (avg_resp_time p); arg_now := show_uint now; arg_requests := show_uint (p_requests p);
     arg_errors := show_uint (errors_total p) |}.
Definition redis_upsert (now : Z) (p : Proxy) (db : Db) : option Db :=
  upsert_lua (proxy_key (p_host p) (p_port p)) SET_KEY (lua_args now p) db.

Definition parse_u32 : str -> option Z := parse_uint (2 ^ 32 - 1).
Definition types_from_text (s : str) : gmap Proto (option AnonLevel) :=
  match json_parse s with Some j => types_from_json j | None => ∅ end.
Definition restore_hash (host : IpAddr) (port : Z) (hash : gmap str str) : Proxy :=
  with_ewma (hash !! lit "ewma_success" ≫= parse_f64)
    (restored host port (types_from_text (default (lit "[]") (hash !! lit "types")))
       (default 0 (hash !! lit "requests" ≫= parse_u32)) (default 0 (hash !! lit "errors" ≫= parse_u32))
       (default f_zero (hash !! lit "avg_latency" ≫= parse_f64))).
Definition load_member (db : Db) (member : str) : option Proxy :=
  let? (host_s, port_s) := rsplit_once ":" member in
  let? host := ip_parse host_s in
  let? port := parse_u16 port_s in
  let hash := default ∅ (db_hashes db !! proxy_key host port) in
  if decide (hash = ∅) then None else Some (restore_hash host port hash).
Definition redis_load (db : Db) : list Proxy := omap (load_member db) (elements (default ∅ (db_sets db !! SET_KEY))).

(** ** Refinement of the contract *)
Lemma proxy_key_inj h q h' q' : host_ok h -> host_ok h' -> 0 <= q < 2 ^ 16 -> 0 <= q' < 2 ^ 16 ->
  proxy_key h q = proxy_key h' q' -> h = h' /\ q = q'.
Proof.
  intros Hh Hh' Hq Hq' E. unfold proxy_key in E. apply app_inv_head in E.
  assert (forall z, ":"%char ∉ show_uint z) as Hn by (intros z; by apply show_uint_not_in).
  pose proof (rsplit_once_char ":" (ip_show h) (show_uint q) (Hn q)) as R1.
  pose proof (rsplit_once_char ":" (ip_show h') (show_uint q') (Hn q')) as R2.
  change (lit ":" ++ show_uint q) with (":"%char :: show_uint q) in E.
  change (lit ":" ++ show_uint q') with (":"%char :: show_uint q') in E. rewrite E, R2 in R1. injection R1 as E1 E2.
  split.
  - unfold host_ok in *. rewrite <- E1 in Hh. congruence.
  - pose proof (parse_show_uint 65535 q ltac:(lia)) as P1. pose proof (parse_show_uint 65535 q' ltac:(lia)) as P2. congruence.
Qed.
Lemma text_nil t : json_text (types_to_json t) = lit "[]" <-> t = ∅.
Proof.
  split; [|intros ->; apply json_text_nil]. intros E. rewrite <- json_text_nil in E.
  apply (f_equal json_parse) in E. change (JArr []) with (types_to_json ∅) in E.
  rewrite !json_parse_types in E. apply (inj Some) in E. rewrite <- (types_json_roundtrip t), E. reflexivity.
Qed.

Lemma types_text t : types_from_text (json_text (types_to_json t)) = t.
Proof. unfold types_from_text. rewrite json_parse_types. apply types_json_roundtrip. Qed.

(** A hash says what a record says. *)
Definition hash_of (rec : MRecord) (h : gmap str str) : Prop :=
  h !! lit "types" = Some (json_text (types_to_json (r_types rec))) /\
  h !! lit "requests" = Some (show_uint (r_requests rec)) /\
  h !! lit "errors" = Some (show_uint (r_errors rec)) /\
  h !! lit "ewma_success" = Some (l_show (l_float (r_ewma_success rec))) /\
  h !! lit "avg_latency" = Some (l_show (l_float (r_avg_latency rec))) /\
  0 <= r_requests rec /\ 0 <= r_errors rec.

Lemma restore_hash_agrees h q rec hash : hash_of rec hash -> r_requests rec < 2 ^ 32 -> r_errors rec < 2 ^ 32 ->
  restore_hash h q hash = memory_restore ((h, q), rec).
Proof.
  intros (Ht & Hr & He & Hw & Hl & ? & ?) ??. unfold restore_hash, memory_restore. rewrite Ht, Hr, He, Hw, Hl.
  cbn [mbind option_bind from_option id]. unfold parse_u32.
  rewrite types_text, !parse_show, !parse_show_uint by lia. done.
Qed.

Lemma num_int (h : gmap str str) k a : 0 <= a < 2 ^ 53 -> h !! k = Some (show_uint a) -> num (h !! k) = l_int a.
Proof. intros Ha E. unfold num. rewrite E. cbn. by rewrite tonumber_int. Qed.
Lemma num_float (h : gmap str str) k x : h !! k = Some (l_show (l_float x)) -> num (h !! k) = l_float x.
Proof. intros E. unfold num. rewrite E. cbn. by rewrite tonumber_show. Qed.
Lemma lua_fold_float x y : lua_fold (l_float x) (l_float y) = l_float (fold_ewma y x).
Proof. unfold lua_fold, fold_ewma. by rewrite !l_mul_float, l_add_float. Qed.
Lemma show_sum a b : 0 <= a -> 0 <= b -> a + b < 2 ^ 53 -> l_show (l_add (l_int a) (l_int b)) = show_uint (a + b).
Proof. intros. by rewrite l_add_int, l_show_int by lia. Qed.

Ltac find_field := repeat first [rewrite lookup_insert_eq | rewrite lookup_insert_ne by discriminate].
(** What one upsert makes of a hash. *)
Lemma upsert_hash now p db : 0 <= p_requests p < 2 ^ 53 ->
  exists h, redis_upsert now p db =
      Some {| db_hashes := <[proxy_key (p_host p) (p_port p) := h]> (db_hashes db);
              db_sets := <[SET_KEY := {[ip_show (p_host p) ++ lit ":" ++ show_uint (p_port p)]} ∪ default ∅ (db_sets db !! SET_KEY)]> (db_sets db);
              db_strings := db_strings db |} /\
    match db_hashes db !! proxy_key (p_host p) (p_port p) with
    | None => hash_of (memory_first p) h
    | Some old => old <> ∅ -> forall rec, hash_of rec old -> r_requests rec + p_requests p < 2 ^ 32 ->
        r_errors rec + errors_total p < 2 ^ 32 -> hash_of (memory_fold p rec) h
    end.
Proof.
  intros Hreq. pose proof (errors_total_range p) as Herr. unfold redis_upsert, upsert_lua.
  cbn [arg_host arg_port arg_types arg_sample arg_working arg_latency arg_now arg_requests arg_errors lua_args].
  assert (0 <= Z.b2z (is_working p) < 2 ^ 53) as Hw by (destruct (is_working p); cbn; lia).
  rewrite !tonumber_arg, !tonumber_int by lia. cbn [mbind option_bind]. eexists. split; [reflexivity|].
  cbn [fold_left fst snd].
  destruct (db_hashes db !! proxy_key (p_host p) (p_port p)) as [old|] eqn:Eo; cbn [default from_option id].
  - intros Hne rec (Ht & Hr & He & Hs & Hl & Hr0 & He0) Hrb Heb. rewrite bool_decide_false by done.
    rewrite (num_int old (lit "requests") (r_requests rec)), (num_int old (lit "errors") (r_errors rec)) by (done || lia). rewrite (num_float _ _ _ Hs), (num_float _ _ _ Hl), l_pos_float.
    unfold hash_of, memory_fold, sat_add. cbn [r_types r_requests r_errors r_ewma_success r_avg_latency].
    rewrite !Z.min_l by lia. split_and!; try lia; find_field; f_equal.
    + case_bool_decide as Ep; [|by rewrite decide_True by (by rewrite text_nil)].
      rewrite decide_False by (rewrite text_nil; by intros ?). by rewrite Ht.
    + by apply show_sum; lia.
    + by apply show_sum; lia.
    + by rewrite lua_fold_float.
    + case_match; [by rewrite lua_fold_float|done].
  - rewrite bool_decide_true by done. unfold hash_of, memory_first. cbn [r_types r_requests r_errors r_ewma_success r_avg_latency].
    assert (forall k, num ((∅ : gmap str str) !! k) = l_int 0) as -> by (intros k; by rewrite lookup_empty).
    split_and!; try lia; find_field; f_equal.
    + case_decide as Ep; [done|]. by rewrite lookup_empty.
    + by apply (show_sum 0); lia.
    + by apply (show_sum 0); lia.
Qed.

Definition member_of (h : IpAddr) (q : Z) : str := ip_show h ++ lit ":" ++ show_uint q.
Definition members (db : Db) : gset str := default ∅ (db_sets db !! SET_KEY).
Definition rsim (m : MemoryStore) (db : Db) : Prop :=
  (forall h q, host_ok h -> 0 <= q < 2 ^ 16 -> option_Forall2 hash_of (m !! (h, q)) (db_hashes db !! proxy_key h q)) /\
  (forall h q, is_Some (m !! (h, q)) -> host_ok h /\ 0 <= q < 2 ^ 16) /\
  (forall s, s ∈ members db <-> exists h q, is_Some (m !! (h, q)) /\ s = member_of h q).

Lemma hash_nonempty rec h : hash_of rec h -> h <> ∅.
Proof. intros (Ht & _) ->. by rewrite lookup_empty in Ht. Qed.
Lemma rsim_upsert now p m db b :
  storable p -> rsim m db -> 0 <= b -> below b m -> b + counters p < 2 ^ 32 ->
  exists db', redis_upsert now p db = Some db' /\ rsim (memory_upsert p m) db' /\ below (b + counters p) (memory_upsert p m).
Proof.
  intros (Hh & Hq & Hr) (Hs & Hm & Ht) Hb0 Hb Hlt. unfold counters in Hlt. pose proof (errors_total_range p).
  destruct (upsert_hash now p db ltac:(lia)) as (hash & -> & Hhash). eexists. split; [reflexivity|].
  split; [|by apply below_upsert]. unfold memory_upsert, p_key in *.
  pose proof (Hs (p_host p) (p_port p) Hh Hq) as Hk.
  assert (hash_of (match m !! (p_host p, p_port p) with Some rec => memory_fold p rec | None => memory_first p end) hash) as Hrow.
  { destruct (m !! (p_host p, p_port p)) as [rec|] eqn:Em; inversion Hk as [? old Hold E1 E2|E1 E2]; subst; rewrite <- E2 in Hhash; [|done].
    destruct (Hb _ _ Em). apply Hhash; [by eapply hash_nonempty|done|lia|lia]. }
  split_and!; cbn [db_hashes].
  - intros h q Hok Hqr. destruct (decide ((h, q) = (p_host p, p_port p))) as [E|E].
    + injection E as -> ->. rewrite !lookup_insert_eq. by constructor.
    + rewrite !lookup_insert_ne; [by apply Hs| |congruence].
      intros Ek. apply proxy_key_inj in Ek as [E1 E2]; [|done..]. apply E. congruence.
  - intros h q. rewrite lookup_insert_is_Some. intros [[= <- <-]|[_ Hin]]; [done|by apply Hm].
  - intros s. unfold members. cbn [db_sets]. rewrite lookup_insert_eq. cbn [from_option id].
    rewrite elem_of_union, elem_of_singleton. fold (members db). rewrite Ht. split.
    + intros [->|(h & q & Hin & ->)]; [exists (p_host p), (p_port p); split; [rewrite lookup_insert_eq; by eexists|done]|].
      exists h, q. split; [|done]. rewrite lookup_insert_is_Some'. by right.
    + intros (h & q & Hin & ->). rewrite lookup_insert_is_Some in Hin. destruct Hin as [[= <- <-]|[_ Hin]]; [by left|].
      right. by exists h, q.
Qed.

(** A history of upserts; [None] is a failing script. *)
Definition redis_run (ps : list (Z * Proxy)) (db : Db) : option Db :=
  fold_left (fun db x => db ≫= redis_upsert x.1 x.2) ps (Some db).
Lemma rsim_runs ps m db b :
  Forall (fun x => storable x.2) ps -> rsim m db -> 0 <= b -> below b m -> b + total ps < 2 ^ 32 ->
  let m' := fold_left (fun m x => memory_upsert x.2 m) ps m in
  exists db', redis_run ps db = Some db' /\ rsim m' db' /\ below (b + total ps) m'.
Proof.
  intros Hps. revert m db b. induction Hps as [|x ps Hx Hps IH]; intros m db b Hs Hb0 Hb Hlt; simpl in *.
  - rewrite Z.add_0_r. by eexists.
  - pose proof (total_nonneg _ Hps). pose proof Hx as (_ & _ & Hr).
    assert (0 <= counters x.2) by (unfold counters; pose proof (errors_total_range x.2); lia).
    destruct (rsim_upsert x.1 x.2 m db b) as (db1 & E & Hs' & Hb'); [done|done|done|done|lia|].
    rewrite Z.add_assoc. unfold redis_run. cbn [fold_left mbind option_bind]. rewrite E. apply IH; [done|lia|done|lia].
Qed.
Lemma redis_run_strings ps db db' : redis_run ps db = Some db' -> db_strings db' = db_strings db.
Proof.
  revert db. induction ps as [|x ps IH]; intros db; [by intros [= <-]|]. unfold redis_run. cbn [fold_left mbind option_bind].
  destruct (redis_upsert x.1 x.2 db) as [d|] eqn:E.
  - intros Hr. rewrite (IH d Hr). revert E. unfold redis_upsert, upsert_lua.
    repeat (destruct (tonumber _); cbn [mbind option_bind]; [|done]). by intros [= <-].
  - clear. induction ps as [|y ps IH]; [done|]. exact IH.
Qed.
Lemma load_member_of db h q : host_ok h -> 0 <= q < 2 ^ 16 ->
  load_member db (member_of h q) =
    (let hash := default ∅ (db_hashes db !! proxy_key h q) in if decide (hash = ∅) then None else Some (restore_hash h q hash)).
Proof.
  intros Hh Hq. unfold load_member, member_of. change (lit ":" ++ show_uint q) with (":"%char :: show_uint q).
  rewrite rsplit_once_char by (by apply show_uint_not_in). cbn [mbind option_bind]. rewrite Hh.
  unfold parse_u16. by rewrite parse_show_uint by lia.
Qed.

(** C37: the Redis store keeps the same contract. After any history of upserts whose counters stay
    within a [u32] in total no script fails, and a warm start from Redis reconstructs exactly the
    proxies a warm start from the in-memory store does: what the script reads back of its own texts,
    key by key, is what it folded. Opening the database again changes none of it, and a database of
    another schema is refused. *)
Theorem redis_agrees : forall ps,
  Forall (fun x => storable x.2) ps -> total ps < 2 ^ 32 ->
  exists db, redis_run ps db_empty = Some db /\
    (forall p, p ∈ redis_load db <-> p ∈ memory_load (memory_run ps)) /\
    (exists db', redis_open db = Some db' /\ redis_load db' = redis_load db /\ redis_open db' = Some db') /\
    (forall db v, db_strings db !! SCHEMA_KEY = Some v -> v <> REDIS_SCHEMA_VERSION -> redis_open db = None).
Proof.
  intros ps Hps Hlt. pose proof (total_nonneg _ Hps).
  destruct (rsim_runs ps ∅ db_empty 0) as (db & Hrun & (Hs & Hm & Ht) & Hb); [done| |done| |lia|].
  { split_and!.
    - intros h q _ _. cbn. rewrite !lookup_empty. constructor.
    - intros h q. rewrite lookup_empty. by intros [? ?].
    - intros s. unfold members. cbn [db_sets db_empty]. rewrite lookup_empty. cbn [from_option id].
      rewrite elem_of_empty. split; [done|]. intros (h & q & Hin & _). rewrite lookup_empty in Hin. by destruct Hin. }
  { intros k rec Hk. by rewrite lookup_empty in Hk. }
  fold (memory_run ps) in *. exists db. split; [done|]. split_and!.
  - intros p. rewrite elem_of_memory_load. unfold redis_load. rewrite list_elem_of_omap. fold (members db). split.
    + intros (s & Hin%elem_of_elements & E). apply Ht in Hin as (h & q & Hin & ->). destruct (Hm h q Hin) as [Hh Hq].
      rewrite load_member_of in E by done. pose proof (Hs h q Hh Hq) as Hk. destruct Hin as [rec Em]. rewrite Em in Hk.
      inversion Hk as [? hash Hrow E1 E2|]; subst. rewrite <- E2 in E. cbn in E. destruct (Hb _ _ Em).
      rewrite decide_False in E by (by eapply hash_nonempty). injection E as <-.
      exists h, q, rec. split; [done|]. apply restore_hash_agrees; [done|lia|lia].
    + intros (h & q & rec & Em & ->). destruct (Hm h q) as [Hh Hq]; [by eexists|].
      exists (member_of h q). split; [apply elem_of_elements, Ht; exists h, q; split; [by eexists|done]|].
      rewrite load_member_of by done. pose proof (Hs h q Hh Hq) as Hk. rewrite Em in Hk.
      inversion Hk as [? hash Hrow E1 E2|]; subst. cbn. destruct (Hb _ _ Em).
      rewrite decide_False by (by eapply hash_nonempty). f_equal. apply restore_hash_agrees; [done|lia|lia].
  - unfold redis_open. rewrite (redis_run_strings ps db_empty db Hrun). cbn. eexists. split; [reflexivity|]. split; [done|].
    cbn. rewrite lookup_insert_eq, decide_True by done. by rewrite insert_insert_eq.
  - intros d v E Hv. unfold redis_open. rewrite E. by rewrite decide_False.
Qed.
End redis.

(** ** A concrete Lua and a concrete text of types *)
Section demo.
(** Whole numbers apart from doubles, and a text of a double that says its parts. *)
Definition demo_float_text (x : f64) : str :=
  match x with
  | S754_zero s => if s then lit "y" else lit "z"
  | S754_infinity s => if s then lit "j" else lit "i"
  | S754_nan => lit "n"
  | S754_finite s m e =>
      (if s then "m"%char else "p"%char) :: show_uint (Zpos m) ++ (if e <? 0 then "-"%char else "+"%char) :: show_uint (Z.abs e)
  end.
Definition demo_finite (s : bool) (r : str) : option f64 :=
  let one sep sign :=
    let? (a, b) := split_once [sep] r in
    let? m := digits_val 10 0 a in let? e := digits_val 10 0 b in
    match m with Zpos m => Some (S754_finite s m (sign * e)) | _ => None end in
  if contains r (lit "-") then one "-"%char (-1) else one "+"%char 1.
Definition demo_float_read (t : str) : option f64 :=
  match t with
  | c :: r =>
      if decide (c = "y"%char) then Some (S754_zero true) else if decide (c = "z"%char) then Some (S754_zero false)
      else if decide (c = "j"%char) then Some (S754_infinity true) else if decide (c = "i"%char) then Some (S754_infinity false)
      else if decide (c = "n"%char) then Some S754_nan
      else if decide (c = "m"%char) then demo_finite true r else if decide (c = "p"%char) then demo_finite false r else None
  | [] => None
  end.
Lemma demo_finite_text s m e (sep : ascii) : sep = (if e <? 0 then "-"%char else "+"%char) ->
  demo_finite s (show_uint (Zpos m) ++ sep :: show_uint (Z.abs e)) = Some (S754_finite s m e).
Proof.
  intros ->. unfold demo_finite. assert (forall c z, is_digit c = false -> c ∉ show_uint z) as Hn by apply show_uint_not_in.
  assert (forall z, 0 <= z -> digits_val 10 0 (show_uint z) = Some z) as Hv by (intros z Hz; by apply digits_val_show_radix).
  destruct (Z.ltb_spec e 0).
  - change ("-"%char :: show_uint (Z.abs e)) with (lit "-" ++ show_uint (Z.abs e)). rewrite contains_app.
    change (lit "-" ++ show_uint (Z.abs e)) with ("-"%char :: show_uint (Z.abs e)).
    rewrite split_once_char by by apply Hn. cbn [mbind option_bind]. rewrite !Hv by lia. cbn [mbind option_bind].
    do 2 f_equal. lia.
  - assert (contains (show_uint (Zpos m) ++ "+"%char :: show_uint (Z.abs e)) (lit "-") = false) as ->.
    { apply not_true_is_false. intros (s1 & s2 & E)%contains_true.
      assert ("-"%char ∈ show_uint (Zpos m) ++ "+"%char :: show_uint (Z.abs e)) as Hin
        by (rewrite E; apply elem_of_app; right; left).
      apply elem_of_app in Hin as [Hin|[?|Hin]%elem_of_cons]; [by apply Hn in Hin|done|by apply Hn in Hin]. }
    rewrite split_once_char by by apply Hn. cbn [mbind option_bind]. rewrite !Hv by lia. cbn [mbind option_bind].
    do 2 f_equal. lia.
Qed.
Lemma demo_float_roundtrip x : demo_float_read (demo_float_text x) = Some x.
Proof. destruct x as [[]|[]| |[] m e]; try reflexivity; by apply demo_finite_text. Qed.
Definition demo_number (t : str) : option (Z + f64) :=
  match parse_uint (2 ^ 53 - 1) t with Some a => Some (inl a) | None => inr <$> demo_float_read t end.
Lemma demo_number_float x : demo_number (demo_float_text x) = Some (inr x).
Proof.
  unfold demo_number. assert (parse_uint (2 ^ 53 - 1) (demo_float_text x) = None) as ->.
  { destruct x as [[]|[]| |[] m e]; reflexivity. }
  by rewrite demo_float_roundtrip.
Qed.
Definition demo_lua : Lua.
Proof.
  refine {| lnum := Z + f64; l_int := inl; l_float := inr;
    l_add x y := match x, y with inl a, inl b => inl (a + b) | inr x, inr y => inr (f_add x y) | _, _ => inr S754_nan end;
    l_mul x y := match x, y with inl a, inl b => inl (a * b) | inr x, inr y => inr (f_mul x y) | _, _ => inr S754_nan end;
    l_pos x := match x with inl a => 0 <? a | inr x => f_gtb x f_zero end;
    tonumber := demo_number; l_show x := match x with inl a => show_uint a | inr x => demo_float_text x end;
    f64_arg := demo_float_text; parse_f64 := demo_float_read |}; try done.
  - intros a Ha. unfold demo_number. by rewrite parse_show_uint by lia.
  - apply demo_number_float.
  - apply demo_number_float.
  - apply demo_float_roundtrip.
Defined.

(** A type as two letters. *)
Definition proto_letter (q : Proto) : ascii :=
  match q with Http => "h" | Https => "s" | Socks4 => "4" | Socks5 => "5" | Connect80 => "8" | Connect25 => "2" end%char.
Definition level_letter (l : option AnonLevel) : ascii :=
  match l with None => "n" | Some Transparent => "t" | Some Anonymous => "a" | Some High => "h" end%char.
Fixpoint read_letters (m : gmap Proto (option AnonLevel)) (s : str) : gmap Proto (option AnonLevel) :=
  match s with
  | c :: d :: s =>
      match List.find (fun q => bool_decide (proto_letter q = c)) Protos.ALL,
            List.find (fun l => bool_decide (level_letter l = d)) [None; Some Transparent; Some Anonymous; Some High] with
      | Some q, Some l => read_letters (<[q := l]> m) s
      | _, _ => m
      end
  | _ => m
  end.
Definition letters (l : list (Proto * option AnonLevel)) : str := concat (map (fun x => [proto_letter x.1; level_letter x.2]) l).
Lemma read_letters_list l m : read_letters m (letters l ++ lit "]") = fold_left (fun m x => <[x.1 := x.2]> m) l m.
Proof. revert m. induction l as [|[q o] l IH]; intros m; [done|]. cbn [fold_left fst snd]. rewrite <- IH. destruct q, o as [[]|]; reflexivity. Qed.
Definition demo_json_text (j : json) : str :=
  match j with JArr [] => lit "[]" | _ => lit "[" ++ letters (types_list (types_from_json j)) ++ lit "]" end.
Definition demo_json : JsonText.
Proof.
  refine {| json_text := demo_json_text; json_parse s := (fun r => types_to_json (read_letters ∅ r)) <$> strip_prefix (lit "[") s |};
    [reflexivity|].
  intros t. destruct (decide (types_list t = [])) as [E|E].
  - unfold types_to_json. rewrite E. reflexivity.
  - assert (demo_json_text (types_to_json t) = lit "[" ++ letters (types_list (types_from_json (types_to_json t))) ++ lit "]") as ->.
    { unfold types_to_json in *. by destruct (types_list t). }
    rewrite types_json_roundtrip, (proj2 (strip_prefix_Some _ _ _) eq_refl). cbn [fmap option_fmap option_map].
    by rewrite read_letters_list, types_list_to_map.
Defined.

#[local] Existing Instances demo_lua demo_json.
Lemma redis_agrees_witness :
  exists db, redis_run [(100, seen_px 3); (200, seen_px 4)] db_empty = Some db /\
    map p_requests (redis_load db) = [7] /\
    (forall p, p ∈ redis_load db <-> p ∈ memory_load (memory_run [(100, seen_px 3); (200, seen_px 4)])).
Proof.
  destruct (redis_agrees [(100, seen_px 3); (200, seen_px 4)]) as (db & E & H & _).
  - assert (forall n, 0 <= n -> storable (seen_px n)) as Hn.
    { intros n Hn. split; [exact (ip_parse_v4_show 16843009 ltac:(lia))|]. split; [simpl; lia|exact Hn]. }
    repeat constructor; apply Hn; lia.
  - vm_compute. reflexivity.
  - exists db. split; [exact E|]. split; [|exact H].
    assert ((fun db => map p_requests (redis_load db)) <$> redis_run [(100, seen_px 3); (200, seen_px 4)] db_empty = Some [7]) as Hr
      by (vm_compute; reflexivity).
    rewrite E in Hr. injection Hr as Hr. exact Hr.
Defined.
(** Past a [u32] the sum does not parse, and the count is read as 0. *)
Theorem redis_overflow :
  (fun db => map p_requests (redis_load db)) <$> redis_run [(100, seen_px (2 ^ 32 - 1)); (200, seen_px 1)] db_empty = Some [0].
Proof. vm_compute. reflexivity. Qed.
End demo.
