(* ===== verification/Scheduler.v ===== *)
(** * The re-check scheduler (src/scheduler.rs)

    One pass of the loop of [spawn_rechecker] as a function of what the clock, the random draws
    and the check answer during it. The checker and the store are used through their
    interfaces. [f64::powf] is the class [Powf]. *)
From S2P Require Import Prelude F64 Text Types Addr Proxy Pool Checker Store.
Open Scope Z_scope.

Class Powf : Type := { powf : f64 -> f64 -> f64 }.

Record RecheckConfig := {
  min_interval : Z;
  max_interval : Z;
  rate_per_sec : f64;
  decay_halflife : Z;
}.
Definition RecheckConfig_default : RecheckConfig :=
  {| min_interval := 60 * 10 ^ 9; max_interval := 3600 * 10 ^ 9; rate_per_sec := f_of_Z 5;
     decay_halflife := 21600 * 10 ^ 9 |}.

(** [None] is a panic of [from_secs_f64]. *)
Definition next_interval (e : f64) (cfg : RecheckConfig) : option Z :=
  let e := f_clamp e f_zero f_one in
  let lo := as_secs_f64 (min_interval cfg) in
  let hi := as_secs_f64 (max_interval cfg) in
  from_secs_f64 (f_add lo (f_mul e (f_sub hi lo))).

Definition decayed_score `{Powf} (e latency : f64) (age : Z) (cfg : RecheckConfig) : f64 :=
  let base := f_div (f_clamp e f_zero f_one) (f_add f_one (f_max latency f_zero)) in
  let hl := as_secs_f64 (decay_halflife cfg) in
  let decay := if f_gtb hl f_zero then powf (f_ratio 1 2) (f_div (as_secs_f64 age) hl) else f_one in
  f_mul base decay.
Definition EVICT_FLOOR : f64 := f_ratio 2 100.
Definition should_retry `{Powf} (e latency : f64) (age : Z) (cfg : RecheckConfig) : bool :=
  f_geb (decayed_score e latency age cfg) EVICT_FLOOR.

(** ** The loop *)
Record Scheduled := { due : Z; s_host : IpAddr; s_port : Z }.
Definition s_key (s : Scheduled) : Key := (s_host s, s_port s).
Definition sched (t : Z) (k : Key) : Scheduled := {| due := t; s_host := k.1; s_port := k.2 |}.

Record RState := {
  heap : list Scheduled;
  ewma : gmap Key f64;
  last_ok : gmap Key Z;
  retrying : gset Key;
  next_start : Z;
}.
Definition initial (now : Z) : RState :=
  {| heap := []; ewma := ∅; last_ok := ∅; retrying := ∅; next_start := now |}.

Definition gap (cfg : RecheckConfig) : option Z :=
  from_secs_f64 (f_div f_one (f_max (rate_per_sec cfg) (f_ratio 1 1000))).

(** [heap.pop()]: an entry of least due time; which one of several is left open ([pick]). *)
Definition least_due (h : list Scheduled) : option Z := due <$> min_by (cmp_on due Z.compare) h.
Definition pop (pick : nat) (h : list Scheduled) : option (Scheduled * list Scheduled) :=
  let? t := least_due h in
  let tops := indices (fun s => due s =? t) h in
  let? i := tops !! (pick mod length tops)%nat in
  vec_remove i h.

(** The clock readings and draws of a pass, in the order they are taken. *)
Record Tick := {
  tk_enroll : Z;
  tk_enroll_jitter : Key -> Z;
  tk_woken : Z;
  tk_start : Z;
  tk_began : Z; (* when the sleep until the start is over *)
  tk_pick : nat;
  tk_seed : Z;
  tk_stored : Z;
  tk_done : Z;
  tk_jitter : Z;
}.
(** A start: the instant it was due at by the token bucket, and the one at which it came. *)
Record Start := mkStart { st_planned : Z; st_began : Z }.
Definition starts_at (tk : Tick) (planned : Z) : Start := mkStart planned (Z.max planned (tk_began tk)).
Inductive PassEvent := PIdle | PWait | PDrop (k : Key) (start : Start) | PCheck (k : Key) (start : Start) (working : bool).

Definition enroll_one (tk : Tick) (cfg : RecheckConfig) (st : RState) (k : Key) : RState :=
  match ewma st !! k with
  | Some _ => st
  | None =>
      {| heap := heap st ++ [sched (tk_enroll tk + tk_enroll_jitter tk k) k];
         ewma := <[k := f_one]> (ewma st); last_ok := <[k := tk_enroll tk]> (last_ok st);
         retrying := retrying st; next_start := next_start st |}
  end.
Definition enroll (tk : Tick) (cfg : RecheckConfig) (addrs : gset Key) (st : RState) : RState :=
  fold_left (enroll_one tk cfg) (elements addrs) st.

Definition forget (k : Key) (st : RState) : RState :=
  {| heap := heap st; ewma := delete k (ewma st); last_ok := delete k (last_ok st);
     retrying := retrying st ∖ {[k]}; next_start := next_start st |}.

Section scheduler.
Context `{Powf} `{Prober} `{ST : Store}.

Record RWorld := mkR { rw_state : RState; rw_pool : Pool; rw_store : store }.

(** The fold of an outcome and its consequences. *)
Definition settle (cfg : RecheckConfig) (tk : Tick) (k : Key) (working : bool) (p : Proxy)
    (st : RState) (pool : Pool) : option (RState * Pool) :=
  let sample := if working then f_one else f_zero in
  let prev := default f_one (ewma st !! k) in
  let e := fold_ewma prev sample in
  let ew := <[k := e]> (ewma st) in
  let? interval := next_interval e cfg in
  let job := sched (tk_done tk + interval + tk_jitter tk) k in
  if working then
    Some ({| heap := heap st ++ [job]; ewma := ew; last_ok := <[k := tk_done tk]> (last_ok st);
             retrying := retrying st ∖ {[k]}; next_start := next_start st |}, add p pool)
  else
    let pool := (remove_addr k.1 k.2 pool).2 in
    let age := Z.max 0 (tk_done tk - default (tk_done tk) (last_ok st !! k)) in
    if should_retry e (avg_resp_time p) age cfg then
      Some ({| heap := heap st ++ [job]; ewma := ew; last_ok := last_ok st;
               retrying := {[k]} ∪ retrying st; next_start := next_start st |}, pool)
    else
      Some (forget k {| heap := heap st; ewma := ew; last_ok := last_ok st; retrying := retrying st;
                        next_start := next_start st |}, pool).

(** A pass once the entry of [k] is off the heap. The pool is shared: [checked] is what the other
    tasks did to it while this one awaited the check. *)
Definition recheck (cfg : RecheckConfig) (tk : Tick) (checked : Pool -> Pool) (k : Key) (start : Start)
    (st : RState) (pool : Pool) (db : store) : option (PassEvent * RWorld) :=
  if negb (bool_decide (k ∈ retrying st)) && negb (bool_decide (k ∈ addrs pool)) then
    Some (PDrop k start,
          mkR {| heap := heap st; ewma := delete k (ewma st); last_ok := delete k (last_ok st);
                 retrying := retrying st; next_start := next_start st |} pool db)
  else
    let? (working, p) := prober_check (tk_seed tk) (new k.1 k.2 ∅) in
    let stored := store_upsert (tk_stored tk) p db in
    let? (st, pool) := settle cfg tk k working p st (checked pool) in
    Some (PCheck k start working, mkR st pool stored).

(** One pass; [None] when a duration computation panics, which ends the task. [slept] is what the
    other tasks did to the pool while this one slept. *)
Definition pass (cfg : RecheckConfig) (tk : Tick) (slept checked : Pool -> Pool) (w : RWorld) :
    option (PassEvent * RWorld) :=
  let st := enroll tk cfg (addrs (rw_pool w)) (rw_state w) in
  let pool := slept (rw_pool w) in
  match least_due (heap st) with
  | None => Some (PIdle, mkR st pool (rw_store w))
  | Some t =>
      if tk_woken tk <? t then Some (PWait, mkR st pool (rw_store w))
      else
        let start := Z.max (next_start st) (tk_start tk) in
        let? g := gap cfg in
        let? (job, rest) := pop (tk_pick tk) (heap st) in
        let st := {| heap := rest; ewma := ewma st; last_ok := last_ok st; retrying := retrying st;
                     next_start := start + g |} in
        recheck cfg tk checked (s_key job) (starts_at tk start) st pool (rw_store w)
  end.

(** The loop: pass after pass, until a panic. *)
Fixpoint run_passes (cfg : RecheckConfig) (l : list (Tick * (Pool -> Pool) * (Pool -> Pool))) (w : RWorld) :
    list PassEvent * RWorld :=
  match l with
  | [] => ([], w)
  | (tk, slept, checked) :: l =>
      match pass cfg tk slept checked w with
      | Some (ev, w) => let r := run_passes cfg l w in (ev :: r.1, r.2)
      | None => ([], w)
      end
  end.
Definition ev_start (ev : PassEvent) : option Start :=
  match ev with PDrop _ t | PCheck _ t _ => Some t | _ => None end.

(** ** The bookkeeping agrees with the schedule *)
Record sched_ok (st : RState) : Prop := {
  ok_once : NoDup (map s_key (heap st));
  ok_ewma k : is_Some (ewma st !! k) <-> k ∈ map s_key (heap st);
  ok_last_ok k : is_Some (last_ok st !! k) <-> k ∈ map s_key (heap st);
  ok_retrying k : k ∈ retrying st -> k ∈ map s_key (heap st);
}.
Definition tracked (k : Key) (st : RState) : Prop := k ∈ map s_key (heap st).

Lemma sched_ok_initial now : sched_ok (initial now).
Proof. split; simpl; [constructor|..]; intros k; rewrite ?lookup_empty; set_solver by eauto using is_Some_None. Qed.

Lemma enroll_one_tracked tk cfg st k j : sched_ok st ->
  tracked j (enroll_one tk cfg st k) <-> j = k \/ tracked j st.
Proof.
  intros Hok. unfold enroll_one, tracked. destruct (ewma st !! k) eqn:E; simpl.
  - split; [auto|]. intros [-> | ?]; [|done]. apply (ok_ewma _ Hok). eauto.
  - rewrite map_app, elem_of_app. simpl. rewrite list_elem_of_singleton. unfold s_key, sched; simpl.
    destruct k; simpl. naive_solver.
Qed.
Lemma enroll_one_ok tk cfg st k : sched_ok st -> sched_ok (enroll_one tk cfg st k).
Proof.
  intros Hok. pose proof (enroll_one_tracked tk cfg st k) as Ht. unfold tracked in Ht.
  destruct Hok as [H1 H2 H3 H4] eqn:Eok. clear Eok.
  unfold enroll_one in *. destruct (ewma st !! k) eqn:E; [done|].
  assert (Hnk : k ∉ map s_key (heap st)) by (intros Hk%H2; rewrite E in Hk; by destruct Hk).
  simpl in *. split; simpl.
  - rewrite map_app, NoDup_app. split_and!; [done| |apply NoDup_singleton].
    intros j Hj ->%list_elem_of_singleton. destruct k. done.
  - intros j. rewrite (Ht j Hok), <- H2. destruct (decide (k = j)) as [-> | Hne].
    + rewrite lookup_insert_eq. split; [auto|]. eauto.
    + rewrite lookup_insert_ne by done. naive_solver.
  - intros j. rewrite (Ht j Hok), <- H3. destruct (decide (k = j)) as [-> | Hne].
    + rewrite lookup_insert_eq. split; [auto|]. eauto.
    + rewrite lookup_insert_ne by done. naive_solver.
  - intros j Hj. apply (Ht j Hok). auto.
Qed.
Lemma enroll_one_frame tk cfg st k :
  retrying (enroll_one tk cfg st k) = retrying st /\ next_start (enroll_one tk cfg st k) = next_start st.
Proof. unfold enroll_one. by destruct (ewma st !! k). Qed.

Lemma enroll_spec tk cfg A st : sched_ok st ->
  let st' := enroll tk cfg A st in
  sched_ok st' /\ (forall j, tracked j st' <-> j ∈ A \/ tracked j st) /\
  retrying st' = retrying st /\ next_start st' = next_start st.
Proof.
  unfold enroll. intros Hok. cbn zeta. setoid_rewrite <- (elem_of_elements A). revert st Hok.
  induction (elements A) as [|k l IH]; intros st Hok; simpl.
  - split_and!; auto. intros j. set_solver.
  - destruct (IH _ (enroll_one_ok tk cfg st k Hok)) as (H1 & H2 & H3 & H4).
    destruct (enroll_one_frame tk cfg st k) as [Hr Hn]. rewrite Hr in H3. rewrite Hn in H4.
    split_and!; try done. intros j. rewrite H2, enroll_one_tracked by done. set_solver.
Qed.

Lemma pop_spec pick h job rest : pop pick h = Some (job, rest) ->
  h ≡ₚ job :: rest /\ least_due h = Some (due job) /\ forall s, s ∈ h -> due job <= due s.
Proof.
  unfold pop. destruct (least_due h) as [t|] eqn:E; [|done].
  destruct (_ !! _) as [i|] eqn:Ei; [|done]. intros Hv.
  pose proof (vec_remove_perm _ _ _ _ Hv) as Hp.
  unfold vec_remove in Hv. destruct (h !! i) as [s|] eqn:Es; [|done]. injection Hv as -> _.
  apply list_elem_of_lookup_2, elem_of_indices in Ei as (s & Hs & Hd). simplify_eq.
  apply Z.eqb_eq in Hd as <-. split_and!; [done|done|]. intros s' Hs'.
  unfold least_due in E. destruct (min_by _ h) as [m|] eqn:Em; [|done]. injection E as E.
  pose proof (min_by_least (cmp_on due Z.compare) _ _ s' Em Hs') as Hle.
  unfold cmp_on in Hle. rewrite E in Hle. by apply Z.compare_le_iff in Hle.
Qed.
Lemma pop_is_Some pick h t : least_due h = Some t -> is_Some (pop pick h).
Proof.
  intros E. unfold pop. rewrite E. unfold least_due in E.
  destruct (min_by _ h) as [m|] eqn:Em; [|done]. injection E as E.
  pose proof (min_by_elem (cmp_on due Z.compare) _ _ Em) as [i Hi]%list_elem_of_lookup.
  assert (Hin : i ∈ indices (fun s => due s =? t) h).
  { apply elem_of_indices. exists m. split; [done|]. by apply Z.eqb_eq. }
  set (tops := indices _ h) in *.
  assert (Hlt : (pick mod length tops < length tops)%nat).
  { apply Nat.mod_upper_bound. intros Hz%nil_length_inv. rewrite Hz in Hin. by apply not_elem_of_nil in Hin. }
  apply lookup_lt_is_Some_2 in Hlt as [j Hj].
  rewrite Hj. apply list_elem_of_lookup_2, elem_of_indices in Hj as (s & Hs & _).
  unfold vec_remove. rewrite Hs. by eexists.
Qed.

(** After the entry of [k] is popped, the bookkeeping is that of [k] plus that of the others. *)
Definition popped_ok (k : Key) (st : RState) : Prop :=
  NoDup (map s_key (heap st)) /\ k ∉ map s_key (heap st) /\
  (forall j, j <> k -> is_Some (ewma st !! j) <-> j ∈ map s_key (heap st)) /\
  (forall j, j <> k -> is_Some (last_ok st !! j) <-> j ∈ map s_key (heap st)) /\
  (forall j, j ∈ retrying st -> j = k \/ j ∈ map s_key (heap st)) /\
  is_Some (last_ok st !! k).

Lemma pop_ok pick st job rest n : sched_ok st -> pop pick (heap st) = Some (job, rest) ->
  let st' := {| heap := rest; ewma := ewma st; last_ok := last_ok st; retrying := retrying st;
                next_start := n |} in
  popped_ok (s_key job) st' /\ forall j, tracked j st <-> j = s_key job \/ tracked j st'.
Proof.
  intros [H1 H2 H3 H4] (Hp & _)%pop_spec. apply (fmap_Permutation s_key) in Hp.
  change (map s_key (heap st) ≡ₚ s_key job :: map s_key rest) in Hp.
  rewrite Hp in H1. apply NoDup_cons in H1 as [Hn Hd].
  assert (Hm : forall j, j ∈ map s_key (heap st) <-> j = s_key job \/ j ∈ map s_key rest)
    by (intros j; by rewrite Hp, elem_of_cons).
  cbn zeta. unfold popped_ok, tracked; simpl. split_and!; try done.
  - intros j Hj. rewrite H2, Hm. naive_solver.
  - intros j Hj. rewrite H3, Hm. naive_solver.
  - intros j Hj%H4. by apply Hm.
  - apply H3, Hm. auto.
Qed.

(** Dropping everything about [k], or putting it back with a fresh entry. *)
Lemma dropped_ok k st R : popped_ok k st -> k ∉ R -> R ⊆ retrying st ->
  sched_ok {| heap := heap st; ewma := delete k (ewma st); last_ok := delete k (last_ok st);
              retrying := R; next_start := next_start st |}.
Proof.
  intros (H1 & H2 & H3 & H4 & H5 & _) HR Hsub. split; simpl; [done|..]; intros j.
  - destruct (decide (j = k)) as [-> | Hj].
    + rewrite lookup_delete_eq. split; [by intros [? ?] | done].
    + rewrite lookup_delete_ne by done. auto.
  - destruct (decide (j = k)) as [-> | Hj].
    + rewrite lookup_delete_eq. split; [by intros [? ?] | done].
    + rewrite lookup_delete_ne by done. auto.
  - intros Hj. destruct (H5 j) as [-> | ?]; [by apply Hsub|done|done].
Qed.
Lemma requeued_ok k st t e L R : popped_ok k st ->
  (forall j, j <> k -> L !! j = last_ok st !! j) -> is_Some (L !! k) -> R ⊆ {[k]} ∪ retrying st ->
  sched_ok {| heap := heap st ++ [sched t k]; ewma := <[k := e]> (ewma st); last_ok := L;
              retrying := R; next_start := next_start st |}.
Proof.
  intros (H1 & H2 & H3 & H4 & H5 & _) HL HLk Hsub.
  assert (Hs : s_key (sched t k) = k) by (by destruct k).
  assert (Hm : forall j, j ∈ map s_key (heap st ++ [sched t k]) <-> j = k \/ j ∈ map s_key (heap st)).
  { intros j. rewrite map_app, elem_of_app. cbn [map]. rewrite Hs, list_elem_of_singleton. tauto. }
  split; simpl.
  - rewrite map_app, NoDup_app. cbn [map]. rewrite Hs. split_and!; [done| |apply NoDup_singleton].
    by intros j Hj ->%list_elem_of_singleton.
  - intros j. rewrite Hm. destruct (decide (j = k)) as [-> | Hj].
    + rewrite lookup_insert_eq. split; eauto.
    + rewrite lookup_insert_ne by done. rewrite H3 by done. naive_solver.
  - intros j. rewrite Hm. destruct (decide (j = k)) as [-> | Hj]; [tauto|].
    rewrite HL, H4 by done. naive_solver.
  - intros j Hj. apply Hm. specialize (Hsub j Hj). apply elem_of_union in Hsub as [?%elem_of_singleton | ?]; auto.
Qed.

Lemma addrs_remove_key (k : Key) pool : addrs (remove_addr k.1 k.2 pool).2 = addrs pool ∖ {[k]}.
Proof. unfold remove_addr. rewrite addrs_remove. by destruct k. Qed.

Lemma settle_spec cfg tk k b p st pool st' pool' :
  popped_ok k st -> p_key p = k -> settle cfg tk k b p st pool = Some (st', pool') ->
  sched_ok st' /\ next_start st' = next_start st /\
  (forall j, j <> k -> (tracked j st' <-> tracked j st) /\ (j ∈ retrying st' <-> j ∈ retrying st)) /\
  addrs pool' = (if b then {[k]} ∪ addrs pool else addrs pool ∖ {[k]}) /\
  (if b then tracked k st' /\ k ∉ retrying st' /\ last_ok st' !! k = Some (tk_done tk)
   else tracked k st' /\ k ∈ retrying st' \/ ~ tracked k st' /\ k ∉ retrying st').
Proof.
  intros Hok Hp. unfold settle. destruct (next_interval _ cfg) as [iv|]; [|done].
  set (t := tk_done tk + iv + tk_jitter tk). set (e := fold_ewma _ _).
  assert (Hs : s_key (sched t k) = k) by (by destruct k).
  assert (Ht : forall j, j ∈ map s_key (heap st ++ [sched t k]) <-> j ∈ map s_key (heap st) \/ j = k).
  { intros j. rewrite map_app, elem_of_app. cbn [map]. by rewrite Hs, list_elem_of_singleton. }
  destruct b; [|destruct (should_retry _ _ _ cfg)]; intros [= <- <-]; unfold tracked; simpl.
  - split_and!; [|done|..].
    + apply requeued_ok; [done| | |set_solver].
      * intros j Hj. by rewrite lookup_insert_ne.
      * rewrite lookup_insert_eq. eauto.
    + intros j Hj. rewrite Ht. set_solver.
    + by rewrite addrs_add, Hp.
    + rewrite Ht. auto.
    + set_solver.
    + apply lookup_insert_eq.
  - split_and!; [|done|..].
    + apply requeued_ok; [done|done|apply Hok|set_solver].
    + intros j Hj. rewrite Ht. set_solver.
    + apply addrs_remove_key.
    + left. rewrite Ht. set_solver.
  - assert (Hd : sched_ok (forget k st)) by (apply dropped_ok; [done|set_solver|set_solver]).
    split_and!; [|done|..].
    + unfold forget in *; simpl in *. by rewrite delete_insert_eq.
    + set_solver.
    + apply addrs_remove_key.
    + right. split; [apply Hok|set_solver].
Qed.

(** What an event says of the state before it ([known]: tracked or pooled then), the pool the pass
    saw ([seen]) and met again after the check ([met]), and the world after it. *)
Definition event_ok (tk : Tick) (known : Key -> Prop) (R : gset Key) (seen met : Pool) (db : store)
    (ev : PassEvent) (w' : RWorld) : Prop :=
  let st' := rw_state w' in
  match ev with
  | PIdle | PWait =>
      (forall j, tracked j st' <-> known j) /\ rw_pool w' = seen /\ rw_store w' = db
  | PDrop k _ =>
      known k /\ k ∉ addrs seen /\ k ∉ R /\ ~ tracked k st' /\
      (forall j, j <> k -> tracked j st' <-> known j) /\ rw_pool w' = seen /\ rw_store w' = db
  | PCheck k _ b =>
      known k /\ (k ∈ addrs seen \/ k ∈ R) /\
      (forall j, j <> k -> (tracked j st' <-> known j) /\ (j ∈ retrying st' <-> j ∈ R)) /\
      (exists p, prober_check (tk_seed tk) (new k.1 k.2 ∅) = Some (b, p) /\ p_key p = k /\
                 rw_store w' = store_upsert (tk_stored tk) p db) /\
      addrs (rw_pool w') = (if b then {[k]} ∪ addrs met else addrs met ∖ {[k]}) /\
      (if b then tracked k st' /\ k ∉ retrying st' /\ last_ok st' !! k = Some (tk_done tk)
       else tracked k st' /\ k ∈ retrying st' \/ ~ tracked k st' /\ k ∉ retrying st')
  end.

Lemma recheck_spec cfg tk checked k start st pool db known ev w' :
  popped_ok k st -> (forall j, known j <-> j = k \/ tracked j st) ->
  recheck cfg tk checked k start st pool db = Some (ev, w') ->
  sched_ok (rw_state w') /\ next_start (rw_state w') = next_start st /\ ev_start ev = Some start /\
  event_ok tk known (retrying st) pool (checked pool) db ev w'.
Proof.
  intros Hpop Hkn. unfold recheck. destruct (negb _ && negb _) eqn:Ed.
  - intros [= <- <-]. bsimp. split; [by apply (dropped_ok k st)|]. simpl.
    split_and!; try done; [apply Hkn; auto|apply Hpop|]. intros j Hj. rewrite Hkn. naive_solver.
  - destruct (prober_check _ _) as [[b p]|] eqn:Ep; [|done].
    pose proof (prober_key _ _ _ _ Ep) as Hp. replace (p_key (new k.1 k.2 ∅)) with k in Hp by (by destruct k).
    destruct (settle _ _ _ _ _ _ _) as [[st3 pool3]|] eqn:Es; [|done]. intros [= <- <-].
    destruct (settle_spec _ _ _ _ _ _ _ _ _ Hpop Hp Es) as (H1 & H2 & H3 & H4 & H5).
    split_and!; [done|done|done|]. split_and!; [apply Hkn; auto| | |by exists p|done|done].
    + apply andb_false_iff in Ed as [Ed | Ed]; bsimp; auto.
    + intros j Hj. destruct (H3 j Hj) as [H6 H7]. simpl. rewrite H6, H7, Hkn. naive_solver.
Qed.

Lemma pass_spec cfg tk slept checked w ev w' :
  sched_ok (rw_state w) -> pass cfg tk slept checked w = Some (ev, w') ->
  sched_ok (rw_state w') /\
  event_ok tk (fun j => j ∈ addrs (rw_pool w) \/ tracked j (rw_state w)) (retrying (rw_state w))
    (slept (rw_pool w)) (checked (slept (rw_pool w))) (rw_store w) ev w' /\
  match ev_start ev with
  | None => next_start (rw_state w') = next_start (rw_state w)
  | Some t => exists g, gap cfg = Some g /\ t = starts_at tk (Z.max (next_start (rw_state w)) (tk_start tk)) /\
                        next_start (rw_state w') = st_planned t + g
  end.
Proof.
  intros Hok. unfold pass.
  destruct (enroll_spec tk cfg (addrs (rw_pool w)) (rw_state w) Hok) as (Hok' & Hkn & Hre & Hn).
  revert Hok' Hkn Hre Hn. generalize (enroll tk cfg (addrs (rw_pool w)) (rw_state w)) as st1.
  intros st1 Hok' Hkn Hre Hn.
  destruct (least_due (heap st1)) as [t|]; [|by intros [= <- <-]].
  destruct (tk_woken tk <? t); [by intros [= <- <-]|].
  destruct (gap cfg) as [g|]; [|done]. destruct (pop _ _) as [[job rest]|] eqn:Epop; [|done].
  destruct (pop_ok _ _ _ _ (Z.max (next_start st1) (tk_start tk) + g) Hok' Epop) as [Hpop Ht].
  intros Hr. eapply recheck_spec in Hr as (H1 & H2 & H3 & H4); [|exact Hpop|].
  - split; [done|]. simpl in H4. rewrite Hre in H4. split; [exact H4|]. rewrite H3, H2, <- Hn. exists g. done.
  - intros j. cbn beta. by rewrite <- Hkn, Ht.
Qed.

(** C28: one pass of the re-check loop, whatever the other tasks do to the pool meanwhile: the
    heap, the scores, the last-success times and the retry set stay in step (each tracked address
    is scheduled exactly once); every address the pool showed is tracked. A due address that is
    neither pooled nor being retried was removed by somebody else: it is forgotten, not probed, and
    pool and store are untouched. Otherwise the store learns of its check, a success puts it in the
    pool, on schedule and off the retry set, a failure takes it out of the pool and either keeps it
    scheduled for a retry or forgets it; no other address is affected. *)
Theorem pass_sound : forall cfg tk slept checked w ev w',
  sched_ok (rw_state w) -> pass cfg tk slept checked w = Some (ev, w') ->
  let seen := slept (rw_pool w) in
  sched_ok (rw_state w') /\
  event_ok tk (fun j => j ∈ addrs (rw_pool w) \/ tracked j (rw_state w)) (retrying (rw_state w))
    seen (checked seen) (rw_store w) ev w'.
Proof. intros cfg tk slept checked w ev w' Hok (H1 & H2 & _)%pass_spec; done. Qed.

(** The starts of a run: each comes when it is due or later, and is due at least a gap after the
    one before it was. *)
Lemma run_passes_starts cfg l : forall w evs w' g,
  sched_ok (rw_state w) -> gap cfg = Some g -> run_passes cfg l w = (evs, w') ->
  sched_ok (rw_state w') /\
  forall j t, omap ev_start evs !! j = Some t ->
    st_planned t <= st_began t /\ next_start (rw_state w) + Z.of_nat j * g <= st_planned t /\
    forall i s, (i < j)%nat -> omap ev_start evs !! i = Some s -> st_planned s + Z.of_nat (j - i) * g <= st_planned t.
Proof.
  induction l as [|[[tk slept] checked] l IH]; simpl; intros w evs w' g Hok Hg.
  - intros [= <- <-]. by split.
  - destruct (pass _ _ _ _ w) as [[ev w1]|] eqn:Ep.
    2: { intros [= <- <-]. by split. }
    destruct (run_passes cfg l w1) as [evs1 w2] eqn:El. intros [= <- <-].
    destruct (pass_spec _ _ _ _ _ _ _ Hok Ep) as (Hok1 & _ & Hs).
    destruct (IH _ _ _ _ Hok1 Hg El) as [Hok2 IH']. split; [done|]. simpl.
    destruct (ev_start ev) as [t0|].
    + destruct Hs as (g' & Hg' & -> & Hn). rewrite Hg in Hg'. injection Hg' as <-. simpl in Hn.
      intros [|j] t; simpl; [intros [= <-]; simpl; split_and!; [lia|lia|intros i s Hi; lia]|]. intros Ht. destruct (IH' _ _ Ht) as (H1 & H2 & H3).
      split; [done|]. split; [lia|]. intros [|i] s Hi; simpl; [intros [= <-]; simpl; lia|]. intros Hs. apply (H3 i); [lia|done].
    + intros j t Ht. rewrite <- Hs. by apply IH'.
Qed.

(** C40: the start-rate ceiling. A start comes when the token bucket lets it or later, as the sleeping
    task wakes. Whatever the passes do and however many proxies are due, the [j]-th start of a run, from
    0, does not come before [j] gaps have passed since the bucket's first instant, so the bucket never
    lets a burst through; and it comes at least [j - i] gaps after the instant the [i]-th was due at:
    two starts can be closer than their gaps only by as much as the earlier came late. The gap is what
    the code computes: one over the rate, or over 0.001 for a lower rate, as a double rounded to
    nanoseconds. *)
Theorem rate_ceiling : forall cfg g l w evs w',
  sched_ok (rw_state w) -> gap cfg = Some g -> run_passes cfg l w = (evs, w') ->
  sched_ok (rw_state w') /\
  (forall j t, omap ev_start evs !! j = Some t ->
     st_planned t <= st_began t /\ next_start (rw_state w) + Z.of_nat j * g <= st_began t) /\
  forall i j s t, (i < j)%nat -> omap ev_start evs !! i = Some s -> omap ev_start evs !! j = Some t ->
    st_planned s + Z.of_nat (j - i) * g <= st_planned t /\
    Z.of_nat (j - i) * g - (st_began s - st_planned s) <= st_began t - st_began s.
Proof.
  intros cfg g l w evs w' Hok Hg E. destruct (run_passes_starts _ _ _ _ _ _ Hok Hg E) as [H1 H2]. split; [done|]. split.
  - intros j t Ht. destruct (H2 j t Ht) as (A & B & _). lia.
  - intros i j s t Hij Hs Ht. destruct (H2 j t Ht) as (A & _ & B). specialize (B i s Hij Hs). lia.
Qed.
End scheduler.

(** ** A run: a pooled proxy is checked and fails, another is deleted while it waits *)
Definition demo_powf : Powf := {| powf x _ := x |}.
Definition demo_prober (answer : Proxy -> bool) : Prober.
Proof. refine {| prober_check _ p := Some (answer p, p) |}. by intros seed p b p' [= _ ->]. Defined.
Definition demo_tick (t : Z) : Tick :=
  {| tk_enroll := t; tk_enroll_jitter := fun k => 60 * 10 ^ 9 + k.2; tk_woken := t + 61 * 10 ^ 9;
     tk_start := t + 61 * 10 ^ 9; tk_began := t + 61 * 10 ^ 9 + 5; tk_pick := 0; tk_seed := 0; tk_stored := 0; tk_done := t + 62 * 10 ^ 9;
     tk_jitter := 0 |}.
Definition demo_key : Key := (V4 1, 80).
Definition demo_world : RWorld (ST := memory_store) :=
  mkR (ST := memory_store) (initial 0)
      (from_proxies (H := ascii_case) [new (V4 1) 80 ∅; new (V4 2) 81 ∅] PoolConfig_default) ∅.
Definition demo_passes : list (Tick * (Pool -> Pool) * (Pool -> Pool)) :=
  [(demo_tick 0, id, id); (demo_tick (61 * 10 ^ 9), fun p => (remove (V4 2) 81 p).2, id)].
Definition demo_run := run_passes (H := demo_powf) (H0 := demo_prober (fun _ => false)) (ST := memory_store)
  RecheckConfig_default demo_passes demo_world.
Example demo_run_events : demo_run.1 =
  [PCheck (V4 1, 80) (mkStart 61000000000 61000000005) false; PDrop (V4 2, 81) (mkStart 122000000000 122000000005)].
Proof. vm_compute. reflexivity. Qed.

Definition demo_pass := pass (H := demo_powf) (H0 := demo_prober (fun _ => true)) (ST := memory_store)
  RecheckConfig_default (demo_tick 0) id id demo_world.
Lemma pass_sound_witness : exists w',
  demo_pass = Some (PCheck demo_key (mkStart (61 * 10 ^ 9) (61 * 10 ^ 9 + 5)) true, w') /\
  sched_ok (rw_state w') /\ demo_key ∈ addrs (rw_pool w').
Proof.
  assert (E0 : fst <$> demo_pass = Some (PCheck demo_key (mkStart (61 * 10 ^ 9) (61 * 10 ^ 9 + 5)) true)) by (vm_compute; reflexivity).
  destruct demo_pass as [[ev w']|] eqn:E; [|discriminate E0]. injection E0 as ->.
  exists w'. destruct (pass_sound (H := demo_powf) (H0 := demo_prober (fun _ => true)) (ST := memory_store)
    RecheckConfig_default (demo_tick 0) id id demo_world _ w' (sched_ok_initial 0) E) as [H1 H2].
  split; [reflexivity|]. split; [exact H1|]. simpl in H2. destruct H2 as (_ & _ & _ & _ & -> & _).
  apply elem_of_union_l, elem_of_singleton. reflexivity.
Defined.

Lemma rate_ceiling_witness : exists g, gap RecheckConfig_default = Some g /\ g = 200000000 /\
  1 * g - 5 <= 122000000005 - 61000000005.
Proof.
  exists 200000000. assert (Hg : gap RecheckConfig_default = Some 200000000) by (vm_compute; reflexivity).
  split; [exact Hg|]. split; [reflexivity|].
  apply (proj2 (proj2 (rate_ceiling (H := demo_powf) (H0 := demo_prober (fun _ => false)) (ST := memory_store)
    RecheckConfig_default 200000000 demo_passes demo_world demo_run.1 demo_run.2 (sched_ok_initial 0) Hg
    (surjective_pairing _))) 0%nat 1%nat (mkStart 61000000000 61000000005) (mkStart 122000000000 122000000005));
    [lia| |]; rewrite demo_run_events; reflexivity.
Defined.
