(* ===== verification/Provider.v ===== *)
(** * Providers and address extraction (src/provider.rs, src/parse.rs)

    The two scanners that pair addresses with ports, and the extraction of candidates from a
    page. The regular expressions are the class [Regexes] (Utils.v) and, for a provider's own
    pattern, the class [Captures]. *)
From S2P Require Import Prelude Text Types Addr Utils Proxy.
Open Scope Z_scope.

(** [Regex::new(pattern)] and [captures_iter(body)]: for each match the whole text and groups 1
    and 2. [None] is an invalid pattern. *)
Class Captures : Type := {
  captures_iter : str -> str -> option (list (str * option str * option str));
}.

Record ProviderSpec := {
  ps_url : str;
  ps_protocols : list Proto;
  ps_pattern : option str;
  ps_timeout : Z;
  ps_kind : option str;
}.
(** [ProviderSpec::new]. *)
Definition provider_spec (url : str) (protocols : list Proto) : ProviderSpec :=
  {| ps_url := url; ps_protocols := protocols; ps_pattern := None; ps_timeout := 20; ps_kind := None |}.
Record Candidate := { cd_host : str; cd_port : Z; cd_protocols : gset Proto }.
#[export] Instance Candidate_eq_dec : EqDecision Candidate.
Proof. solve_decision. Defined.
Definition cd_key (c : Candidate) : str * Z := (cd_host c, cd_port c).

Section scanners.
Context `{Regexes}.

(** ** One address per line *)
Definition find_addr_in_line (line : str) : option (str * str) :=
  let? (a, b) := ipv4_find_at line 0 in
  let rest := drop b line in
  let? (c, d) := port_find_at rest 0 in
  Some (slice a b line, slice c d rest).
Definition find_addrs_line (text : str) : list (str * str) :=
  omap find_addr_in_line (split_char LF text).

Definition parse_proxy_line (pr : str * str) : option Proxy :=
  let? ip := parse_ip_lenient pr.1 in
  let? port := parse_u16 pr.2 in
  Some (new ip port ∅).
Definition parse_proxy_lines (text : str) : list Proxy := omap parse_proxy_line (find_addrs_line text).

(** ** Every address of a text

    [port_after text b]: the port paired with an address that ends at [b]. *)
Definition port_after (text : str) (b : nat) : option str :=
  match port_find_at text b, ipv4_find_at text b with
  | Some (c, d), Some (i, _) => if (c <? i)%nat then Some (slice c d text) else Some []
  | Some (c, d), None => Some (slice c d text)
  | None, Some _ => Some []
  | None, None => None
  end.
Fixpoint find_addrs_from (fuel search_from : nat) (text : str) : list (str * str) :=
  match fuel with
  | O => []
  | S fuel =>
      match ipv4_find_at text search_from with
      | None => []
      | Some (a, b) =>
          match port_after text b with
          | Some port => (slice a b text, port) :: find_addrs_from fuel b text
          | None => find_addrs_from fuel b text
          end
      end
  end.
(** A match is not empty, so there are at most as many as characters. *)
Definition find_addrs_global (text : str) : list (str * str) := find_addrs_from (S (length text)) 0 text.

(** ** Candidates of a page *)
Context `{Captures}.

Definition extract_with_pattern (pattern body : str) : list (str * str) :=
  match captures_iter pattern body with
  | None => []
  | Some caps =>
      omap (fun '(whole, g1, g2) =>
        match g1, g2 with
        | Some h, Some p => Some (h, p)
        | _, _ => rsplit_once ":"%char whole
        end) caps
  end.

Definition candidate_of (protocols : gset Proto) (pr : str * str) : option Candidate :=
  let? port := parse_u16 pr.2 in
  if port =? 0 then None
  else
    let? host := canonicalize_ip pr.1 in
    match ip_parse host with
    | Some ip => if is_unspecified ip then None
                 else Some {| cd_host := host; cd_port := port; cd_protocols := protocols |}
    | None => Some {| cd_host := host; cd_port := port; cd_protocols := protocols |}
    end.
Fixpoint extract_loop (protocols : gset Proto) (pairs : list (str * str)) (seen : gset (str * Z)) : list Candidate :=
  match pairs with
  | [] => []
  | pr :: pairs =>
      match candidate_of protocols pr with
      | None => extract_loop protocols pairs seen
      | Some cand =>
          if decide (cd_key cand ∈ seen) then extract_loop protocols pairs seen
          else cand :: extract_loop protocols pairs ({[cd_key cand]} ∪ seen)
      end
  end.
Definition pairs_of (spec : ProviderSpec) (body : str) : list (str * str) :=
  match ps_pattern spec with
  | Some pat => extract_with_pattern pat body
  | None => find_addrs_global body
  end.
Definition extract (spec : ProviderSpec) (body : str) : list Candidate :=
  extract_loop (list_to_set (ps_protocols spec)) (pairs_of spec body) ∅.

(** [fetch], from the page's text when the request succeeded. *)
Definition provider_fetch (spec : ProviderSpec) (page : option str) : list Candidate :=
  match page with Some body => extract spec body | None => [] end.
End scanners.

(** ** What the scanners and the extraction find *)
Section provider_facts.
Context `{R : Regexes} `{C : Captures}.

Lemma ipv4_range text i a b : ipv4_find_at text i = Some (a, b) -> (i <= a < b)%nat /\ (b <= length text)%nat.
Proof. apply find_at_range. auto. Qed.

(** The fuel is enough: any larger amount gives the same. *)
Lemma find_addrs_from_fuel text n m i :
  (length text - i < n)%nat -> (length text - i < m)%nat ->
  find_addrs_from n i text = find_addrs_from m i text.
Proof.
  revert m i. induction n as [|n IH]; intros m i Hn Hm; [lia|]. destruct m as [|m]; [lia|]. simpl.
  destruct (ipv4_find_at text i) as [[a b]|] eqn:E; [|done]. apply ipv4_range in E as [? ?].
  rewrite (IH m) by lia. done.
Qed.

Lemma find_addrs_from_iter text n i :
  map fst (find_addrs_from n i text) = find_iter_from ipv4_find_at n i text \/
  exists h, map fst (find_addrs_from n i text) ++ [h] = find_iter_from ipv4_find_at n i text.
Proof.
  revert i. induction n as [|n IH]; intros i; simpl; [auto|].
  destruct (ipv4_find_at text i) as [[a b]|] eqn:E; [|auto].
  destruct (port_after text b) as [port|] eqn:Ep; simpl.
  - destruct (IH b) as [-> | [h <-]]; eauto.
  - right. exists (slice a b text). unfold port_after in Ep.
    destruct (port_find_at text b) as [[c d]|], (ipv4_find_at text b) as [[i' ?]|] eqn:E4;
      try done; [by destruct (c <? i')%nat|].
    destruct n; simpl; rewrite ?E4; done.
Qed.

Lemma find_addrs_from_elem text n i h p : (h, p) ∈ find_addrs_from n i text ->
  exists a b, h = slice a b text /\ port_after text b = Some p.
Proof.
  revert i. induction n as [|n IH]; intros i; simpl; [by intros ?%elem_of_nil|].
  destruct (ipv4_find_at text i) as [[a b]|]; [|by intros ?%elem_of_nil].
  destruct (port_after text b) as [port|] eqn:Ep; [|apply IH].
  intros [[= -> ->] | Hin]%elem_of_cons; [eauto|by eapply IH].
Qed.

(** The whole-text scanner pairs every address of the page, in order and once per match: the
    addresses are exactly the successive matches of the address pattern, except that the last one
    is left out when nothing follows it; each port is empty or a match of the port pattern that
    starts before the next address. *)
Theorem find_addrs_global_sound : forall text,
  (map fst (find_addrs_global text) = find_iter ipv4_find_at text \/
   exists h, map fst (find_addrs_global text) ++ [h] = find_iter ipv4_find_at text) /\
  forall h p, (h, p) ∈ find_addrs_global text -> p <> [] ->
    exists a b c d, h = slice a b text /\ port_find_at text b = Some (c, d) /\ p = slice c d text /\
      forall i j, ipv4_find_at text b = Some (i, j) -> (c < i)%nat.
Proof.
  intros text. split; [apply find_addrs_from_iter|].
  intros h p (a & b & -> & Hp)%find_addrs_from_elem Hne. exists a, b. unfold port_after in Hp.
  destruct (port_find_at text b) as [[c d]|]; [exists c, d|by destruct (ipv4_find_at text b) as [[]|]; simplify_eq].
  destruct (ipv4_find_at text b) as [[i j]|]; [|simplify_eq; naive_solver].
  destruct (Nat.ltb_spec c i); simplify_eq. split_and!; [done..|]. by intros ? ? [= <- <-].
Qed.

Lemma extract_loop_sound protocols pairs seen :
  NoDup (map cd_key (extract_loop protocols pairs seen)) /\
  (forall k, k ∈ map cd_key (extract_loop protocols pairs seen) -> k ∉ seen) /\
  (forall c, c ∈ extract_loop protocols pairs seen <->
             c ∈ omap (candidate_of protocols) pairs /\ cd_key c ∉ seen).
Proof.
  assert (forall pr c, candidate_of protocols pr = Some c -> cd_protocols c = protocols) as Hprot.
  { clear. intros pr c. unfold candidate_of. repeat case_match; intros; simplify_eq/=; done. }
  assert (forall (l : list (str * str)) c, c ∈ omap (candidate_of protocols) l -> cd_protocols c = protocols) as Hprots.
  { intros l c (pr & _ & Hpr)%list_elem_of_omap. by eapply Hprot. }
  revert seen. induction pairs as [|pr pairs IH]; intros seen; simpl.
  - split_and!; [constructor|by intros k ?%elem_of_nil|]. intros c. set_solver.
  - destruct (candidate_of protocols pr) as [cand|] eqn:Ec; [|apply IH].
    destruct (decide (cd_key cand ∈ seen)) as [Hs|Hs].
    + destruct (IH seen) as (H1 & H2 & H3). split_and!; [done|done|].
      intros c. rewrite H3, elem_of_cons. naive_solver.
    + destruct (IH ({[cd_key cand]} ∪ seen)) as (H1 & H2 & H3). simpl. split_and!.
      * apply NoDup_cons. split; [|done]. intros Hk%H2. set_solver.
      * intros k [-> | Hk]%elem_of_cons; [done|]. apply H2 in Hk. set_solver.
      * intros c. rewrite !elem_of_cons, H3. split; [intros [-> | ?]; set_solver|].
        intros [[-> | Hc] Hn]; [auto|]. destruct (decide (cd_key c = cd_key cand)) as [Hk|]; [|set_solver].
        left. pose proof (Hprots _ _ Hc) as Hpc. pose proof (Hprot _ _ Ec) as Hpd.
        destruct c, cand; unfold cd_key in Hk; simpl in *. congruence.
Qed.

(** C25: a page's candidates are exactly the valid pairs found in it, each address once: a port in
    1..=65535 and a canonical address that does not read as an unspecified one (one with a zone does not read as
    an address at all), with the provider's
    protocols; a failed fetch yields none. *)
Theorem extract_sound : forall spec body,
  NoDup (map cd_key (extract spec body)) /\ provider_fetch spec None = [] /\
  forall c, c ∈ extract spec body <->
    cd_protocols c = list_to_set (ps_protocols spec) /\ 0 < cd_port c <= 65535 /\
    ip_parse (cd_host c) <> Some (V4 0) /\ ip_parse (cd_host c) <> Some (V6 0) /\
    exists raw_host raw_port, (raw_host, raw_port) ∈ pairs_of spec body /\
      parse_u16 raw_port = Some (cd_port c) /\ canonicalize_ip raw_host = Some (cd_host c).
Proof.
  intros spec body. destruct (extract_loop_sound (list_to_set (ps_protocols spec)) (pairs_of spec body) ∅) as (H1 & _ & H3).
  split; [exact H1|]. split; [done|]. intros c. unfold extract. rewrite H3, list_elem_of_omap. split.
  - intros [([h p] & Hin & Hc) _]. unfold candidate_of in Hc. simpl in Hc.
    destruct (parse_u16 p) as [port|] eqn:Ep; [|done]. destruct (Z.eqb_spec port 0); [done|].
    pose proof (parse_uint_bounds _ _ _ Ep). destruct (canonicalize_ip h) as [host|] eqn:Eh; [|done].
    assert (c = {| cd_host := host; cd_port := port; cd_protocols := list_to_set (ps_protocols spec) |} /\
            forall ip, ip_parse host = Some ip -> is_unspecified ip = false) as [-> Hu].
    { destruct (ip_parse host) as [ip|]; [|by simplify_eq].
      destruct (is_unspecified ip) eqn:Eu; simplify_eq. split; [done|]. by intros ? [= <-]. }
    simpl. split_and!; [done|lia|lia|by intros Hv%Hu|by intros Hv%Hu|eauto].
  - intros (Hp & Hb & H4 & H6 & h & p & Hin & Ep & Eh). split; [|set_solver]. exists (h, p). split; [done|].
    unfold candidate_of; simpl. rewrite Ep, Eh. destruct (Z.eqb_spec (cd_port c) 0); [lia|].
    rewrite <- Hp. destruct (ip_parse (cd_host c)) as [[a|a]|]; [| |by destruct c].
    + destruct (Z.eqb_spec a 0) as [-> |]; [done|]. simpl. destruct (Z.eqb_spec a 0); [done|by destruct c].
    + destruct (Z.eqb_spec a 0) as [-> |]; [done|]. simpl. destruct (Z.eqb_spec a 0); [done|by destruct c].
Qed.
End provider_facts.
