(* ===== verification/Stats.v ===== *)
(** * Aggregate statistics (src/stats.rs)

    The incremental collector and its summary; counts of the [usize] fields are naturals, the
    error histogram keeps the width of a [u32]. *)
From S2P Require Import Prelude F64 Text Types Addr Proxy.
Open Scope Z_scope.

#[export] Instance AnonLevel_countable : Countable AnonLevel.
Proof.
  refine (inj_countable' (fun l => match l with Transparent => 0%nat | Anonymous => 1%nat | High => 2%nat end)
    (fun n => match n with 0%nat => Transparent | 1%nat => Anonymous | _ => High end) _).
  by intros [].
Defined.

Record StatsCollector := {
  sc_total : nat;
  sc_working : nat;
  sc_by_protocol : gmap Proto nat;
  sc_by_anonymity : gmap AnonLevel nat;
  sc_by_country : gmap str nat;
  sc_errors : gmap str Z;
  sc_resp_times : list f64;
}.
Definition collector_default : StatsCollector :=
  {| sc_total := 0; sc_working := 0; sc_by_protocol := ∅; sc_by_anonymity := ∅; sc_by_country := ∅;
     sc_errors := ∅; sc_resp_times := [] |}.

(** [*map.entry(k).or_default() += 1]. *)
Definition bump `{Countable K} (k : K) (m : gmap K nat) : gmap K nat := <[k := S (default 0%nat (m !! k))]> m.
Definition country_of (p : Proxy) : str := match p_geo p with Some c => c_code c | None => lit "--" end.

Definition record_type (m : gmap Proto nat * gmap AnonLevel nat) (t : Proto * option AnonLevel) :
    gmap Proto nat * gmap AnonLevel nat :=
  let '(q, level) := t in
  (bump q m.1,
   if decide (q = Http) then match level with Some l => bump l m.2 | None => m.2 end else m.2).
Definition record_errors (errs : gmap ProxyError Z) (m : gmap str Z) : gmap str Z :=
  map_fold (fun e n m => <[error_as_str e := u32 (default 0 (m !! error_as_str e) + n)]> m) m errs.

Definition record (c : StatsCollector) (p : Proxy) : StatsCollector :=
  let counts := fold_left record_type (types_list (p_types p)) (sc_by_protocol c, sc_by_anonymity c) in
  let art := avg_resp_time p in
  {| sc_total := S (sc_total c);
     sc_working := if is_working p then S (sc_working c) else sc_working c;
     sc_by_protocol := counts.1;
     sc_by_anonymity := counts.2;
     sc_by_country := bump (country_of p) (sc_by_country c);
     sc_errors := record_errors (p_errors p) (sc_errors c);
     sc_resp_times := if f_gtb art f_zero then sc_resp_times c ++ [art] else sc_resp_times c |}.

Record Stats := {
  st_total : nat;
  st_working : nat;
  st_by_protocol : gmap Proto nat;
  st_by_anonymity : gmap AnonLevel nat;
  st_by_country : gmap str nat;
  st_errors : gmap str Z;
  st_avg_resp_time : f64;
  st_p50 : f64;
  st_p90 : f64;
  st_p95 : f64;
}.
Definition finish (c : StatsCollector) : Stats :=
  {| st_total := sc_total c; st_working := sc_working c; st_by_protocol := sc_by_protocol c;
     st_by_anonymity := sc_by_anonymity c; st_by_country := sc_by_country c; st_errors := sc_errors c;
     st_avg_resp_time := mean2 (sc_resp_times c);
     st_p50 := percentile (sc_resp_times c) (f_ratio 50 100);
     st_p90 := percentile (sc_resp_times c) (f_ratio 90 100);
     st_p95 := percentile (sc_resp_times c) (f_ratio 95 100) |}.
Definition collect (ps : list Proxy) : StatsCollector := fold_left record ps collector_default.
Definition stats_from_proxies (ps : list Proxy) : Stats := finish (collect ps).

(** ** What the counts count *)
Definition tally {A} (f : A -> bool) (l : list A) : nat := length (List.filter f l).
Definition http_level (l : AnonLevel) (p : Proxy) : bool := bool_decide (p_types p !! Http = Some (Some l)).
(** The errors of a histogram that are shown as [s]. *)
Definition errors_shown (s : str) (errs : gmap ProxyError Z) : Z :=
  map_fold (fun e n acc => (if decide (error_as_str e = s) then n else 0) + acc) 0 errs.
Definition sum (l : list Z) : Z := fold_right Z.add 0 l.

Lemma bump_lookup `{Countable K} (k j : K) m :
  default 0%nat (bump k m !! j) = (default 0%nat (m !! j) + (if decide (j = k) then 1 else 0))%nat.
Proof.
  unfold bump. destruct (decide (j = k)) as [-> | Hne]; [rewrite lookup_insert_eq; simpl; lia|].
  rewrite lookup_insert_ne by done. lia.
Qed.
Lemma tally_snoc {A} (f : A -> bool) l x : tally f (l ++ [x]) = (tally f l + (if f x then 1 else 0))%nat.
Proof. unfold tally. rewrite List.filter_app, length_app. simpl. by destruct (f x). Qed.

Lemma record_types_protocol l m q :
  default 0%nat ((fold_left record_type l m).1 !! q) =
  (default 0%nat (m.1 !! q) + length (List.filter (fun t => bool_decide (t.1 = q)) l))%nat.
Proof.
  revert m. induction l as [|[r level] l IH]; intros m; simpl; [lia|]. rewrite IH. simpl. rewrite bump_lookup.
  destruct (decide (q = r)) as [-> | Hne].
  - rewrite bool_decide_eq_true_2 by done. simpl. lia.
  - rewrite bool_decide_eq_false_2 by congruence. lia.
Qed.
Lemma record_types_anonymity l m a :
  default 0%nat ((fold_left record_type l m).2 !! a) =
  (default 0%nat (m.2 !! a) + length (List.filter (fun t => bool_decide (t = (Http, Some a))) l))%nat.
Proof.
  revert m. induction l as [|[r level] l IH]; intros m; simpl; [lia|]. rewrite IH. simpl.
  destruct (decide (r = Http)) as [-> | Hne].
  - destruct level as [b|]; [rewrite bump_lookup|].
    + destruct (decide (a = b)) as [-> | ?].
      * rewrite bool_decide_eq_true_2 by done. simpl. lia.
      * rewrite bool_decide_eq_false_2 by congruence. lia.
    + rewrite bool_decide_eq_false_2 by congruence. lia.
  - rewrite bool_decide_eq_false_2 by congruence. lia.
Qed.

(** A proxy contributes one to each of its protocols, and to one level when it serves HTTP. *)
Lemma types_list_protocol t q :
  length (List.filter (fun x => bool_decide (x.1 = q)) (types_list t)) =
  if bool_decide (is_Some (t !! q)) then 1%nat else 0%nat.
Proof.
  unfold types_list. cbn [omap list_omap Protos.ALL].
  destruct (t !! Http) eqn:E1, (t !! Https) eqn:E2, (t !! Socks4) eqn:E3, (t !! Socks5) eqn:E4,
    (t !! Connect80) eqn:E5, (t !! Connect25) eqn:E6; destruct q;
    rewrite ?E1, ?E2, ?E3, ?E4, ?E5, ?E6; reflexivity.
Qed.
Lemma types_list_level t a :
  length (List.filter (fun x => bool_decide (x = (Http, Some a))) (types_list t)) =
  if bool_decide (t !! Http = Some (Some a)) then 1%nat else 0%nat.
Proof.
  unfold types_list. cbn [omap list_omap Protos.ALL].
  assert (forall (q : Proto) (x : option (option AnonLevel)) l, q <> Http ->
    List.filter (fun x => bool_decide (x = (Http, Some a)))
      (match (fun l => (q, l)) <$> x with Some y => y :: l | None => l end) =
    List.filter (fun x => bool_decide (x = (Http, Some a))) l) as Hne.
  { intros q [x|] l Hq; simpl; [|done]. rewrite bool_decide_eq_false_2 by congruence. done. }
  destruct (t !! Http) as [[b|]|]; simpl; rewrite !Hne by done; simpl.
  - destruct (decide (b = a)) as [-> | Hb].
    + rewrite !bool_decide_eq_true_2 by done. done.
    + rewrite !bool_decide_eq_false_2 by congruence. done.
  - rewrite ?bool_decide_eq_false_2 by congruence. done.
  - rewrite ?bool_decide_eq_false_2 by congruence. done.
Qed.

Lemma wrap_idem a : u32 (u32 a) = u32 a.
Proof. apply wrap_small, wrap_bounds. done. Qed.
Lemma wrap_add_l a b : u32 (u32 a + b) = u32 (a + b).
Proof. unfold wrap. by rewrite Zplus_mod_idemp_l. Qed.

Lemma record_errors_lookup errs m s :
  (forall s, default 0 (m !! s) = u32 (default 0 (m !! s))) ->
  default 0 (record_errors errs m !! s) = u32 (default 0 (m !! s) + errors_shown s errs).
Proof.
  intros Hm. unfold record_errors, errors_shown.
  induction errs as [|e n errs He Hf IH] using map_first_key_ind.
  - rewrite !map_fold_empty, Z.add_0_r. apply Hm.
  - rewrite !map_fold_insert_first_key by done.
    destruct (decide (error_as_str e = s)) as [-> | Hs].
    + rewrite lookup_insert_eq. simpl. rewrite IH, wrap_add_l. f_equal. lia.
    + by rewrite lookup_insert_ne, IH by done.
Qed.

(** The statistics over any batch of proxies: how many were seen and how many work; per
    protocol the number that confirmed it, per level the HTTP proxies of that level, per country
    the proxies located there (those without a location under two dashes), per shown error the
    sum over the batch modulo 2^32; and one mean time for each proxy that has a positive one. *)
Theorem collect_counts : forall ps,
  let c := collect ps in
  sc_total c = length ps /\ sc_working c = tally is_working ps /\
  (forall q, default 0%nat (sc_by_protocol c !! q) = tally (has_type q) ps) /\
  (forall l, default 0%nat (sc_by_anonymity c !! l) = tally (http_level l) ps) /\
  (forall k, default 0%nat (sc_by_country c !! k) = tally (fun p => bool_decide (country_of p = k)) ps) /\
  (forall s, default 0 (sc_errors c !! s) = u32 (sum (map (fun p => errors_shown s (p_errors p)) ps))) /\
  sc_resp_times c = List.filter (fun t => f_gtb t f_zero) (map avg_resp_time ps).
Proof.
  intros ps. unfold collect. cbn zeta. induction ps as [|p ps IH] using rev_ind.
  { by split_and!. }
  rewrite fold_left_app. simpl. destruct IH as (H1 & H2 & H3 & H4 & H5 & H6 & H7).
  revert H1 H2 H3 H4 H5 H6 H7. generalize (fold_left record ps collector_default) as c.
  intros c H1 H2 H3 H4 H5 H6 H7. split_and!; simpl.
  - rewrite length_app. simpl. lia.
  - rewrite tally_snoc. destruct (is_working p); lia.
  - intros q. rewrite record_types_protocol, types_list_protocol, tally_snoc. simpl. by rewrite H3.
  - intros l. rewrite record_types_anonymity, types_list_level, tally_snoc. simpl. by rewrite H4.
  - intros k. rewrite bump_lookup, tally_snoc, H5. f_equal.
    destruct (decide (k = country_of p)); [rewrite bool_decide_eq_true_2 by done|rewrite bool_decide_eq_false_2 by congruence]; done.
  - intros s. rewrite record_errors_lookup by (intros s'; by rewrite H6, wrap_idem).
    rewrite H6, wrap_add_l, map_app. unfold sum. rewrite fold_right_app. simpl. f_equal.
    rewrite Z.add_0_r. generalize (errors_shown s (p_errors p)) as z. clear.
    intros z. induction (map _ ps) as [|x l IH]; simpl; lia.
  - rewrite map_app, List.filter_app, H7. simpl. by destruct (f_gtb _ _); rewrite ?app_nil_r.
Qed.
