(* ===== verification/Watch.v ===== *)
(** * Live reload of the pool file (src/watch.rs)

    [reconcile] as the operations it decides on from one snapshot of the pool, run one critical
    section at a time with the other tasks in between, and the debounced loop of [spawn_watch]
    over what its polls see. *)
From S2P Require Import Prelude F64 Text Types Addr Proxy Pool.
Open Scope Z_scope.

Abbreviation Key := (IpAddr * Z)%type.
Inductive WatchOp := WRemove (k : Key) | WAdd (px : Proxy).
Definition apply_op (op : WatchOp) (p : Pool) : Pool :=
  match op with WRemove k => (remove_addr k.1 k.2 p).2 | WAdd px => add px p end.

Definition wanted (desired : list Proxy) : gset Key := list_to_set (map p_key desired).
Definition reconcile_ops (current : gset Key) (desired : list Proxy) : list WatchOp :=
  map WRemove (List.filter (fun k => negb (bool_decide (k ∈ wanted desired))) (elements current)) ++
  map WAdd (List.filter (fun px => negb (bool_decide (p_key px ∈ current))) desired).

(** Each operation after what the others did ([env]) since the one before it. *)
Fixpoint run_ops (env : nat -> Pool -> Pool) (i : nat) (ops : list WatchOp) (p : Pool) : Pool :=
  match ops with
  | [] => p
  | op :: ops => run_ops env (S i) ops (apply_op op (env i p))
  end.
Definition reconcile (env : nat -> Pool -> Pool) (pool : Pool) (desired : list Proxy) : Pool :=
  run_ops env 0 (reconcile_ops (addrs pool) desired) pool.
Definition quiet_env : nat -> Pool -> Pool := fun _ p => p.

(** ** The loop *)
Definition DEBOUNCE : Z := 250 * 10 ^ 6.
(** A poll: did an event touch the file, when that was noted, when the window was looked at, and
    what re-parsing the file gives ([None]: an error). The pool is shared with the clients, the importer and the
    re-checker: [meantime] is what they did to it since the poll before, up to the snapshot a reload takes, and [between] what they do
    between that snapshot and each of the reload's operations. *)
Record Poll := { touched : bool; marked_at : Z; looked_at : Z; parsed : option (list Proxy);
  meantime : Pool -> Pool; between : nat -> Pool -> Pool }.

Definition poll_step (s : option Z * Pool) (t : Poll) : bool * (option Z * Pool) :=
  let pending := if touched t then Some (marked_at t) else s.1 in
  let pool := meantime t s.2 in
  match pending with
  | Some since =>
      if DEBOUNCE <=? Z.max 0 (looked_at t - since) then
        (true, (None, match parsed t with Some desired => reconcile (between t) pool desired | None => pool end))
      else (false, (pending, pool))
  | None => (false, (None, pool))
  end.
(** The reloads of a run of polls, and the state after it. *)
Fixpoint watch_run (l : list Poll) (s : option Z * Pool) : list bool * (option Z * Pool) :=
  match l with
  | [] => ([], s)
  | t :: l => let r := poll_step s t in let rest := watch_run l r.2 in (r.1 :: rest.1, rest.2)
  end.

(** ** Reconciliation *)
Definition op_key (op : WatchOp) : Key := match op with WRemove k => k | WAdd px => p_key px end.
Definition is_add (op : WatchOp) : bool := match op with WAdd _ => true | _ => false end.
(** What the others do leaves [k] alone. *)
Definition leaves (env : nat -> Pool -> Pool) (k : Key) : Prop :=
  forall i p, k ∈ addrs (env i p) <-> k ∈ addrs p.
(** What the others do neither takes nor brings the entry [e]. *)
Definition spares (env : nat -> Pool -> Pool) (e : Pooled) : Prop :=
  forall i p, e ∈ state (env i p) <-> e ∈ state p.

Lemma apply_op_addrs op p k :
  k ∈ addrs (apply_op op p) <-> if decide (k = op_key op) then is_add op = true else k ∈ addrs p.
Proof.
  destruct op as [j|px]; cbn [apply_op op_key is_add].
  - unfold remove_addr. rewrite addrs_remove. destruct j as [h q]; simpl. case_decide; set_solver.
  - rewrite addrs_add. case_decide; set_solver.
Qed.

Lemma run_ops_addrs env k b ops : forall i p, leaves env k ->
  (forall op, op ∈ ops -> op_key op = k -> is_add op = b) ->
  k ∈ addrs (run_ops env i ops p) <->
  if decide (k ∈ map op_key ops) then b = true else k ∈ addrs p.
Proof.
  induction ops as [|op ops IH]; intros i p Henv Hb; cbn [run_ops map].
  - rewrite decide_False; [done|apply not_elem_of_nil].
  - rewrite IH by (done || (intros; apply Hb; [by right|done])).
    destruct (decide (k ∈ map op_key ops)) as [Hin|Hin].
    + by rewrite decide_True by (by right).
    + rewrite apply_op_addrs. destruct (decide (k = op_key op)) as [Hk|Hk].
      * rewrite decide_True by (rewrite Hk; left). rewrite (Hb op) by (done || left). done.
      * rewrite decide_False by (by intros [?|?]%elem_of_cons). apply Henv.
Qed.

Lemma reconcile_op_elem current desired op : op ∈ reconcile_ops current desired <->
  match op with
  | WRemove k => k ∈ current /\ k ∉ wanted desired
  | WAdd px => px ∈ desired /\ p_key px ∉ current
  end.
Proof.
  unfold reconcile_ops. rewrite elem_of_app, !list_elem_of_fmap. split.
  - intros [(k & -> & Hk) | (px & -> & Hp)].
    + apply elem_of_retain in Hk as [Hn Hk]. bsimp. by rewrite elem_of_elements in Hk.
    + apply elem_of_retain in Hp as [Hn Hp]. by bsimp.
  - destruct op as [k|px]; intros [H1 H2].
    + left. exists k. split; [done|]. apply elem_of_retain. rewrite elem_of_elements.
      by rewrite bool_decide_eq_false_2.
    + right. exists px. split; [done|]. apply elem_of_retain. by rewrite bool_decide_eq_false_2.
Qed.

Lemma reconcile_membership env pool desired k : leaves env k ->
  k ∈ addrs (reconcile env pool desired) <-> k ∈ wanted desired.
Proof.
  intros Henv. unfold reconcile.
  rewrite (run_ops_addrs env k (bool_decide (k ∈ wanted desired))); [|done|].
  - destruct (decide (k ∈ map op_key _)) as [Hin|Hin]; [by rewrite bool_decide_eq_true|].
    rewrite list_elem_of_fmap in Hin. split.
    + intros Hk. destruct (decide (k ∈ wanted desired)); [done|]. exfalso. apply Hin.
      exists (WRemove k). split; [done|]. by apply reconcile_op_elem.
    + intros Hk. destruct (decide (k ∈ addrs pool)) as [|Hn]; [done|]. exfalso. apply Hin.
      unfold wanted in Hk. apply elem_of_list_to_set, list_elem_of_fmap in Hk as (px & -> & Hp).
      exists (WAdd px). split; [done|]. by apply reconcile_op_elem.
  - intros op Hop <-. apply reconcile_op_elem in Hop. destruct op as [j|px]; simpl.
    + symmetry. apply bool_decide_eq_false, Hop.
    + symmetry. apply bool_decide_eq_true. unfold wanted.
      apply elem_of_list_to_set, list_elem_of_fmap. exists px. split; [done|apply Hop].
Qed.

(** An entry the others spare is untouched when its address stays, and is fresh when it joins. *)
Lemma run_ops_entries env e ops : spares env e -> forall i p, e ∈ state (run_ops env i ops p) ->
  e ∈ state p \/ exists px, WAdd px ∈ ops /\ e = ready_entry px.
Proof.
  intros Henv. induction ops as [|op ops IH]; intros i p; cbn [run_ops]; [auto|].
  intros [He | (px & Hp & ->)]%IH; [|right; exists px; split; [by right|done]].
  rewrite <- (Henv i p). destruct op as [k|px]; cbn [apply_op] in He.
  - left. unfold remove_addr in He. by apply elem_of_remove in He as [? _].
  - rewrite state_add in He. case_decide; [auto|]. apply elem_of_app in He as [? | ->%list_elem_of_singleton]; [auto|].
    right. exists px. split; [left|done].
Qed.
Lemma run_ops_keeps env e ops : spares env e -> forall i p, WRemove (entry_key e) ∉ ops -> e ∈ state p ->
  e ∈ state (run_ops env i ops p).
Proof.
  intros Henv. induction ops as [|op ops IH]; intros i p Hn He; cbn [run_ops]; [done|].
  apply not_elem_of_cons in Hn as [Hne Hn]. apply IH; [done|]. apply (Henv i) in He.
  destruct op as [k|px]; cbn [apply_op].
  - unfold remove_addr. apply elem_of_remove. split; [done|]. destruct k; simpl. congruence.
  - rewrite state_add. case_decide; [done|]. apply elem_of_app. by left.
Qed.

Lemma reconciled_addrs env pool desired : (forall k, leaves env k) -> addrs (reconcile env pool desired) = wanted desired.
Proof. intros Henv. apply set_eq. intros k. by apply reconcile_membership. Qed.

(** Reconciliation drives the pool to the file: whatever other tasks do between its steps, each
    address they leave alone is pooled afterwards exactly when the file lists it, a pooled entry that
    stays and that they spare keeps its statistics and bench state, and any other entry they did not bring is a
    fresh, ready one of the file. *)
Lemma reconcile_sound env pool desired :
  (forall k, leaves env k -> k ∈ addrs (reconcile env pool desired) <-> k ∈ wanted desired) /\
  ((forall k, leaves env k) -> addrs (reconcile env pool desired) = wanted desired) /\
  (forall e, spares env e -> e ∈ state pool -> entry_key e ∈ wanted desired -> e ∈ state (reconcile env pool desired)) /\
  (forall e, spares env e -> e ∈ state (reconcile env pool desired) ->
     e ∈ state pool \/ exists px, px ∈ desired /\ p_key px ∉ addrs pool /\ e = ready_entry px).
Proof.
  split_and!.
  - intros k. apply reconcile_membership.
  - apply reconciled_addrs.
  - intros e Hs He Hk. apply run_ops_keeps; [done| |done]. by intros [_ ?]%reconcile_op_elem.
  - intros e Hs [? | (px & [Hd Hn]%reconcile_op_elem & ->)]%run_ops_entries; eauto.
Qed.

(** ** Debouncing *)
Lemma watch_run_app l1 l2 s :
  watch_run (l1 ++ l2) s =
  let r := watch_run l1 s in let r' := watch_run l2 r.2 in (r.1 ++ r'.1, r'.2).
Proof.
  revert s. induction l1 as [|t l1 IH]; intros s; simpl; [by destruct (watch_run l2 s)|]. by rewrite IH.
Qed.
Lemma watch_run_length l s : length (watch_run l s).1 = length l.
Proof. revert s. induction l as [|t l IH]; intros s; simpl; [done|]. by rewrite IH. Qed.

(** The change noted at poll [j] is the last of [l] and was not acted on. *)
Definition outstanding (l : list Poll) (flags : list bool) (j : nat) (tj : Poll) : Prop :=
  l !! j = Some tj /\ touched tj = true /\
  (forall k tk, (j < k)%nat -> l !! k = Some tk -> touched tk = false) /\
  (forall k, (j <= k)%nat -> flags !! k <> Some true).
Definition pending_is (l : list Poll) (flags : list bool) (pending : option Z) : Prop :=
  match pending with
  | Some since => exists j tj, outstanding l flags j tj /\ marked_at tj = since
  | None => forall j tj, ~ outstanding l flags j tj
  end.

Lemma outstanding_snoc l flags t b j tj : length flags = length l ->
  outstanding (l ++ [t]) (flags ++ [b]) j tj <->
  b = false /\ if touched t then j = length l /\ tj = t else outstanding l flags j tj.
Proof.
  intros Hlen. unfold outstanding. split.
  - intros (H1 & H2 & H3 & H4).
    assert (b = false) as ->.
    { destruct b; [|done]. destruct (H4 (length l)); [apply lookup_lt_Some in H1; rewrite length_app in H1; simpl in H1; lia|].
      rewrite lookup_app_r, Hlen, Nat.sub_diag by lia. done. }
    split; [done|]. destruct (touched t) eqn:Et.
    + assert (j = length l) as ->.
      { apply lookup_lt_Some in H1 as Hj. rewrite length_app in Hj; simpl in Hj.
        destruct (decide (j < length l)%nat) as [Hlt|]; [|lia]. exfalso.
        rewrite (H3 (length l) t) in Et; [done|done|]. by apply list_lookup_middle. }
      split; [done|]. rewrite list_lookup_middle in H1 by done. congruence.
    + assert (j < length l)%nat as Hj.
      { apply lookup_lt_Some in H1 as Hj. rewrite length_app in Hj; simpl in Hj.
        destruct (decide (j = length l)) as [-> |]; [|lia]. rewrite list_lookup_middle in H1 by done. congruence. }
      rewrite lookup_app_l in H1 by done. split_and!; [done|done| |].
      * intros k tk Hk Hl. eapply H3; [done|]. apply lookup_lt_Some in Hl as ?. by rewrite lookup_app_l.
      * intros k Hk Hf. eapply (H4 k Hk). apply lookup_lt_Some in Hf as ?. by rewrite lookup_app_l.
  - intros [-> H]. destruct (touched t) eqn:Et.
    + destruct H as [-> ->]. split_and!; [by apply list_lookup_middle|done| |].
      * intros k tk Hk Hl. apply lookup_lt_Some in Hl. rewrite length_app in Hl; simpl in Hl. lia.
      * intros k Hk Hf. apply lookup_app_Some in Hf as [Hf | [_ Hf]]; [apply lookup_lt_Some in Hf; lia|].
        destruct (k - length flags)%nat; by simplify_eq/=.
    + destruct H as (H1 & H2 & H3 & H4). apply lookup_lt_Some in H1 as Hj. split_and!.
      * by rewrite lookup_app_l.
      * done.
      * intros k tk Hk [Hl | [_ Hl]]%lookup_app_Some; [by eapply H3|].
        destruct (k - length l)%nat; by simplify_eq/=.
      * intros k Hk [Hf | [_ Hf]]%lookup_app_Some; [by eapply H4|].
        destruct (k - length flags)%nat; by simplify_eq/=.
Qed.

Lemma poll_step_pending s t : (poll_step s t).2.1 =
  if (poll_step s t).1 then None else if touched t then Some (marked_at t) else s.1.
Proof. unfold poll_step. cbn zeta. destruct (touched t); [by destruct (_ <=? _)|]. destruct s.1; [by destruct (_ <=? _)|done]. Qed.

Lemma poll_step_pool s t : let pool := meantime t s.2 in (poll_step s t).2.2 =
  if (poll_step s t).1 then match parsed t with Some desired => reconcile (between t) pool desired | None => pool end else pool.
Proof. unfold poll_step. cbn zeta. destruct (if touched t then _ else _); [|done]. by destruct (_ <=? _). Qed.

Lemma watch_pending l p : let r := watch_run l (None, p) in pending_is l r.1 r.2.1.
Proof.
  induction l as [|t l IH] using rev_ind; cbn zeta.
  - simpl. intros j tj (H & _). by rewrite lookup_nil in H.
  - rewrite watch_run_app. cbn zeta in *. pose proof (watch_run_length l (None, p)) as Hlen.
    destruct (watch_run l (None, p)) as [flags s]. simpl in *.
    rewrite poll_step_pending. destruct (poll_step s t).1 eqn:Eb; simpl.
    { by intros j tj [? _]%(outstanding_snoc l flags t true). }
    destruct (touched t) eqn:Et; simpl.
    + exists (length l), t. split; [|done].
      apply (outstanding_snoc l flags t false); rewrite ?Et; done.
    + unfold pending_is in *. destruct s.1 as [since|].
      * destruct IH as (j & tj & Ho & Hs). exists j, tj. split; [|done].
      apply (outstanding_snoc l flags t false); rewrite ?Et; done.
      * intros j tj [_ Ho]%outstanding_snoc; [|done]. rewrite Et in Ho. by eapply IH.
Qed.

(** Bursts of changes are coalesced and none is lost: a poll re-parses the file exactly when
    some earlier or present poll saw a change that no later one followed and that was not acted on
    yet, and at least [DEBOUNCE] passed since it was noted. *)
Theorem watch_debounce : forall l t p,
  let r := watch_run l (None, p) in
  (watch_run (l ++ [t]) (None, p)).1 = r.1 ++ [(poll_step r.2 t).1] /\
  ((poll_step r.2 t).1 = true <->
   exists j tj, (if touched t then j = length l /\ tj = t else outstanding l r.1 j tj) /\
     DEBOUNCE <= Z.max 0 (looked_at t - marked_at tj)).
Proof.
  intros l t p. cbn zeta. rewrite watch_run_app. simpl. split; [done|].
  pose proof (watch_pending l p) as Hp. cbn zeta in Hp. unfold poll_step, pending_is in *.
  destruct (touched t) eqn:Et.
  - destruct (Z.leb_spec DEBOUNCE (Z.max 0 (looked_at t - marked_at t))); simpl.
    + split; [|done]. intros _. exists (length l), t. auto.
    + split; [done|]. intros (j & tj & [-> ->] & ?). lia.
  - destruct (watch_run l (None, p)).2.1 as [since|] eqn:E.
    + destruct Hp as (j & tj & Ho & <-).
      destruct (Z.leb_spec DEBOUNCE (Z.max 0 (looked_at t - marked_at tj))); simpl.
      * split; [|done]. intros _. eauto.
      * split; [done|]. intros (j' & tj' & Ho' & Hle). exfalso.
        destruct Ho as (H1 & H2 & H3 & _), Ho' as (H1' & H2' & H3' & _).
        destruct (lt_eq_lt_dec j j') as [[Hlt | ->] | Hlt].
        -- rewrite (H3 j' tj') in H2' by done. done.
        -- rewrite H1 in H1'. simplify_eq. lia.
        -- rewrite (H3' j tj) in H2 by done. done.
    + split; [done|]. intros (j & tj & Ho & _). exfalso. by eapply Hp.
Qed.
