(* ===== verification/Mcp.v ===== *)
(** * The MCP tools (src/mcp.rs)

    The three handlers over the live pool, the tools around them, and a session of calls that
    interleave between the two pool operations of [get_proxy]; the transport is a third-party
    library's. *)
From S2P Require Import Prelude F64 Text Types Addr Proxy Pool Stats.
Open Scope Z_scope.

Record ProxyInfo := {
  pi_proxy : str;
  pi_types : list str;
  pi_avg_resp_time : f64;
  pi_error_rate : f64;
}.
Definition info_of (p : Proxy) : ProxyInfo :=
  {| pi_proxy := addr p; pi_types := map (fun t => proto_as_str t.1) (types_list (p_types p));
     pi_avg_resp_time := avg_resp_time p; pi_error_rate := error_rate p |}.

(** Two critical sections; [others] is what everybody else does to the pool between them. *)
Definition handle_get_proxy (others : Pool -> Pool) (scheme : Scheme) (country : option str) (pool : Pool) : option ProxyInfo * Pool :=
  match try_get scheme country pool with
  | Some (px, pool) => (Some (info_of px), add px (others pool))
  | None => (None, pool)
  end.

Record PoolStatus := {
  ps_total : nat;
  ps_working : nat;
  ps_by_protocol : gmap str nat;
  ps_by_country : gmap str nat;
  ps_avg_resp_time : f64;
  ps_errors : gmap str Z;
}.
Definition handle_pool_status (pool : Pool) : PoolStatus :=
  let stats := stats_from_proxies (proxies pool) in
  {| ps_total := st_total stats; ps_working := st_working stats;
     ps_by_protocol := kmap proto_as_str (st_by_protocol stats);
     ps_by_country := st_by_country stats; ps_avg_resp_time := st_avg_resp_time stats;
     ps_errors := st_errors stats |}.

Definition handle_report_dead (a : str) (pool : Pool) : bool * Pool :=
  match sockaddr_parse a with Some (ip, port) => remove ip port pool | None => (false, pool) end.

Definition parse_scheme (s : str) : option Scheme :=
  if decide (to_ascii_lowercase s = lit "http") then Some SHttp
  else if decide (to_ascii_lowercase s = lit "https") then Some SHttps
  else None.
(** The tool itself: an unknown scheme answers as an empty pool does. *)
Definition get_proxy (others : Pool -> Pool) (scheme : str) (country : option str) (pool : Pool) : option ProxyInfo * Pool :=
  match parse_scheme scheme with
  | Some s => handle_get_proxy others s country pool
  | None => (None, pool)
  end.

(** C27: [get_proxy], on any pool and whatever others do between its two locks. With no pooled proxy that
    serves the scheme and country, or an unknown scheme, the answer is empty and the pool untouched.
    Otherwise it answers with one that none such outranks, whose entry alone left the pool for a moment:
    others find the rest, in order. It then comes back as the last entry, with its statistics but
    ready, so a bench it was under is lifted, unless by then the pool holds its address: so where the
    pool had a second entry of the address, the call loses the entry it answered with. Either way the
    address is pooled at the end, and the other addresses are those that others left. *)
Theorem get_proxy_sound : forall others s country p,
  let r := get_proxy others s country p in
  match parse_scheme s with
  | None => r = (None, p)
  | Some scheme =>
      (r = (None, p) /\ forall e, e ∈ state p -> ~ matches_get scheme country (proxy e)) \/
      exists i e, state p !! i = Some e /\ matches_get scheme country (proxy e) /\
        (forall j e', state p !! j = Some e' -> matches_get scheme country (proxy e') ->
           rank_cmp (prefer_connect (config p)) (state p) i j <> Gt) /\
        r.1 = Some (info_of (proxy e)) /\
        let met := others (set_state (delete i (state p)) p) in
        r.2 = (if decide (entry_key e ∈ addrs met) then met else set_state (state met ++ [ready_entry (proxy e)]) met) /\
        addrs r.2 = {[entry_key e]} ∪ addrs met /\
        (others = id -> addrs r.2 = addrs p /\
           (entry_key e ∈ addrs met <-> exists j e', j <> i /\ state p !! j = Some e' /\ entry_key e' = entry_key e))
  end.
Proof.
  intros others s country p. unfold get_proxy. cbn zeta. destruct (parse_scheme s) as [scheme|]; [|done].
  unfold handle_get_proxy. pose proof (try_get_sound scheme country p) as Ht.
  destruct (try_get scheme country p) as [[px p1]|]; [|by left]. right.
  destruct Ht as (i & e & Hi & -> & Hm & -> & Hr). exists i, e. cbn [fst snd]. split_and!; [done..| | |].
  - unfold add, push, entry_key. destruct (existsb _ _) eqn:E.
    + rewrite decide_True; [done|]. apply existsb_elem in E as (e' & He' & Hk%bool_decide_eq_true). apply elem_of_addrs. by exists e'.
    + rewrite decide_False; [done|]. intros (e' & He' & Hk)%elem_of_addrs. apply not_true_iff_false in E. apply E.
      apply existsb_elem. exists e'. split; [done|]. by apply bool_decide_eq_true.
  - apply addrs_add.
  - intros ->. cbn [id]. rewrite addrs_add. assert (forall k, k ∈ addrs (set_state (delete i (state p)) p) <->
      exists j e', j <> i /\ state p !! j = Some e' /\ entry_key e' = k) as Hk.
    { intros k. rewrite elem_of_addrs. cbn [state set_state]. setoid_rewrite list_elem_of_lookup. split.
      - intros (e' & (j & Hj) & <-). destruct (decide (j < i)%nat).
        + rewrite list_lookup_delete_lt in Hj by done. exists j, e'. split; [lia|done].
        + rewrite list_lookup_delete_ge in Hj by lia. exists (S j), e'. split; [lia|done].
      - intros (j & e' & Hne & Hj & <-). exists e'. split; [|done]. destruct (decide (j < i)%nat).
        + exists j. by rewrite list_lookup_delete_lt.
        + exists (pred j). rewrite list_lookup_delete_ge by lia. by replace (S (pred j)) with j by lia. }
    split; [|apply Hk]. apply set_eq. intros k. rewrite elem_of_union, elem_of_singleton, Hk, elem_of_addrs. setoid_rewrite list_elem_of_lookup.
    split.
    + intros [->|(j & e' & _ & Hj & <-)]; [exists e|exists e']; eauto.
    + intros (e' & (j & Hj) & <-). destruct (decide (j = i)) as [->|Hne]; [left; rewrite Hi in Hj; by injection Hj as ->|right; by exists j, e'].
Qed.

(** ** A session *)
Record GetProxyParams := { gp_scheme : str; gp_country : option str }.
Record ReportDeadParams := { rd_proxy : str }.
Record RemovedResult := { removed : bool }.
Inductive ToolCall := CallGetProxy (p : GetProxyParams) | CallPoolStatus | CallReportDead (p : ReportDeadParams).
Inductive Answer := AProxy (info : option ProxyInfo) | AStatus (s : PoolStatus) | ARemoved (r : RemovedResult).
(** A tool called by itself. *)
Definition call_tool (c : ToolCall) (pool : Pool) : Answer * Pool :=
  match c with
  | CallGetProxy p => let '(info, pool) := get_proxy id (gp_scheme p) (gp_country p) pool in (AProxy info, pool)
  | CallPoolStatus => (AStatus (handle_pool_status pool), pool)
  | CallReportDead p => let '(b, pool) := handle_report_dead (rd_proxy p) pool in (ARemoved {| removed := b |}, pool)
  end.
(** A call on its way: [get_proxy] has a proxy out of the pool between [try_get] and [add]. *)
Inductive CallPc := Called (c : ToolCall) | Holding (px : Proxy) | Answered (a : Answer).
Definition call_step (pc : CallPc) (pool : Pool) : option (CallPc * Pool) :=
  match pc with
  | Called (CallGetProxy p) =>
      match parse_scheme (gp_scheme p) with
      | Some s =>
          match try_get s (gp_country p) pool with
          | Some (px, pool) => Some (Holding px, pool)
          | None => Some (Answered (AProxy None), pool)
          end
      | None => Some (Answered (AProxy None), pool)
      end
  | Called c => let '(a, pool) := call_tool c pool in Some (Answered a, pool)
  | Holding px => Some (Answered (AProxy (Some (info_of px))), add px pool)
  | Answered _ => None
  end.
(** The two steps of a [get_proxy], with others in between, are the handler. *)
Lemma get_proxy_steps others p pool : exists pc pool1, call_step (Called (CallGetProxy p)) pool = Some (pc, pool1) /\
  match pc with
  | Holding px => call_step pc (others pool1) =
      Some (Answered (AProxy (get_proxy others (gp_scheme p) (gp_country p) pool).1), (get_proxy others (gp_scheme p) (gp_country p) pool).2)
  | _ => (pc, pool1) = (Answered (AProxy (get_proxy others (gp_scheme p) (gp_country p) pool).1), (get_proxy others (gp_scheme p) (gp_country p) pool).2)
  end.
Proof.
  cbn [call_step]. unfold get_proxy, handle_get_proxy. destruct (parse_scheme (gp_scheme p)) as [s|]; [|by eexists _, _].
  destruct (try_get s (gp_country p) pool) as [[px q]|]; by eexists _, _.
Qed.
(** An address pooled twice loses an entry. *)
Example twin_lost :
  let twin t := ready_entry (record_attempt (Some (f_of_Z t)) None (add_type Http (Some High) (new (V4 1) 80 ∅))) in
  let p := mkPool [twin 1; twin 2] ∅ 0 PoolConfig_default true 0 0 in
  len (get_proxy id (lit "http") None p).2 = 1%nat.
Proof. vm_compute. reflexivity. Qed.

Section session.
Context `{UnicodeCase}.
Inductive SessionEvent := SCall (c : ToolCall) | SStep (i : nat) | SImport (px : Proxy).
Definition session_step (e : SessionEvent) (st : list CallPc * Pool) : option (list CallPc * Pool) :=
  match e with
  | SCall c => Some (st.1 ++ [Called c], st.2)
  | SStep i => let? pc := st.1 !! i in let? (pc, pool) := call_step pc st.2 in Some (<[i := pc]> st.1, pool)
  | SImport px => Some (st.1, import px st.2)
  end.
Fixpoint session (es : list SessionEvent) (st : list CallPc * Pool) : option (list CallPc * Pool) :=
  match es with [] => Some st | e :: es => let? st := session_step e st in session es st end.

Definition held_key (pc : CallPc) : option (IpAddr * Z) := match pc with Holding px => Some (p_key px) | _ => None end.
(** Where an address is to be found. *)
Definition around (st : list CallPc * Pool) : gset (IpAddr * Z) := addrs st.2 ∪ list_to_set (omap held_key st.1).
Definition reported (es : list SessionEvent) (k : IpAddr * Z) : Prop :=
  exists p, SCall (CallReportDead p) ∈ es /\ sockaddr_parse (rd_proxy p) = Some k.
Lemma around_insert pcs i pc pc' pool : pcs !! i = Some pc -> forall k, k ∈ around (<[i := pc']> pcs, pool) <->
  k ∈ addrs pool \/ held_key pc' = Some k \/ exists j q, j <> i /\ pcs !! j = Some q /\ held_key q = Some k.
Proof.
  intros Hi k. unfold around. cbn [fst snd]. rewrite elem_of_union, elem_of_list_to_set, list_elem_of_omap.
  assert ((exists q, q ∈ <[i := pc']> pcs /\ held_key q = Some k) <->
    held_key pc' = Some k \/ exists j q, j <> i /\ pcs !! j = Some q /\ held_key q = Some k) as ->; [|tauto].
  pose proof (lookup_lt_Some _ _ _ Hi) as Hlt. split.
  - intros (q & (j & Hj)%list_elem_of_lookup & Hq). apply list_lookup_insert_Some in Hj as [(<- & <- & _)|[Hne Hj]]; [by left|].
    right. by exists j, q.
  - intros [Hq|(j & q & Hne & Hj & Hq)].
    + exists pc'. split; [|done]. apply list_elem_of_lookup. exists i. by apply list_lookup_insert_eq.
    + exists q. split; [|done]. apply list_elem_of_lookup. exists j. by rewrite list_lookup_insert_ne.
Qed.
Lemma taken_addrs s c p px p' : try_get s c p = Some (px, p') -> addrs p = {[p_key px]} ∪ addrs p'.
Proof.
  intros E. pose proof (try_get_sound s c p) as Ht. rewrite E in Ht. destruct Ht as (i & e & Hi & -> & _ & -> & _).
  apply set_eq. intros k. rewrite elem_of_union, elem_of_singleton, !elem_of_addrs. cbn [state set_state].
  apply delete_Permutation in Hi. split.
  - intros (x & Hx & <-). rewrite Hi in Hx. apply elem_of_cons in Hx as [->|Hx]; [by left|right; by exists x].
  - intros [->|(x & Hx & <-)]; [exists e; split; [rewrite Hi; by left|done]|exists x; split; [rewrite Hi; by right|done]].
Qed.
Definition dead_key (pc : CallPc) : option (IpAddr * Z) :=
  match pc with Called (CallReportDead p) => sockaddr_parse (rd_proxy p) | _ => None end.
(** A step moves an address between the pool and a call's hands, or takes away the one reported. *)
Lemma call_around pc pool pc' pool' : call_step pc pool = Some (pc', pool') ->
  forall k, (k ∈ addrs pool' \/ held_key pc' = Some k -> k ∈ addrs pool \/ held_key pc = Some k) /\
    (k ∈ addrs pool \/ held_key pc = Some k -> dead_key pc <> Some k -> k ∈ addrs pool' \/ held_key pc' = Some k).
Proof.
  intros E k. destruct pc as [[p| |p]|px|a]; cbn [call_step call_tool] in E; [| | | |done].
  - assert (forall info, pc' = Answered (AProxy info) /\ pool' = pool -> held_key pc' = None /\ pool' = pool) as Hn by by intros info [-> ->].
    destruct (parse_scheme (gp_scheme p)) as [s|]; [|by injection E as <- <-].
    destruct (try_get s (gp_country p) pool) as [[px q]|] eqn:Et; injection E as <- <-; [|done].
    apply taken_addrs in Et as ->. cbn. rewrite elem_of_union, elem_of_singleton. split; [intros [?|[= <-]]; auto|intros [[->|?]|?]; auto; done].
  - by injection E as <- <-.
  - unfold handle_report_dead, dead_key in *. destruct (sockaddr_parse (rd_proxy p)) as [[ip port]|]; [|by injection E as <- <-].
    destruct (remove ip port pool) as [b q] eqn:Er. injection E as <- <-. assert (addrs q = addrs pool ∖ {[(ip, port)]}) as ->
      by (rewrite <- addrs_remove; by rewrite Er).
    cbn. rewrite elem_of_difference, elem_of_singleton. split; [intros [[? _]|?]; [by left|done]|].
    intros [Hk|Hk]; [|done]. intros Hd. left. split; [done|]. intros ->. done.
  - injection E as <- <-. rewrite addrs_add, elem_of_union, elem_of_singleton. cbn. split.
    + intros [[->|?]|?]; [by right|by left|done].
    + intros [?|[= <-]] _; left; [by right|by left].
Qed.
Lemma session_around e st st' : session_step e st = Some st' ->
  (forall k, k ∈ around st' -> k ∈ around st \/ exists px, e = SImport px /\ p_key px = k) /\
  (forall k, k ∈ around st -> k ∈ around st' \/ exists pc, pc ∈ st.1 /\ dead_key pc = Some k) /\
  (forall px, e = SImport px -> country_ok px (countries (config st.2)) = true -> p_key px ∈ around st').
Proof.
  destruct st as [pcs pool]. intros E. destruct e as [c|i|px]; cbn in E.
  - injection E as <-. unfold around. cbn [fst snd]. rewrite omap_app. cbn. rewrite app_nil_r. split_and!; [by left|by left|done].
  - destruct (pcs !! i) as [pc|] eqn:Hi; [|done]. cbn in E. destruct (call_step pc pool) as [[pc' pool']|] eqn:Ec; [|done]. injection E as <-.
    pose proof (call_around _ _ _ _ Ec) as Hc. pose proof (around_insert pcs i pc pc' pool' Hi) as Hn.
    pose proof (around_insert pcs i pc pc pool Hi) as Ho. rewrite list_insert_id in Ho by done. split_and!; [| |done].
    + intros k. rewrite Hn, Ho. destruct (Hc k) as [H1 _]. intros Hk. left. tauto.
    + intros k. rewrite Hn, Ho. destruct (Hc k) as [_ H2]. intros Hk. destruct (decide (dead_key pc = Some k)) as [Hd|Hd].
      * right. exists pc. split; [by eapply list_elem_of_lookup_2|done].
      * left. tauto.
  - injection E as <-. unfold around, import. cbn [fst snd]. destruct (country_ok px (countries (config pool))) eqn:Ec.
    + assert (addrs (push (ready_entry px) pool) = addrs pool ∪ {[p_key px]}) as ->.
      { unfold addrs, push. cbn. rewrite map_app, list_to_set_app_L. cbn. by rewrite union_empty_r_L. }
      split_and!; [|set_solver|intros x [= ->] _; set_solver].
      intros k Hk. destruct (decide (p_key px = k)); [right; by exists px|left; set_solver].
    + split_and!; [by left|by left|]. intros x [= ->]. by rewrite Ec.
Qed.
Lemma config_call pc pool pc' pool' : call_step pc pool = Some (pc', pool') -> config pool' = config pool.
Proof.
  destruct pc as [[p| |p]|px|a]; cbn; intros E; [| | | |done].
  - destruct (parse_scheme _); [|by injection E as <- <-]. pose proof (try_get_sound s (gp_country p) pool) as Ht.
    destruct (try_get _ _ _) as [[px q]|]; injection E as <- <-; [|done]. by destruct Ht as (i & e & _ & _ & _ & -> & _).
  - by injection E as <- <-.
  - unfold handle_report_dead in E. destruct (sockaddr_parse _) as [[ip port]|]; cbn in E; by injection E as <- <-.
  - injection E as <- <-. unfold add. by destruct (existsb _ _).
Qed.

(** Whatever calls overlap, with each other and with the importer, the tools lose no proxy but those
    reported dead and invent none: every address the pool had or was given is in it or in the hands of
    a [get_proxy] under way, unless somebody reported it; and no other address is. *)
Theorem session_sound : forall es p0 pcs p, session es ([], p0) = Some (pcs, p) ->
  (forall k, k ∈ around (pcs, p) -> k ∈ addrs p0 \/ exists px, SImport px ∈ es /\ p_key px = k) /\
  (forall k, k ∈ addrs p0 \/ (exists px, SImport px ∈ es /\ country_ok px (countries (config p0)) = true /\ p_key px = k) ->
     ~ reported es k -> k ∈ around (pcs, p)).
Proof.
  intros es p0 pcs p. assert (forall es st st', session es st = Some st' -> config st.2 = config p0 ->
    (forall k, k ∈ around st' -> k ∈ around st \/ exists px, SImport px ∈ es /\ p_key px = k) /\
    (forall k, k ∈ around st \/ (exists px, SImport px ∈ es /\ country_ok px (countries (config p0)) = true /\ p_key px = k) ->
       ~ (reported es k \/ exists pc, pc ∈ st.1 /\ dead_key pc = Some k) -> k ∈ around st')) as Hgen.
  { clear. induction es as [|e es IH]; intros st st' E Hc.
    { injection E as <-. split; [by left|]. intros k [Hk|(px & Hx & _)]; [done|by apply elem_of_nil in Hx]. }
    cbn in E. destruct (session_step e st) as [st1|] eqn:Es; [|done]. destruct (session_around _ _ _ Es) as (H1 & H2 & H3).
    assert (config st1.2 = config p0) as Hc1.
    { destruct st as [l q], e as [c|i|px]; cbn in Es; [by injection Es as <-| |injection Es as <-; cbn; unfold import; by case_match].
      destruct (l !! i) as [pc|]; [|done]. cbn in Es. destruct (call_step pc q) as [[pc' q']|] eqn:Ec; [|done]. injection Es as <-.
      cbn. by rewrite (config_call _ _ _ _ Ec). }
    destruct (IH st1 st' E Hc1) as [I1 I2]. split.
    - intros k [Hk|(px & Hx & Hk)]%I1; [|right; exists px; split; [by right|done]].
      destruct (H1 k Hk) as [?|(px & -> & ?)]; [by left|right]. exists px. split; [by left|done].
    - intros k Hk Hno. apply I2.
      + destruct Hk as [Hk|(px & Hx & Hok & Hk)].
        * destruct (H2 k Hk) as [?|Hd]; [by left|]. destruct Hno. by right.
        * apply elem_of_cons in Hx as [<-|Hx]; [|right; by exists px]. left. rewrite <- Hk. apply (H3 px); [done|]. by rewrite Hc.
      + intros [(q & Hq & Hp)|(pc & Hpc & Hd)]; apply Hno; [left; exists q; split; [by right|done]|].
        destruct st as [l q], e as [c|i|px]; cbn in Es; [|destruct (l !! i) as [pc0|] eqn:Hi; [|done]; cbn in Es;
          destruct (call_step pc0 q) as [[pc' q']|] eqn:Ec; [|done]|]; injection Es as <-; cbn in Hpc; [| |right; by exists pc].
        * apply elem_of_app in Hpc as [Hpc|Hpc]; [right; by exists pc|]. apply list_elem_of_singleton in Hpc as ->.
          left. destruct c as [| |r]; try done. exists r. split; [by left|done].
        * apply list_elem_of_lookup in Hpc as [j Hj]. apply list_lookup_insert_Some in Hj as [(<- & <- & _)|[_ Hj]].
          -- destruct pc0 as [[x| |x]|x|x]; cbn in Ec; repeat case_match; simplify_eq; done.
          -- right. exists pc. split; [by eapply list_elem_of_lookup_2|done]. }
  intros E. destruct (Hgen _ _ _ E eq_refl) as [G1 G2]. split.
  - intros k Hk. destruct (G1 k Hk) as [Hk'|?]; [left|by right]. unfold around in Hk'. cbn in Hk'. set_solver.
  - intros k Hk Hno. apply G2; [destruct Hk as [Hk|?]; [left; unfold around; cbn; set_solver|by right]|].
    intros [?|(pc & Hpc & _)]; [done|by apply elem_of_nil in Hpc].
Qed.
End session.

(** Two overlapping calls: while one has the only proxy out, another is told there is none, and the
    report that it is dead finds nothing to remove and is undone when it is put back. *)
Section session_demo.
#[local] Existing Instance ascii_case.
Definition demo_mcp_px : Proxy := add_type Http (Some High) (new (V4 1) 80 ∅).
Definition demo_overlap : list SessionEvent :=
  let get := SCall (CallGetProxy {| gp_scheme := lit "http"; gp_country := None |}) in
  [SImport demo_mcp_px; get; get; SCall (CallReportDead {| rd_proxy := lit "0.0.0.1:80" |}); SStep 0; SStep 1; SStep 2; SStep 0].
Definition answers (st : list CallPc * Pool) : list (option bool) :=
  map (fun pc => match pc with
                 | Answered (AProxy i) => Some (bool_decide (is_Some (pi_proxy <$> i)))
                 | Answered (ARemoved r) => Some (removed r)
                 | _ => None
                 end) st.1.
Example overlap_undoes_report :
  (fun st => (answers st, map p_key (proxies st.2))) <$> session demo_overlap ([], from_proxies [] PoolConfig_default) =
  Some ([Some true; Some false; Some false], [(V4 1, 80)]).
Proof. vm_compute. reflexivity. Qed.
Lemma session_sound_witness : exists st, session demo_overlap ([], from_proxies [] PoolConfig_default) = Some st /\
  (V4 1, 80) ∈ addrs (from_proxies [] PoolConfig_default) \/ exists px, SImport px ∈ demo_overlap /\ p_key px = (V4 1, 80).
Proof.
  destruct (session demo_overlap ([], from_proxies [] PoolConfig_default)) as [[pcs p]|] eqn:E; [|by vm_compute in E].
  exists (pcs, p). right. destruct (session_sound demo_overlap (from_proxies [] PoolConfig_default) pcs p E) as [H _].
  destruct (H (V4 1, 80)) as [Hk|Hk]; [| |exact Hk].
  - assert (E0 : (fun st => bool_decide ((V4 1, 80) ∈ addrs st.2)) <$> session demo_overlap ([], from_proxies [] PoolConfig_default) = Some true)
      by (vm_compute; reflexivity).
    rewrite E in E0. injection E0 as E0%bool_decide_eq_true. unfold around. cbn [fst snd]. apply elem_of_union. left. exact E0.
  - apply elem_of_list_to_set in Hk. vm_compute in Hk. by apply elem_of_nil in Hk.
Defined.
End session_demo.
