(* ===== verification/Connector.v ===== *)
(** * The rotating connector (src/connector.rs)

    One outgoing connection through a pooled proxy, with the retry loop. [hyper::Uri] is a record
    of what the source reads of it; the negotiated stream is handed to the caller. *)
From S2P Require Import Prelude F64 Text Types Addr Utils Proxy Pool PoolSteps Http Net Negotiator Client Relay Server Trades.
Open Scope Z_scope.

Record Uri := { uri_scheme : option str; uri_host : option str; uri_port : option Z }.
Record RotateConfig := { rc_max_tries : nat; rc_timeout : Z }.
Definition RotateConfig_default : RotateConfig := {| rc_max_tries := 3; rc_timeout := 8 * 10 ^ 9 |}.
(** The [io::Error]s: InvalidInput, NotConnected and other. *)
Inductive ConnectError := NoHost | NotConnected | AllFailed (msg : str).

Definition uri_target_scheme (uri : Uri) : Scheme :=
  if decide (uri_scheme uri = Some (lit "https")) then SHttps else SHttp.
Definition connect_proto (p : Proxy) (s : Scheme) : option Proto :=
  match tunnel_proto p with
  | Some proto => Some proto
  | None => if decide (s = SHttp) then (if has_type Http p then Some Http else None) else None
  end.

Section connector.
Context `{HO : HashOrder} `{N : Notify} `{UC : UnicodeCase} `{TL : TunnelLibs}.

Definition dial (d : Dial) (p : Proxy) (proto : Proto) (target : Target) : result Stream ProxyError :=
  match d with
  | DialHang => Err Timeout
  | DialErr => Err ConnFailed
  | DialOk tcp => negotiate proto tcp target (p_auth p)
  end.

(** The retry loop; [n] tries remain, [k] were made. *)
Fixpoint connect_loop (world : nat -> Attempt) (scheme : Scheme) (key : ClientKey) (target : Target)
    (n k : nat) (failure : option ProxyError) (w : World) : option (result Stream ConnectError * World) :=
  match n with
  | O => Some (Err (AllFailed (default (lit "all proxies failed") (error_as_str <$> failure))), w)
  | S n =>
      let a := world k in
      let? (got, w, rest) := get (at_script a) scheme key w in
      match got with
      | None => Some (Err NotConnected, w)
      | Some p =>
          let w := meanwhile rest w in
          match connect_proto p scheme with
          | None => connect_loop world scheme key target n (S k) failure (settle_ok p w)
          | Some proto =>
              match dial (at_dial a) p proto target with
              | Ok stream => Some (Ok stream, settle_ok (record_attempt (Some f_zero) None p) w)
              | Err e =>
                  connect_loop world scheme key target n (S k) (Some e)
                    (settle_failed (at_put_now a) (record_attempt None (Some e) p) w)
              end
          end
      end
  end.

Definition uri_target (lookup_ip : str -> option (list IpAddr)) (uri : Uri) : option Target :=
  let scheme := uri_target_scheme uri in
  let? raw_host := uri_host uri in
  let host := strip_brackets raw_host in
  let port := default (match scheme with SHttps => 443 | SHttp => 80 end) (uri_port uri) in
  Some {| tg_host := host; tg_ip := ok (resolve lookup_ip host); tg_port := port |}.

Definition connect (world : nat -> Attempt) (lookup_ip : str -> option (list IpAddr)) (cfg : RotateConfig)
    (uri : Uri) (w : World) : option (result Stream ConnectError * World) :=
  match uri_target lookup_ip uri with
  | None => Some (Err NoHost, w)
  | Some target =>
      connect_loop world (uri_target_scheme uri) (KIp (V4 0)) target (rc_max_tries cfg) 0 None w
  end.

(** The service around it: a handle that is cloned, always ready; its pool is in the world of a call. *)
Record RotatingProxyConnector := { rp_lookup : str -> option (list IpAddr); rp_cfg : RotateConfig }.
Definition from_pool (lookup_ip : str -> option (list IpAddr)) (cfg : RotateConfig) : RotatingProxyConnector :=
  {| rp_lookup := lookup_ip; rp_cfg := cfg |}.
Definition call (world : nat -> Attempt) (rp : RotatingProxyConnector) (uri : Uri) (w : World) : option (result Stream ConnectError * World) :=
  connect world (rp_lookup rp) (rp_cfg rp) uri w.

(** ** The protocol is always found, and never ends the caller's TLS *)
Lemma connect_proto_serves p s : serves s p = true ->
  exists proto, connect_proto p s = Some proto /\ proto <> Https /\ proto <> Connect25.
Proof.
  rewrite serves_types. unfold connect_proto, tunnel_proto. simpl.
  destruct s; simpl; destruct (has_type Http p) eqn:?, (has_type Https p) eqn:?, (has_type Connect80 p) eqn:?,
    (has_type Socks5 p) eqn:?, (has_type Socks4 p) eqn:?; simpl; intros ?; try done; eauto.
Qed.
Lemma connect_proto_tunnels p scheme proto : connect_proto p scheme = Some proto -> proto <> Https.
Proof.
  intros Ep. unfold connect_proto in Ep. destruct (tunnel_proto p) as [t|] eqn:Et; [|by repeat case_match; simplify_eq].
  simplify_eq. unfold tunnel_proto in Et. destruct (List.find _ _) as [c|] eqn:Ef; [|by case_match; simplify_eq].
  apply find_some in Ef as [Hin _]. simpl in Hin. naive_solver.
Qed.
Lemma negotiate_plain proto tcp target creds s :
  proto <> Https -> negotiate proto tcp target creds = Ok s -> exists c, s = Plain c.
Proof.
  intros Hne E. unfold negotiate, socks4, socks5 in E. destruct proto; try done; repeat case_match; simplify_eq; eauto.
Qed.

Lemma record_conserves w t e p : conserves w [p] w [record_attempt t e p].
Proof. eapply conserves_keys; [|apply conserves_refl]. simpl. by rewrite record_attempt_key. Qed.

(** The tries made so far, none of which gave a stream: the next is number [k], [f] the last error. *)
Inductive tries (world : nat -> Attempt) (scheme : Scheme) (key : ClientKey) (target : Target) :
    nat -> option ProxyError -> World -> nat -> option ProxyError -> World -> Prop :=
| tries_none k f w : tries world scheme key target k f w k f w
| tries_skip k f w p w1 rest j f' w' :
    get (at_script (world k)) scheme key w = Some (Some p, w1, rest) -> connect_proto p scheme = None ->
    tries world scheme key target (S k) f (settle_ok p (meanwhile rest w1)) j f' w' ->
    tries world scheme key target k f w j f' w'
| tries_fail k f w p w1 rest proto e j f' w' :
    get (at_script (world k)) scheme key w = Some (Some p, w1, rest) -> connect_proto p scheme = Some proto ->
    dial (at_dial (world k)) p proto target = Err e ->
    tries world scheme key target (S k) (Some e)
      (settle_failed (at_put_now (world k)) (record_attempt None (Some e) p) (meanwhile rest w1)) j f' w' ->
    tries world scheme key target k f w j f' w'.
(** How the loop ends, at the try [j] it came to in the world [wj]. *)
Definition loop_end (world : nat -> Attempt) (scheme : Scheme) (key : ClientKey) (target : Target) (last j : nat)
    (f : option ProxyError) (wj : World) (r : result Stream ConnectError) (w' : World) : Prop :=
  match r with
  | Ok st => (j < last)%nat /\ exists p w1 rest proto tcp c,
      get (at_script (world j)) scheme key wj = Some (Some p, w1, rest) /\ serves scheme p = true /\
      connect_proto p scheme = Some proto /\ at_dial (world j) = DialOk tcp /\
      negotiate proto tcp target (p_auth p) = Ok st /\ st = Plain c /\
      w' = settle_ok (record_attempt (Some f_zero) None p) (meanwhile rest w1)
  | Err NotConnected => (j < last)%nat /\ exists rest, get (at_script (world j)) scheme key wj = Some (None, w', rest)
  | Err (AllFailed msg) => j = last /\ w' = wj /\ msg = default (lit "all proxies failed") (error_as_str <$> f)
  | Err NoHost => False
  end.
Lemma connect_loop_spec world scheme key target n : forall k f w r w',
  connect_loop world scheme key target n k f w = Some (r, w') ->
  exists j f' wj, tries world scheme key target k f w j f' wj /\ loop_end world scheme key target (k + n) j f' wj r w'.
Proof.
  induction n as [|n IH]; intros k f w r w' E; cbn [connect_loop] in E.
  { injection E as <- <-. exists k, f, w. split; [constructor|]. by rewrite Nat.add_0_r. }
  rewrite <- Nat.add_succ_comm. destruct (get _ _ _ _) as [[[[p|] w1] rest]|] eqn:Eg; [| |done].
  2: { injection E as <- <-. exists k, f, w. split; [constructor|]. split; [lia|]. by exists rest. }
  destruct (connect_proto p scheme) as [proto|] eqn:Ep.
  - destruct (dial _ _ _ _) as [st|e] eqn:Ed.
    + injection E as <- <-. exists k, f, w. split; [constructor|]. split; [lia|]. unfold dial in Ed.
      destruct (at_dial (world k)) as [| |tcp] eqn:Ea; try done.
      destruct (negotiate_plain _ _ _ _ _ (connect_proto_tunnels _ _ _ Ep) Ed) as [c Hc].
      exists p, w1, rest, proto, tcp, c. pose proof (get_serves _ _ _ _ _ _ _ Eg). by split_and!.
    + destruct (IH _ _ _ _ _ E) as (j & f' & wj & Ht & Hl). exists j, f', wj. split; [|done]. by eapply tries_fail.
  - destruct (IH _ _ _ _ _ E) as (j & f' & wj & Ht & Hl). exists j, f', wj. split; [|done]. by eapply tries_skip.
Qed.
(** What the others do during [n] tries from [k]. *)
Definition others (world : nat -> Attempt) (k n : nat) : list EnvOp :=
  concat (map (fun j => script_ops (at_script (world j))) (seq k n)).
Lemma connect_loop_accounts world scheme key target n : forall k f w r w',
  connect_loop world scheme key target n k f w = Some (r, w') -> accounts (others world k n) w [] w' [].
Proof.
  induction n as [|n IH]; intros k failure w r w' E; cbn [connect_loop] in E; [simplify_eq; apply accounts_conserves, conserves_refl|].
  destruct (get _ _ _ _) as [[[got w1] rest]|] eqn:Hg; [|done].
  assert (forall op, op ∈ script_ops (at_script (world k)) -> op ∈ others world k (S n)) as Hin
    by (intros op Hop; unfold others; cbn; apply elem_of_app; by left).
  assert (forall op, op ∈ others world (S k) n -> op ∈ others world k (S n)) as Hin'
    by (intros op Hop; unfold others; cbn; apply elem_of_app; by right).
  pose proof (accounts_mono _ _ _ _ _ _ Hin (get_run_accounts _ _ _ _ _ _ Hg)) as H1. change (held _) with (@nil Proxy) in H1.
  destruct got as [p|]; [|by simplify_eq]. cbn [option_list] in H1.
  assert (accounts (others world k (S n)) w [] (meanwhile rest w1) [p]) as H2.
  { eapply accounts_trans; [exact H1|]. eapply accounts_mono, accounts_meanwhile. intros op Hop. apply Hin.
    destruct (get_run_rest _ _ _ _ _ _ Hg) as [used ->]. unfold script_ops in *. rewrite map_app, concat_app. apply elem_of_app. by right. }
  eapply accounts_trans; [exact H2|]. assert (forall f' w2, conserves (meanwhile rest w1) [p] w2 [] ->
    connect_loop world scheme key target n (S k) f' w2 = Some (r, w') -> accounts (others world k (S n)) (meanwhile rest w1) [p] w' []) as Hnext.
  { intros f' w2 Hc E2. eapply accounts_trans; [by apply accounts_conserves|]. eapply accounts_mono; [exact Hin'|]. by eapply IH. }
  destruct (connect_proto p scheme) as [proto|].
  - destruct (dial _ _ _ _) as [st|e].
    + injection E as <- <-. apply accounts_conserves. eapply conserves_trans; [apply record_conserves|apply settle_ok_conserves].
    + eapply Hnext; [|exact E]. eapply conserves_trans; [apply record_conserves|apply settle_failed_conserves].
  - eapply Hnext; [|exact E]. apply settle_ok_conserves.
Qed.

(** C21: the connector, whatever the other users of the pool do while it chooses, dials and gives back.
    It keeps nothing: the addresses of the pool before, with those that others brought meanwhile, are
    those of the pool after, those that others' removals and checkouts took, and those evicted as
    unhealthy, by it or by others, which are counted. Without a host nothing is checked out. Otherwise its
    tries run one after another, each giving its proxy back before the next; a connection it returns is
    a plain stream, never one that ends the caller's TLS, that one of its at most [max_tries] tries
    negotiated to the address of the URI through the very proxy that try checked out, which serves the
    scheme, by its tunnel protocol or, for a plain target, HTTP, and which went back as a success; it reports
    that nothing was available when a checkout found nothing, and the last error when all tries were
    made. Every proxy the pool can lend for a scheme has such a protocol. *)
Theorem connect_sound : forall world lookup_ip cfg uri w r w',
  connect world lookup_ip cfg uri w = Some (r, w') ->
  let ops := others world 0 (rc_max_tries cfg) in
  (exists gone brought taken,
     map p_key (proxies (w_pool w)) ++ brought ≡ₚ gone ++ taken ++ map p_key (proxies (w_pool w')) /\
     counted (length gone) (w_pool w) (w_pool w') /\
     (forall k, k ∈ brought -> exists op, op ∈ ops /\ op_key op = Some k) /\
     (Forall (fun op => op_takes op = false) ops -> taken = [])) /\
  match uri_target lookup_ip uri with
  | None => uri_host uri = None /\ r = Err NoHost /\ w' = w
  | Some target =>
      let scheme := uri_target_scheme uri in
      exists j f wj, tries world scheme (KIp (V4 0)) target 0 None w j f wj /\
        loop_end world scheme (KIp (V4 0)) target (rc_max_tries cfg) j f wj r w'
  end /\
  forall p s, serves s p = true -> is_Some (connect_proto p s).
Proof.
  intros world lookup_ip cfg uri w r w' E ops. split; [|split].
  3: { intros p s (proto & -> & _)%connect_proto_serves. eauto. }
  - assert (accounts ops w [] w' []) as (b & t & (g & Hp & Hc) & Hb & Ht).
    { unfold connect in E. destruct (uri_target lookup_ip uri); [by eapply connect_loop_accounts|].
      injection E as <- <-. apply accounts_conserves, conserves_refl. }
    exists g, b, t. rewrite !app_nil_r in Hp. done.
  - unfold connect in E. destruct (uri_target lookup_ip uri) as [target|] eqn:Et; [exact (connect_loop_spec _ _ _ _ _ _ _ _ _ _ E)|].
    unfold uri_target in Et. destruct (uri_host uri); [done|]. by injection E as <- <-.
Qed.
End connector.

(** ** A run: the first proxy refuses, another is added while it is dialled; the second opens the tunnel *)
Definition connect_px (ip : Z) : Proxy := add_type Connect80 None (new (V4 ip) 3128 ∅).
Definition demo_connect_attempt (k : nat) : Attempt :=
  {| at_script := [tick; tick; tick;
       {| mo_env := match k with O => [EAdd (connect_px 50529027)] | _ => [] end; mo_now := 0; mo_live := true |}];
     at_dial := match k with O => DialErr | _ => DialOk (open_conn (lit "HTTP/1.1 200 OK" ++ crlf2)) end;
     at_put_now := 0 |}.
#[local] Existing Instances list_order counter_notify ascii_case no_libs.
Definition demo_connect_world : World :=
  mkWorld (from_proxies [connect_px 16843009; connect_px 33686018] PoolConfig_default) rand_seed 0%nat 0.
Definition demo_uri : Uri := {| uri_scheme := Some (lit "http"); uri_host := Some (lit "1.2.3.4"); uri_port := None |}.
Definition demo_connect :=
  connect demo_connect_attempt (fun _ => None) RotateConfig_default demo_uri demo_connect_world.
Lemma connect_sound_witness : exists st w',
  demo_connect = Some (Ok st, w') /\ map p_requests (proxies (w_pool w')) = [1; 0; 1] /\
  (exists j wj p w1 rest proto, get (at_script (demo_connect_attempt j)) SHttp (KIp (V4 0)) wj = Some (Some p, w1, rest) /\
     connect_proto p SHttp = Some proto) /\
  exists gone brought, map p_key (proxies (w_pool demo_connect_world)) ++ brought ≡ₚ gone ++ map p_key (proxies (w_pool w')).
Proof.
  assert (E0 : (fun r => (is_ok r.1, map p_requests (proxies (w_pool r.2)))) <$> demo_connect = Some (true, [1; 0; 1]))
    by (vm_compute; reflexivity).
  destruct demo_connect as [[[st|e] w']|] eqn:E; [|discriminate E0|discriminate E0].
  exists st, w'. split; [reflexivity|]. split; [injection E0; auto|].
  destruct (connect_sound demo_connect_attempt (fun _ => None) RotateConfig_default demo_uri demo_connect_world
    (Ok st) w' E) as ((gone & brought & taken & Hp & _ & _ & Hq) & H & _). split.
  - destruct H as (j & f & wj & _ & _ & p & w1 & rest & proto & tcp & c & H1 & _ & H3 & _).
    exists j, wj, p, w1, rest, proto. split; [exact H1|exact H3].
  - exists gone, brought. rewrite Hq in Hp; [exact Hp|]. vm_compute. repeat constructor.
Defined.
