(* ===== verification/Pipeline.v ===== *)
(** * The check pipeline of the broker (src/broker.rs, [check_stream])

    The source loop, any number of check tasks and the consumer of the channel as a step relation,
    interleaved at every await and every atomic access: the permits of the semaphore, the slot
    counter, the cancellation token, the shared statistics, the bounded channel. *)
From S2P Require Import Prelude F64 Text Types Addr Proxy Stats.
Open Scope Z_scope.

Definition CHANNEL_CAPACITY : nat := 256.
(** [is_limit_reached]. *)
Definition reached (limit : option nat) (sent : nat) : bool :=
  match limit with Some l => (l <=? sent)%nat | None => false end.

(** ** The capability filter *)
Record CapsFilter := { cf_cookie : bool; cf_referer : bool; cf_connect25 : bool; cf_trusted : bool }.
Definition caps_passes (f : CapsFilter) (p : Proxy) : bool :=
  let c := capabilities p in
  (negb (cf_cookie f) || cap_cookie c) && (negb (cf_referer f) || cap_referer c) &&
  (negb (cf_connect25 f) || cap_connect25 c) && (negb (cf_trusted f) || trusted (p_trust p)).

(** ** The check pipeline

    An [Item] of the source is a proxy with whatever decides how its check turns out, so that equal
    proxies may fare differently.

    A task: its proxy is being checked; checked and recorded in the statistics; seen by the observer
    too; past the filter with slot [n] reserved; sending under it; sent, or found no receiver ([delivered] false), with the limit
    still to look at. The other states are ends: done with its slot, slot beyond the limit, not
    emitted, aborted. *)
Inductive TaskPc :=
| CChecking
| CRecorded (working : bool) (p : Proxy)
| CChecked (working : bool) (p : Proxy)
| CSlot (n : nat) (p : Proxy)
| CSending (n : nat) (p : Proxy)
| CAfter (n : nat) (p : Proxy) (delivered : bool)
| CSent (n : nat) (p : Proxy) (delivered : bool)
| CBeyond (n : nat) (p : Proxy)
| CSkipped (p : Proxy)
| CAborted.
Section items.
Context {Item : Type}.
Record CheckTask := { ct_input : Item; ct_pc : TaskPc }.
Definition running (t : CheckTask) : bool :=
  match ct_pc t with CChecking | CRecorded _ _ | CChecked _ _ | CSlot _ _ | CSending _ _ | CAfter _ _ _ => true | _ => false end.

(** [r_recorded] and [r_observed]: the proxies in the order the statistics and the observer saw
    them. The source loop: at [source.next()], waiting for a permit with a proxy in hand, waiting for
    the tasks, ended. *)
Inductive MainPc := MNext | MPermit (p : Item) | MDrain | MEnd.

Record Run := mkRun {
  r_main : MainPc;
  r_source : list Item;
  r_permits : nat;
  r_sent : nat;
  r_cancel : bool;
  r_tasks : list CheckTask;
  r_stats : StatsCollector;
  r_recorded : list Proxy;
  r_observed : list Proxy;
  r_emitted : list Proxy;
  r_unread : nat;
  r_closed : bool;
}.

Inductive RunEvent :=
| VNext | VSpawn | VEnd
| VCheck (i : nat) | VObserve (i : nat) | VAbort (i : nat) | VFilter (i : nat) | VSlot (i : nat) | VSend (i : nat) | VAfter (i : nat)
| VRecv | VClose | VCancel.

Section pipeline.
(** [chk]: what the checker answers for an item of the source, and the proxy with what the check
    recorded. *)
Variable chk : Item -> bool * Proxy.
Variables (max_conn : nat) (limit : option nat) (caps : CapsFilter).

Definition with_task (i : nat) (t : CheckTask) (pc : TaskPc) (r : Run) : Run :=
  mkRun (r_main r) (r_source r) (r_permits r) (r_sent r) (r_cancel r)
    (<[i := {| ct_input := ct_input t; ct_pc := pc |}]> (r_tasks r))
    (r_stats r) (r_recorded r) (r_observed r) (r_emitted r) (r_unread r) (r_closed r).
Definition with_main (m : MainPc) (s : list Item) (r : Run) : Run :=
  mkRun m s (r_permits r) (r_sent r) (r_cancel r) (r_tasks r) (r_stats r) (r_recorded r) (r_observed r) (r_emitted r)
    (r_unread r) (r_closed r).
(** The end of a task gives its permit back. *)
Definition release (r : Run) : Run :=
  mkRun (r_main r) (r_source r) (S (r_permits r)) (r_sent r) (r_cancel r) (r_tasks r) (r_stats r) (r_recorded r)
    (r_observed r) (r_emitted r) (r_unread r) (r_closed r).
Definition cancel_run (b : bool) (r : Run) : Run :=
  mkRun (r_main r) (r_source r) (r_permits r) (r_sent r) (b || r_cancel r) (r_tasks r) (r_stats r) (r_recorded r)
    (r_observed r) (r_emitted r) (r_unread r) (r_closed r).

(** The loop stops with the item in hand; it is left at the head of the source here. *)
Definition main_step (e : RunEvent) (r : Run) : option Run :=
  match e, r_main r with
  | VNext, MNext =>
      match r_source r with
      | [] => Some (with_main MDrain [] r)
      | p :: source =>
          if r_cancel r || reached limit (r_sent r) then Some (with_main MDrain (p :: source) r)
          else Some (with_main (MPermit p) source r)
      end
  | VSpawn, MPermit p =>
      match r_permits r with
      | O => None
      | S permits =>
          Some (mkRun MNext (r_source r) permits (r_sent r) (r_cancel r)
                  (r_tasks r ++ [{| ct_input := p; ct_pc := CChecking |}])
                  (r_stats r) (r_recorded r) (r_observed r) (r_emitted r) (r_unread r) (r_closed r))
      end
  | VEnd, MDrain => if forallb (fun t => negb (running t)) (r_tasks r) then Some (with_main MEnd (r_source r) r) else None
  | _, _ => None
  end.

Definition check_step (i : nat) (t : CheckTask) (r : Run) : option Run :=
  match ct_pc t with
  | CChecking =>
      let '(working, p) := chk (ct_input t) in
      let r := with_task i t (CRecorded working p) r in
      Some (mkRun (r_main r) (r_source r) (r_permits r) (r_sent r) (r_cancel r) (r_tasks r)
              (record (r_stats r) p) (r_recorded r ++ [p]) (r_observed r) (r_emitted r) (r_unread r) (r_closed r))
  | _ => None
  end.
(** [obs(&proxy)], the observer's upsert. *)
Definition observe_step (i : nat) (t : CheckTask) (r : Run) : option Run :=
  match ct_pc t with
  | CRecorded working p =>
      let r := with_task i t (CChecked working p) r in
      Some (mkRun (r_main r) (r_source r) (r_permits r) (r_sent r) (r_cancel r) (r_tasks r)
              (r_stats r) (r_recorded r) (r_observed r ++ [p]) (r_emitted r) (r_unread r) (r_closed r))
  | _ => None
  end.
Definition abort_step (i : nat) (t : CheckTask) (r : Run) : option Run :=
  match ct_pc t with
  | CChecking => if r_cancel r then Some (release (with_task i t CAborted r)) else None
  | _ => None
  end.
Definition filter_step (i : nat) (t : CheckTask) (r : Run) : option Run :=
  match ct_pc t with
  | CChecked working p =>
      if working && caps_passes caps p then
        let r' := with_task i t (CSlot (r_sent r) p) r in
        Some (mkRun (r_main r') (r_source r') (r_permits r') (S (r_sent r')) (r_cancel r') (r_tasks r')
                (r_stats r') (r_recorded r') (r_observed r') (r_emitted r') (r_unread r') (r_closed r'))
      else Some (release (with_task i t (CSkipped p) r))
  | _ => None
  end.
Definition slot_step (i : nat) (t : CheckTask) (r : Run) : option Run :=
  match ct_pc t with
  | CSlot n p =>
      if reached limit n then Some (cancel_run true (release (with_task i t (CBeyond n p) r)))
      else Some (with_task i t (CSending n p) r)
  | _ => None
  end.
(** [tx.send(..).await]: waits for room; fails at once when the receiver is gone. *)
Definition send_step (i : nat) (t : CheckTask) (r : Run) : option Run :=
  match ct_pc t with
  | CSending n p =>
      if r_closed r then Some (with_task i t (CAfter n p false) r)
      else if (r_unread r <? CHANNEL_CAPACITY)%nat then
        let r := with_task i t (CAfter n p true) r in
        Some (mkRun (r_main r) (r_source r) (r_permits r) (r_sent r) (r_cancel r) (r_tasks r) (r_stats r) (r_recorded r)
                (r_observed r) (r_emitted r ++ [p]) (S (r_unread r)) (r_closed r))
      else None
  | _ => None
  end.
Definition after_step (i : nat) (t : CheckTask) (r : Run) : option Run :=
  match ct_pc t with
  | CAfter n p d => Some (cancel_run (reached limit (S n)) (release (with_task i t (CSent n p d) r)))
  | _ => None
  end.
(** The consumer reads, or drops the stream: the receiver first, then the guard, which cancels. *)
Definition consumer_step (e : RunEvent) (r : Run) : option Run :=
  match e with
  | VRecv =>
      match r_unread r, r_closed r with
      | S unread, false =>
          Some (mkRun (r_main r) (r_source r) (r_permits r) (r_sent r) (r_cancel r) (r_tasks r) (r_stats r) (r_recorded r)
                  (r_observed r) (r_emitted r) unread (r_closed r))
      | _, _ => None
      end
  | VClose =>
      if r_closed r then None
      else Some (mkRun (r_main r) (r_source r) (r_permits r) (r_sent r) (r_cancel r) (r_tasks r) (r_stats r) (r_recorded r)
                   (r_observed r) (r_emitted r) (r_unread r) true)
  | VCancel => if r_closed r && negb (r_cancel r) then Some (cancel_run true r) else None
  | _ => None
  end.

Definition task_at (f : nat -> CheckTask -> Run -> option Run) (i : nat) (r : Run) : option Run :=
  let? t := r_tasks r !! i in f i t r.
Definition run_step (e : RunEvent) (r : Run) : option Run :=
  match e with
  | VNext | VSpawn | VEnd => main_step e r
  | VCheck i => task_at check_step i r
  | VObserve i => task_at observe_step i r
  | VAbort i => task_at abort_step i r
  | VFilter i => task_at filter_step i r
  | VSlot i => task_at slot_step i r
  | VSend i => task_at send_step i r
  | VAfter i => task_at after_step i r
  | VRecv | VClose | VCancel => consumer_step e r
  end.

Definition new_run (source : list Item) : Run :=
  mkRun MNext source max_conn 0 false [] collector_default [] [] [] 0 false.
Inductive reaches (source : list Item) : Run -> Prop :=
| reaches_start : reaches source (new_run source)
| reaches_step r e r' : reaches source r -> run_step e r = Some r' -> reaches source r'.
Fixpoint exec_events (es : list RunEvent) (r : Run) : option Run :=
  match es with [] => Some r | e :: es => let? r := run_step e r in exec_events es r end.
End pipeline.

(** ** Lists of tasks seen through a partial function *)
Lemma omap_update {A B} (f : A -> option B) l i t t' : l !! i = Some t ->
  omap f (<[i:=t']> l) ++ option_list (f t) ≡ₚ omap f l ++ option_list (f t').
Proof.
  intros E. rewrite <- (take_drop_middle l i t) at 2 by done.
  rewrite insert_take_drop by (by eapply lookup_lt_Some). rewrite !omap_app. cbn [omap list_omap].
  rewrite !(Permutation_app_comm _ (option_list _)).
  destruct (f t), (f t'); cbn [option_list app]; rewrite <- ?Permutation_middle; [apply perm_swap|done..].
Qed.
Lemma omap_update_same {A B} (f : A -> option B) l i t t' : l !! i = Some t -> f t' = f t ->
  omap f (<[i:=t']> l) ≡ₚ omap f l.
Proof. intros E Hf. pose proof (omap_update f l i t t' E) as H. rewrite Hf in H. by apply Permutation_app_inv_r in H. Qed.
Lemma omap_update_add {A B} (f : A -> option B) l i t t' x : l !! i = Some t -> f t = None -> f t' = Some x ->
  omap f (<[i:=t']> l) ≡ₚ omap f l ++ [x].
Proof. intros E H1 H2. pose proof (omap_update f l i t t' E) as H. by rewrite H1, H2, app_nil_r in H. Qed.

Lemma omap_submseteq {A B} (f g : A -> option B) (l : list A) :
  (forall t x, t ∈ l -> f t = Some x -> g t = Some x) -> omap f l ⊆+ omap g l.
Proof.
  induction l as [|t l IH]; intros H; cbn [omap list_omap]; [done|].
  assert (omap f l ⊆+ omap g l) as Hl by (apply IH; intros; apply H; [by right|done]).
  destruct (f t) as [x|] eqn:E; [|destruct (g t); [by apply submseteq_cons|done]].
  rewrite (H t x) by (by left || done). by apply submseteq_skip.
Qed.
Lemma omap_ext_elem {A B} (f g : A -> option B) (l : list A) :
  (forall t, t ∈ l -> f t = g t) -> omap f l = omap g l.
Proof.
  induction l as [|t l IH]; intros H; cbn [omap list_omap]; [done|].
  rewrite H by left. rewrite IH by (intros; apply H; by right). done.
Qed.

(** ** What a task contributes *)
Definition runs (t : CheckTask) : option unit := if running t then Some tt else None.
Definition slot_of (t : CheckTask) : option nat :=
  match ct_pc t with
  | CSlot n _ | CSending n _ | CAfter n _ _ | CSent n _ _ | CBeyond n _ => Some n
  | _ => None
  end.
Definition emitted_of (t : CheckTask) : option (nat * Proxy) :=
  match ct_pc t with CAfter n p true | CSent n p true => Some (n, p) | _ => None end.

Section invariant.
Variable chk : Item -> bool * Proxy.
Variables (max_conn : nat) (limit : option nat) (caps : CapsFilter).

Definition recorded_of (t : CheckTask) : option Proxy :=
  match ct_pc t with CChecking | CAborted => None | _ => Some (chk (ct_input t)).2 end.
Definition observed_of (t : CheckTask) : option Proxy :=
  match ct_pc t with CRecorded _ _ => None | _ => recorded_of t end.
(** The check of [p] answers with [q], to be emitted. *)
Definition good (p : Item) (q : Proxy) : Prop := chk p = (true, q) /\ caps_passes caps q = true.
Definition answer (p : Item) : option Proxy :=
  let '(working, q) := chk p in if working && caps_passes caps q then Some q else None.

Definition task_ok (closed cancel : bool) (t : CheckTask) : Prop :=
  match ct_pc t with
  | CChecking => True
  | CRecorded b p | CChecked b p => chk (ct_input t) = (b, p)
  | CSlot n p => good (ct_input t) p
  | CSending n p => good (ct_input t) p /\ reached limit n = false
  | CAfter n p d | CSent n p d => good (ct_input t) p /\ reached limit n = false /\ (d = false -> closed = true)
  | CBeyond n p => good (ct_input t) p /\ reached limit n = true
  | CSkipped p => exists b, chk (ct_input t) = (b, p) /\ b && caps_passes caps p = false
  | CAborted => cancel = true
  end.

Definition in_hand (m : MainPc) : list Item := match m with MPermit p => [p] | _ => [] end.
Definition stopped (r : Run) : Prop := r_closed r = true \/ reached limit (r_sent r) = true.

Record run_ok (source : list Item) (r : Run) : Prop := {
  ok_permits : (r_permits r + length (omap runs (r_tasks r)) = max_conn)%nat;
  ok_source : map ct_input (r_tasks r) ++ in_hand (r_main r) ++ r_source r = source;
  ok_recorded : r_recorded r ≡ₚ omap recorded_of (r_tasks r);
  ok_stats : r_stats r = collect (r_recorded r);
  ok_observed : r_observed r ≡ₚ omap observed_of (r_tasks r);
  ok_slots : omap slot_of (r_tasks r) ≡ₚ seq 0 (r_sent r);
  ok_emitted : r_emitted r ≡ₚ map snd (omap emitted_of (r_tasks r));
  ok_tasks : Forall (task_ok (r_closed r) (r_cancel r)) (r_tasks r);
  ok_cancel : r_cancel r = true -> stopped r;
  ok_main : match r_main r with
            | MNext | MPermit _ => True
            | MDrain => r_source r = [] \/ stopped r
            | MEnd => (r_source r = [] \/ stopped r) /\ forallb (fun t => negb (running t)) (r_tasks r) = true
            end;
}.

Lemma reached_mono n m : (n <= m)%nat -> reached limit n = true -> reached limit m = true.
Proof. unfold reached. destruct limit; [|done]. rewrite !Nat.leb_le. lia. Qed.
Lemma check_task_mono c1 c2 d1 d2 t : (c1 = true -> c2 = true) -> (d1 = true -> d2 = true) ->
  task_ok c1 d1 t -> task_ok c2 d2 t.
Proof. unfold task_ok. destruct (ct_pc t); naive_solver. Qed.
Lemma check_tasks_mono c1 c2 d1 d2 l : (c1 = true -> c2 = true) -> (d1 = true -> d2 = true) ->
  Forall (task_ok c1 d1) l -> Forall (task_ok c2 d2) l.
Proof. intros ?? H. eapply Forall_impl; [exact H|]. intros t. by apply check_task_mono. Qed.

Lemma new_run_ok source : run_ok source (new_run max_conn source).
Proof. by split; simpl. Qed.

Lemma runs_permits (l : list CheckTask) i t pc n : l !! i = Some t -> running t = true ->
  (n + length (omap runs l) = max_conn)%nat ->
  ((if running {| ct_input := ct_input t; ct_pc := pc |} then n else S n) +
     length (omap runs (<[i:={| ct_input := ct_input t; ct_pc := pc |}]> l)) = max_conn)%nat.
Proof.
  intros E Hr Hn. set (t' := {| ct_input := _ |}). pose proof (omap_update runs l i t t' E) as H.
  apply Permutation_length in H. rewrite !length_app in H.
  assert (runs t = Some tt) as Ht by (unfold runs; by rewrite Hr).
  assert (runs t' = if running t' then Some tt else None) as Ht' by done.
  rewrite Ht, Ht' in H. destruct (running t'); simpl in H; lia.
Qed.
Lemma inputs_update (l : list CheckTask) i t pc : l !! i = Some t ->
  map ct_input (<[i:={| ct_input := ct_input t; ct_pc := pc |}]> l) = map ct_input l.
Proof.
  intros E. change (ct_input <$> (<[i:={| ct_input := ct_input t; ct_pc := pc |}]> l) = ct_input <$> l).
  rewrite list_fmap_insert. apply list_insert_id. by rewrite list_lookup_fmap, E.
Qed.

Lemma stopped_mono r r' : (r_sent r <= r_sent r')%nat -> (r_closed r = true -> r_closed r' = true) ->
  stopped r -> stopped r'.
Proof. intros Hs Hc [?|?]; [left; auto|right]. by eapply reached_mono. Qed.

(** A running task moves on: what the rest of the state must satisfy. *)
Definition moved (i : nat) (t : CheckTask) (pc : TaskPc) (r r' : Run) : Prop :=
  let t' := {| ct_input := ct_input t; ct_pc := pc |} in
  r_tasks r !! i = Some t /\ running t = true /\
  r_main r' = r_main r /\ r_source r' = r_source r /\ r_tasks r' = <[i:=t']> (r_tasks r) /\
  r_permits r' = (if running t' then r_permits r else S (r_permits r)) /\
  r_closed r' = r_closed r /\ (r_sent r <= r_sent r')%nat /\
  (r_cancel r = true -> r_cancel r' = true) /\ (r_cancel r' = true -> r_cancel r = true \/ stopped r') /\
  task_ok (r_closed r') (r_cancel r') t'.
Lemma moved_ok source i t pc r r' : run_ok source r -> moved i t pc r r' ->
  r_stats r' = collect (r_recorded r') ->
  r_recorded r' ≡ₚ omap recorded_of (r_tasks r') ->
  r_observed r' ≡ₚ omap observed_of (r_tasks r') ->
  omap slot_of (r_tasks r') ≡ₚ seq 0 (r_sent r') ->
  r_emitted r' ≡ₚ map snd (omap emitted_of (r_tasks r')) -> run_ok source r'.
Proof.
  intros [H1 H2 H3 H4 H4o H5 H6 H7 H8 H9] (E & Hr & Em & Es & Et & Ep & Ec & Hs & Hc1 & Hc2 & Hok) H4' H3' Ho' H5' H6'.
  split; try done.
  - rewrite Et, Ep. by apply runs_permits.
  - by rewrite Et, Em, Es, inputs_update.
  - rewrite Et. apply Forall_insert; [|done]. eapply check_tasks_mono; [|exact Hc1|exact H7]. by rewrite Ec.
  - intros [?%H8|?]%Hc2; [|done]. eapply stopped_mono; [exact Hs| |done]. by rewrite Ec.
  - rewrite Em, Es. assert (stopped r -> stopped r') as Hst by (apply stopped_mono; [done|by rewrite Ec]).
    destruct (r_main r); try done; [naive_solver|]. exfalso. destruct H9 as [_ H9].
    rewrite forallb_elem in H9. specialize (H9 t (list_elem_of_lookup_2 _ _ _ E)). by rewrite Hr in H9.
Qed.

(** The six facts of [moved_ok] for a step that changes one of the lists at most: an unchanged
    one goes by [omap_update_same], a grown one by [omap_update_add]. *)
Lemma list_kept {A} (f : CheckTask -> option A) l i t t' obs : l !! i = Some t -> f t' = f t ->
  obs ≡ₚ omap f l -> obs ≡ₚ omap f (<[i:=t']> l).
Proof. intros E Hf Ho. rewrite Ho. symmetry. by eapply omap_update_same. Qed.
Lemma list_grown {A} (f : CheckTask -> option A) l i t t' obs x : l !! i = Some t -> f t = None -> f t' = Some x ->
  obs ≡ₚ omap f l -> obs ++ [x] ≡ₚ omap f (<[i:=t']> l).
Proof. intros E Hf Hf' Ho. rewrite Ho. symmetry. by eapply omap_update_add. Qed.
Lemma emitted_kept l i t t' obs : l !! i = Some t -> emitted_of t' = emitted_of t ->
  obs ≡ₚ map snd (omap emitted_of l) -> obs ≡ₚ map snd (omap emitted_of (<[i:=t']> l)).
Proof. intros E Hf Ho. rewrite Ho. apply Permutation_map. by eapply list_kept. Qed.
Lemma emitted_grown l i t t' obs n p : l !! i = Some t -> emitted_of t = None -> emitted_of t' = Some (n, p) ->
  obs ≡ₚ map snd (omap emitted_of l) -> obs ++ [p] ≡ₚ map snd (omap emitted_of (<[i:=t']> l)).
Proof.
  intros E Hf Hf' Ho. rewrite Ho. transitivity (map snd (omap emitted_of l ++ [(n, p)])); [by rewrite map_app|].
  apply Permutation_map. by eapply list_grown.
Qed.
Lemma slots_taken l i t t' n : l !! i = Some t -> slot_of t = None -> slot_of t' = Some n ->
  omap slot_of l ≡ₚ seq 0 n -> omap slot_of (<[i:=t']> l) ≡ₚ seq 0 (S n).
Proof. intros E Hf Hf' Ho. rewrite seq_S, <- Ho. by eapply omap_update_add. Qed.

Lemma task_ok_at source r i t : run_ok source r -> r_tasks r !! i = Some t -> task_ok (r_closed r) (r_cancel r) t.
Proof. intros H E. eapply Forall_lookup_1; [apply H|exact E]. Qed.

Lemma slot_below source r i t n : run_ok source r -> r_tasks r !! i = Some t -> slot_of t = Some n -> (n < r_sent r)%nat.
Proof.
  intros H E Hn. assert (n ∈ omap slot_of (r_tasks r)) as Hin.
  { apply list_elem_of_omap. exists t. split; [by eapply list_elem_of_lookup_2|done]. }
  rewrite (ok_slots _ _ H), elem_of_seq in Hin. lia.
Qed.

Ltac step_open H E :=
  let Hok := fresh "Hok" in pose proof (task_ok_at _ _ _ _ H E) as Hok;
  match goal with t : CheckTask |- _ => destruct t as [input pc]; unfold check_step, observe_step, abort_step,
    filter_step, slot_step, send_step, after_step; cbn [ct_pc ct_input]; destruct pc; try discriminate;
    unfold task_ok in Hok; cbn [ct_pc ct_input] in Hok end.
Ltac step_moved H E :=
  intros [= <-]; eapply (moved_ok _ _ _ _ _ _ H);
  [ unfold moved; split; [exact E|]; split_and?; cbn; try done; try lia; try tauto
  | cbn; rewrite ?(ok_stats _ _ H); try done | cbn | cbn | cbn | cbn ];
  try (eapply list_kept; [exact E|reflexivity|apply H]);
  try (eapply emitted_kept; [exact E|reflexivity|apply H]);
  try (symmetry; eapply list_kept; [exact E|reflexivity|symmetry; apply H]).

Lemma check_step_ok source r i t r' : run_ok source r -> r_tasks r !! i = Some t ->
  check_step chk i t r = Some r' -> run_ok source r'.
Proof.
  intros H E. step_open H E. destruct (chk input) as [b p] eqn:Ec. step_moved H E.
  - unfold collect. rewrite fold_left_app. done.
  - eapply list_grown; [exact E|reflexivity| |apply H]. cbn. by rewrite Ec.
Qed.
Lemma observe_step_ok source r i t r' : run_ok source r -> r_tasks r !! i = Some t ->
  observe_step i t r = Some r' -> run_ok source r'.
Proof.
  intros H E. step_open H E. step_moved H E.
  eapply list_grown; [exact E|reflexivity| |apply H]. cbn. by rewrite Hok.
Qed.
Lemma abort_step_ok source r i t r' : run_ok source r -> r_tasks r !! i = Some t ->
  abort_step i t r = Some r' -> run_ok source r'.
Proof. intros H E. step_open H E. destruct (r_cancel r) eqn:Ec; [|done]. step_moved H E. Qed.
Lemma filter_step_ok source r i t r' : run_ok source r -> r_tasks r !! i = Some t ->
  filter_step caps i t r = Some r' -> run_ok source r'.
Proof.
  intros H E. step_open H E. destruct (working && caps_passes caps p) eqn:Ew; step_moved H E.
  - destruct working; [|done]. by split.
  - eapply slots_taken; [exact E|done..|apply H].
  - by exists working.
Qed.
Lemma slot_step_ok source r i t r' : run_ok source r -> r_tasks r !! i = Some t ->
  slot_step limit i t r = Some r' -> run_ok source r'.
Proof.
  intros H E. step_open H E. destruct (reached limit n) eqn:Er; step_moved H E.
  intros _. right. right. cbn. eapply reached_mono; [|exact Er].
  eapply Nat.lt_le_incl, slot_below; [done|exact E|done].
Qed.
Lemma send_step_ok source r i t r' : run_ok source r -> r_tasks r !! i = Some t ->
  send_step i t r = Some r' -> run_ok source r'.
Proof.
  intros H E. step_open H E. destruct (r_closed r) eqn:Ec; [step_moved H E; destruct Hok; unfold task_ok; cbn; split_and?; done|].
  destruct (_ <? _)%nat; [|done]. step_moved H E.
  - destruct Hok. unfold task_ok. cbn. split_and?; done.
  - by eapply emitted_grown; [exact E|reflexivity..|apply H].
Qed.
Lemma after_step_ok source r i t r' : run_ok source r -> r_tasks r !! i = Some t ->
  after_step limit i t r = Some r' -> run_ok source r'.
Proof.
  intros H E. step_open H E. step_moved H E.
  - intros ->. by rewrite orb_true_r.
  - intros [Er|?]%orb_prop; [|by left]. right. right. cbn. eapply reached_mono; [|exact Er].
    eapply slot_below; [done|exact E|done].
Qed.

Lemma main_step_ok source e r r' : run_ok source r -> main_step limit e r = Some r' -> run_ok source r'.
Proof.
  intros [H1 H2 H3 H4 H4o H5 H6 H7 H8 H9]. unfold main_step. destruct e; try done; destruct (r_main r) as [|p| |] eqn:Em; try done.
  - destruct (r_source r) as [|p source'] eqn:Es; [intros [= <-]; split; cbn; by auto|].
    destruct (r_cancel r || reached limit (r_sent r)) eqn:Eb; intros [= <-]; split; try done; cbn.
    right. apply orb_prop in Eb as [?%H8|?]; [done|by right].
  - destruct (r_permits r) as [|permits] eqn:Ep; [done|]. intros [= <-]. cbn [in_hand] in H2.
    split; try done; cbn; rewrite ?omap_app, ?app_nil_r, ?length_app; cbn; rewrite ?app_nil_r; try done.
    + lia.
    + by rewrite map_app, <- app_assoc.
    + apply Forall_app. by repeat constructor.
  - destruct (forallb _ _) eqn:Ef; [|done]. intros [= <-]. by split.
Qed.
Lemma consumer_step_ok source e r r' : run_ok source r -> consumer_step e r = Some r' -> run_ok source r'.
Proof.
  intros [H1 H2 H3 H4 H4o H5 H6 H7 H8 H9]. unfold consumer_step. destruct e; try done.
  - destruct (r_unread r), (r_closed r) eqn:Ec; try done; intros [= <-]; rewrite <- ?Ec in *; split; try done; cbn; done.
  - destruct (r_closed r) eqn:Ec; [done|]. intros [= <-]. split; try done; cbn.
    + eapply check_tasks_mono; [| |exact H7]; [done|done].
    + by left.
    + destruct (r_main r); try done; [right; by left|split; [right; by left|apply H9]].
  - destruct (r_closed r) eqn:Ec; [|done]. destruct (r_cancel r); [done|]. intros [= <-]. split; try done; cbn.
    + rewrite Ec. eapply check_tasks_mono; [| |exact H7]; done.
    + by left.
Qed.
Lemma run_step_ok source e r r' : run_ok source r -> run_step chk limit caps e r = Some r' -> run_ok source r'.
Proof.
  intros H. unfold run_step, task_at. destruct e; try (by apply main_step_ok); try (by apply consumer_step_ok);
    (destruct (r_tasks r !! i) as [t|] eqn:E; [cbn|done]).
  - by apply check_step_ok.
  - by apply observe_step_ok.
  - by apply abort_step_ok.
  - by apply filter_step_ok.
  - by apply slot_step_ok.
  - by apply send_step_ok.
  - by apply after_step_ok.
Qed.
Lemma reaches_ok source r : reaches chk max_conn limit caps source r -> run_ok source r.
Proof. induction 1 as [|r e r' Hr IH Hs]; [apply new_run_ok|by eapply run_step_ok]. Qed.
End invariant.

(** ** What a run has done at any time, and what it has done when it ends *)
Lemma omap_below l s : length (omap (fun n => if (n <? l)%nat then Some n else None) (seq 0 s)) = (l `min` s)%nat.
Proof.
  induction s as [|s IH]; [simpl; lia|]. rewrite seq_S, omap_app, length_app, IH, Nat.add_0_l. cbn [omap list_omap].
  destruct (Nat.ltb_spec s l); cbn [length]; lia.
Qed.
Lemma omap_map {A B C} (f : B -> option C) (g : A -> B) (l : list A) : omap f (map g l) = omap (fun x => f (g x)) l.
Proof. induction l as [|x l IH]; cbn [map omap list_omap]; [done|]. by rewrite IH. Qed.
Lemma map_omap {A B C} (f : B -> C) (g : A -> option B) (l : list A) : map f (omap g l) = omap (fun x => f <$> g x) l.
Proof. induction l as [|x l IH]; cbn [map omap list_omap]; [done|]. destruct (g x); cbn; by rewrite IH. Qed.
Lemma omap_omap {A B C} (f : B -> option C) (g : A -> option B) (l : list A) : omap f (omap g l) = omap (fun x => g x ≫= f) l.
Proof. induction l as [|x l IH]; cbn [omap list_omap]; [done|]. destruct (g x); cbn; by rewrite <- IH. Qed.
Lemma omap_total {A B} (f : A -> B) (l : list A) : omap (fun x => Some (f x)) l = map f l.
Proof. induction l as [|x l IH]; cbn [map omap list_omap]; [done|]. by rewrite IH. Qed.
Lemma map_submseteq {A B} (f : A -> B) (l k : list A) : l ⊆+ k -> map f l ⊆+ map f k.
Proof. intros H. by apply (fmap_submseteq f). Qed.
Lemma omap_submseteq_l {A B} (f : A -> option B) (l k : list A) : l ⊆+ k -> omap f l ⊆+ omap f k.
Proof.
  intros (l' & Hl)%submseteq_Permutation. rewrite Hl, omap_app. by apply submseteq_inserts_r.
Qed.

Lemma runs_filter l : length (omap runs l) = length (List.filter running l).
Proof. induction l as [|t l IH]; cbn [omap list_omap List.filter]; [done|]. unfold runs at 1. destruct (running t); cbn; by rewrite IH. Qed.

Section results.
Variable chk : Item -> bool * Proxy.
Variables (max_conn : nat) (limit : option nat) (caps : CapsFilter).
Context (source : list Item) (r : Run) (H : run_ok chk max_conn limit caps source r).

Lemma good_answer p q : good chk caps p q <-> answer chk caps p = Some q.
Proof.
  unfold good, answer. destruct (chk p) as [b q'] eqn:E. split.
  - intros [[= -> ->] Hc]. by rewrite Hc.
  - destruct b; cbn; [|done]. destruct (caps_passes caps q') eqn:Hc; [|done]. by intros [= ->].
Qed.
Lemma inputs_sub : map ct_input (r_tasks r) ⊆+ source.
Proof. rewrite <- (ok_source _ _ _ _ _ _ H). by apply submseteq_inserts_r. Qed.
Lemma task_ok_in t : t ∈ r_tasks r -> task_ok chk limit caps (r_closed r) (r_cancel r) t.
Proof. intros Ht. pose proof (ok_tasks _ _ _ _ _ _ H) as Hf. rewrite Forall_forall in Hf. auto. Qed.
Lemma slot_in t n : t ∈ r_tasks r -> slot_of t = Some n -> (n < r_sent r)%nat.
Proof. intros [i E]%list_elem_of_lookup_1 Hn. by eapply slot_below. Qed.

Lemma emitted_sub : r_emitted r ⊆+ omap (answer chk caps) source.
Proof.
  rewrite (ok_emitted _ _ _ _ _ _ H), map_omap. etransitivity; [|apply omap_submseteq_l, inputs_sub].
  rewrite omap_map. apply omap_submseteq. intros t q Ht Hq. apply task_ok_in in Ht. apply good_answer.
  destruct t as [p []]; try done; cbn in *; destruct delivered; try done; injection Hq as <-; apply Ht.
Qed.
Lemma recorded_sub (f : CheckTask -> option Proxy) :
  (forall t q, f t = Some q -> q = (chk (ct_input t)).2) -> omap f (r_tasks r) ⊆+ map (fun p => (chk p).2) source.
Proof.
  intros Hf. etransitivity; [|apply map_submseteq, inputs_sub]. rewrite map_map.
  rewrite <- (omap_total (fun t => (chk (ct_input t)).2)). apply omap_submseteq. intros t q _ Hq. by rewrite (Hf t q).
Qed.
Lemma emitted_slots l : limit = Some l -> (length (r_emitted r) <= l)%nat.
Proof.
  intros Hl. rewrite (ok_emitted _ _ _ _ _ _ H), length_map, <- (length_map fst), map_omap.
  etransitivity; [|apply (Nat.le_min_l l (r_sent r))]. rewrite <- omap_below.
  rewrite <- (ok_slots _ _ _ _ _ _ H), omap_omap. apply submseteq_length, omap_submseteq.
  intros t n Ht Hn. apply task_ok_in in Ht. rewrite Hl in Ht.
  destruct t as [p []]; try done; destruct delivered; try done; cbn in Hn; injection Hn as <-;
    destruct Ht as (_ & Hr & _); cbn [reached] in Hr; cbn [slot_of ct_pc mbind option_bind];
    by rewrite Nat.ltb_antisym, Hr.
Qed.
End results.

Definition at_end (r : Run) : Prop := r_main r = MEnd.
#[global] Instance at_end_dec r : Decision (at_end r).
Proof. unfold at_end. destruct (r_main r); (left; done) || (right; done). Defined.

(** What the finished tasks of an ended run show, its receiver still there. *)
Section ended.
Variable chk : Item -> bool * Proxy.
Variables (max_conn : nat) (limit : option nat) (caps : CapsFilter).
Context (source : list Item) (r : Run) (H : run_ok chk max_conn limit caps source r).
Context (Hend : at_end r) (Hopen : r_closed r = false).

Lemma ended_not_running t : t ∈ r_tasks r -> running t = false.
Proof.
  intros Ht. pose proof (ok_main _ _ _ _ _ _ H) as Hm. rewrite Hend in Hm. destruct Hm as [_ Hm].
  rewrite forallb_elem in Hm. by apply negb_true_iff, Hm.
Qed.
(** Every slot below the limit was sent. *)
Lemma ended_limit l : limit = Some l -> (l <= r_sent r)%nat -> length (r_emitted r) = l.
Proof.
  intros Hl Hs. rewrite (ok_emitted _ _ _ _ _ _ H), length_map, <- (length_map fst), map_omap.
  rewrite <- (Nat.min_l l (r_sent r)) by done. rewrite <- omap_below.
  rewrite <- (ok_slots _ _ _ _ _ _ H), omap_omap. f_equal. apply omap_ext_elem. intros t Ht.
  pose proof (task_ok_in _ _ _ _ _ _ H t Ht) as Hok. pose proof (ended_not_running t Ht) as Hr.
  rewrite Hopen, Hl in Hok. destruct t as [p []]; try done; cbn in Hok; cbn [slot_of emitted_of ct_pc mbind option_bind].
  - destruct Hok as (_ & Hn & Hd). destruct delivered; [|by specialize (Hd eq_refl)]. by rewrite Nat.ltb_antisym, Hn.
  - destruct Hok as (_ & Hn). by rewrite Nat.ltb_antisym, Hn.
Qed.
Context (Hopen_limit : reached limit (r_sent r) = false).
Lemma ended_inputs : map ct_input (r_tasks r) = source.
Proof.
  pose proof (ok_source _ _ _ _ _ _ H) as Hs. pose proof (ok_main _ _ _ _ _ _ H) as Hm. rewrite Hend in Hs, Hm.
  destruct Hm as [[Hm|[Hm|Hm]] _]; [by rewrite Hm, app_nil_r in Hs|congruence..].
Qed.
Lemma ended_task t : t ∈ r_tasks r ->
  recorded_of chk t = Some (chk (ct_input t)).2 /\ observed_of chk t = recorded_of chk t /\
  snd <$> emitted_of t = answer chk caps (ct_input t) /\ (slot_of t = None <-> emitted_of t = None).
Proof.
  intros Ht. pose proof (task_ok_in _ _ _ _ _ _ H t Ht) as Hok. pose proof (ended_not_running t Ht) as Hr.
  pose proof (slot_in _ _ _ _ _ _ H t) as Hslot. rewrite Hopen in Hok.
  destruct t as [p []]; try done; cbn in Hok.
  - destruct Hok as (Hg%good_answer & Hn & Hd). destruct delivered; [|by specialize (Hd eq_refl)]. cbn. by rewrite Hg.
  - exfalso. specialize (Hslot n Ht eq_refl). destruct Hok as [_ Hn].
    eapply Nat.lt_le_incl, reached_mono in Hslot; [|exact Hn]. congruence.
  - destruct Hok as (b & Hc & Hb). cbn. unfold answer. rewrite Hc, Hb. by cbn.
  - exfalso. destruct (ok_cancel _ _ _ _ _ _ H Hok); congruence.
Qed.
Lemma ended_recorded : r_recorded r ≡ₚ map (fun p => (chk p).2) source /\ r_observed r ≡ₚ r_recorded r.
Proof.
  rewrite (ok_observed _ _ _ _ _ _ H), (ok_recorded _ _ _ _ _ _ H), <- ended_inputs, map_map, <- omap_total.
  erewrite (omap_ext_elem (observed_of chk) (recorded_of chk)) by (intros t Ht; by apply ended_task).
  by erewrite (omap_ext_elem (recorded_of chk)) by (intros t Ht; by apply ended_task).
Qed.
Lemma ended_emitted : r_emitted r ≡ₚ omap (answer chk caps) source.
Proof.
  rewrite (ok_emitted _ _ _ _ _ _ H), <- ended_inputs, map_omap, omap_map.
  by erewrite omap_ext_elem by (intros t Ht; by apply ended_task).
Qed.
Lemma ended_sent : length (r_emitted r) = r_sent r.
Proof.
  rewrite (ok_emitted _ _ _ _ _ _ H), length_map, <- (length_seq (r_sent r) 0), <- (ok_slots _ _ _ _ _ _ H).
  generalize (fun t Ht => proj2 (proj2 (proj2 (ended_task t Ht)))). generalize (r_tasks r) as l.
  induction l as [|t l IH]; intros Hl; cbn [omap list_omap]; [done|].
  pose proof (Hl t ltac:(left)) as Ht. assert (length (omap emitted_of l) = length (omap slot_of l)) as Hrec by (apply IH; intros; apply Hl; by right).
  destruct (emitted_of t), (slot_of t); cbn [length]; rewrite ?Hrec; try done; naive_solver.
Qed.
End ended.

(** ** Progress and termination

    The work left: what each proxy of the source, the source loop, each task, each unread proxy and
    each of the two flags can still contribute to a run. *)
Definition task_work (t : CheckTask) : nat :=
  match ct_pc t with
  | CChecking => 10 | CRecorded _ _ => 9 | CChecked _ _ => 8 | CSlot _ _ => 7 | CSending _ _ => 6
  | CAfter _ _ _ => 3 | _ => 0
  end.
Definition main_work (m : MainPc) : nat := match m with MNext => 2 | MPermit _ => 13 | MDrain => 1 | MEnd => 0 end.
Definition flag (b : bool) : nat := if b then 0 else 1.
Definition run_work (r : Run) : nat :=
  12 * length (r_source r) + main_work (r_main r) + list_sum (map task_work (r_tasks r)) + r_unread r +
  flag (r_closed r) + flag (r_cancel r).

Lemma flag_orb b c : flag (b || c) = if b then 0%nat else flag c.
Proof. by destruct b. Qed.
Lemma work_update l i t t' : l !! i = Some t ->
  (list_sum (map task_work (<[i:=t']> l)) + task_work t = list_sum (map task_work l) + task_work t')%nat.
Proof.
  intros E. rewrite <- (take_drop_middle l i t) at 2 by done.
  rewrite insert_take_drop by (by eapply lookup_lt_Some). rewrite !map_app, !list_sum_app. cbn [map list_sum fold_right]. lia.
Qed.

Section live.
Variable chk : Item -> bool * Proxy.
Variables (max_conn : nat) (limit : option nat) (caps : CapsFilter).

Lemma task_step_work f i r r' : task_at f i r = Some r' ->
  In f [check_step chk; observe_step; abort_step; filter_step caps; slot_step limit; send_step; after_step limit] ->
  (run_work r' < run_work r)%nat.
Proof.
  unfold task_at. destruct (r_tasks r !! i) as [t|] eqn:E; [|done]. cbn. intros Hf Hin.
  destruct Hin as [<-|[<-|[<-|[<-|[<-|[<-|[<-|[]]]]]]]];
    revert Hf; destruct t as [p pc]; unfold check_step, observe_step, abort_step, filter_step, slot_step, send_step, after_step;
    cbn [ct_pc ct_input]; destruct pc; try done; repeat case_match; try done; intros [= <-];
    unfold run_work; cbn [r_source r_main r_tasks r_unread r_closed r_cancel with_task release cancel_run ct_input];
    match goal with |- context [<[i:=?t']> (r_tasks r)] => pose proof (work_update (r_tasks r) i _ t' E) as Hw end;
    cbn [task_work ct_pc] in Hw; rewrite ?flag_orb;
    repeat match goal with Hf : r_closed r = _ |- _ => rewrite Hf; clear Hf | Hf : r_cancel r = _ |- _ => rewrite Hf; clear Hf end;
    repeat case_match; lia.
Qed.
Lemma run_step_work e r r' : run_step chk limit caps e r = Some r' -> (run_work r' < run_work r)%nat.
Proof.
  destruct e; cbn [run_step]; try (intros Hs; eapply task_step_work; [exact Hs|cbn; tauto]).
  - cbn [main_step consumer_step]. destruct (r_main r) eqn:Em; try done. destruct (r_source r) eqn:Es; [|case_match]; intros [= <-];
      unfold run_work; rewrite Em, Es; cbn [with_main new_run r_source r_main r_tasks r_unread r_closed r_cancel main_work length map]; lia.
  - cbn [main_step consumer_step]. destruct (r_main r) eqn:Em; try done. destruct (r_permits r); [done|]. intros [= <-].
    unfold run_work; rewrite Em; cbn [with_main new_run r_source r_main r_tasks r_unread r_closed r_cancel main_work length map]. rewrite map_app, list_sum_app. cbn [map list_sum fold_right task_work ct_pc]. lia.
  - cbn [main_step consumer_step]. destruct (r_main r) eqn:Em; try done. case_match; [|done]. intros [= <-]. unfold run_work; rewrite Em; cbn [with_main new_run r_source r_main r_tasks r_unread r_closed r_cancel main_work length map]; lia.
  - cbn [main_step consumer_step]. destruct (r_unread r) eqn:Eu, (r_closed r) eqn:Ec; try done. intros [= <-].
    unfold run_work; cbn [r_source r_main r_tasks r_unread r_closed r_cancel]; rewrite Eu, ?Ec; lia.
  - cbn [main_step consumer_step]. destruct (r_closed r) eqn:Ec; [done|]. intros [= <-]. unfold run_work; cbn [r_source r_main r_tasks r_unread r_closed r_cancel]; rewrite Ec; cbn [flag]. lia.
  - cbn [main_step consumer_step]. destruct (r_closed r) eqn:Ec, (r_cancel r) eqn:Ex; try done. intros [= <-]. unfold run_work; cbn [r_source r_main r_tasks r_unread r_closed r_cancel cancel_run orb flag]; rewrite Ex; cbn [flag]. lia.
Qed.
Lemma reaches_work source r : reaches chk max_conn limit caps source r -> (run_work r <= 12 * length source + 4)%nat.
Proof.
  induction 1 as [|r e r' _ IH Hs%run_step_work]; [|lia]. unfold run_work; cbn. lia.
Qed.
Lemma exec_events_work es r r' : exec_events chk limit caps es r = Some r' -> (length es + run_work r' <= run_work r)%nat.
Proof.
  revert r. induction es as [|e es IH]; intros r; cbn [exec_events length]; [intros [= ->]; lia|].
  destruct (run_step chk limit caps e r) as [r1|] eqn:E; cbn [mbind option_bind]; [|done]. intros Hes%IH. apply run_step_work in E. lia.
Qed.
Lemma exec_reaches source es r r' : reaches chk max_conn limit caps source r ->
  exec_events chk limit caps es r = Some r' -> reaches chk max_conn limit caps source r'.
Proof.
  revert r. induction es as [|e es IH]; intros r Hr; cbn; [by intros [= <-]|].
  destruct (run_step chk limit caps e r) as [r1|] eqn:E; cbn; [|done]. intros Hes. eapply IH; [|exact Hes]. by econstructor.
Qed.

(** The next event of a running task: its own, or a read when it waits for room in the channel. *)
Lemma running_step r t : t ∈ r_tasks r -> running t = true ->
  exists e r', (e <> VClose /\ e <> VCancel) /\ run_step chk limit caps e r = Some r' /\
    (e = VRecv -> (CHANNEL_CAPACITY <= r_unread r)%nat).
Proof.
  intros [i E]%list_elem_of_lookup_1 Hr. destruct t as [p pc]. destruct pc; try done.
  - destruct (chk p) eqn:Ec. exists (VCheck i). cbn. unfold task_at, check_step. rewrite E. cbn. rewrite Ec. by eexists.
  - exists (VObserve i). cbn. unfold task_at. rewrite E. by eexists.
  - exists (VFilter i). cbn. unfold task_at. rewrite E. cbn. case_match; by eexists.
  - exists (VSlot i). cbn. unfold task_at. rewrite E. cbn. case_match; by eexists.
  - destruct (r_closed r) eqn:Ec; [|destruct (Nat.ltb_spec (r_unread r) CHANNEL_CAPACITY) as [Hlt|Hge]].
    + exists (VSend i). cbn. unfold task_at. rewrite E. cbn. rewrite Ec. by eexists.
    + exists (VSend i). cbn [run_step]. unfold task_at. rewrite E. cbn [mbind option_bind send_step ct_pc].
      rewrite Ec. apply Nat.ltb_lt in Hlt. rewrite Hlt. by eexists.
    + exists VRecv. cbn [run_step consumer_step]. rewrite Ec. destruct (r_unread r) eqn:Eu; [by apply Nat.nle_succ_0 in Hge|].
      eexists. split_and!; [done..|]. intros _. exact Hge.
  - exists (VAfter i). cbn. unfold task_at. rewrite E. by eexists.
Qed.
Lemma run_progress source r : (0 < max_conn)%nat -> run_ok chk max_conn limit caps source r -> r_main r <> MEnd ->
  exists e r', (e <> VClose /\ e <> VCancel) /\ run_step chk limit caps e r = Some r' /\
    (e = VRecv -> (CHANNEL_CAPACITY <= r_unread r)%nat).
Proof.
  intros Hmax H Hm. destruct (r_main r) as [|p| |] eqn:Em; try done.
  - exists VNext. cbn. rewrite Em. destruct (r_source r); [|case_match]; by eexists.
  - destruct (r_permits r) as [|n] eqn:Ep; [|exists VSpawn; cbn; rewrite Em, Ep; by eexists].
    pose proof (ok_permits _ _ _ _ _ _ H) as Hp. rewrite Ep, runs_filter in Hp.
    destruct (List.filter running (r_tasks r)) as [|t l] eqn:Ef; [simpl in Hp; lia|].
    assert (t ∈ List.filter running (r_tasks r)) as Ht by (rewrite Ef; left).
    apply list_elem_of_In, filter_In in Ht as [Ht Hr]. eapply running_step; [by apply list_elem_of_In|done].
  - destruct (forallb (fun t => negb (running t)) (r_tasks r)) eqn:Ef; [exists VEnd; cbn; rewrite Em, Ef; by eexists|].
    apply not_true_iff_false in Ef. rewrite forallb_elem in Ef.
    destruct (List.filter running (r_tasks r)) as [|t l] eqn:El.
    + exfalso. apply Ef. intros t Ht. destruct (running t) eqn:Hr; [|done].
      assert (In t (List.filter running (r_tasks r))) as Hin by (apply filter_In; split; [by apply list_elem_of_In|done]).
      by rewrite El in Hin.
    + assert (In t (List.filter running (r_tasks r))) as [Ht Hr]%filter_In by (rewrite El; by left).
      eapply running_step; [by apply list_elem_of_In|done].
Qed.
End live.

(** C17: whatever the interleaving, at no time are more checks running than the semaphore has
    permits, nor more proxies emitted than the limit asks; what was emitted are answers of checks
    of source proxies that work and pass the filter, each source proxy at most once; what was
    recorded in the statistics and shown to the observer are answers of checks of source proxies,
    each at most once, and the statistics are the fold of what was recorded. *)
Theorem pipeline_safe (chk : Item -> bool * Proxy) max_conn limit caps source r (H : reaches chk max_conn limit caps source r) :
  (length (List.filter running (r_tasks r)) <= max_conn)%nat /\
  (forall l, limit = Some l -> (length (r_emitted r) <= l)%nat) /\
  r_emitted r ⊆+ omap (answer chk caps) source /\
  r_recorded r ⊆+ map (fun p => (chk p).2) source /\ r_observed r ⊆+ map (fun p => (chk p).2) source /\
  r_stats r = collect (r_recorded r).
Proof.
  apply reaches_ok in H. split_and!.
  - rewrite <- (ok_permits _ _ _ _ _ _ H). rewrite runs_filter. lia.
  - by eapply emitted_slots.
  - by eapply emitted_sub.
  - rewrite (ok_recorded _ _ _ _ _ _ H). eapply recorded_sub; [done|]. intros t q. unfold recorded_of.
    destruct (ct_pc t); naive_solver.
  - rewrite (ok_observed _ _ _ _ _ _ H). eapply recorded_sub; [done|]. intros t q. unfold observed_of, recorded_of.
    destruct (ct_pc t); naive_solver.
  - apply H.
Qed.

Lemma run_complete (chk : Item -> bool * Proxy) max_conn limit caps source r
    (H : reaches chk max_conn limit caps source r) (Hend : at_end r) (Hopen : r_closed r = false) :
  let answers : list Proxy := omap (answer chk caps) source in
  length (r_emitted r) = match limit with Some l => Nat.min l (length answers) | None => length answers end /\
  (reached limit (length (r_emitted r)) = false ->
     r_emitted r ≡ₚ answers /\ r_recorded r ≡ₚ map (fun p => (chk p).2) source /\ r_observed r ≡ₚ r_recorded r).
Proof.
  apply reaches_ok in H. intros answers. destruct (reached limit (r_sent r)) eqn:Er.
  - destruct limit as [l|] eqn:Hl; [|done]. pose proof Er as Er'%Nat.leb_le.
    pose proof (ended_limit _ _ _ _ _ _ H Hend Hopen l eq_refl Er') as Hlen.
    pose proof (submseteq_length _ _ (emitted_sub _ _ _ _ _ _ H)) as Hle. rewrite Hlen in *. split; [by rewrite Nat.min_l by exact Hle|].
    cbn. rewrite Nat.leb_refl. done.
  - pose proof (ended_emitted _ _ _ _ _ _ H Hend Hopen Er) as He.
    pose proof (ended_sent _ _ _ _ _ _ H Hend Hopen Er) as Hs. split; [|intros _; split; [done|by eapply ended_recorded]].
    pose proof (Permutation_length He) as Hl. destruct limit as [l|]; [|done]. apply Nat.leb_gt in Er. change (length answers) with (length (omap (answer chk caps) source)). rewrite <- Hl, Hs. lia.
Qed.
(** C18: a run that has ended with its consumer still there gave the consumer as many proxies as
    there are answers to give, up to the limit; short of the limit it gave every one of them, and
    every source proxy was checked, recorded and shown to the observer. *)
Theorem pipeline_complete (chk : Item -> bool * Proxy) max_conn limit caps source r
    (H : reaches chk max_conn limit caps source r) (Hend : at_end r) (Hopen : r_closed r = false) :
  let answers : list Proxy := omap (answer chk caps) source in
  length (r_emitted r) = match limit with Some l => Nat.min l (length answers) | None => length answers end /\
  (reached limit (length (r_emitted r)) = false ->
     r_emitted r ≡ₚ answers /\ r_recorded r ≡ₚ map (fun p => (chk p).2) source /\ r_observed r ≡ₚ r_recorded r).
Proof. by eapply run_complete. Qed.

(** C19: with at least one permit the pipeline cannot be stuck: until it has ended some event of its
    own can happen, or the channel is full and the consumer can read; and it cannot go on for ever:
    no run has more than twelve events per source proxy, plus four. *)
Theorem pipeline_live (chk : Item -> bool * Proxy) max_conn limit caps source r
    (Hmax : (0 < max_conn)%nat) (H : reaches chk max_conn limit caps source r) :
  (at_end r \/ exists e r', (e <> VClose /\ e <> VCancel) /\ run_step chk limit caps e r = Some r' /\
     (e = VRecv -> (CHANNEL_CAPACITY <= r_unread r)%nat)) /\
  (forall es r', exec_events chk limit caps es r = Some r' -> (length es <= 12 * length source + 4)%nat).
Proof.
  split.
  - destruct (decide (at_end r)) as [He|He]; [by left|right]. eapply run_progress; [done|by apply reaches_ok|done].
  - intros es r' Hes%exec_events_work. apply reaches_work in H. lia.
Qed.
(** The other end of [pipeline_live]. *)
Lemma no_permits_step chk limit caps e (r r' : Run) p :
  r_main r = MPermit p -> r_permits r = 0%nat -> r_tasks r = [] -> run_step chk limit caps e r = Some r' ->
  r_main r' = MPermit p /\ r_permits r' = 0%nat /\ r_tasks r' = [].
Proof.
  intros Hm Hp Ht. destruct e; unfold run_step, main_step, task_at, consumer_step; rewrite ?Hm, ?Hp, ?Ht; try done;
    repeat case_match; try done; intros [= <-]; done.
Qed.

(** With no permits the pipeline hangs: once the source has given a proxy no sequence of events
    ends the run, nothing is checked or emitted, and the consumer's leaving does not help, since
    the loop waits for a permit and not for the cancellation. *)
Theorem zero_conn_stuck : forall (chk : Item -> bool * Proxy) limit caps p source es r,
  reached limit 0 = false ->
  exec_events chk limit caps (VNext :: es) (new_run 0 (p :: source)) = Some r ->
  ~ at_end r /\ r_main r = MPermit p /\ r_tasks r = [] /\ r_emitted r = [].
Proof.
  intros chk limit caps p source es r Hl E. cbn in E. rewrite Hl in E. cbn in E.
  assert (forall es r0, r_main r0 = MPermit p -> r_permits r0 = 0%nat -> r_tasks r0 = [] -> r_emitted r0 = [] ->
            exec_events chk limit caps es r0 = Some r -> r_main r = MPermit p /\ r_tasks r = [] /\ r_emitted r = []) as Hall.
  { clear. intros es. induction es as [|e es IH]; intros r0 Hm Hp Ht He E; cbn in E; [by simplify_eq|].
    destruct (run_step chk limit caps e r0) as [r1|] eqn:E1; [|done]. pose proof (no_permits_step _ _ _ _ _ _ _ Hm Hp Ht E1) as (? & ? & ?).
    eapply IH; [done..| |exact E]. revert E1. destruct e; unfold run_step, main_step, task_at, consumer_step; rewrite ?Hm, ?Hp, ?Ht; try done;
      repeat case_match; try done; intros [= <-]; done. }
  apply Hall in E as (Hm & ? & ?); [|done..]. split_and!; [|done..]. unfold at_end. by rewrite Hm.
Qed.

End items.

(** ** A run: two checks at once race for a limit of one *)
Arguments CheckTask : clear implicits.
Arguments Run : clear implicits.
Arguments MainPc : clear implicits.
Definition px (n : Z) : Proxy := new (V4 n) 80 ∅.
Definition demo_chk (p : Proxy) : bool * Proxy := (true, add_type Http None p).
Definition demo_caps : CapsFilter := {| cf_cookie := false; cf_referer := false; cf_connect25 := false; cf_trusted := false |}.
Definition demo_events : list RunEvent :=
  [VNext; VSpawn; VNext; VSpawn; VCheck 1; VCheck 0; VObserve 0; VObserve 1; VFilter 1; VFilter 0; VSlot 0;
   VNext; VSlot 1; VSend 1; VAfter 1; VEnd; VRecv].
Abbreviation demo_run := (exec_events demo_chk (Some 1%nat) demo_caps demo_events (new_run 2 [px 1; px 2; px 3])).
Lemma demo_reaches r : demo_run = Some r -> reaches demo_chk 2 (Some 1%nat) demo_caps [px 1; px 2; px 3] r.
Proof. apply exec_reaches, reaches_start. Qed.

Lemma pipeline_safe_witness : exists r, demo_run = Some r /\
  map p_host (r_emitted r) = [V4 2] /\ (length (r_emitted r) <= 1)%nat /\ r_emitted r ⊆+ omap (answer demo_chk demo_caps) [px 1; px 2; px 3].
Proof.
  assert (E0 : (fun r => map p_host (r_emitted r)) <$> demo_run = Some [V4 2]) by (vm_compute; reflexivity).
  destruct demo_run as [r|] eqn:E; [|discriminate E0]. exists r. split; [reflexivity|]. split; [injection E0; auto|].
  destruct (pipeline_safe demo_chk 2 (Some 1%nat) demo_caps [px 1; px 2; px 3] r (demo_reaches r E)) as (_ & Hl & He & _).
  split; [exact (Hl 1%nat eq_refl)|exact He].
Defined.
Lemma pipeline_complete_witness : exists r, demo_run = Some r /\ at_end r /\ length (r_recorded r) = 2%nat /\
  length (r_emitted r) = Nat.min 1 (length (omap (answer demo_chk demo_caps) [px 1; px 2; px 3])).
Proof.
  assert (E0 : (fun r => (bool_decide (at_end r), r_closed r, length (r_recorded r))) <$> demo_run = Some (true, false, 2%nat))
    by (vm_compute; reflexivity).
  destruct demo_run as [r|] eqn:E; [|discriminate E0]. injection E0 as Hend%bool_decide_eq_true Hopen Hrec.
  exists r. split_and!; [reflexivity|exact Hend|exact Hrec|].
  exact (proj1 (pipeline_complete demo_chk 2 (Some 1%nat) demo_caps [px 1; px 2; px 3] r (demo_reaches r E) Hend Hopen)).
Defined.
Abbreviation demo_midway := (exec_events demo_chk (Some 1%nat) demo_caps (take 3 demo_events) (new_run 2 [px 1; px 2; px 3])).
Lemma pipeline_live_witness : exists r, demo_midway = Some r /\ ~ at_end r /\
  (exists e r', e <> VClose /\ e <> VCancel /\ run_step demo_chk (Some 1%nat) demo_caps e r = Some r') /\
  (length demo_events <= 12 * 3 + 4)%nat.
Proof.
  assert (E0 : (fun r => bool_decide (at_end r)) <$> demo_midway = Some false) by (vm_compute; reflexivity).
  destruct demo_midway as [r|] eqn:E; [|discriminate E0]. injection E0 as Hn%bool_decide_eq_false. exists r.
  split; [reflexivity|]. split; [exact Hn|]. split.
  - destruct (pipeline_live demo_chk 2 (Some 1%nat) demo_caps [px 1; px 2; px 3] r ltac:(lia)
      (exec_reaches _ _ _ _ _ _ _ _ (reaches_start _ _ _ _ _) E)) as [[He|(e & r' & [H1 H2] & H3 & _)] _]; [by destruct Hn|].
    exists e, r'. by split_and!.
  - assert (E1 : (fun _ => ()) <$> demo_run = Some ()) by (vm_compute; reflexivity).
    destruct demo_run as [r'|] eqn:E'; [|discriminate E1].
    exact (proj2 (pipeline_live demo_chk 2 (Some 1%nat) demo_caps [px 1; px 2; px 3] (new_run 2 [px 1; px 2; px 3])
      ltac:(lia) (reaches_start _ _ _ _ _)) demo_events r' E').
Defined.
Lemma zero_conn_stuck_witness : exists r : Run Proxy,
  exec_events demo_chk None demo_caps [VNext; VClose; VCancel] (new_run 0 [px 1]) = Some r /\ ~ at_end r.
Proof.
  destruct (exec_events demo_chk None demo_caps [VNext; VClose; VCancel] (new_run 0 [px 1])) as [r|] eqn:E; [|discriminate E].
  exists r. split; [reflexivity|].
  exact (proj1 (zero_conn_stuck demo_chk None demo_caps (px 1) [] [VClose; VCancel] r eq_refl E)).
Defined.
