(* ===== verification/Geo.v ===== *)
(** * Geolocation (src/geo.rs)

    The country, region, city and autonomous system of an address, from the records the database
    reader (maxminddb) finds and decodes. *)
From S2P Require Import Prelude Text Types Addr Proxy.
Open Scope Z_scope.

(** The fields of [geoip2::City] and [geoip2::Asn] in use; a subdivision is its code and its
    English name. *)
Record CityRec := {
  ct_iso_code : option str;
  ct_english : option str;
  ct_subdivisions : list (option str * option str);
  ct_city : option str;
}.
Record AsnRec := { ar_number : option Z; ar_org : option str }.

(** An open database: what lookup and decoding give for an address, [None] on an error or when
    there is no record. *)
Record GeoDb := { db_city : IpAddr -> option CityRec; db_asn : IpAddr -> option AsnRec }.

Definition region_of (s : option str * option str) : option Region :=
  let r := {| r_code := default [] s.1; r_name := default [] s.2 |} in
  if bool_decide (r_code r = []) && bool_decide (r_name r = []) then None else Some r.
Definition lookup (db : GeoDb) (ip : IpAddr) : option Country :=
  let? rec := db_city db ip in
  let? code := ct_iso_code rec in
  Some {| c_code := code; c_name := default code (ct_english rec);
          c_region := head (ct_subdivisions rec) ≫= region_of; c_city := ct_city rec |}.
Definition lookup_asn (db : GeoDb) (ip : IpAddr) : option Asn :=
  let? rec := db_asn db ip in
  let? number := ar_number rec in
  Some {| asn_number := number; asn_org := ar_org rec |}.
