(* ===== verification/Broker.v ===== *)
(** * The broker (src/broker.rs)

    The query and its builder, [grab] as a loop over the candidates in the order their batches
    arrive, the sources that [find] and [check] feed to the check pipeline (Pipeline.v), and what
    [find] and [check] do before they return a stream. *)
From S2P Require Import Prelude F64 Text Types Addr Utils Proxy Pool Net Negotiator Judge Checker Provider Stats Pipeline Geo.
Open Scope Z_scope.

Abbreviation Key := (IpAddr * Z)%type.

(** ** The query of [find] and its builder *)
Record GrabQuery := { gq_countries : option (list str); gq_limit : option nat }.
Record FindQuery := {
  fq_types : list TypeSpec;
  fq_countries : option (list str);
  fq_limit : option nat;
  fq_judges : list str;
  fq_dnsbl : list str;
  fq_timeout : Z;
  fq_max_conn : nat;
  fq_retry : RetryPolicy;
  fq_post : bool;
  fq_strict : bool;
  fq_liveness_url : option str;
  fq_relaxed_validity : bool;
  fq_require_cookie : bool;
  fq_require_referer : bool;
  fq_require_connect25 : bool;
  fq_trust_check : bool;
  fq_require_trusted : bool;
}.
Definition FindQuery_default : FindQuery :=
  {| fq_types := []; fq_countries := None; fq_limit := None; fq_judges := []; fq_dnsbl := [];
     fq_timeout := 8 * 10 ^ 9; fq_max_conn := 200; fq_retry := RetryPolicy_default; fq_post := false;
     fq_strict := false; fq_liveness_url := None; fq_relaxed_validity := false; fq_require_cookie := false;
     fq_require_referer := false; fq_require_connect25 := false; fq_trust_check := false;
     fq_require_trusted := false |}.

Record FindQueryBuilder := {
  b_types : option (list TypeSpec);
  b_countries : option (list str);
  b_limit : option nat;
  b_judges : option (list str);
  b_dnsbl : option (list str);
  b_timeout : option Z;
  b_max_conn : option nat;
  b_max_tries : option nat;
  b_retry : option RetryPolicy;
  b_post : option bool;
  b_strict : option bool;
  b_liveness_url : option str;
}.
(** [Option::or]. *)
Definition opt_or {A} (o d : option A) : option A := match o with Some x => Some x | None => d end.
(** The setter of the limit: zero is unlimited. *)
Definition builder_limit (limit : nat) : option nat := if decide (0 < limit)%nat then Some limit else None.
(** The builder's methods, each setting its own field; a later call wins. *)
Definition query_builder : FindQueryBuilder :=
  {| b_types := None; b_countries := None; b_limit := None; b_judges := None; b_dnsbl := None; b_timeout := None;
     b_max_conn := None; b_max_tries := None; b_retry := None; b_post := None; b_strict := None; b_liveness_url := None |}.
Definition q_types (types : list TypeSpec) (b : FindQueryBuilder) : FindQueryBuilder :=
  {| b_types := Some types; b_countries := b_countries b; b_limit := b_limit b; b_judges := b_judges b;
     b_dnsbl := b_dnsbl b; b_timeout := b_timeout b; b_max_conn := b_max_conn b;
     b_max_tries := b_max_tries b; b_retry := b_retry b; b_post := b_post b; b_strict := b_strict b;
     b_liveness_url := b_liveness_url b |}.
Definition q_countries (countries : list str) (b : FindQueryBuilder) : FindQueryBuilder :=
  {| b_types := b_types b; b_countries := Some countries; b_limit := b_limit b; b_judges := b_judges b;
     b_dnsbl := b_dnsbl b; b_timeout := b_timeout b; b_max_conn := b_max_conn b;
     b_max_tries := b_max_tries b; b_retry := b_retry b; b_post := b_post b; b_strict := b_strict b;
     b_liveness_url := b_liveness_url b |}.
Definition q_limit (limit : nat) (b : FindQueryBuilder) : FindQueryBuilder :=
  {| b_types := b_types b; b_countries := b_countries b; b_limit := builder_limit limit;
     b_judges := b_judges b; b_dnsbl := b_dnsbl b; b_timeout := b_timeout b;
     b_max_conn := b_max_conn b; b_max_tries := b_max_tries b; b_retry := b_retry b;
     b_post := b_post b; b_strict := b_strict b; b_liveness_url := b_liveness_url b |}.
Definition q_judges (judges : list str) (b : FindQueryBuilder) : FindQueryBuilder :=
  {| b_types := b_types b; b_countries := b_countries b; b_limit := b_limit b; b_judges := Some judges;
     b_dnsbl := b_dnsbl b; b_timeout := b_timeout b; b_max_conn := b_max_conn b;
     b_max_tries := b_max_tries b; b_retry := b_retry b; b_post := b_post b; b_strict := b_strict b;
     b_liveness_url := b_liveness_url b |}.
Definition q_dnsbl (dnsbl : list str) (b : FindQueryBuilder) : FindQueryBuilder :=
  {| b_types := b_types b; b_countries := b_countries b; b_limit := b_limit b; b_judges := b_judges b;
     b_dnsbl := Some dnsbl; b_timeout := b_timeout b; b_max_conn := b_max_conn b;
     b_max_tries := b_max_tries b; b_retry := b_retry b; b_post := b_post b; b_strict := b_strict b;
     b_liveness_url := b_liveness_url b |}.
Definition q_timeout (timeout : Z) (b : FindQueryBuilder) : FindQueryBuilder :=
  {| b_types := b_types b; b_countries := b_countries b; b_limit := b_limit b; b_judges := b_judges b;
     b_dnsbl := b_dnsbl b; b_timeout := Some timeout; b_max_conn := b_max_conn b;
     b_max_tries := b_max_tries b; b_retry := b_retry b; b_post := b_post b; b_strict := b_strict b;
     b_liveness_url := b_liveness_url b |}.
Definition q_max_conn (max_conn : nat) (b : FindQueryBuilder) : FindQueryBuilder :=
  {| b_types := b_types b; b_countries := b_countries b; b_limit := b_limit b; b_judges := b_judges b;
     b_dnsbl := b_dnsbl b; b_timeout := b_timeout b; b_max_conn := Some max_conn;
     b_max_tries := b_max_tries b; b_retry := b_retry b; b_post := b_post b; b_strict := b_strict b;
     b_liveness_url := b_liveness_url b |}.
Definition q_max_tries (max_tries : nat) (b : FindQueryBuilder) : FindQueryBuilder :=
  {| b_types := b_types b; b_countries := b_countries b; b_limit := b_limit b; b_judges := b_judges b;
     b_dnsbl := b_dnsbl b; b_timeout := b_timeout b; b_max_conn := b_max_conn b;
     b_max_tries := Some max_tries; b_retry := b_retry b; b_post := b_post b; b_strict := b_strict b;
     b_liveness_url := b_liveness_url b |}.
Definition q_retry (retry : RetryPolicy) (b : FindQueryBuilder) : FindQueryBuilder :=
  {| b_types := b_types b; b_countries := b_countries b; b_limit := b_limit b; b_judges := b_judges b;
     b_dnsbl := b_dnsbl b; b_timeout := b_timeout b; b_max_conn := b_max_conn b;
     b_max_tries := b_max_tries b; b_retry := Some retry; b_post := b_post b; b_strict := b_strict b;
     b_liveness_url := b_liveness_url b |}.
Definition q_post (post : bool) (b : FindQueryBuilder) : FindQueryBuilder :=
  {| b_types := b_types b; b_countries := b_countries b; b_limit := b_limit b; b_judges := b_judges b;
     b_dnsbl := b_dnsbl b; b_timeout := b_timeout b; b_max_conn := b_max_conn b;
     b_max_tries := b_max_tries b; b_retry := b_retry b; b_post := Some post; b_strict := b_strict b;
     b_liveness_url := b_liveness_url b |}.
Definition q_strict (strict : bool) (b : FindQueryBuilder) : FindQueryBuilder :=
  {| b_types := b_types b; b_countries := b_countries b; b_limit := b_limit b; b_judges := b_judges b;
     b_dnsbl := b_dnsbl b; b_timeout := b_timeout b; b_max_conn := b_max_conn b;
     b_max_tries := b_max_tries b; b_retry := b_retry b; b_post := b_post b; b_strict := Some strict;
     b_liveness_url := b_liveness_url b |}.
Definition q_liveness_url (url : option str) (b : FindQueryBuilder) : FindQueryBuilder :=
  {| b_types := b_types b; b_countries := b_countries b; b_limit := b_limit b; b_judges := b_judges b;
     b_dnsbl := b_dnsbl b; b_timeout := b_timeout b; b_max_conn := b_max_conn b;
     b_max_tries := b_max_tries b; b_retry := b_retry b; b_post := b_post b; b_strict := b_strict b;
     b_liveness_url := url |}.
Definition set_max_tries (n : option nat) (r : RetryPolicy) : RetryPolicy :=
  match n with
  | Some n => {| rp_max_tries := n; retry_on := retry_on r; backoff := backoff r; factor := factor r;
                 jitter := jitter r; max_backoff := max_backoff r |}
  | None => r
  end.
Definition build (b : FindQueryBuilder) : FindQuery :=
  let d := FindQuery_default in
  {| fq_types := default (fq_types d) (b_types b);
     fq_countries := opt_or (b_countries b) (fq_countries d);
     fq_limit := opt_or (b_limit b) (fq_limit d);
     fq_judges := default (fq_judges d) (b_judges b);
     fq_dnsbl := default (fq_dnsbl d) (b_dnsbl b);
     fq_timeout := default (fq_timeout d) (b_timeout b);
     fq_max_conn := default (fq_max_conn d) (b_max_conn b);
     fq_retry := set_max_tries (b_max_tries b) (default (fq_retry d) (b_retry b));
     fq_post := default (fq_post d) (b_post b);
     fq_strict := default (fq_strict d) (b_strict b);
     fq_liveness_url := opt_or (b_liveness_url b) (fq_liveness_url d);
     fq_relaxed_validity := fq_relaxed_validity d; fq_require_cookie := fq_require_cookie d;
     fq_require_referer := fq_require_referer d; fq_require_connect25 := fq_require_connect25 d;
     fq_trust_check := fq_trust_check d; fq_require_trusted := fq_require_trusted d |}.

Definition caps_from_query (q : FindQuery) : CapsFilter :=
  {| cf_cookie := fq_require_cookie q; cf_referer := fq_require_referer q;
     cf_connect25 := fq_require_connect25 q; cf_trusted := fq_require_trusted q |}.

(** ** The broker and its builder

    The HTTP client, the resolver and the observer of checked proxies are not data here: what
    they answer, or are shown, is an argument or part of a run. *)
Record Broker := { br_providers : list ProviderSpec; br_geo : option GeoDb; br_asn : option GeoDb }.
Record BrokerBuilder := {
  bb_providers : option (list ProviderSpec);
  bb_geo : option GeoDb;
  bb_no_geo : bool;
  bb_asn : option GeoDb;
}.
Definition broker_builder : BrokerBuilder := {| bb_providers := None; bb_geo := None; bb_no_geo := false; bb_asn := None |}.
Definition with_providers (providers : list ProviderSpec) (b : BrokerBuilder) : BrokerBuilder :=
  {| bb_providers := Some providers; bb_geo := bb_geo b; bb_no_geo := bb_no_geo b; bb_asn := bb_asn b |}.
Definition with_geo (db : GeoDb) (b : BrokerBuilder) : BrokerBuilder :=
  {| bb_providers := bb_providers b; bb_geo := Some db; bb_no_geo := bb_no_geo b; bb_asn := bb_asn b |}.
Definition without_geo (b : BrokerBuilder) : BrokerBuilder :=
  {| bb_providers := bb_providers b; bb_geo := bb_geo b; bb_no_geo := true; bb_asn := bb_asn b |}.
Definition with_asn_db (db : GeoDb) (b : BrokerBuilder) : BrokerBuilder :=
  {| bb_providers := bb_providers b; bb_geo := bb_geo b; bb_no_geo := bb_no_geo b; bb_asn := Some db |}.
(** [registry] and [bundled] are the bundled providers and database, the latter when it opens. *)
Definition build_broker (registry : list ProviderSpec) (bundled : option GeoDb) (b : BrokerBuilder) : Broker :=
  {| br_providers := default registry (bb_providers b);
     br_geo := match bb_geo b, bb_no_geo b with
               | Some db, _ => Some db
               | None, true => None
               | None, false => bundled
               end;
     br_asn := bb_asn b |}.

Section source.
Context `{UnicodeCase}.
Variable broker : Broker.

Definition attach_geo (p : Proxy) : Proxy :=
  set_geo (match br_geo broker with Some db => lookup db (p_host p) | None => p_geo p end)
          (match br_asn broker with Some db => lookup_asn db (p_host p) | None => p_asn p end) p.
Definition uppercase_set (countries : option (list str)) : option (gset str) :=
  (fun cs => list_to_set (map to_uppercase cs)) <$> countries.

(** A candidate as an unchecked proxy. *)
Definition candidate_proxy (host : IpAddr) (cand : Candidate) : Proxy :=
  attach_geo (new host (cd_port cand) (cd_protocols cand)).

(** ** [grab]: [delivered n] tells whether the [n]-th send finds the consumer there. *)
Fixpoint grab_loop (limit : option nat) (countries : option (gset str)) (delivered : nat -> bool)
    (cands : list Candidate) (seen : gset Key) (sent : nat) : list Proxy :=
  match cands with
  | [] => []
  | cand :: cands =>
      if reached limit sent then []
      else
        match ip_parse (cd_host cand) with
        | None => grab_loop limit countries delivered cands seen sent
        | Some host =>
            let k := (host, cd_port cand) in
            if decide (k ∈ seen) then grab_loop limit countries delivered cands seen sent
            else
              let p := candidate_proxy host cand in
              if negb (country_ok p countries)
              then grab_loop limit countries delivered cands ({[k]} ∪ seen) sent
              else if negb (delivered sent) then []
              else p :: grab_loop limit countries delivered cands ({[k]} ∪ seen) (S sent)
        end
  end.
Definition grab (q : GrabQuery) (delivered : nat -> bool) (batches : list (list Candidate)) : list Proxy :=
  grab_loop (gq_limit q) (uppercase_set (gq_countries q)) delivered (concat batches) ∅ 0.

(** ** The source of [find] and that of [check] *)
Fixpoint find_source (countries : option (gset str)) (cands : list Candidate) (seen : gset Key) : list Proxy :=
  match cands with
  | [] => []
  | cand :: cands =>
      match ip_parse (cd_host cand) with
      | None => find_source countries cands seen
      | Some host =>
          let k := (host, cd_port cand) in
          if decide (k ∈ seen) then find_source countries cands seen
          else
            let p := candidate_proxy host cand in
            if country_ok p countries then p :: find_source countries cands ({[k]} ∪ seen)
            else find_source countries cands ({[k]} ∪ seen)
      end
  end.
Definition check_source (countries : option (gset str)) (ps : list Proxy) : list Proxy :=
  List.filter (fun p => country_ok p countries) (map attach_geo ps).

(** The batches of the providers in some order of arrival; [pages] are the texts fetched. *)
Definition arrive `{Regexes} `{Captures} (pages : list (option str)) (batches : list (list Candidate)) : Prop :=
  length pages = length (br_providers broker) /\ batches ≡ₚ zip_with provider_fetch (br_providers broker) pages.
End source.

(** ** [find] and [check] up to the stream: what they hand to [check_stream] *)
Record CheckRun := {
  cr_source : list Proxy;
  cr_checker : Checker;
  cr_max_conn : nat;
  cr_limit : option nat;
  cr_caps : CapsFilter;
}.
Section find.
Context `{TunnelLibs} `{Regexes} `{UnicodeCase} `{Flate} `{Powi} `{WebLibs}.
Variable lookup_ip : str -> option (list IpAddr).
Variables (default_judges : list str) (marker : Judge -> str).
Variable broker : Broker.

Definition checker_config (q : FindQuery) : CheckerConfig :=
  {| cc_judges := fq_judges q; cc_types := fq_types q; cc_timeout := fq_timeout q; cc_retry := fq_retry q;
     cc_post := fq_post q; cc_strict := fq_strict q; cc_relaxed_validity := fq_relaxed_validity q;
     cc_trust_check := fq_trust_check q || fq_require_trusted q; cc_dnsbl := fq_dnsbl q;
     cc_liveness_url := fq_liveness_url q |}.
(** [resolver]: an error when none can be built, else what the address endpoints answer. *)
Definition build_checker (resolver : result (list (option str)) Error) (q : FindQuery) : result Checker Error :=
  let! bodies := resolver in
  let! real_ext_ips := external_ips bodies in
  checker_new lookup_ip default_judges marker (checker_config q) real_ext_ips.
Definition start_run (source : list Proxy) (resolver : result (list (option str)) Error) (q : FindQuery)
    : result CheckRun Error :=
  if decide (fq_types q = []) then Err NoTypes
  else
    let! checker := build_checker resolver q in
    Ok {| cr_source := source; cr_checker := checker; cr_max_conn := fq_max_conn q; cr_limit := fq_limit q;
          cr_caps := caps_from_query q |}.
Definition find (resolver : result (list (option str)) Error) (q : FindQuery) (batches : list (list Candidate)) :=
  start_run (find_source broker (uppercase_set (fq_countries q)) (concat batches) ∅) resolver q.
Definition check_proxies (resolver : result (list (option str)) Error) (q : FindQuery) (proxies : list Proxy) :=
  start_run (check_source broker (uppercase_set (fq_countries q)) proxies) resolver q.
End find.

(** ** The sources *)
Section source_facts.
Context `{UC : UnicodeCase}.
Variable b : Broker.

(** Whether the country filter keeps an address depends on the address only. *)
Definition key_ok (countries : option (gset str)) (k : Key) : bool :=
  country_ok (attach_geo b (new k.1 k.2 ∅)) countries.
Definition cand_key (cand : Candidate) : option Key := (fun host => (host, cd_port cand)) <$> ip_parse (cd_host cand).
Lemma candidate_ok countries host cand :
  country_ok (candidate_proxy b host cand) countries = key_ok countries (host, cd_port cand).
Proof. done. Qed.

Lemma find_source_spec countries cands seen :
  NoDup (map p_key (find_source b countries cands seen)) /\
  (forall k, k ∈ map p_key (find_source b countries cands seen) <->
     k ∈ omap cand_key cands /\ k ∉ seen /\ key_ok countries k = true) /\
  (forall p, p ∈ find_source b countries cands seen ->
     exists cand host, cand ∈ cands /\ ip_parse (cd_host cand) = Some host /\ p = candidate_proxy b host cand /\
       country_ok p countries = true).
Proof.
  revert seen. induction cands as [|cand cands IH]; intros seen; simpl.
  { split_and!; [constructor| |by intros p ?%elem_of_nil]. intros k. rewrite elem_of_nil. naive_solver. }
  assert (forall s p, p ∈ find_source b countries cands s -> exists cand' host, cand' ∈ cand :: cands /\
    ip_parse (cd_host cand') = Some host /\ p = candidate_proxy b host cand' /\ country_ok p countries = true) as Hin.
  { intros s p (c & h & Hc & ?)%IH. exists c, h. split; [by right|done]. }
  assert (cand_key cand = (fun host => (host, cd_port cand)) <$> ip_parse (cd_host cand)) as Hk by done.
  destruct (ip_parse (cd_host cand)) as [host|] eqn:Eh; rewrite Hk; simpl.
  2: { destruct (IH seen) as (H1 & H2 & _). split_and!; [done|done|apply Hin]. }
  set (k0 := (host, cd_port cand)). destruct (decide (k0 ∈ seen)) as [Hs|Hs].
  { destruct (IH seen) as (H1 & H2 & _). split_and!; [done| |apply Hin]. intros k. rewrite H2, elem_of_cons. set_solver. }
  destruct (IH ({[k0]} ∪ seen)) as (H1 & H2 & _). rewrite candidate_ok. fold k0.
  destruct (key_ok countries k0) eqn:Ek; simpl.
  - change (p_key (candidate_proxy b host cand)) with k0. split_and!.
    + apply NoDup_cons. split; [|done]. rewrite H2. set_solver.
    + intros k. rewrite !elem_of_cons, H2. split.
      * intros [-> | ?]; [auto|set_solver].
      * intros ([-> | Hc] & Hn & Ho); [auto|]. destruct (decide (k = k0)); [auto|set_solver].
    + intros p [-> | Hp]%elem_of_cons; [|by eapply Hin]. exists cand, host. split; [left|]. by rewrite candidate_ok.
  - split_and!; [done| |apply Hin]. intros k. rewrite H2, elem_of_cons. split; [set_solver|].
    intros ([-> | Hc] & Hn & Ho); [congruence|]. destruct (decide (k = k0)) as [-> |]; [congruence|set_solver].
Qed.

Lemma grab_loop_spec limit countries delivered cands seen sent :
  exists n, grab_loop b limit countries delivered cands seen sent = take n (find_source b countries cands seen) /\
    (forall i, (i < length (grab_loop b limit countries delivered cands seen sent))%nat -> delivered (sent + i)%nat = true) /\
    (forall l, limit = Some l -> (n <= l - sent)%nat) /\
    ((forall i, delivered i = true) -> n = match limit with Some l => (l - sent)%nat | None => length (find_source b countries cands seen) end).
Proof.
  revert seen sent. induction cands as [|cand cands IH]; intros seen sent; simpl.
  { exists (match limit with Some l => (l - sent)%nat | None => 0%nat end). rewrite take_nil.
    split_and!; [done|simpl; lia|by intros l -> |done]. }
  destruct (reached limit sent) eqn:Er.
  { exists 0%nat. split_and!; [done|simpl; lia|lia|]. destruct limit as [l|]; [|done]. apply Nat.leb_le in Er. intros _. lia. }
  destruct (ip_parse (cd_host cand)) as [host|]; [|apply IH].
  case_decide; [apply IH|]. rewrite candidate_ok. destruct (key_ok countries _); simpl; [|apply IH].
  destruct (delivered sent) eqn:Ed; simpl.
  - destruct (IH ({[(host, cd_port cand)]} ∪ seen) (S sent)) as (n & H1 & H2 & Hl & H3). exists (S n). split_and!.
    + simpl. by rewrite <- H1.
    + intros [|i] Hi; [by rewrite Nat.add_0_r|]. rewrite Nat.add_succ_r. apply (H2 i). lia.
    + intros l ->. specialize (Hl l eq_refl). apply Nat.leb_gt in Er. lia.
    + intros Hd. rewrite (H3 Hd). destruct limit as [l|]; [|done]. apply Nat.leb_gt in Er. lia.
  - exists 0%nat. split_and!; [done|simpl; lia|lia|]. intros Hd. by rewrite Hd in Ed.
Qed.

(** [grab] against the reference that takes no limit and never loses its consumer, which is
    also the source of [find]: with a consumer that stays, its stream is the first [limit] proxies
    of the reference; with one that leaves, a prefix of it, every proxy of which was delivered. *)
Theorem grab_reference : forall q delivered batches,
  let all := find_source b (uppercase_set (gq_countries q)) (concat batches) ∅ in
  grab b q (fun _ => true) batches = match gq_limit q with Some l => take l all | None => all end /\
  grab b q delivered batches `prefix_of` grab b q (fun _ => true) batches /\
  forall i, (i < length (grab b q delivered batches))%nat -> delivered i = true.
Proof.
  intros q delivered batches all. unfold grab.
  destruct (grab_loop_spec (gq_limit q) (uppercase_set (gq_countries q)) delivered (concat batches) ∅ 0) as (n & H1 & H2 & Hl & _).
  destruct (grab_loop_spec (gq_limit q) (uppercase_set (gq_countries q)) (fun _ => true) (concat batches) ∅ 0) as (m & H3 & _ & _ & H4).
  specialize (H4 (fun _ => eq_refl)).
  assert (grab_loop b (gq_limit q) (uppercase_set (gq_countries q)) (fun _ => true) (concat batches) ∅ 0 =
          match gq_limit q with Some l => take l all | None => all end) as Hfull.
  { rewrite H3, H4. fold all. destruct (gq_limit q) as [l|]; [by rewrite Nat.sub_0_r|]. by rewrite firstn_all. }
  split; [done|]. split; [|exact H2]. rewrite Hfull, H1. fold all.
  assert (forall k, (n <= k)%nat -> take n all `prefix_of` take k all) as Hp.
  { intros k Hk. exists (drop n (take k all)). rewrite <- (take_drop n (take k all)) at 1. by rewrite take_take, Nat.min_l. }
  destruct (gq_limit q) as [l|].
  - apply Hp. specialize (Hl l eq_refl). lia.
  - exists (drop n all). by rewrite take_drop.
Qed.

(** C23: the source of [find], from what the providers sent: every address once; an address is in it
    exactly when some provider named it and the country filter keeps it, so which order the
    providers answered in decides neither the set of addresses nor their number; every proxy is
    some candidate of its address, located. *)
Theorem find_source_sound : forall countries batches batches',
  let source := find_source b countries (concat batches) ∅ in
  NoDup (map p_key source) /\
  (forall k, k ∈ map p_key source <-> k ∈ omap cand_key (concat batches) /\ key_ok countries k = true) /\
  (batches ≡ₚ batches' -> map p_key source ≡ₚ map p_key (find_source b countries (concat batches') ∅)) /\
  forall p, p ∈ source -> exists cand host, cand ∈ concat batches /\ ip_parse (cd_host cand) = Some host /\
    p = candidate_proxy b host cand /\ country_ok p countries = true.
Proof.
  intros countries batches batches' source.
  destruct (find_source_spec countries (concat batches) ∅) as (H1 & H2 & H3).
  destruct (find_source_spec countries (concat batches') ∅) as (H1' & H2' & _).
  split; [done|]. split; [|split; [|exact H3]].
  - intros k. unfold source. rewrite H2. set_solver.
  - intros Hb. apply NoDup_Permutation; [done|done|]. intros k. unfold source. rewrite H2, H2'.
    assert (omap cand_key (concat batches) ≡ₚ omap cand_key (concat batches')) as ->; [|done].
    by rewrite Hb.
Qed.
End source_facts.

(** ** From the query to the stream *)
Lemma required (a b : bool) : negb a || b = true -> a = true -> b = true.
Proof. by destruct a, b. Qed.
Lemma caps_query q px : caps_passes (caps_from_query q) px = true ->
  (fq_require_cookie q = true -> cookie_echo (p_caps px) = true) /\
  (fq_require_referer q = true -> referer_echo (p_caps px) = true) /\
  (fq_require_connect25 q = true -> has_type Connect25 px = true) /\
  (fq_require_trusted q = true -> p_trust px = []).
Proof.
  unfold caps_passes, caps_from_query, capabilities, trusted. cbn [cf_cookie cf_referer cf_connect25 cf_trusted cap_cookie cap_referer cap_connect25].
  intros (((H1 & H2)%andb_prop & H3)%andb_prop & H4)%andb_prop.
  split_and!; try by apply required. intros Hq. by apply (bool_decide_eq_true _), (required _ _ H4).
Qed.
Lemma NoDup_sub {A} (l k : list A) : NoDup k -> l ⊆+ k -> NoDup l.
Proof. intros Hk (l' & Hl)%submseteq_Permutation. rewrite Hl in Hk. by apply NoDup_app in Hk as [? _]. Qed.
Lemma external_ips_spec bodies :
  match external_ips bodies with
  | Ok ips => ips <> [] /\ forall ip, ip ∈ ips <-> exists text, Some text ∈ bodies /\ ip_parse (trim text) = Some ip
  | Err e => e = ExtIpUnknown /\ forall text, Some text ∈ bodies -> ip_parse (trim text) = None
  end.
Proof.
  unfold external_ips. set (found := list_to_set _ : gset IpAddr).
  assert (forall ip, ip ∈ found <-> exists text, Some text ∈ bodies /\ ip_parse (trim text) = Some ip) as Hf.
  { intros ip. unfold found. rewrite elem_of_list_to_set, list_elem_of_omap. split.
    - intros ([text|] & Hin & He); [|done]. eauto.
    - intros (text & Hin & He). exists (Some text). auto. }
  case_decide as He.
  - split; [done|]. intros text Hin. destruct (ip_parse (trim text)) as [ip|] eqn:E; [|done].
    exfalso. assert (ip ∈ found) as Hip by (apply Hf; eauto). rewrite He in Hip. set_solver.
  - split; [|intros ip; by rewrite elem_of_elements]. intros Hn. apply He. by apply elements_empty_iff, leibniz_equiv in Hn.
Qed.

Section find_facts.
Context `{TL : TunnelLibs} `{R : Regexes} `{UC : UnicodeCase} `{F : Flate} `{P : Powi} `{W : WebLibs}.
Variable lookup_ip : str -> option (list IpAddr).
Variables (default_judges : list str) (marker : Judge -> str).
Variable broker : Broker.
Abbreviation start := (find lookup_ip default_judges marker broker).

(** The checker [find] and [check] configure from a query. *)
Definition configured (q : FindQuery) (ips : list IpAddr) (ck : Checker) : Prop :=
  ck_requested ck = fq_types q /\ ck_real_ext_ips ck = ips /\ ck_timeout ck = fq_timeout q /\
  ck_post ck = fq_post q /\ ck_strict ck = fq_strict q /\ ck_relaxed_validity ck = fq_relaxed_validity q /\
  ck_trust_check ck = fq_trust_check q || fq_require_trusted q /\ ck_dnsbl ck = fq_dnsbl q /\ ck_retry ck = fq_retry q.
Definition judges_of (q : FindQuery) (ips : list IpAddr) : JudgePool :=
  probe_all lookup_ip marker ips (omap judge_parse (if decide (fq_judges q = []) then default_judges else fq_judges q)).

Lemma checker_new_spec q ips : fq_types q <> [] ->
  match checker_new lookup_ip default_judges marker (checker_config q) ips with
  | Ok ck => configured q ips ck /\ ck_judges ck = judges_of q ips /\
      (ck_mode ck = Judged <-> jp_is_empty (judges_of q ips) = false) /\
      (forall lt, ck_mode ck = Liveness lt -> exists url, fq_liveness_url q = Some url /\ liveness_resolve lookup_ip url = Some lt)
  | Err e => e = NoJudges /\ jp_is_empty (judges_of q ips) = true /\
      forall url, fq_liveness_url q = Some url -> liveness_resolve lookup_ip url = None
  end.
Proof.
  intros Ht. unfold checker_new. rewrite decide_False by done. cbn [checker_config cc_judges cc_liveness_url].
  fold (judges_of q ips). destruct (jp_is_empty (judges_of q ips)) eqn:Ej.
  - destruct (fq_liveness_url q) as [url|]; [|by split_and!].
    destruct (liveness_resolve lookup_ip url) as [lt|] eqn:El; cbn.
    + split_and!; [done|done|done|]. intros lt' [= <-]. eauto.
    + split_and!; [done|done|]. by intros ? [= <-].
  - by split_and!.
Qed.


Lemma find_ok resolver q batches run : start resolver q batches = Ok run ->
  fq_types q <> [] /\ (exists ips, configured q ips (cr_checker run)) /\ cr_limit run = fq_limit q /\
  cr_caps run = caps_from_query q /\
  cr_source run = find_source broker (uppercase_set (fq_countries q)) (concat batches) ∅.
Proof.
  unfold find, start_run. case_decide as Ht; [done|]. unfold build_checker.
  destruct resolver as [bodies|]; [|done]. destruct (external_ips bodies) as [ips|]; [|done].
  pose proof (checker_new_spec q ips Ht) as Hc. destruct (checker_new _ _ _ _ _) as [ck|]; cbn; [|done].
  intros [= <-]. split_and!; try done. exists ips. apply Hc.
Qed.

(** What the theorems about a run share: where an emitted proxy comes from, and that no address
    comes twice. *)
Lemma find_emitted resolver q batches run world draw chk r :
  start resolver q batches = Ok run ->
  (forall p, p ∈ cr_source run -> check lookup_ip (cr_checker run) (world p) (draw p) p = Some (chk p)) ->
  reaches chk (cr_max_conn run) (cr_limit run) (cr_caps run) (cr_source run) r ->
  NoDup (map p_key (r_emitted r)) /\
  forall px, px ∈ r_emitted r -> exists p, p ∈ cr_source run /\ p_key px = p_key p /\ chk p = (true, px) /\
    caps_passes (cr_caps run) px = true /\
    p_key px ∈ omap cand_key (concat batches) /\ key_ok broker (uppercase_set (fq_countries q)) (p_key px) = true.
Proof.
  intros Hrun Hchk Hr. destruct (find_ok _ _ _ _ Hrun) as (_ & _ & _ & _ & Hsrc).
  apply reaches_ok in Hr. pose proof (emitted_sub _ _ _ _ _ _ Hr) as Hsub.
  destruct (find_source_spec broker (uppercase_set (fq_countries q)) (concat batches) ∅) as (Hnd & Hkeys & _).
  rewrite <- Hsrc in Hnd, Hkeys.
  assert (forall p px, p ∈ cr_source run -> answer chk (cr_caps run) p = Some px ->
            p_key px = p_key p /\ chk p = (true, px) /\ caps_passes (cr_caps run) px = true) as Ha.
  { intros p px Hp [Hc Hpass]%good_answer. split_and!; [|done|done]. specialize (Hchk p Hp). rewrite Hc in Hchk. by apply check_key in Hchk. }
  split.
  - eapply NoDup_sub; [exact Hnd|]. etransitivity; [by apply map_submseteq|].
    rewrite map_omap, <- (omap_total p_key (cr_source run)). apply omap_submseteq. intros p k Hp (px & Hpx & ->)%fmap_Some.
    f_equal. symmetry. by apply (Ha p px).
  - intros px Hpx. assert (px ∈ omap (answer chk (cr_caps run)) (cr_source run)) as (p & Hp & Hans)%list_elem_of_omap
      by (eapply elem_of_submseteq; [exact Hpx|exact Hsub]).
    destruct (Ha p px Hp Hans) as (Hkey & Hc & Hpass). exists p.
    assert (p_key p ∈ map p_key (cr_source run)) as Hk by (apply list_elem_of_fmap; eauto).
    apply Hkeys in Hk as (Hk1 & _ & Hk2). rewrite Hkey. by split_and!.
Qed.

Lemma emitted_checked resolver q batches run world draw chk r px :
  start resolver q batches = Ok run ->
  (forall p, p ∈ cr_source run -> check lookup_ip (cr_checker run) (world p) (draw p) p = Some (chk p)) ->
  reaches chk (cr_max_conn run) (cr_limit run) (cr_caps run) (cr_source run) r -> px ∈ r_emitted r ->
  p_types px <> ∅ /\ (fq_dnsbl q = [] \/ in_dnsbl lookup_ip (cr_checker run) (p_host px) = false) /\
  (fq_strict q = true -> forall t l, p_types px !! t = Some l -> passes (fq_types q) true t l = true).
Proof.
  intros Hrun Hchk Hr Hpx. destruct (find_ok _ _ _ _ Hrun) as (Ht & (ips & Hreq & _ & _ & _ & Hst & _ & _ & Hdns & _) & _).
  destruct (find_emitted _ _ _ _ _ _ _ _ Hrun Hchk Hr) as [_ Hem]. destruct (Hem px Hpx) as (p & Hp & Hkey & Hc & _).
  specialize (Hchk p Hp). rewrite Hc in Hchk. apply check_spec in Hchk as (_ & _ & _ & Hb); [|by rewrite Hreq].
  destruct (Hb eq_refl) as (Hd & Hty & _ & Hs). injection Hkey as Hh _. rewrite Hh, Hdns, Hst, Hreq in *. by split_and!.
Qed.

(** C15: the whole of [find]. At every moment of a run that [find] has started, whatever the order
    its checks ran in and whatever they met, the proxies emitted have distinct addresses, are no
    more than the limit, and each of them has an address some provider named and the country
    filter keeps, has a confirmed protocol, is on no configured blocklist, has the capabilities
    and the trust required and, when strict, only protocols that satisfy the request. *)
Theorem find_sound : forall resolver q batches run world draw chk r
    (Hrun : start resolver q batches = Ok run)
    (Hchk : forall p, p ∈ cr_source run -> check lookup_ip (cr_checker run) (world p) (draw p) p = Some (chk p))
    (Hr : reaches chk (cr_max_conn run) (cr_limit run) (cr_caps run) (cr_source run) r),
  NoDup (map p_key (r_emitted r)) /\
  (forall l, fq_limit q = Some l -> (length (r_emitted r) <= l)%nat) /\
  forall px, px ∈ r_emitted r ->
    p_key px ∈ omap cand_key (concat batches) /\ key_ok broker (uppercase_set (fq_countries q)) (p_key px) = true /\
    p_types px <> ∅ /\ (fq_dnsbl q = [] \/ in_dnsbl lookup_ip (cr_checker run) (p_host px) = false) /\
    (fq_require_cookie q = true -> cookie_echo (p_caps px) = true) /\
    (fq_require_referer q = true -> referer_echo (p_caps px) = true) /\
    (fq_require_connect25 q = true -> has_type Connect25 px = true) /\
    (fq_require_trusted q = true -> p_trust px = []) /\
    (fq_strict q = true -> forall t l, p_types px !! t = Some l -> passes (fq_types q) true t l = true).
Proof.
  intros. destruct (find_ok _ _ _ _ Hrun) as (_ & _ & Hlim & Hcaps & _).
  destruct (find_emitted _ _ _ _ _ _ _ _ Hrun Hchk Hr) as [Hnd Hem]. split_and!; [exact Hnd| |].
  - intros l Hl. rewrite <- Hlim in Hl. apply reaches_ok in Hr. by eapply emitted_slots.
  - intros px Hpx. destruct (Hem px Hpx) as (p & Hp & Hkey & Hc & Hpass & Hk1 & Hk2).
    destruct (emitted_checked _ _ _ _ _ _ _ _ _ Hrun Hchk Hr Hpx) as (Hty & Hd & Hs).
    rewrite Hcaps in Hpass. apply caps_query in Hpass as (H1 & H2 & H3 & H4). by split_and!.
Qed.
End find_facts.

(** ** A run of [find]: two providers name the same proxy *)
Section demo.
#[local] Existing Instances sample_regexes no_libs ascii_case no_flate one_powi.
#[local] Instance demo_web : WebLibs :=
  {| url_parse _ := Some {| u_scheme := lit "http"; u_host := Some (lit "judge"); u_path := lit "/"; u_query := None |};
     fetch _ _ := Some (200, Some (lit "4711 1.2.3.4")) |}.
Definition demo_broker : Broker := {| br_providers := []; br_geo := None; br_asn := None |}.
Definition demo_query : FindQuery :=
  build {| b_types := Some (ck_requested demo_ck); b_countries := None; b_limit := builder_limit 5;
           b_judges := Some [lit "http://judge/"]; b_dnsbl := None; b_timeout := None; b_max_conn := Some 1%nat;
           b_max_tries := Some 2%nat; b_retry := None; b_post := None; b_strict := Some true; b_liveness_url := None |}.
Definition demo_cand (host : str) : Candidate := {| cd_host := host; cd_port := 8080; cd_protocols := ∅ |}.
Definition demo_batches : list (list Candidate) := [[demo_cand (lit "5.6.7.8")]; [demo_cand (lit "oops"); demo_cand (lit "5.6.7.8")]].
Definition demo_resolver : result (list (option str)) Error := Ok [None; Some (lit " 1.2.3.4 ")].
Abbreviation demo_find := (find (fun _ => Some [V4 9]) [] (fun _ => lit "4711") demo_broker demo_resolver demo_query demo_batches).
Definition demo_check (ck : Checker) (p : Proxy) : option (bool * Proxy) :=
  check (fun _ => Some [V4 9]) ck demo_world (fun _ => 0%nat) p.
Definition demo_answer (ck : Checker) (p : Proxy) : bool * Proxy := default (false, p) (demo_check ck p).
Definition demo_find_events : list RunEvent := [VNext; VSpawn; VCheck 0; VObserve 0; VFilter 0; VSlot 0; VSend 0; VNext; VAfter 0; VEnd].
Abbreviation demo_find_run run :=
  (exec_events (demo_answer (cr_checker run)) (cr_limit run) (cr_caps run) demo_find_events (new_run (cr_max_conn run) (cr_source run))).

Lemma find_sound_witness : exists run r, demo_find = Ok run /\ demo_find_run run = Some r /\ at_end r /\
  map p_key (r_emitted r) = [(V4 84281096, 8080)] /\ NoDup (map p_key (r_emitted r)).
Proof.
  assert (E0 : (match demo_find with
                | Ok run => (fun r => (bool_decide (at_end r), map p_key (r_emitted r))) <$> demo_find_run run
                | Err _ => None end) = Some (true, [(V4 84281096, 8080)])) by (vm_compute; reflexivity).
  assert (E1 : (match demo_find with
                | Ok run => forallb (fun p => bool_decide (is_Some (fst <$> demo_check (cr_checker run) p))) (cr_source run)
                | Err _ => false end) = true) by (vm_compute; reflexivity).
  destruct demo_find as [run|] eqn:Ef; [|discriminate E0]. exists run.
  destruct (demo_find_run run) as [r|] eqn:Er; [|discriminate E0]. exists r.
  injection E0 as Hend%bool_decide_eq_true Hk. split_and!; [reflexivity|reflexivity|exact Hend|exact Hk|].
  refine (proj1 (find_sound (fun _ => Some [V4 9]) [] (fun _ => lit "4711") demo_broker demo_resolver demo_query demo_batches
    run (fun _ => demo_world) (fun _ _ => 0%nat) (demo_answer (cr_checker run)) r Ef _ (exec_reaches _ _ _ _ _ _ _ _ (reaches_start _ _ _ _ _) Er))).
  intros p Hp. rewrite forallb_elem in E1. specialize (E1 p Hp). apply bool_decide_eq_true in E1.
  unfold demo_answer. change (check _ _ _ _ _) with (demo_check (cr_checker run) p).
  destruct (demo_check (cr_checker run) p); [reflexivity|]. destruct E1 as [? E1]. discriminate E1.
Defined.
End demo.
