(* ===== verification/Typing.v ===== *)
(** * Machine types

    The development keeps a [u16], a [u32] and the bits of an address as plain integers. Here:
    every way the program makes a proxy gives integers of the right width, and every operation
    that changes one keeps them so. *)
From S2P Require Import Prelude F64 Text Types Addr Utils Proxy ProxyJson Pool Net Negotiator Judge Checker Store Provider Pipeline Geo Broker.
Open Scope Z_scope.

(** ** Addresses read from text *)
Lemma digit_val_nonneg radix c d : digit_val radix c = Some d -> 0 <= d.
Proof.
  unfold digit_val, is_digit, is_lower, is_upper, between. intros E. repeat case_match; simplify_eq; bsimp; lia.
Qed.
Lemma read_digits_nonneg radix limit acc s v k r :
  0 <= radix -> 0 <= acc -> read_digits radix acc limit s = (v, k, r) -> 0 <= v.
Proof.
  intros Hr. revert acc s v k r. induction limit as [|limit IH]; intros acc [|c s] v k r Ha E; simpl in E; simplify_eq; try done.
  destruct (digit_val radix c) as [d|] eqn:Ed; [|by simplify_eq]. apply digit_val_nonneg in Ed.
  destruct (read_digits _ _ _ _) as [[v' k'] r'] eqn:E'. simplify_eq. eapply IH; [|exact E']. nia.
Qed.
Lemma read_number_range radix hi n z s v r : 0 <= radix -> read_number radix hi n z s = Some (v, r) -> 0 <= v <= hi.
Proof.
  intros Hr. unfold read_number. destruct (read_digits _ _ _ _) as [[v' k'] r'] eqn:E.
  apply read_digits_nonneg in E; [|done..]. destruct (_ || _); [done|]. destruct (Z.ltb_spec hi v'); [done|].
  destruct (_ && _); [done|]. intros [= <- <-]. lia.
Qed.
Lemma read_separator_range {A} (P : A -> Prop) c i (inner : str -> option (A * str)) s a r :
  (forall s a r, inner s = Some (a, r) -> P a) -> read_separator c i inner s = Some (a, r) -> P a.
Proof. intros HP. unfold read_separator. destruct i; [apply HP|]. destruct (read_char c s); [apply HP|done]. Qed.

Lemma be_value_app w l d : be_value w (l ++ [d]) = be_value w l * 2 ^ w + d.
Proof. unfold be_value. by rewrite fold_left_app. Qed.
Lemma be_value_range w l : 0 <= w -> Forall (fun d => 0 <= d < 2 ^ w) l -> 0 <= be_value w l < 2 ^ (w * Z.of_nat (length l)).
Proof.
  intros Hw. induction l as [|d l IH] using rev_ind; intros Hl; [by rewrite Z.mul_0_r|].
  apply Forall_app in Hl as [Hl [Hd _]%Forall_cons_1]. specialize (IH Hl). rewrite be_value_app, length_app, Nat.add_1_r, Nat2Z.inj_succ, Z.mul_succ_r, Z.pow_add_r by lia.
  revert IH Hd. generalize (be_value w l), (2 ^ w), (2 ^ (w * Z.of_nat (length l))).
  intros v y x Hv Hd. pose proof (Z.mul_le_mono_nonneg_r (v + 1) x y ltac:(lia) ltac:(lia)). nia.
Qed.
Lemma read_octets_range i n s os r : read_octets i n s = Some (os, r) -> length os = n /\ Forall (fun d => 0 <= d < 2 ^ 8) os.
Proof.
  revert i s os r. induction n as [|n IH]; intros i s os r E; simpl in E; [by simplify_eq|].
  destruct (read_separator _ i read_octet s) as [[o s']|] eqn:Eo; [|done].
  destruct (read_octets (S i) n s') as [[os' s'']|] eqn:Es; [|done]. simplify_eq. apply IH in Es as [<- Hs].
  split; [done|]. constructor; [|done].
  eapply (read_separator_range (fun d => 0 <= d < 2 ^ 8)); [|exact Eo]. intros s0 a r0 H%read_number_range; lia.
Qed.
Lemma read_ipv4_range s a r : read_ipv4 s = Some (a, r) -> 0 <= a < 2 ^ 32.
Proof.
  unfold read_ipv4. destruct (read_octets 0 4 s) as [[os s']|] eqn:E; [|done]. intros [= <- <-].
  apply read_octets_range in E as [Hn Hf]. pose proof (be_value_range 8 os ltac:(lia) Hf) as H. by rewrite Hn in H.
Qed.
Lemma read_groups_range k i s gs b r : read_groups k i s = (gs, b, r) -> (length gs <= k)%nat /\ Forall (fun d => 0 <= d < 2 ^ 16) gs.
Proof.
  revert i s gs b r. induction k as [|k IH]; intros i s gs b r E; simpl in E; [by simplify_eq|].
  destruct (if (1 <? S k)%nat then _ else _) as [[a s']|] eqn:Eq.
  - simplify_eq. destruct k as [|k]; [done|]. split; [simpl; lia|].
    assert (0 <= a < 2 ^ 32) as Ha by (eapply (read_separator_range (fun a => 0 <= a < 2 ^ 32)); [apply read_ipv4_range|exact Eq]).
    change (2 ^ 32) with (2 ^ 16 * 2 ^ 16) in Ha. repeat constructor; try (apply Z.mod_pos_bound; lia);
      [apply Z.div_pos; lia|apply Z.div_lt_upper_bound; lia].
  - destruct (read_separator _ i (read_number 16 65535 4 true) s) as [[g s']|] eqn:Eg; [|simplify_eq; split; [simpl; lia|constructor]].
    destruct (read_groups k (S i) s') as [[gs' b'] s''] eqn:Es. simplify_eq. apply IH in Es as [Hn Hf]. split; [simpl; lia|].
    constructor; [|done]. eapply (read_separator_range (fun d => 0 <= d < 2 ^ 16)); [|exact Eg]. intros s0 a r0 H%read_number_range; lia.
Qed.
Lemma read_ipv6_range s a r : read_ipv6 s = Some (a, r) -> 0 <= a < 2 ^ 128.
Proof.
  unfold read_ipv6. destruct (read_groups 8 0 s) as [[hd hd4] s1] eqn:Eh. apply read_groups_range in Eh as [Hn Hf].
  destruct (Nat.eqb_spec (length hd) 8) as [H8|H8].
  - intros [= <- <-]. pose proof (be_value_range 16 hd ltac:(lia) Hf) as H. by rewrite H8 in H.
  - destruct hd4; [done|]. destruct (read_char _ s1) as [s2|]; [|done]. destruct (read_char _ s2) as [s3|]; [|done].
    destruct (read_groups _ 0 s3) as [[tl b] s4] eqn:Et. apply read_groups_range in Et as [Hm Hg]. intros [= <- <-].
    assert (length (hd ++ replicate (8 - length hd - length tl) 0 ++ tl) = 8%nat) as Hl
      by (rewrite !length_app, length_replicate; lia).
    pose proof (be_value_range 16 (hd ++ replicate (8 - length hd - length tl) 0 ++ tl) ltac:(lia)) as H. rewrite Hl in H.
    apply H. repeat apply Forall_app_2; [done| |done]. apply Forall_replicate. lia.
Qed.
Lemma ip_parse_wf s ip : ip_parse s = Some ip -> ip_wf ip.
Proof.
  unfold ip_parse. destruct (read_ipv4 s) as [[a r]|] eqn:E4.
  - destruct r; [|done]. intros [= <-]. by apply read_ipv4_range in E4.
  - intros (a & Ha & ->)%fmap_Some. unfold all_read in Ha. destruct (read_ipv6 s) as [[a' [|]]|] eqn:E6; simplify_eq.
    by apply read_ipv6_range in E6.
Qed.
Lemma parse_ip_lenient_wf s ip : parse_ip_lenient s = Some ip -> ip_wf ip.
Proof.
  unfold parse_ip_lenient. case_decide as Hne; [done|]. destruct (ip_parse s) eqn:E; [intros [= <-]; by eapply ip_parse_wf|].
  destruct (_ && _); [|done]. case_decide as Hn; [|done]. destruct (mapM parse_u8 _) as [o|] eqn:Eo; [|done].
  intros [= <-]. pose proof (length_mapM _ _ _ Eo) as Hl. apply mapM_Some in Eo.
  assert (Forall (fun d => 0 <= d < 2 ^ 8) o) as Hf.
  { clear -Eo. induction Eo as [|x y l k Hx _ IH]; [constructor|]. constructor; [|done].
    apply parse_uint_bounds in Hx. lia. }
  pose proof (be_value_range 8 o ltac:(lia) Hf) as Hr. by rewrite <- Hl, Hn in Hr.
Qed.

(** ** Proxies *)
Definition proxy_wf (p : Proxy) : Prop :=
  ip_wf (p_host p) /\ 0 <= p_port p < 2 ^ 16 /\ 0 <= p_requests p < 2 ^ 32 /\
  map_Forall (fun _ n => 0 <= n < 2 ^ 32) (p_errors p).

Lemma u32_range z : 0 <= u32 z < 2 ^ 32.
Proof. apply Z.mod_pos_bound. lia. Qed.
Lemma new_wf h port ex : ip_wf h -> 0 <= port < 2 ^ 16 -> proxy_wf (new h port ex).
Proof. intros. unfold proxy_wf. split; [done|]. split; [done|]. split; [simpl; lia|]. apply map_Forall_empty. Qed.
Lemma restored_wf h port t requests errs art : ip_wf h -> 0 <= port < 2 ^ 16 -> 0 <= requests < 2 ^ 32 -> 0 <= errs < 2 ^ 32 ->
  proxy_wf (restored h port t requests errs art).
Proof.
  intros. split_and!; [done|simpl; lia..|]. simpl. destruct (0 <? errs); [|apply map_Forall_empty]. by apply map_Forall_singleton.
Qed.
Lemma record_attempt_wf rt e p : proxy_wf p -> proxy_wf (record_attempt rt e p).
Proof.
  intros (H1 & H2 & H3 & H4). unfold proxy_wf. split; [done|]. split; [done|]. split; [apply u32_range|]. simpl. destruct e; [|done].
  apply map_Forall_insert_2; [apply u32_range|done].
Qed.
(** The updates that touch neither the address nor the counters. *)
Lemma kept_wf p p' : p_key p' = p_key p -> p_requests p' = p_requests p -> p_errors p' = p_errors p -> proxy_wf p -> proxy_wf p'.
Proof. intros [= Hh Hp] Hr He. unfold proxy_wf. by rewrite Hh, Hp, Hr, He. Qed.
#[export] Hint Resolve record_attempt_wf ip_parse_wf parse_ip_lenient_wf u32_range : proxybroker.

Lemma remove_types_kept rm p : let p' := fold_left (fun p q => remove_type q p) rm p in
  p_key p' = p_key p /\ p_requests p' = p_requests p /\ p_errors p' = p_errors p.
Proof. revert p. induction rm as [|q rm IH]; intros p; simpl; [done|]. exact (IH (remove_type q p)). Qed.
Lemma types_passed_wf req strict p : proxy_wf p -> proxy_wf (types_passed req strict p).2.
Proof.
  intros H. unfold types_passed. case_decide; [done|]. destruct (types_loop _ _ _ _) as [[] rm]; [done|]. simpl.
  destruct (remove_types_kept rm p) as (? & ? & ?). by eapply kept_wf.
Qed.

Section check_wf.
Context `{TL : TunnelLibs} `{R : Regexes} `{UC : UnicodeCase} `{F : Flate} `{P : Powi} `{W : WebLibs}.
Variable lookup_ip : str -> option (list IpAddr).
Variable ck : Checker.
Lemma check_loop_wf world proto pr target n i p b p' :
  check_loop ck world proto pr target n i p = Some (b, p') -> proxy_wf p -> proxy_wf p'.
Proof.
  revert i p. induction n as [|n IH]; intros i p E Hp; simpl in E; [by simplify_eq|].
  destruct (attempt ck _ _ _ _ _) as [[obs|]|e].
  - simplify_eq. eapply kept_wf; [..|exact (record_attempt_wf (Some (ce_rtt (world i))) None p Hp)]; done.
  - simplify_eq. by apply record_attempt_wf.
  - destruct (_ && _); [|simplify_eq; by apply record_attempt_wf].
    destruct (backoff_for _ _ _); [|done]. eapply IH; [exact E|]. by apply record_attempt_wf.
Qed.
Lemma check_all_wf world draw l any p b p' : check_all ck world draw l any p = Some (b, p') -> proxy_wf p -> proxy_wf p'.
Proof.
  revert any p. induction l as [|q l IH]; intros any p E Hp; simpl in E; [by simplify_eq|].
  destruct (check_one ck (world q) (draw q) p q) as [[b1 p1]|] eqn:E1; [|done]. eapply IH; [exact E|].
  unfold check_one in E1. destruct (probe_target _ _ _) as [[]|]; [by eapply check_loop_wf|by simplify_eq].
Qed.
Lemma check_wf world draw p b p' : check lookup_ip ck world draw p = Some (b, p') -> proxy_wf p -> proxy_wf p'.
Proof.
  unfold check. intros E Hp. destruct (_ && _); [by simplify_eq|].
  destruct (check_all _ _ _ _ _ _) as [[[] p1]|] eqn:Ea; [| |done]; apply check_all_wf in Ea; try done; [|by simplify_eq].
  injection E as E. pose proof (types_passed_wf (ck_requested ck) (ck_strict ck) p1 Ea) as H. by rewrite E in H.
Qed.
End check_wf.

Lemma uint_field_range hi k d l n : uint_field hi k d l = Some n -> (forall v, d = Some v -> 0 <= v <= hi) -> 0 <= n <= hi.
Proof.
  unfold uint_field. destruct (field k l) as [[]|]; try done; [|by intros -> Hd; apply Hd].
  destruct (_ && _) eqn:E; [|done]. intros [= <-] _. apply andb_prop in E as [? ?]. bsimp. lia.
Qed.
Lemma deserialize_wf j p : deserialize j = Some p -> proxy_wf p.
Proof.
  unfold deserialize. destruct j as [| | | | |l]; try done. destruct (match field (lit "host") l with Some (JStr s) => Some s | _ => None end) as [host|]; [|done].
  destruct (uint_field 65535 (lit "port") None l) as [port|] eqn:Ep; [|done].
  destruct (read_geo l) as [geo|]; [|done]. destruct (read_asn l) as [asn|]; [|done].
  destruct (match field (lit "types") l with None => _ | _ => _ end) as [raw|]; [|done].
  destruct (ip_parse host) as [ip|] eqn:Ei; [|done]. destruct (mapM read_type raw) as [types|]; [|done].
  intros [= <-]. apply uint_field_range in Ep; [|done].
  eapply kept_wf; [..|apply (new_wf ip port ∅); [by eapply ip_parse_wf|lia]]; done.
Qed.
Lemma parse_proxy_lines_wf `{Regexes} text p : p ∈ parse_proxy_lines text -> proxy_wf p.
Proof.
  unfold parse_proxy_lines. intros (pr & _ & Hp)%list_elem_of_omap. unfold parse_proxy_line in Hp.
  destruct (parse_ip_lenient pr.1) as [ip|] eqn:Ei; [|done]. destruct (parse_u16 pr.2) as [port|] eqn:Ep; [|done].
  simplify_eq/=. apply parse_uint_bounds in Ep. apply new_wf; [by eapply parse_ip_lenient_wf|lia].
Qed.
Lemma sql_load_wf t p : p ∈ sql_load t -> proxy_wf p.
Proof.
  unfold sql_load. intros ([[host port] row] & _ & Hp)%list_elem_of_omap. simpl in Hp.
  destruct (ip_parse host) as [ip|] eqn:Ei; [|done]. simplify_eq.
  eapply kept_wf; [..|apply (restored_wf ip (u16 port) (types_from_json (w_types row)) (u32 (w_requests row)) (u32 (w_errors row)) (w_avg_latency row));
    [by eapply ip_parse_wf|apply Z.mod_pos_bound; lia|apply u32_range..]]; done.
Qed.

Section sources_wf.
Context `{R : Regexes} `{C : Captures} `{UC : UnicodeCase}.
Definition cand_wf (cand : Candidate) : Prop := 0 <= cd_port cand < 2 ^ 16.
Lemma zip_with_elem {A B D} (f : A -> B -> D) l k x : x ∈ zip_with f l k -> exists y z, x = f y z.
Proof.
  revert k. induction l as [|y l IH]; intros [|z k]; simpl; try by intros ?%elem_of_nil.
  intros [-> | Hx]%elem_of_cons; [eauto|by eapply IH].
Qed.
Lemma fetch_wf spec page cand : cand ∈ provider_fetch spec page -> cand_wf cand.
Proof.
  destruct page as [body|]; simpl; [|by intros ?%elem_of_nil]. unfold extract.
  intros Hin. destruct (extract_loop_sound (list_to_set (ps_protocols spec)) (pairs_of spec body) ∅) as (_ & _ & H).
  apply H in Hin as [([h p] & _ & Hc)%list_elem_of_omap _]. unfold candidate_of in Hc. simpl in Hc.
  destruct (parse_u16 p) as [port|] eqn:Ep; [|done]. apply parse_uint_bounds in Ep. unfold cand_wf.
  repeat case_match; simplify_eq/=; lia.
Qed.
Lemma arrive_wf broker pages batches : arrive broker pages batches -> forall cand, cand ∈ concat batches -> cand_wf cand.
Proof.
  intros [_ Hb] cand (batch & Hbatch%list_elem_of_In & Hin%list_elem_of_In)%list_elem_of_In%in_concat. rewrite Hb in Hbatch.
  apply zip_with_elem in Hbatch as (spec & page & ->). by eapply fetch_wf.
Qed.
Lemma find_source_wf broker pages batches countries p : arrive broker pages batches ->
  p ∈ find_source broker countries (concat batches) ∅ -> proxy_wf p.
Proof.
  intros Ha Hp. destruct (find_source_spec broker countries (concat batches) ∅) as (_ & _ & H).
  apply H in Hp as (cand & host & Hc & Hh & -> & _). pose proof (arrive_wf _ _ _ Ha cand Hc).
  eapply kept_wf; [..|apply (new_wf host (cd_port cand) (cd_protocols cand)); [by eapply ip_parse_wf|done]]; done.
Qed.
End sources_wf.

(** A proxy is well typed wherever it comes from, an address of 32 or 128 bits, a 16-bit port,
    32-bit counters: lines of a file, a JSON record, a row of the store, the candidates of the
    providers; and a check of it, whatever the checker and the network do, gives a well-typed one. *)
Lemma proxy_typed :
  (forall `{Regexes} text p, p ∈ parse_proxy_lines text -> proxy_wf p) /\
  (forall j p, deserialize j = Some p -> proxy_wf p) /\
  (forall t p, p ∈ sql_load t -> proxy_wf p) /\
  (forall `{Regexes} `{Captures} `{UnicodeCase} broker pages batches countries p, arrive broker pages batches ->
     p ∈ find_source broker countries (concat batches) ∅ -> proxy_wf p) /\
  (forall rt e p, proxy_wf p -> proxy_wf (record_attempt rt e p)) /\
  (forall `{TunnelLibs} `{Regexes} `{UnicodeCase} `{Flate} `{Powi} `{WebLibs} lookup_ip ck world draw p b p',
     check lookup_ip ck world draw p = Some (b, p') -> proxy_wf p -> proxy_wf p').
Proof.
  split_and!; intros.
  - by eapply parse_proxy_lines_wf.
  - by eapply deserialize_wf.
  - by eapply sql_load_wf.
  - by eapply find_source_wf.
  - by apply record_attempt_wf.
  - by eapply check_wf.
Qed.
