(* ===== verification/Ndjson.v ===== *)
(** * Proxies as lines of JSON (src/proxy.rs, [write_ndjson] and [read_ndjson])

    The text of one JSON value is serde_json's: [json_text] and [json_parse] are parameters, with
    what the code relies on of them as the predicate [text_ok]. A double need not be read back
    as it was written. *)
From S2P Require Import Prelude F64 Text Types Addr Proxy ProxyJson Http.
Open Scope Z_scope.

(** The errors of the reader: the line is not UTF-8, or not the JSON of a proxy. *)
Inductive NdjsonError := NotUtf8 | InvalidData.

Section ndjson.
Variables (json_text : json -> str) (json_parse : str -> option json).

Definition write_ndjson (ps : list Proxy) : str := concat (map (fun p => json_text (serialize p) ++ [LF]) ps).
Definition read_line (line : str) : result (option Proxy) NdjsonError :=
  if negb (is_utf8 line) then Err NotUtf8
  else if decide (trim line = []) then Ok None
  else match json_parse line ≫= deserialize with Some p => Ok (Some p) | None => Err InvalidData end.
Fixpoint read_lines (ls : list str) : result (list Proxy) NdjsonError :=
  match ls with
  | [] => Ok []
  | line :: ls =>
      let! got := read_line line in
      let! rest := read_lines ls in
      Ok (option_list got ++ rest)
  end.
Definition read_ndjson (text : str) : result (list Proxy) NdjsonError := read_lines (lines text).

(** ** Reading what was written *)
Variable reread : f64 -> f64.
Fixpoint map_floats (j : json) : json :=
  match j with
  | JFloat x => JFloat (reread x)
  | JArr l => JArr (map map_floats l)
  | JObj l => JObj (map (fun kv => (kv.1, map_floats kv.2)) l)
  | j => j
  end.
Definition text_ok (p : Proxy) : Prop :=
  let s := json_text (serialize p) in
  json_parse s = Some (map_floats (serialize p)) /\ LF ∉ s /\ CR ∉ s /\ is_utf8 s = true /\ trim s <> [].
(** A proxy the format can carry: its address reads back, its integers have their widths. *)
Definition savable (p : Proxy) : Prop :=
  ip_parse (ip_show (p_host p)) = Some (p_host p) /\ 0 <= p_port p < 2 ^ 16 /\
  forall a, p_asn p = Some a -> 0 <= asn_number a < 2 ^ 32.

Abbreviation fields l := (map (fun kv : str * json => (kv.1, map_floats kv.2)) l).
Lemma field_floats k l : field k (fields l) = map_floats <$> field k l.
Proof. induction l as [|[k' v] l IH]; simpl; [done|]. by case_decide. Qed.
Lemma str_field_floats k l : str_field k (fields l) = str_field k l.
Proof. unfold str_field. rewrite field_floats. by destruct (field k l) as [[]|]. Qed.
Lemma opt_str_field_floats k l : opt_str_field k (fields l) = opt_str_field k l.
Proof. unfold opt_str_field. rewrite field_floats. by destruct (field k l) as [[]|]. Qed.
Lemma uint_field_floats hi k d l : uint_field hi k d (fields l) = uint_field hi k d l.
Proof. unfold uint_field. rewrite field_floats. by destruct (field k l) as [[]|]. Qed.
Lemma obj_field_floats k l : obj_field k (fields l) = (fun o => fields o) <$> obj_field k l.
Proof. unfold obj_field. rewrite field_floats. by destruct (field k l) as [[]|]. Qed.

Lemma read_type_floats j : read_type (map_floats j) = read_type j.
Proof.
  destruct j as [| | | | |l]; try done. simpl. rewrite field_floats, str_field_floats.
  by destruct (field (lit "type") l) as [[]|].
Qed.
Lemma read_geo_floats l : read_geo (fields l) = read_geo l.
Proof.
  unfold read_geo. rewrite obj_field_floats. destruct (obj_field (lit "geo") l) as [geo|]; [|done]. cbn [fmap option_fmap option_map].
  rewrite obj_field_floats. destruct (obj_field (lit "country") geo) as [country|]; [|done]. cbn [fmap option_fmap option_map].
  rewrite !str_field_floats, obj_field_floats. repeat (case_match; [|done]).
  destruct (obj_field (lit "region") geo) as [region|]; [|by simplify_eq]. cbn [fmap option_fmap option_map] in *. simplify_eq.
  by rewrite !str_field_floats, opt_str_field_floats.
Qed.
Lemma read_asn_floats l : read_asn (fields l) = read_asn l.
Proof.
  unfold read_asn. rewrite field_floats. destruct (field (lit "asn") l) as [[]|]; try done. cbn.
  by rewrite uint_field_floats, opt_str_field_floats.
Qed.
Lemma mapM_types_floats l : mapM read_type (map map_floats l) = mapM read_type l.
Proof. induction l as [|j l IH]; [done|]. cbn [map mapM]. by rewrite read_type_floats, IH. Qed.
Lemma deserialize_floats j : deserialize (map_floats j) = deserialize j.
Proof.
  destruct j as [| | | | |l]; try done. unfold deserialize. cbn [map_floats].
  rewrite !field_floats, uint_field_floats, read_geo_floats, read_asn_floats.
  destruct (field (lit "host") l) as [[]|], (field (lit "types") l) as [[]|]; cbn [fmap option_fmap option_map map_floats];
    rewrite ?mapM_types_floats; done.
Qed.

(** A text of complete lines. *)
Definition text_of (ls : list str) : str := concat (map (fun s => s ++ [LF]) ls).
Definition plain_line (s : str) : Prop := LF ∉ s /\ CR ∉ s.
Lemma strip_cr_plain s : CR ∉ s -> strip_cr s = s.
Proof.
  intros Hn. unfold strip_cr. destruct (strip_suffix [CR] s) as [r|] eqn:E; [|done].
  apply strip_suffix_Some in E as ->. exfalso. apply Hn, elem_of_app. right. left.
Qed.
Lemma lines_text_of ls : Forall plain_line ls -> lines (text_of ls) = ls.
Proof.
  induction 1 as [|s ls [Hl Hc] _ IH]; [done|]. unfold text_of in *. cbn [map concat]. unfold lines in *.
  rewrite <- app_assoc. cbn [app]. rewrite split_char_app by done.
  pose proof (split_char_not_nil LF (concat (map (fun s => s ++ [LF]) ls))) as Hn.
  destruct (split_char LF _) as [|w ws]; [done|]. cbn [removelast last map app] in *.
  rewrite strip_cr_plain by done. f_equal. exact IH.
Qed.
Lemma read_saved p : text_ok p -> savable p -> read_line (json_text (serialize p)) = Ok (Some (persistent p)).
Proof.
  intros (Hj & _ & _ & Hu & Hb) (H1 & H2 & H3). unfold read_line. rewrite Hu. cbn [negb]. rewrite decide_False by done.
  rewrite Hj. cbn [mbind option_bind]. by rewrite deserialize_floats, deserialize_serialize.
Qed.
Lemma read_lines_app a b : read_lines (a ++ b) =
  let! x := read_lines a in let! y := read_lines b in Ok (x ++ y).
Proof.
  induction a as [|s a IH]; simpl; [by destruct (read_lines b)|]. rewrite IH.
  destruct (read_line s); [|done]. destruct (read_lines a); [|done]. destruct (read_lines b); [|done]. by rewrite app_assoc.
Qed.
Lemma read_lines_saved ps : Forall text_ok ps -> Forall savable ps ->
  read_lines (map (fun p => json_text (serialize p)) ps) = Ok (map persistent ps).
Proof.
  induction 1 as [|p ps Hp _ IH]; intros Hs; [done|]. apply Forall_cons in Hs as [Hs1 Hs]. cbn [map read_lines].
  by rewrite read_saved, IH.
Qed.

Lemma write_ndjson_text ps : write_ndjson ps = text_of (map (fun p => json_text (serialize p)) ps).
Proof. unfold write_ndjson, text_of. by rewrite map_map. Qed.
Lemma saved_plain ps : Forall text_ok ps -> Forall plain_line (map (fun p => json_text (serialize p)) ps).
Proof. intros Hl. apply Forall_map. eapply Forall_impl; [exact Hl|]. intros p (_ & ? & ? & _). by split. Qed.
Lemma read_written ps : Forall text_ok ps -> Forall savable ps -> read_ndjson (write_ndjson ps) = Ok (map persistent ps).
Proof.
  intros Ht Hs. unfold read_ndjson. rewrite write_ndjson_text, lines_text_of by by apply saved_plain. by apply read_lines_saved.
Qed.

(** A saved file reads back: one line a proxy, in order, each as its persistent part (host,
    port, geolocation, ASN and confirmed types, the statistics reset), and blank lines anywhere
    among them change nothing; a line that is not the JSON of a proxy fails the whole read,
    whatever comes after it. *)
Theorem ndjson_roundtrip : forall ps qs blanks bad rest,
  Forall text_ok (ps ++ qs) -> Forall savable (ps ++ qs) ->
  Forall (fun s => plain_line s /\ is_utf8 s = true /\ trim s = []) blanks ->
  Forall plain_line (bad :: rest) -> is_utf8 bad = true -> trim bad <> [] -> json_parse bad ≫= deserialize = None ->
  read_ndjson (write_ndjson (ps ++ qs)) = Ok (map persistent (ps ++ qs)) /\
  read_ndjson (write_ndjson ps ++ text_of blanks ++ write_ndjson qs) = Ok (map persistent (ps ++ qs)) /\
  read_ndjson (write_ndjson ps ++ text_of (bad :: rest)) = Err InvalidData.
Proof.
  intros ps qs blanks bad rest Ht Hs Hb Hbad Hu Ht' Hj.
  assert (forall a b, text_of a ++ text_of b = text_of (a ++ b)) as Ha
    by (intros a c; unfold text_of; by rewrite map_app, concat_app).
  pose proof Ht as [Ht1 Ht2]%Forall_app. pose proof Hs as [Hs1 Hs2]%Forall_app. split; [by apply read_written|].
  unfold read_ndjson. rewrite !write_ndjson_text, !Ha. rewrite !lines_text_of; [|repeat apply Forall_app_2; auto using saved_plain..].
  2: { eapply Forall_impl; [exact Hb|]. by intros s [? _]. }
  split.
  - rewrite !read_lines_app, !read_lines_saved by done.
    assert (read_lines blanks = Ok []) as ->; [|by rewrite map_app].
    clear -Hb. induction Hb as [|s l (_ & Hu & Hs) _ IH]; [done|]. simpl. unfold read_line.
    rewrite Hu. simpl. rewrite decide_True by done. by rewrite IH.
  - rewrite read_lines_app, read_lines_saved by done. simpl. unfold read_line at 1. rewrite Hu. simpl.
    rewrite decide_False by done. by rewrite Hj.
Qed.
End ndjson.

(** ** A saved file, with a printer that knows one proxy *)
Definition sample_line : str := lit "{8.8.8.8}".
Definition sample_text (j : json) : str := sample_line.
Definition sample_parse (s : str) : option json := if decide (s = sample_line) then Some (serialize sample) else None.
Lemma sample_savable : text_ok sample_text sample_parse (fun x => x) sample /\ savable sample.
Proof.
  split.
  - assert (map_floats (fun x => x) (serialize sample) = serialize sample) as Hid by (vm_compute; reflexivity).
    unfold text_ok. rewrite Hid. split; [reflexivity|]. split; [|split; [|split; [reflexivity|discriminate]]];
      apply (bool_decide_unpack _); vm_compute; exact I.
  - split; [vm_compute; reflexivity|]. split; [split; reflexivity || discriminate|].
    intros a [= <-]. split; reflexivity || discriminate.
Qed.
Lemma ndjson_roundtrip_witness :
  read_ndjson sample_parse (write_ndjson sample_text [sample; sample]) = Ok [persistent sample; persistent sample] /\
  read_ndjson sample_parse (write_ndjson sample_text [sample] ++ text_of [lit "nonsense"]) = Err InvalidData.
Proof.
  destruct sample_savable as [Ht Hs].
  assert (forall P : Proxy -> Prop, P sample -> Forall P ([sample] ++ [sample])) as Htwo by (intros P HP; by repeat apply Forall_cons_2).
  assert (Forall plain_line [lit "nonsense"]) as Hbad.
  { apply Forall_cons. split; [split|constructor]; apply (bool_decide_unpack _); vm_compute; exact I. }
  destruct (ndjson_roundtrip sample_text sample_parse (fun x => x) [sample] [sample] [] (lit "nonsense") []
    (Htwo _ Ht) (Htwo _ Hs) (Forall_nil_2 _) Hbad eq_refl ltac:(discriminate) eq_refl) as (H1 & _ & H3).
  split; [exact H1|exact H3].
Defined.
