(* ===== verification/WatchFile.v ===== *)
(** * The watched file (src/watch.rs, [spawn_watch] and [reload])

    What Watch.v takes for granted: which directory is watched for a path, which of the watcher's events
    concern the file, and what reading it again gives. Paths are std's, on Unix. *)
From S2P Require Import Prelude Text Types Addr Proxy ProxyJson Pool Watch Ndjson.
Open Scope Z_scope.

(** ** Paths *)
Inductive Component := RootDir | CurDir | ParentDir | Normal (name : str).
#[export] Instance component_eq_dec : EqDecision Component.
Proof. solve_decision. Defined.
Definition component (seg : str) : option Component :=
  if decide (seg = [] \/ seg = lit ".") then None else if decide (seg = lit "..") then Some ParentDir else Some (Normal seg).
(** [Path::components]: a leading [.] is kept, later ones and repeated separators are not. *)
Definition components (path : str) : list Component :=
  let segs := split_char "/" path in
  (if starts_with (lit "/") path then [RootDir] else match segs with seg :: _ => if decide (seg = lit ".") then [CurDir] else [] | [] => [] end) ++
  omap component segs.
Definition file_name (path : str) : option str :=
  match last (components path) with Some (Normal name) => Some name | _ => None end.
Definition parent (path : str) : option (list Component) :=
  match last (components path) with None | Some RootDir => None | Some _ => Some (removelast (components path)) end.
(** The directory to watch; an empty parent is the current one. *)
Definition watch_dir (path : str) : list Component :=
  match parent path with Some (c :: cs) => c :: cs | _ => [CurDir] end.

(** The file is in the directory that is watched. *)
Lemma watched_dir path name : file_name path = Some name ->
  exists dir, components path = dir ++ [Normal name] /\ watch_dir path = match dir with [] => [CurDir] | _ => dir end.
Proof.
  unfold file_name, watch_dir, parent. destruct (last (components path)) as [c|] eqn:E; [|done]. destruct c; try done. intros [= ->].
  apply last_Some in E as [dir ->]. exists dir. split; [done|]. rewrite removelast_last. by destruct dir.
Qed.

Section watch_file.
Variables (json_text : json -> str) (json_parse : str -> option json).

(** [None] for a file that cannot be opened or read. *)
Definition reload (file : option str) : option (list Proxy) := let? text := file in ok (read_ndjson json_parse text).

(** What the watcher sends: an error, or an event about some paths. *)
Abbreviation Notice := (option (list str)) (only parsing).
Definition concerns (target : option str) (e : Notice) : bool :=
  match e with Some paths => existsb (fun p => bool_decide (file_name p = target)) paths | None => false end.
(** One turn of the loop: what was queued, the clock at its two readings, the file if it is read, and what the pool's other users
    did before it and do during it. *)
Record Turn := { tn_queue : list Notice; tn_marked : Z; tn_looked : Z; tn_file : option str;
  tn_meantime : Pool -> Pool; tn_between : nat -> Pool -> Pool }.
Definition poll_of (path : str) (t : Turn) : Poll :=
  {| touched := existsb (concerns (file_name path)) (tn_queue t); marked_at := tn_marked t; looked_at := tn_looked t; parsed := reload (tn_file t);
     meantime := tn_meantime t; between := tn_between t |}.

(** [spawn_watch]: creating the watcher or watching the directory can fail; then there is no task. *)
Record WatchHandle := { wh_dir : list Component; wh_target : option str }.
Definition spawn_watch (created : bool) (watch : list Component -> bool) (path : str) : option WatchHandle :=
  if created then if watch (watch_dir path) then Some {| wh_dir := watch_dir path; wh_target := file_name path |} else None
  else None.
Definition watch_task (path : str) (ts : list Turn) (pool : Pool) : list bool * (option Z * Pool) :=
  watch_run (map (poll_of path) ts) (None, pool).

Lemma concerned path t : touched (poll_of path t) = true <->
  exists paths p, Some paths ∈ tn_queue t /\ p ∈ paths /\ file_name p = file_name path.
Proof.
  cbn. rewrite existsb_elem. split.
  - intros ([paths|] & He & Hc); [|done]. cbn in Hc. apply existsb_elem in Hc as (p & Hp & Hn). apply bool_decide_eq_true in Hn. by exists paths, p.
  - intros (paths & p & He & Hp & Hn). exists (Some paths). split; [done|]. cbn. apply existsb_elem. exists p. split; [done|]. by apply bool_decide_eq_true.
Qed.
Lemma wanted_persistent ps : wanted (map persistent ps) = wanted ps.
Proof. unfold wanted. by rewrite map_map. Qed.

(** C22: the pool follows its file, whatever the pool's other users do in the meantime and between the
    steps of a reload. A turn whose queue has an event about a path with the file's name notes a
    change, and no other turn does. When a change noted at some turn is the last one, is at least [DEBOUNCE] old and was not
    acted on, the file is read. If it is then a saved file, each address that the others leave alone during the reload
    is pooled afterwards exactly when a proxy saved in the file has it (so with nobody interfering during the reload the pool's addresses are the file's); an entry they spare
    is kept untouched if it was in the pool when the reload began and its address is in the file, and if it was not in the pool it is a
    fresh entry of the file. If the file cannot be read or
    has a bad line, and at every other turn, the pool is what its other users made it. A proxy on loan is not in the pool when the reload
    begins, and its return is interference. *)
Theorem watch_follows : forall reread path ts t pool,
  let before := watch_task path ts pool in
  let after := watch_task path (ts ++ [t]) pool in
  let found := tn_meantime t before.2.2 in
  (forall u, touched (poll_of path u) = true <->
     exists paths p, Some paths ∈ tn_queue u /\ p ∈ paths /\ file_name p = file_name path) /\
  let acts := exists j u, (if touched (poll_of path t) then j = length ts /\ u = poll_of path t else outstanding (map (poll_of path) ts) before.1 j u) /\
                DEBOUNCE <= Z.max 0 (tn_looked t - marked_at u) in
  (forall ps, acts -> tn_file t = Some (write_ndjson json_text ps) -> Forall (text_ok json_text json_parse reread) ps -> Forall savable ps ->
     (forall k, leaves (tn_between t) k -> k ∈ addrs after.2.2 <-> k ∈ wanted ps) /\
     ((forall k, leaves (tn_between t) k) -> addrs after.2.2 = wanted ps) /\
     (forall e, spares (tn_between t) e -> e ∈ state found -> entry_key e ∈ wanted ps -> e ∈ state after.2.2) /\
     (forall e, spares (tn_between t) e -> e ∈ state after.2.2 ->
        e ∈ state found \/ exists px, px ∈ ps /\ p_key px ∉ addrs found /\ e = ready_entry (persistent px))) /\
  (~ acts \/ reload (tn_file t) = None -> after.2.2 = found).
Proof.
  intros reread path ts t pool before after found. split; [intros u; apply concerned|]. intros acts.
  pose proof (watch_debounce (map (poll_of path) ts) (poll_of path t) pool) as [_ Hd]. cbn zeta in Hd. rewrite length_map in Hd.
  assert (after.2 = (poll_step before.2 (poll_of path t)).2) as Ha.
  { unfold after, before, watch_task. rewrite map_app, watch_run_app. done. }
  fold (watch_task path ts pool) in Hd. fold before in Hd. change (looked_at (poll_of path t)) with (tn_looked t) in Hd. fold acts in Hd.
  pose proof (poll_step_pool before.2 (poll_of path t)) as Hp. cbn zeta in Hp. change (meantime (poll_of path t) before.2.2) with found in Hp.
  rewrite Ha, Hp. split.
  - intros ps Hacts Hf Ht Hs. apply Hd in Hacts. rewrite Hacts. cbn [poll_of parsed between]. rewrite Hf. unfold reload. cbn [mbind option_bind].
    rewrite (read_written _ _ _ ps Ht Hs). cbn [ok].
    pose proof (reconcile_sound (tn_between t) found (map persistent ps)) as (H1 & H2 & H3 & H4). rewrite wanted_persistent in *.
    split_and!; [done..|]. intros e Hsp [?|(px & Hdes & Hn & ->)]%H4; [by left| |done]. right.
    apply list_elem_of_fmap in Hdes as (p & -> & Hp'). by exists p.
  - intros [Hn|Hn]; [|cbn [poll_of parsed]; by rewrite Hn; case_match].
    destruct (poll_step before.2 (poll_of path t)).1; [|done]. by destruct Hn; apply Hd.
Qed.
End watch_file.

(** ** An editor replaces the file *)
Section watch_demo.
#[local] Existing Instance ascii_case.
Example watched_dirs : map watch_dir [lit "proxies.ndjson"; lit "./p"; lit "/p"; lit "a//b/./p/"; lit "a/.."] =
  [[CurDir]; [CurDir]; [RootDir]; [Normal (lit "a"); Normal (lit "b")]; [Normal (lit "a")]].
Proof. reflexivity. Qed.
(** One proxy joins before each turn, another in the middle of the reload. *)
Definition demo_joins : Proxy := new (V4 7) 80 ∅.
Definition demo_found : Proxy := new (V4 8) 80 ∅.
Lemma add_leaves px p k : k <> p_key px -> k ∈ addrs (add px p) <-> k ∈ addrs p.
Proof. intros Hk. rewrite addrs_add. set_solver. Qed.
Definition demo_turn (queue : list (option (list str))) (clock : Z) (file : option str) : Turn :=
  {| tn_queue := queue; tn_marked := clock * 10 ^ 6; tn_looked := clock * 10 ^ 6; tn_file := file;
     tn_meantime := add demo_joins; tn_between := fun i => if decide (i = 1%nat) then add demo_found else id |}.
(** Noted by the name, whatever the directory it is reported in; read a quarter of a second later. *)
Definition demo_turns : list Turn :=
  [demo_turn [Some [lit "/private/tmp/other"]; None] 0 None; demo_turn [Some [lit "/private/tmp/p.ndjson"]] 50 None; demo_turn [] 200 None].
Definition demo_file : str := write_ndjson sample_text [sample].
Definition demo_watched : Pool := from_proxies [new (V4 1) 80 ∅] PoolConfig_default.
Lemma watch_follows_witness :
  let pool := (watch_task sample_parse (lit "/tmp/p.ndjson") (demo_turns ++ [demo_turn [] 300 (Some demo_file)]) demo_watched).2.2 in
  (forall k, k <> p_key demo_found -> k ∈ addrs pool <-> k = p_key sample) /\ p_key demo_found ∈ addrs pool.
Proof.
  destruct (watch_follows sample_text sample_parse (fun x => x) (lit "/tmp/p.ndjson") demo_turns (demo_turn [] 300 (Some demo_file)) demo_watched)
    as (_ & H & _). destruct sample_savable as [Ht Hs].
  destruct (H [sample]) as [Ha _].
  - exists 1%nat, (poll_of sample_parse (lit "/tmp/p.ndjson") (demo_turn [Some [lit "/private/tmp/p.ndjson"]] 50 None)).
    split; [|vm_compute; discriminate].
    assert (touched (poll_of sample_parse (lit "/tmp/p.ndjson") (demo_turn [] 300 (Some demo_file))) = false) as -> by reflexivity.
    split; [reflexivity|]. split; [vm_compute; reflexivity|]. split.
    + intros [|[|[|k]]] tk Hk Htk; try lia; [|discriminate Htk]. cbn in Htk. injection Htk as <-. vm_compute. reflexivity.
    + assert ((watch_task sample_parse (lit "/tmp/p.ndjson") demo_turns demo_watched).1 = [false; false; false]) as -> by (vm_compute; reflexivity).
      intros [|[|[|k]]] _; cbn; discriminate.
  - reflexivity.
  - apply Forall_cons_2; [exact Ht|apply Forall_nil_2].
  - apply Forall_cons_2; [exact Hs|apply Forall_nil_2].
  - split; [|refine (bool_decide_unpack _ _); vm_compute; exact I].
    intros k Hk. refine (iff_trans (Ha k _) _).
    + intros i p. cbn [demo_turn tn_between]. case_decide; [by apply add_leaves|done].
    + unfold wanted. cbn [map list_to_set]. clear. set_solver.
Defined.
End watch_demo.
