(* ===== verification/Cli.v ===== *)
(** * The command line (src/bin/proxybroker.rs)

    The pure parts: the flags of each command, their defaults and exclusions, output formats and
    templates, the queries and the pools the flags stand for. What the commands do is in Cmd.v. *)
From S2P Require Import Prelude F64 Text Types Addr Utils Proxy ProxyJson Pool Net Negotiator Judge Checker Store Scheduler Pipeline Geo Broker Http Ndjson.
Open Scope Z_scope.

(** ** Output *)
Inductive Format := FDefault | FTxt | FJson | FJsonArray | FUrl | FCsv.

Definition scheme_str (p : Proxy) : str :=
  if has_type Socks5 p then lit "socks5" else if has_type Socks4 p then lit "socks4" else lit "http".
Definition proto_list (p : Proxy) : str := join (lit "|") (map (fun t => proto_as_str t.1) (types_list (p_types p))).
Definition anon_str (p : Proxy) : str :=
  match p_types p !! Http with Some (Some l) => anon_as_str l | _ => [] end.
Definition country_str (p : Proxy) : str := match p_geo p with Some c => c_code c | None => [] end.
Definition asn_str (p : Proxy) : str := match p_asn p with Some a => show_uint (asn_number a) | None => [] end.
Definition asn_org_str (p : Proxy) : str := match p_asn p with Some a => default [] (asn_org a) | None => [] end.

(** [str::replace] for a pattern that is not empty; [skip] counts the rest of a match. *)
Fixpoint replace_from (pat to : str) (skip : nat) (s : str) : str :=
  match s with
  | [] => []
  | c :: s' =>
      match skip with
      | S skip => replace_from pat to skip s'
      | O => if starts_with pat s then to ++ replace_from pat to (length pat - 1) s'
             else c :: replace_from pat to 0 s'
      end
  end.
Definition replace (pat to s : str) : str := replace_from pat to 0 s.

(** The closed set of tokens, in the order they are replaced. *)
Inductive Token :=
| TkProxy | TkHost | TkPort | TkScheme | TkProtocols | TkAnon | TkCountry | TkAsn | TkAsnOrg | TkDuration | TkErrorRate.
#[export] Instance Token_eq_dec : EqDecision Token.
Proof. solve_decision. Defined.
Definition TOKENS : list Token :=
  [TkProxy; TkHost; TkPort; TkScheme; TkProtocols; TkAnon; TkCountry; TkAsn; TkAsnOrg; TkDuration; TkErrorRate].
Definition token_text (t : Token) : str :=
  match t with
  | TkProxy => lit "{{proxy}}" | TkHost => lit "{{host}}" | TkPort => lit "{{port}}"
  | TkScheme => lit "{{scheme}}" | TkProtocols => lit "{{protocols}}" | TkAnon => lit "{{anon}}"
  | TkCountry => lit "{{country}}" | TkAsn => lit "{{asn}}" | TkAsnOrg => lit "{{asn_org}}"
  | TkDuration => lit "{{duration}}" | TkErrorRate => lit "{{error_rate}}"
  end.

Section output.
(** [Display] of a double, and the text of a JSON value. *)
Variables (f64_show : f64 -> str) (json_text : json -> str).

Definition token_value (p : Proxy) (t : Token) : str :=
  match t with
  | TkProxy => addr p | TkHost => ip_show (p_host p) | TkPort => show_uint (p_port p)
  | TkScheme => scheme_str p | TkProtocols => proto_list p | TkAnon => anon_str p
  | TkCountry => country_str p | TkAsn => asn_str p | TkAsnOrg => asn_org_str p
  | TkDuration => f64_show (avg_resp_time p) | TkErrorRate => f64_show (error_rate p)
  end.
Definition render_template (tmpl : str) (p : Proxy) : str :=
  fold_left (fun s t => replace (token_text t) (token_value p t) s) TOKENS tmpl.

Definition csv_fields (p : Proxy) : list str :=
  [ip_show (p_host p); show_uint (p_port p); proto_list p; anon_str p; country_str p;
   f64_show (avg_resp_time p); f64_show (error_rate p)].
Definition csv_row (p : Proxy) : str := join (lit ",") (csv_fields p).
Definition csv_header : str := lit "host,port,protocols,anon,country,resp_time,error_rate".

Record Emitter := { em_format : Format; em_template : option str; em_started : bool }.
Definition new_emitter (f : Format) (tmpl : option str) : Emitter :=
  {| em_format := f; em_template := tmpl; em_started := false |}.
Definition em_prefix (e : Emitter) : str :=
  match em_template e, em_format e with
  | None, FJsonArray => lit "["
  | None, FCsv => csv_header ++ [LF]
  | _, _ => []
  end.
Definition em_item (e : Emitter) (p : Proxy) : str * Emitter :=
  match em_template e with
  | Some tmpl => (render_template tmpl p ++ [LF], e)
  | None =>
      match em_format e with
      | FDefault | FTxt => (addr p ++ [LF], e)
      | FJson => (json_text (serialize p) ++ [LF], e)
      | FUrl => (scheme_str p ++ lit "://" ++ addr p ++ [LF], e)
      | FCsv => (csv_row p ++ [LF], e)
      | FJsonArray =>
          ((if em_started e then lit "," else []) ++ json_text (serialize p),
           {| em_format := em_format e; em_template := em_template e; em_started := true |})
      end
  end.
Definition em_suffix (e : Emitter) : str :=
  match em_template e, em_format e with None, FJsonArray => lit "]" ++ [LF] | _, _ => [] end.
Fixpoint em_items (e : Emitter) (ps : list Proxy) : str :=
  match ps with [] => [] | p :: ps => let '(s, e) := em_item e p in s ++ em_items e ps end.
(** [write_stream]: all that is written to the sink, and to the file of [--save], I/O errors apart. *)
Definition write_stream (f : Format) (tmpl : option str) (save : bool) (ps : list Proxy) : str * option str :=
  let e := new_emitter f tmpl in
  (em_prefix e ++ em_items e ps ++ em_suffix e,
   if save then Some (concat (map (fun p => write_ndjson json_text [p]) ps)) else None).
End output.

(** ** Queries *)
Definition types_from (protos : list Proto) (lvl : list AnonLevel) : list TypeSpec :=
  let levels := if decide (lvl = []) then None else Some lvl in
  map (fun proto => {| ts_proto := proto; ts_levels := levels |}) protos.
Definition non_empty {A} (l : list A) : option (list A) := match l with [] => None | _ => Some l end.

Inductive RetryOn := ROTimeout | ROTransient | ROAll.
Definition retry_policy (max_tries : nat) (on : RetryOn) (backoff_ms : Z) : RetryPolicy :=
  let p := match on with
           | ROTimeout => tries max_tries
           | ROTransient => transient max_tries
           | ROAll =>
               {| rp_max_tries := max_tries; retry_on := {[Timeout; Reset; ConnFailed; EmptyRecv; BadStatus]};
                  backoff := backoff RetryPolicy_default; factor := factor RetryPolicy_default;
                  jitter := jitter RetryPolicy_default; max_backoff := max_backoff RetryPolicy_default |}
           end in
  {| rp_max_tries := rp_max_tries p; retry_on := retry_on p; backoff := backoff_ms * 10 ^ 6; factor := factor p;
     jitter := jitter p; max_backoff := max_backoff p |}.

(** The value parsers of [--types] and [--lvl]. *)
Definition parse_proto (s : str) : result Proto str := proto_from_str s.
Definition parse_lvl (s : str) : result AnonLevel str := anon_from_str s.

Inductive StatsFormat := SfText | SfJson.
Record FindArgs := {
  fa_types : list Proto; fa_lvl : list AnonLevel; fa_limit : nat; fa_countries : list str;
  fa_judges : list str; fa_dnsbl : list str; fa_timeout : Z; fa_max_conn : nat; fa_max_tries : nat;
  fa_post : bool; fa_strict : bool; fa_liveness_url : option str; fa_retry_on : RetryOn; fa_backoff_ms : Z;
  fa_relaxed_validity : bool; fa_require_cookie : bool; fa_require_referer : bool;
  fa_require_connect25 : bool; fa_trust_check : bool; fa_require_trusted : bool;
  fa_show_stats : bool; fa_stats_format : StatsFormat; fa_format : Format; fa_output_format : option str;
  fa_outfile : option str; fa_save : option str; fa_progress : bool; fa_state : option str;
}.
(** The flags that are not given, beside the required [--types]. *)
Definition find_defaults (types : list Proto) : FindArgs :=
  {| fa_types := types; fa_lvl := []; fa_limit := 0; fa_countries := []; fa_judges := []; fa_dnsbl := []; fa_timeout := 8;
     fa_max_conn := 200; fa_max_tries := 3; fa_post := false; fa_strict := false; fa_liveness_url := None;
     fa_retry_on := ROTimeout; fa_backoff_ms := 0; fa_relaxed_validity := false; fa_require_cookie := false;
     fa_require_referer := false; fa_require_connect25 := false; fa_trust_check := false; fa_require_trusted := false;
     fa_show_stats := false; fa_stats_format := SfText; fa_format := FDefault; fa_output_format := None;
     fa_outfile := None; fa_save := None; fa_progress := false; fa_state := None |}.
(** [--types] is required, of one value at least. *)
Definition find_args_ok (a : FindArgs) : bool := negb (bool_decide (fa_types a = [])).
(** The builder with the wanted countries, if any. *)
Definition q_wanted (cs : list str) (b : FindQueryBuilder) : FindQueryBuilder := if decide (cs = []) then b else b ▷ q_countries cs.
Definition find_query (a : FindArgs) : FindQuery :=
  let b := query_builder ▷ q_types (types_from (fa_types a) (fa_lvl a)) ▷ q_limit (fa_limit a) ▷ q_judges (fa_judges a)
    ▷ q_dnsbl (fa_dnsbl a) ▷ q_timeout (fa_timeout a * 10 ^ 9) ▷ q_max_conn (fa_max_conn a)
    ▷ q_retry (retry_policy (fa_max_tries a) (fa_retry_on a) (fa_backoff_ms a)) ▷ q_post (fa_post a) ▷ q_strict (fa_strict a)
    ▷ q_liveness_url (fa_liveness_url a) in
  let q := b ▷ q_wanted (fa_countries a) ▷ build in
  {| fq_types := fq_types q; fq_countries := fq_countries q; fq_limit := fq_limit q; fq_judges := fq_judges q;
     fq_dnsbl := fq_dnsbl q; fq_timeout := fq_timeout q; fq_max_conn := fq_max_conn q; fq_retry := fq_retry q;
     fq_post := fq_post q; fq_strict := fq_strict q; fq_liveness_url := fq_liveness_url q;
     fq_relaxed_validity := fa_relaxed_validity a; fq_require_cookie := fa_require_cookie a;
     fq_require_referer := fa_require_referer a; fq_require_connect25 := fa_require_connect25 a;
     fq_trust_check := fa_trust_check a; fq_require_trusted := fa_require_trusted a |}.

Record CheckArgs := {
  ca_types : list Proto; ca_infile : option str; ca_load : option str; ca_lvl : list AnonLevel; ca_limit : nat; ca_countries : list str; ca_judges : list str;
  ca_dnsbl : list str; ca_timeout : Z; ca_max_conn : nat; ca_max_tries : nat; ca_post : bool; ca_strict : bool;
  ca_show_stats : bool; ca_stats_format : StatsFormat; ca_format : Format; ca_output_format : option str;
  ca_outfile : option str; ca_save : option str;
}.
Definition check_defaults (types : list Proto) (load : option str) : CheckArgs :=
  {| ca_types := types; ca_infile := None; ca_load := load; ca_lvl := []; ca_limit := 0; ca_countries := []; ca_judges := [];
     ca_dnsbl := []; ca_timeout := 8; ca_max_conn := 200; ca_max_tries := 3; ca_post := false; ca_strict := false;
     ca_show_stats := false; ca_stats_format := SfText; ca_format := FDefault; ca_output_format := None;
     ca_outfile := None; ca_save := None |}.
(** [--types] is required without [--load] and excluded with it, as [--infile] is. *)
Definition check_args_ok (a : CheckArgs) : bool :=
  match ca_load a with
  | Some _ => bool_decide (ca_types a = []) && bool_decide (ca_infile a = None)
  | None => negb (bool_decide (ca_types a = []))
  end.
Definition check_query (a : CheckArgs) : FindQuery :=
  {| fq_types := types_from (ca_types a) (ca_lvl a); fq_countries := non_empty (ca_countries a);
     fq_limit := if (0 <? ca_limit a)%nat then Some (ca_limit a) else None; fq_judges := ca_judges a; fq_dnsbl := ca_dnsbl a;
     fq_timeout := ca_timeout a * 10 ^ 9; fq_max_conn := ca_max_conn a; fq_retry := tries (ca_max_tries a);
     fq_post := ca_post a; fq_strict := ca_strict a; fq_liveness_url := None; fq_relaxed_validity := false;
     fq_require_cookie := false; fq_require_referer := false; fq_require_connect25 := false;
     fq_trust_check := false; fq_require_trusted := false |}.

(** The command line's mirror of [Strategy]. *)
Inductive SelectStrategy := SsBest | SsRoundRobin | SsRandom | SsSticky.
Definition to_server (s : SelectStrategy) : Strategy :=
  match s with SsBest => Best | SsRoundRobin => RoundRobin | SsRandom => Random | SsSticky => Sticky end.
Record ServeArgs := {
  sa_host : str; sa_types : list Proto; sa_load : option str; sa_lvl : list AnonLevel; sa_dnsbl : list str;
  sa_post : bool; sa_strict : bool; sa_strategy : SelectStrategy; sa_sticky_header : option str; sa_limit : nat;
  sa_countries : list str; sa_timeout : Z; sa_max_error_rate : f64; sa_max_resp_time : f64; sa_fail_timeout : Z;
  sa_prefer_connect : bool; sa_http_allowed_codes : list Z; sa_min_queue : nat; sa_backlog : Z; sa_max_clients : nat;
  sa_auth : option str; sa_max_tries : nat; sa_metrics : option (IpAddr * Z); sa_state : option str; sa_recheck : bool;
  sa_recheck_rate : f64; sa_recheck_min : Z; sa_recheck_max : Z; sa_decay_halflife : Z; sa_watch : bool;
}.
Definition serve_defaults (types : list Proto) (load : option str) : ServeArgs :=
  {| sa_host := lit "127.0.0.1:8888"; sa_types := types; sa_load := load; sa_lvl := []; sa_dnsbl := []; sa_post := false;
     sa_strict := false; sa_strategy := SsBest; sa_sticky_header := None; sa_limit := 100; sa_countries := [];
     sa_timeout := 8; sa_max_error_rate := f_ratio 5 10; sa_max_resp_time := f_of_Z 8; sa_fail_timeout := 30;
     sa_prefer_connect := false; sa_http_allowed_codes := []; sa_min_queue := 0; sa_backlog := 1024; sa_max_clients := 1024;
     sa_auth := None; sa_max_tries := 3; sa_metrics := None; sa_state := None; sa_recheck := false;
     sa_recheck_rate := f_of_Z 5; sa_recheck_min := 60; sa_recheck_max := 3600; sa_decay_halflife := 21600; sa_watch := false |}.
(** What the argument parser accepts: [--types] is required without [--load] and excluded with it. *)
Definition serve_args_ok (a : ServeArgs) : bool :=
  bool_decide (is_Some (sa_load a)) && bool_decide (sa_types a = []) ||
  negb (bool_decide (is_Some (sa_load a))) && negb (bool_decide (sa_types a = [])).
Definition serve_query (a : ServeArgs) : FindQuery :=
  query_builder ▷ q_types (types_from (sa_types a) (sa_lvl a)) ▷ q_limit (Nat.max (sa_limit a) 1) ▷ q_dnsbl (sa_dnsbl a)
    ▷ q_timeout (sa_timeout a * 10 ^ 9) ▷ q_post (sa_post a) ▷ q_strict (sa_strict a) ▷ q_wanted (sa_countries a) ▷ build.

(** What [find] is asked for. *)
Lemma serve_asks a : let q := serve_query a in
  fq_types q = types_from (sa_types a) (sa_lvl a) /\ fq_dnsbl q = sa_dnsbl a /\ fq_strict q = sa_strict a.
Proof. unfold serve_query, q_wanted. by case_decide. Qed.
(** Without types there is no checker. *)
Lemma untyped_refused `{Regexes} `{UnicodeCase} `{WebLibs} lookup_ip default_judges marker resolver a :
  sa_types a = [] -> is_ok (build_checker lookup_ip default_judges marker resolver (serve_query a)) = false.
Proof.
  intros Ht. unfold build_checker. destruct resolver as [bodies|]; [|done]. destruct (external_ips bodies); [|done]. cbn.
  unfold checker_new, checker_config. cbn [cc_types]. by rewrite (proj1 (serve_asks a)), Ht.
Qed.

Record McpArgs := { ma_types : list Proto; ma_limit : nat; ma_countries : list str; ma_timeout : Z }.
(** The query of [mcp] and of [top]. *)
Definition fill_query (types : list Proto) (limit : nat) (timeout : Z) (cs : list str) : FindQuery :=
  query_builder ▷ q_types (types_from types []) ▷ q_limit (Nat.max limit 1) ▷ q_timeout (timeout * 10 ^ 9) ▷ q_wanted cs ▷ build.
Definition mcp_query (a : McpArgs) : FindQuery := fill_query (ma_types a) (ma_limit a) (ma_timeout a) (ma_countries a).
Record TopArgs := {
  ta_types : list Proto; ta_limit : nat; ta_countries : list str; ta_timeout : Z; ta_refresh : Z; ta_state : option str
}.
Definition top_query (a : TopArgs) : FindQuery := fill_query (ta_types a) (ta_limit a) (ta_timeout a) (ta_countries a).
Definition mcp_defaults (types : list Proto) : McpArgs :=
  {| ma_types := types; ma_limit := 100; ma_countries := []; ma_timeout := 8 |}.
Definition top_defaults (types : list Proto) : TopArgs :=
  {| ta_types := types; ta_limit := 100; ta_countries := []; ta_timeout := 8; ta_refresh := 2; ta_state := None |}.

Record GrabArgs := {
  ga_limit : nat; ga_countries : list str; ga_format : Format; ga_output_format : option str; ga_outfile : option str
}.
Definition grab_query (a : GrabArgs) : GrabQuery :=
  {| gq_countries := non_empty (ga_countries a); gq_limit := if (0 <? ga_limit a)%nat then Some (ga_limit a) else None |}.

(** The backend of [--state], with every store feature built. *)
Inductive Backend := BRedis | BSqlite | BMemory.
Definition select_store (spec : str) : Backend :=
  if starts_with (lit "redis://") spec || starts_with (lit "rediss://") spec then BRedis else BSqlite.
Definition recheck_store (state : option str) : Backend :=
  match state with Some spec => select_store spec | None => BMemory end.

Section serve.
Context `{UnicodeCase}.
Definition serve_pool_config (a : ServeArgs) : PoolConfig :=
  let d := PoolConfig_default in
  {| max_tries := sa_max_tries a; max_error_rate := sa_max_error_rate a; max_resp_time := sa_max_resp_time a;
     min_req := min_req d;
     countries := (fun cs => list_to_set (map to_uppercase cs)) <$> non_empty (sa_countries a);
     strategy := to_server (sa_strategy a); sticky_header := sa_sticky_header a; max_sessions := max_sessions d;
     fail_timeout := sa_fail_timeout a * 10 ^ 9; prefer_connect := sa_prefer_connect a;
     http_allowed_codes := non_empty (sa_http_allowed_codes a); verify_on_lease := verify_on_lease d;
     verify_target := verify_target d; max_clients := sa_max_clients a |}.

(** The configuration of [mcp] and [top]: only the countries are asked for. *)
Definition filtered_config (cs : list str) : PoolConfig :=
  let d := PoolConfig_default in
  {| max_tries := max_tries d; max_error_rate := max_error_rate d; max_resp_time := max_resp_time d;
     min_req := min_req d; countries := (fun cs => list_to_set (map to_uppercase cs)) <$> non_empty cs;
     strategy := strategy d; sticky_header := sticky_header d; max_sessions := max_sessions d;
     fail_timeout := fail_timeout d; prefer_connect := prefer_connect d;
     http_allowed_codes := http_allowed_codes d; verify_on_lease := verify_on_lease d;
     verify_target := verify_target d; max_clients := max_clients d |}.
Definition mcp_pool_config (a : McpArgs) : PoolConfig := filtered_config (ma_countries a).
Definition top_pool_config (a : TopArgs) : PoolConfig := filtered_config (ta_countries a).

Definition union_dedup (primary secondary : list Proxy) : list Proxy :=
  let seen : gset (IpAddr * Z) := list_to_set (map p_key primary) in
  primary ++ List.filter (fun p => negb (bool_decide (p_key p ∈ seen))) secondary.

(** The pool [serve] fills: from the file of [--load], or from the stored history followed by what
    [find] emits (when the importer has taken all of it). *)
Definition serve_pool (a : ServeArgs) (history : list Proxy) (file : str -> list Proxy) (found : list Proxy) : Pool :=
  match sa_load a with
  | Some path => from_proxies (union_dedup history (file path)) (serve_pool_config a)
  | None => fold_left (fun pool p => import p pool) (history ++ found) (spawned (serve_pool_config a))
  end.
(** What [--recheck] and [--watch] start. *)
Definition serve_recheck (a : ServeArgs) : option (Backend * FindQuery * RecheckConfig) :=
  if sa_recheck a then
    Some (recheck_store (sa_state a), serve_query a,
      {| min_interval := sa_recheck_min a * 10 ^ 9; max_interval := sa_recheck_max a * 10 ^ 9;
         rate_per_sec := sa_recheck_rate a; decay_halflife := sa_decay_halflife a * 10 ^ 9 |})
  else None.
Definition serve_watch (a : ServeArgs) : option str := if sa_watch a then sa_load a else None.
End serve.

(** Every command line's defaults are the library's: with [--types] alone, [find] and [check] ask for
    the default query, [serve] for the default pool and, with [--recheck], the default cadence. *)
Lemma defaults_agree `{UnicodeCase} types load :
  let d := FindQuery_default in
  find_query (find_defaults types) = check_query (check_defaults types load) /\
  find_query (find_defaults types) =
    {| fq_types := types_from types []; fq_countries := fq_countries d; fq_limit := fq_limit d; fq_judges := fq_judges d;
       fq_dnsbl := fq_dnsbl d; fq_timeout := fq_timeout d; fq_max_conn := fq_max_conn d; fq_retry := fq_retry d;
       fq_post := fq_post d; fq_strict := fq_strict d; fq_liveness_url := fq_liveness_url d;
       fq_relaxed_validity := fq_relaxed_validity d; fq_require_cookie := fq_require_cookie d;
       fq_require_referer := fq_require_referer d; fq_require_connect25 := fq_require_connect25 d;
       fq_trust_check := fq_trust_check d; fq_require_trusted := fq_require_trusted d |} /\
  serve_pool_config (serve_defaults types load) = PoolConfig_default /\
  serve_query (serve_defaults types load) = mcp_query (mcp_defaults types) /\
  mcp_query (mcp_defaults types) = top_query (top_defaults types) /\
  mcp_pool_config (mcp_defaults types) = PoolConfig_default /\
  fq_limit (mcp_query (mcp_defaults types)) = Some 100%nat.
Proof. split_and!; reflexivity. Qed.

(** ** Text without commas, line ends or braces *)
Definition clean_char (c : ascii) : bool :=
  negb (bool_decide (c ∈ [","%char; LF; CR; "{"%char; "}"%char])).
Definition clean (s : str) : Prop := Forall (fun c => clean_char c = true) s.
Lemma clean_app s t : clean s -> clean t -> clean (s ++ t).
Proof. apply Forall_app_2. Qed.
Lemma clean_not_in s c : clean s -> clean_char c = false -> c ∉ s.
Proof. intros Hs Hc Hin. unfold clean in Hs. rewrite Forall_forall in Hs. rewrite (Hs _ Hin) in Hc. done. Qed.
Lemma clean_check s : forallb clean_char s = true -> clean s.
Proof. intros H. apply Forall_forall. intros c Hc. rewrite forallb_elem in H. by apply H. Qed.

Lemma clean_join sep l : clean sep -> Forall clean l -> clean (join sep l).
Proof. apply Forall_join. Qed.
Lemma digit_char_clean d : 0 <= d < 16 -> clean_char (digit_char d) = true.
Proof.
  intros Hd. assert (forallb (fun d => clean_char (digit_char d)) (seqZ 0 16) = true) as H by (vm_compute; reflexivity).
  rewrite forallb_elem in H. apply H, elem_of_seqZ. lia.
Qed.
Lemma show_radix_clean radix z : 0 < radix <= 16 -> clean (show_radix radix z).
Proof. intros Hr. apply show_fuel_Forall; [lia| |constructor]. intros d Hd. apply digit_char_clean. lia. Qed.
Lemma ip_show_clean ip : clean (ip_show ip).
Proof.
  assert (forall a, clean (v4_show a)) as H4.
  { intros a. apply clean_join; [by apply clean_check|]. apply Forall_map, Forall_true. intros o. by apply show_radix_clean. }
  destruct ip as [a|a]; simpl; [apply H4|]. unfold v6_show.
  assert (forall l, clean (join (lit ":") (map show_hex l))) as Hx.
  { intros l. apply clean_join; [by apply clean_check|]. apply Forall_map, Forall_true. intros o. by apply show_radix_clean. }
  destruct (_ =? _); [apply clean_app; [by apply clean_check|apply H4]|].
  destruct (longest_zero_run _) as [i n]. destruct (1 <? n)%nat; [|apply Hx].
  apply clean_app; [apply Hx|]. apply clean_app; [by apply clean_check|apply Hx].
Qed.
Lemma show_uint_clean z : clean (show_uint z).
Proof. by apply show_radix_clean. Qed.
Lemma proto_list_clean p : clean (proto_list p).
Proof.
  apply clean_join; [by apply clean_check|]. apply Forall_map, Forall_true. intros [[] l]; by apply clean_check.
Qed.
Lemma anon_str_clean p : clean (anon_str p).
Proof. unfold anon_str. destruct (p_types p !! Http) as [[[]|]|]; by apply clean_check. Qed.
Lemma scheme_str_clean p : clean (scheme_str p).
Proof. unfold scheme_str. repeat case_match; by apply clean_check. Qed.
Lemma addr_clean p : clean (addr p).
Proof.
  unfold addr. destruct (p_host p) as [a|a].
  - apply clean_app; [exact (ip_show_clean (V4 a))|]. apply clean_app; [by apply clean_check|apply show_uint_clean].
  - apply clean_app; [by apply clean_check|]. apply clean_app; [exact (ip_show_clean (V6 a))|].
    apply clean_app; [by apply clean_check|apply show_uint_clean].
Qed.
Lemma asn_str_clean p : clean (asn_str p).
Proof. unfold asn_str. destruct (p_asn p); [apply show_uint_clean|constructor]. Qed.

Lemma not_elem_of_join c sep l : c ∉ sep -> Forall (fun s => c ∉ s) l -> c ∉ join sep l.
Proof.
  intros Hs Hl Hin. assert (Forall (fun d => d <> c) (join sep l)) as H; [|rewrite Forall_forall in H; by apply (H c)].
  apply Forall_join; [|eapply Forall_impl; [exact Hl|]; intros s Hn]; apply Forall_forall; by intros d Hd ->.
Qed.
Lemma split_join c l : Forall (fun s => c ∉ s) l -> l <> [] -> split_char c (join [c] l) = l.
Proof.
  intros Hl Hne. destruct Hl as [|x l Hx Hl]; [done|]. rewrite join_cons. clear Hne. revert x Hx.
  induction Hl as [|y l Hy _ IH]; intros x Hx; simpl; [by rewrite app_nil_r, split_char_none|].
  rewrite split_char_app by done. f_equal. by apply IH.
Qed.

(** ** What is written *)
Section written.
Variables (f64_show : f64 -> str) (json_text : json -> str).

Lemma em_items_lines e ps line : (forall p, em_item f64_show json_text e p = (line p ++ [LF], e)) ->
  em_items f64_show json_text e ps = text_of (map line ps).
Proof. intros He. induction ps as [|p ps IH]; [done|]. cbn [em_items]. rewrite He, IH. done. Qed.
Lemma saved_items ps : concat (map (fun p => write_ndjson json_text [p]) ps) = write_ndjson json_text ps.
Proof. unfold write_ndjson. f_equal. apply map_ext. intros p. cbn. by rewrite app_nil_r. Qed.
Lemma em_items_array ps s : 
  em_items f64_show json_text {| em_format := FJsonArray; em_template := None; em_started := s |} ps =
  match ps with [] => [] | _ => (if s then lit "," else []) ++ join (lit ",") (map (fun p => json_text (serialize p)) ps) end.
Proof.
  revert s. induction ps as [|p ps IH]; intros s; [done|]. cbn [em_items em_item em_format em_template em_started].
  rewrite IH. cbn [map]. rewrite join_cons, <- app_assoc. f_equal. f_equal.
  destruct ps as [|q ps]; [done|]. cbn [map concat]. by rewrite join_cons, <- app_assoc.
Qed.

(** C34: what [--format] writes can be read back. JSON lines, and the file of [--save] whatever the
    format, are what [read_ndjson] reads, to the same proxies' persistent parts; the array form is one
    bracketed list of the same texts with a comma between any two; of the CSV form, one line a proxy
    under the header, splitting a row at its commas gives back the seven fields, the country code
    and the numbers as printed having no comma, line end or brace; the plain forms and a template are one line a proxy. *)
Theorem written_readable : forall json_parse reread ps tmpl,
  Forall (text_ok json_text json_parse reread) ps -> Forall savable ps ->
  (forall x, clean (f64_show x)) -> Forall (fun p => clean (country_str p)) ps ->
  let out f := (write_stream f64_show json_text f None false ps).1 in
  read_ndjson json_parse (out FJson) = Ok (map persistent ps) /\
  (forall f t, exists saved, (write_stream f64_show json_text f t true ps).2 = Some saved /\
     read_ndjson json_parse saved = Ok (map persistent ps)) /\
  out FJsonArray = lit "[" ++ join (lit ",") (map (fun p => json_text (serialize p)) ps) ++ lit "]" ++ [LF] /\
  lines (out FCsv) = csv_header :: map (csv_row f64_show) ps /\
  Forall (fun p => split_char "," (csv_row f64_show p) = csv_fields f64_show p) ps /\
  lines (out FDefault) = map addr ps /\ lines (out FUrl) = map (fun p => scheme_str p ++ lit "://" ++ addr p) ps /\
  (forall f, (write_stream f64_show json_text f (Some tmpl) false ps).1 =
     text_of (map (render_template f64_show tmpl) ps)).
Proof.
  intros json_parse reread ps tmpl Ht Hs Hf Hc out.
  assert (forall s, clean s -> plain_line s) as Hp by (intros s Hcl; split; by apply (clean_not_in _ _ Hcl)).
  assert (Forall (fun p => Forall clean (csv_fields f64_show p)) ps) as Hfields.
  { eapply Forall_impl; [exact Hc|]. intros p Hcp. unfold csv_fields.
    repeat apply Forall_cons_2; auto using ip_show_clean, show_uint_clean, proto_list_clean, anon_str_clean. }
  assert (forall l line, (forall p : Proxy, plain_line (line p)) -> Forall plain_line (map line l)) as Hmap
    by (intros l line Hl; by apply Forall_map, Forall_true).
  unfold out, write_stream, new_emitter, em_prefix, em_suffix. cbn [fst snd em_template em_format]. split_and!.
  - rewrite (em_items_lines _ _ (fun p => json_text (serialize p))) by done. rewrite app_nil_r. cbn [app].
    rewrite <- write_ndjson_text. by apply (read_written json_text json_parse reread).
  - intros f t. eexists. split; [reflexivity|]. rewrite saved_items. by apply (read_written json_text json_parse reread).
  - rewrite em_items_array. by destruct ps.
  - rewrite (em_items_lines _ _ (csv_row f64_show)), app_nil_r by done.
    change ((csv_header ++ [LF]) ++ text_of (map (csv_row f64_show) ps)) with (text_of (csv_header :: map (csv_row f64_show) ps)).
    apply lines_text_of, Forall_cons. split; [split; apply (bool_decide_unpack _); vm_compute; exact I|].
    apply Forall_map. eapply Forall_impl; [exact Hfields|]. intros p Hcl.
    split; (apply not_elem_of_join; [apply (bool_decide_unpack _); vm_compute; exact I|]); 
      (eapply Forall_impl; [exact Hcl|]); intros s Hs'; by apply (clean_not_in _ _ Hs').
  - eapply Forall_impl; [exact Hfields|]. intros p Hcl. apply split_join; [|done].
    eapply Forall_impl; [exact Hcl|]. intros s Hs'. by apply (clean_not_in _ _ Hs').
  - rewrite (em_items_lines _ _ addr), app_nil_r by done. apply lines_text_of, Hmap. auto using addr_clean.
  - rewrite (em_items_lines _ _ (fun p => scheme_str p ++ lit "://" ++ addr p)), app_nil_r.
    + apply lines_text_of, Hmap. intros p. apply Hp. apply clean_app; [apply scheme_str_clean|]. apply clean_app; [by apply clean_check|apply addr_clean].
    + intros p. cbn. by rewrite <- !app_assoc.
  - intros f. rewrite (em_items_lines _ _ (render_template f64_show tmpl)) by done. by rewrite app_nil_r.
Qed.
End written.

(** ** Output at work *)
Definition shown (x : f64) : str := lit "0".
Lemma written_readable_witness :
  read_ndjson sample_parse (write_stream shown sample_text FJson None false [sample]).1 = Ok [persistent sample] /\
  lines (write_stream shown sample_text FCsv None false [sample]).1 =
    [csv_header; lit "8.8.8.8,8080,HTTP|SOCKS5,High,US,0,0"] /\
  (write_stream shown sample_text FJsonArray None false [sample; sample]).1 = lit "[{8.8.8.8},{8.8.8.8}]" ++ [LF].
Proof.
  destruct sample_savable as [Ht Hs].
  destruct (written_readable shown sample_text sample_parse (fun x => x) [sample] []
    (Forall_cons_2 _ _ _ Ht (Forall_nil_2 _)) (Forall_cons_2 _ _ _ Hs (Forall_nil_2 _))
    (fun x => clean_check (shown x) eq_refl)
    (Forall_cons_2 (fun p => clean (country_str p)) _ _ (clean_check (country_str sample) eq_refl) (Forall_nil_2 _))) as (H1 & _ & _ & H3 & _).
  split; [exact H1|]. split; [|vm_compute; reflexivity].
  rewrite H3. vm_compute. reflexivity.
Defined.

(** ** Templates *)
(** A template as its pieces: text without braces, and a name in double braces. *)
Inductive Piece := PText (s : str) | PName (name : str).
Definition braced (name : str) : str := lit "{{" ++ name ++ lit "}}".
Definition braceless (s : str) : Prop := "{"%char ∉ s /\ "}"%char ∉ s.
Definition token_name (t : Token) : str :=
  match t with
  | TkProxy => lit "proxy" | TkHost => lit "host" | TkPort => lit "port" | TkScheme => lit "scheme"
  | TkProtocols => lit "protocols" | TkAnon => lit "anon" | TkCountry => lit "country" | TkAsn => lit "asn"
  | TkAsnOrg => lit "asn_org" | TkDuration => lit "duration" | TkErrorRate => lit "error_rate"
  end.
Definition piece_text (p : Piece) : str := match p with PText s => s | PName n => braced n end.
Definition piece_ok (p : Piece) : Prop := match p with PText s | PName s => braceless s end.
Definition pieces_text (l : list Piece) : str := concat (map piece_text l).
(** Replacing one token, and all of them at once. *)
Definition subst_piece (t : Token) (v : str) (p : Piece) : Piece :=
  match p with PName n => if decide (n = token_name t) then PText v else p | _ => p end.
Definition piece_value (f : Token -> str) (p : Piece) : str :=
  match p with
  | PText s => s
  | PName n => match List.find (fun t => bool_decide (n = token_name t)) TOKENS with Some t => f t | None => braced n end
  end.

Lemma token_text_braced t : token_text t = braced (token_name t).
Proof. by destruct t. Qed.
Lemma token_name_ok t : braceless (token_name t).
Proof. destruct t; split; apply (bool_decide_unpack _); vm_compute; exact I. Qed.
Lemma token_name_inj t t' : token_name t = token_name t' -> t = t'.
Proof. by destruct t, t'. Qed.
Lemma starts_with_cons c p d s : starts_with (c :: p) (d :: s) = true -> c = d /\ starts_with p s = true.
Proof.
  intros [r [= -> ->]]%starts_with_true. split; [done|]. apply starts_with_app.
Qed.
Lemma replace_skip pat to s r : replace_from pat to (length s) (s ++ r) = replace_from pat to 0 r.
Proof. induction s as [|c s IH]; [by destruct r|]. exact IH. Qed.
(** No match starts within a text that lacks the pattern's first character. *)
Lemma replace_free c pat to s r : c ∉ s -> replace_from (c :: pat) to 0 (s ++ r) = s ++ replace_from (c :: pat) to 0 r.
Proof.
  induction s as [|d s IH]; intros Hn; [done|]. apply not_elem_of_cons in Hn as [Hd Hn].
  cbn [app replace_from]. destruct (starts_with (c :: pat) (d :: s ++ r)) eqn:E; [|by rewrite IH].
  apply starts_with_cons in E as [-> _]. done.
Qed.
Lemma braceless_split n n' r r' c c' : braceless n -> braceless n' -> c = "}"%char -> c' = "}"%char ->
  n ++ c :: r = n' ++ c' :: r' -> n = n'.
Proof.
  intros [_ H1] [_ H2] -> ->. revert n' H2. induction n as [|a n IH]; intros [|b n'] H2; simpl; intros [=]; subst; [done| | |].
  - exfalso. apply H2. left.
  - exfalso. apply H1. left.
  - f_equal. apply IH; [|..|done]; [intros Hi; apply H1|intros Hi; apply H2]; by right.
Qed.
Lemma replace_hit c p to r : replace_from (c :: p) to 0 ((c :: p) ++ r) = to ++ replace_from (c :: p) to 0 r.
Proof.
  cbn [app replace_from]. change (c :: p ++ r) with ((c :: p) ++ r). rewrite starts_with_app.
  replace (length (c :: p) - 1)%nat with (length p) by (cbn; lia). by rewrite replace_skip.
Qed.
Lemma replace_miss c p to d s : starts_with (c :: p) (d :: s) = false ->
  replace_from (c :: p) to 0 (d :: s) = d :: replace_from (c :: p) to 0 s.
Proof. intros E. cbn [replace_from]. by rewrite E. Qed.
Lemma braced_starts n m r : braceless n -> braceless m -> m <> n -> starts_with (braced n) (braced m ++ r) = false.
Proof.
  intros Hn Hm Hd. apply not_true_is_false. intros [q E]%starts_with_true. apply Hd. unfold braced in E.
  rewrite <- !app_assoc in E. cbn in E. injection E as E. by apply (braceless_split _ _ _ _ _ _ Hm Hn eq_refl eq_refl E).
Qed.
Lemma replace_name to n m r : braceless n -> braceless m ->
  replace_from (braced n) to 0 (braced m ++ r) =
  (if decide (m = n) then to else braced m) ++ replace_from (braced n) to 0 r.
Proof.
  intros Hn Hm. case_decide as Hd; [subst; exact (replace_hit "{" ("{"%char :: n ++ lit "}}") to r)|].
  pose proof (braced_starts n m r Hn Hm Hd) as Hs. destruct Hm as [Ho _].
  assert ("{"%char ∉ m ++ lit "}}") as Hf.
  { apply not_elem_of_app. split; [done|]. apply (bool_decide_unpack _). vm_compute. exact I. }
  unfold braced in *. rewrite <- !app_assoc in *.
  change (lit "{{" ++ m ++ lit "}}" ++ r) with ("{"%char :: "{"%char :: m ++ lit "}}" ++ r) in *.
  change (lit "{{" ++ n ++ lit "}}") with ("{"%char :: "{"%char :: n ++ lit "}}") in *.
  rewrite replace_miss by exact Hs. rewrite replace_miss.
  - rewrite (app_assoc m), replace_free by done. by rewrite <- app_assoc.
  - apply not_true_is_false. intros [_ [q E]%starts_with_true]%starts_with_cons. apply Hf.
    rewrite app_assoc in E. destruct (m ++ lit "}}") as [|d l] eqn:Em; [by destruct m|].
    injection E as -> _. left.
Qed.
Lemma replace_pieces t v l : Forall piece_ok l ->
  replace (token_text t) v (pieces_text l) = pieces_text (map (subst_piece t v) l).
Proof.
  intros Hl. unfold replace, pieces_text. rewrite token_text_braced. induction Hl as [|[s|n] l Hp _ IH]; [done|..]; cbn [map concat].
  - rewrite <- IH. apply (replace_free "{"). apply Hp.
  - cbn [piece_text subst_piece]. rewrite replace_name, IH by auto using token_name_ok. f_equal. by case_decide.
Qed.

Section templates.
Variable f64_show : f64 -> str.
Abbreviation subst_all p l := (fun x => fold_left (fun y t => subst_piece t (token_value f64_show p t) y) l x).

Lemma fold_replace p l pieces : (forall t, t ∈ l -> braceless (token_value f64_show p t)) -> Forall piece_ok pieces ->
  fold_left (fun s t => replace (token_text t) (token_value f64_show p t) s) l (pieces_text pieces) =
  pieces_text (map (subst_all p l) pieces).
Proof.
  revert pieces. induction l as [|t l IH]; intros pieces Hv Hl; cbn [fold_left]; [by rewrite map_id|].
  rewrite replace_pieces, IH; [by rewrite map_map|..|done].
  - intros t' Ht. apply Hv. by right.
  - apply Forall_map. eapply Forall_impl; [exact Hl|]. intros [s|n] Hp; simpl; [done|]. case_decide; [|done].
    apply Hv. left.
Qed.
Lemma subst_all_text p l s : subst_all p l (PText s) = PText s.
Proof. by induction l. Qed.
Lemma subst_all_value p l x :
  piece_text (subst_all p l x) =
  match x with PText s => s | PName n =>
    match List.find (fun t => bool_decide (n = token_name t)) l with Some t => token_value f64_show p t | None => braced n end end.
Proof.
  destruct x as [s|n]; [by rewrite subst_all_text|]. induction l as [|t l IH]; [done|]. cbn [fold_left subst_piece List.find].
  case_decide as Hn; [by rewrite bool_decide_true, subst_all_text by done|]. by rewrite bool_decide_false.
Qed.

Lemma token_value_braceless p : braceless (country_str p) -> braceless (asn_org_str p) ->
  (forall x, braceless (f64_show x)) -> forall t, braceless (token_value f64_show p t).
Proof.
  intros Hc Ho Hx t. assert (forall s, clean s -> braceless s) as Hs by (intros s Hcl; split; by apply (clean_not_in _ _ Hcl)).
  destruct t; simpl; auto using addr_clean, ip_show_clean, show_uint_clean, scheme_str_clean, proto_list_clean,
    anon_str_clean, asn_str_clean.
Qed.

(** The eleven replacements in turn are one simultaneous substitution. In a template made of text
    without braces and of names in double braces, every token stands for its value and every other
    name is left as it is, as long as the geolocation's texts have no braces. Otherwise the order
    shows: an ASN owner named as a later token is replaced again by that token's value. *)
Theorem render_pieces : forall p,
  (forall x, braceless (f64_show x)) ->
  (forall pieces, braceless (country_str p) -> braceless (asn_org_str p) -> Forall piece_ok pieces ->
     render_template f64_show (pieces_text pieces) p = concat (map (piece_value (token_value f64_show p)) pieces)) /\
  (asn_org_str p = lit "{{duration}}" -> render_template f64_show (lit "{{asn_org}}") p = f64_show (avg_resp_time p)).
Proof.
  intros p Hx. split.
  - intros pieces Hc Ho Hl. unfold render_template. rewrite fold_replace by auto using token_value_braceless.
    unfold pieces_text. rewrite map_map. f_equal. apply map_ext. intros x. by rewrite subst_all_value.
  - intros Ho. unfold render_template. change TOKENS with ([TkProxy; TkHost; TkPort; TkScheme; TkProtocols; TkAnon;
      TkCountry; TkAsn] ++ [TkAsnOrg] ++ [TkDuration; TkErrorRate]). rewrite !fold_left_app.
    assert (fold_left (fun s t => replace (token_text t) (token_value f64_show p t) s)
      [TkProxy; TkHost; TkPort; TkScheme; TkProtocols; TkAnon; TkCountry; TkAsn] (lit "{{asn_org}}") = lit "{{asn_org}}") as ->.
    { reflexivity. }
    cbn [fold_left token_value]. rewrite Ho.
    change (replace (token_text TkAsnOrg) (lit "{{duration}}") (lit "{{asn_org}}")) with (pieces_text [PName (lit "duration")]).
    rewrite replace_pieces by (repeat constructor; apply (bool_decide_unpack _); vm_compute; exact I).
    change (map (subst_piece TkDuration (f64_show (avg_resp_time p))) [PName (lit "duration")]) with [PText (f64_show (avg_resp_time p))].
    rewrite replace_pieces by (repeat constructor; apply Hx). cbn. apply app_nil_r.
Qed.
End templates.

Lemma render_pieces_witness :
  render_template shown (lit "{{proxy}} {{nope}} {{asn_org}}") sample = lit "8.8.8.8:8080 {{nope}} Google LLC" /\
  render_template shown (lit "{{asn_org}}")
    (set_geo None (Some {| asn_number := 1; asn_org := Some (lit "{{duration}}") |}) sample) = lit "0".
Proof.
  assert (forall s, bool_decide ("{"%char ∉ s) && bool_decide ("}"%char ∉ s) = true -> braceless s) as Hb.
  { intros s [H1%bool_decide_eq_true H2%bool_decide_eq_true]%andb_true_iff. by split. }
  split.
  - refine (eq_trans _ (eq_trans (proj1 (render_pieces shown sample (fun x => Hb (shown x) eq_refl))
      [PName (lit "proxy"); PText (lit " "); PName (lit "nope"); PText (lit " "); PName (lit "asn_org")]
      (Hb (country_str sample) eq_refl) (Hb (asn_org_str sample) eq_refl) _) _)).
    + vm_compute. reflexivity.
    + repeat apply Forall_cons_2; try apply Forall_nil_2; by apply Hb.
    + vm_compute. reflexivity.
  - set (p := set_geo _ _ _). exact (proj2 (render_pieces shown p (fun x => Hb (shown x) eq_refl)) eq_refl).
Defined.

(** ** The pool of [serve] *)
Section served.
Context `{Regexes} `{UC : UnicodeCase} `{WebLibs}.
Abbreviation keep a := (fun p => country_ok p (countries (serve_pool_config a))).

Lemma imported a ps pool : config pool = serve_pool_config a ->
  proxies (fold_left (fun pool p => import p pool) ps pool) = proxies pool ++ List.filter (keep a) ps.
Proof.
  revert pool. induction ps as [|p ps IH]; intros pool Hc; cbn [fold_left List.filter]; [by rewrite app_nil_r|].
  unfold import at 2. rewrite Hc. destruct (country_ok p _).
  - rewrite IH by done. unfold proxies, proxies_of, push. cbn. rewrite map_app. by rewrite <- app_assoc.
  - by apply IH.
Qed.
Lemma config_imported ps pool : config (fold_left (fun pool p => import p pool) ps pool) = config pool.
Proof.
  revert pool. induction ps as [|p ps IH]; intros pool; cbn [fold_left]; [done|]. rewrite IH. unfold import. by case_match.
Qed.
Lemma proxies_from_proxies ps cfg : proxies (from_proxies ps cfg) = List.filter (fun p => country_ok p (countries cfg)) ps.
Proof. unfold proxies, proxies_of, from_proxies. cbn. rewrite map_map. apply map_id. Qed.
Lemma proxies_keys p : map entry_key (state p) = map p_key (proxies p).
Proof. unfold proxies, proxies_of. by rewrite map_map. Qed.
Lemma NoDup_map_filter {A B} (f : A -> B) (P : A -> bool) l : NoDup (map f l) -> NoDup (map f (List.filter P l)).
Proof.
  induction l as [|x l IH]; [done|]. cbn [map List.filter]. intros [Hx Hl]%NoDup_cons.
  destruct (P x); [|by apply IH]. cbn [map]. apply NoDup_cons. split; [|by apply IH].
  intros [y [E Hy]]%list_elem_of_fmap. apply Hx, list_elem_of_fmap. exists y. split; [done|].
  apply list_elem_of_In in Hy. apply filter_In in Hy as [Hy _]. by apply list_elem_of_In.
Qed.
Lemma union_dedup_distinct primary secondary : NoDup (map p_key primary) -> NoDup (map p_key secondary) ->
  NoDup (map p_key (union_dedup primary secondary)).
Proof.
  intros H1 H2. unfold union_dedup. rewrite map_app. apply NoDup_app. split; [done|]. split; [|by apply NoDup_map_filter].
  intros k Hk [p [-> Hp]]%list_elem_of_fmap. apply list_elem_of_In, filter_In in Hp as [_ Hp].
  rewrite bool_decide_true in Hp; [done|]. by apply elem_of_list_to_set.
Qed.
Lemma union_dedup_elem primary secondary x :
  x ∈ union_dedup primary secondary <-> x ∈ primary \/ (x ∈ secondary /\ p_key x ∉ map p_key primary).
Proof.
  unfold union_dedup. rewrite elem_of_app, (list_elem_of_In (List.filter _ _) x), filter_In, <- list_elem_of_In.
  by rewrite negb_true_iff, bool_decide_eq_false, elem_of_list_to_set.
Qed.
Lemma kept_elem a ps p : p ∈ List.filter (keep a) ps <-> p ∈ ps /\ keep a p = true.
Proof. by rewrite !list_elem_of_In, filter_In. Qed.

(** The pool [serve] starts from. With [--load] it holds the stored history and then the file's
    proxies at the addresses the history has not, those of the wanted countries only, so that no
    address comes twice when neither source repeats one. Without it the pool takes the history and
    then what [find] emits, and nothing compares the two: a proxy found again is pooled twice. The
    pool obeys the flags' configuration. [--recheck] beside [--load] has no types to check, and its
    checker cannot be built. *)
Theorem serve_pool_sound : forall a history file found, serve_args_ok a = true ->
  let p := serve_pool a history file found in
  config p = serve_pool_config a /\
  match sa_load a with
  | Some path =>
      proxies p = List.filter (keep a) (union_dedup history (file path)) /\
      (forall x, x ∈ proxies p <-> keep a x = true /\ (x ∈ history \/ (x ∈ file path /\ p_key x ∉ map p_key history))) /\
      (NoDup (map p_key history) -> NoDup (map p_key (file path)) -> keys_distinct p) /\
      (forall store q cfg lookup_ip default_judges marker resolver, serve_recheck a = Some (store, q, cfg) ->
         is_ok (build_checker lookup_ip default_judges marker resolver q) = false)
  | None =>
      proxies p = List.filter (keep a) (history ++ found) /\
      (forall x y, x ∈ history -> y ∈ found -> p_key x = p_key y -> keep a x = true -> keep a y = true ->
         ~ keys_distinct p)
  end.
Proof.
  intros a history file found Hok p. unfold p, serve_pool. unfold serve_args_ok in Hok.
  destruct (sa_load a) as [path|].
  - split; [done|]. set (q := from_proxies _ _).
    assert (proxies q = List.filter (keep a) (union_dedup history (file path))) as Hq by apply proxies_from_proxies.
    split; [done|]. split_and!.
    + intros x. rewrite Hq, kept_elem, union_dedup_elem. tauto.
    + intros H1 H2. unfold keys_distinct. rewrite proxies_keys, Hq. by apply NoDup_map_filter, union_dedup_distinct.
    + intros store query cfg li dj mk resolver. unfold serve_recheck. destruct (sa_recheck a); [|done]. intros [= <- <- <-].
      assert (sa_types a = []) as Ht by (apply (bool_decide_eq_true _); by destruct (bool_decide (sa_types a = []))).
      by apply untyped_refused.
  - split; [exact (config_imported (history ++ found) (spawned (serve_pool_config a)))|].
    pose proof (imported a (history ++ found) (spawned (serve_pool_config a)) eq_refl) as Hq. split; [exact Hq|].
    intros x y Hx Hy Hk Kx Ky. unfold keys_distinct. rewrite proxies_keys, Hq, app_nil_l, List.filter_app, map_app.
    intros (_ & Hd & _)%NoDup_app.
    apply (Hd (p_key x)); [|rewrite Hk]; apply list_elem_of_fmap_2, kept_elem; by split.
Qed.
End served.

Section serve_demo.
#[local] Existing Instance ascii_case.
Definition demo_args (types : list Proto) (load : option str) : ServeArgs :=
  {| sa_host := lit "127.0.0.1:8888"; sa_types := types; sa_load := load; sa_lvl := []; sa_dnsbl := []; sa_post := false;
     sa_strict := false; sa_strategy := SsBest; sa_sticky_header := None; sa_limit := 100; sa_countries := [lit "us"];
     sa_timeout := 8; sa_max_error_rate := f_of_Z 1; sa_max_resp_time := f_of_Z 8; sa_fail_timeout := 30;
     sa_prefer_connect := false; sa_http_allowed_codes := []; sa_min_queue := 0; sa_backlog := 1024; sa_max_clients := 1024;
     sa_auth := None; sa_max_tries := 3; sa_metrics := None; sa_state := None; sa_recheck := true;
     sa_recheck_rate := f_of_Z 5; sa_recheck_min := 60; sa_recheck_max := 3600; sa_decay_halflife := 21600; sa_watch := false |}.
Lemma serve_pool_sound_witness :
  let file (_ : str) := [sample; new (V4 1) 80 ∅] in
  proxies (serve_pool (demo_args [] (Some (lit "saved"))) [] file []) = [sample] /\
  length (proxies (serve_pool (demo_args [Http] None) [sample] file [sample])) = 2%nat /\
  ~ keys_distinct (serve_pool (demo_args [Http] None) [sample] file [sample]).
Proof.
  intros file.
  pose proof (serve_pool_sound (H := sample_regexes) (H0 := demo_web) (demo_args [] (Some (lit "saved"))) [] file [] eq_refl)
    as (_ & Hp & _).
  pose proof (serve_pool_sound (H := sample_regexes) (H0 := demo_web) (demo_args [Http] None) [sample] file [sample] eq_refl)
    as (_ & _ & Hd).
  split; [rewrite Hp; vm_compute; reflexivity|]. split; [vm_compute; reflexivity|].
  apply (Hd sample sample); [left|left|reflexivity|vm_compute; reflexivity|vm_compute; reflexivity].
Defined.
End serve_demo.
