(* ===== verification/Regex.v ===== *)
(** * The regular expressions of the source (src/parse.rs, src/utils.rs)

    The patterns [IPV4], [PORT_RE] and [IPV6_CANDIDATE_RE] as syntax trees, a matcher with the
    documented semantics of the [regex] crate (the leftmost match, and of those the one a backtracking
    search finds first), and what the scanners of Provider.v find with it. A text is bytes, [\d] an ASCII
    digit: on a text that has other decimal digits the crate may match more. *)
From S2P Require Import Prelude F64 Text Types Addr Utils Proxy ProxyJson Http Negotiator Provider Judge Checker Ndjson Cli.
Open Scope Z_scope.

(** ** Syntax, language and matcher *)
Inductive re :=
| REps
| RSet (p : ascii -> bool)
| RCat (r s : re)
| RAlt (r s : re)
| RStar (r : re).
(** [r?], greedy. *)
Definition ROpt (r : re) : re := RAlt r REps.

Inductive matches : re -> str -> Prop :=
| m_eps : matches REps []
| m_set p c : p c = true -> matches (RSet p) [c]
| m_cat r s u v : matches r u -> matches s v -> matches (RCat r s) (u ++ v)
| m_left r s u : matches r u -> matches (RAlt r s) u
| m_right r s u : matches s u -> matches (RAlt r s) u
| m_stop r : matches (RStar r) []
| m_more r u v : matches r u -> matches (RStar r) v -> matches (RStar r) (u ++ v).

(** What may be left of the text after a match at its front, in the order of preference. *)
Fixpoint star (body : str -> list str) (fuel : nat) (s : str) : list str :=
  match fuel with
  | O => [s]
  | S fuel => concat (map (star body fuel) (List.filter (fun t => length t <? length s)%nat (body s))) ++ [s]
  end.
Fixpoint rests (r : re) (s : str) : list str :=
  match r with
  | REps => [s]
  | RSet p => match s with c :: s => if p c then [s] else [] | [] => [] end
  | RCat a b => concat (map (rests b) (rests a s))
  | RAlt a b => rests a s ++ rests b s
  | RStar a => star (rests a) (length s) s
  end.
(** [Regex::find_at]: the first position, from [i] on, where there is a match. *)
Fixpoint find_from (r : re) (i : nat) (s : str) : option (nat * nat) :=
  match rests r s with
  | t :: _ => Some (i, (i + (length s - length t))%nat)
  | [] => match s with [] => None | _ :: s => find_from r (S i) s end
  end.
Definition re_find_at (r : re) (text : str) (i : nat) : option (nat * nat) :=
  if (i <=? length text)%nat then find_from r i (drop i text) else None.

Fixpoint nullable (r : re) : bool :=
  match r with
  | REps | RStar _ => true
  | RSet _ => false
  | RCat a b => nullable a && nullable b
  | RAlt a b => nullable a || nullable b
  end.
(** No [c] can occur in a match; the pattern repeats nothing without bound. *)
Fixpoint excludes (c : ascii) (r : re) : bool :=
  match r with
  | REps => true
  | RSet p => negb (p c)
  | RCat a b | RAlt a b => excludes c a && excludes c b
  | RStar _ => false
  end.

Lemma nullable_matches r u : matches r u -> u = [] -> nullable r = true.
Proof.
  induction 1 as [| |r s u v _ IH1 _ IH2|r s u _ IH|r s u _ IH| |]; intros E; simpl in *; try done.
  - apply app_eq_nil in E as [-> ->]. by rewrite IH1, IH2.
  - by rewrite IH.
  - rewrite IH by done. apply orb_true_r.
Qed.
(** A repetition that matches something starts with something. *)
Lemma star_inv r u : matches (RStar r) u -> u <> [] -> exists v w, u = v ++ w /\ v <> [] /\ matches r v /\ matches (RStar r) w.
Proof.
  remember (RStar r) as q eqn:Eq. induction 1 as [| | | | | |r' v w Hv _ Hw IH]; simplify_eq; intros Hne; [done|].
  destruct (decide (v = [])) as [->|Hv']; [by apply IH|]. by exists v, w.
Qed.
Lemma elem_of_concat_map {A B} (f : A -> list B) l y : y ∈ concat (map f l) <-> exists x, x ∈ l /\ y ∈ f x.
Proof.
  rewrite !list_elem_of_In, <- flat_map_concat_map, in_flat_map. by setoid_rewrite list_elem_of_In.
Qed.
Lemma star_spec r body : (forall s t, t ∈ body s <-> exists u, s = u ++ t /\ matches r u) ->
  forall fuel s t, (length s <= fuel)%nat -> t ∈ star body fuel s <-> exists u, s = u ++ t /\ matches (RStar r) u.
Proof.
  intros Hbody. induction fuel as [|fuel IH]; intros s t Hl; cbn [star].
  - rewrite list_elem_of_singleton. split; [intros ->; exists []; split; [done|constructor]|].
    intros (u & -> & Hu). rewrite length_app in Hl. destruct u; [done|cbn in Hl; lia].
  - rewrite elem_of_app, elem_of_concat_map, list_elem_of_singleton.
    setoid_rewrite list_elem_of_In at 1. setoid_rewrite filter_In. setoid_rewrite <- list_elem_of_In. setoid_rewrite Nat.ltb_lt.
    split.
    + intros [(m & (Hm & Hlt) & Ht)| ->]; [|exists []; split; [done|constructor]].
      apply Hbody in Hm as (u & -> & Hu). apply IH in Ht as (v & -> & Hv); [|lia].
      exists (u ++ v). split; [by rewrite app_assoc|by constructor].
    + intros (u & -> & Hu). destruct (decide (u = [])) as [->|Hne]; [by right|left].
      destruct (star_inv _ _ Hu Hne) as (v & w & -> & Hv & Hm & Hw). exists (w ++ t).
      rewrite <- app_assoc in *. rewrite !length_app in *. destruct v as [|c v]; [done|]. cbn [length] in *.
      split; [split; [|lia]|]; [apply Hbody; by exists (c :: v)|]. apply IH; [rewrite length_app; lia|]. by exists w.
Qed.
(** The matcher finds exactly the words of the language. *)
Lemma rests_spec r s t : t ∈ rests r s <-> exists u, s = u ++ t /\ matches r u.
Proof.
  revert s t. induction r as [|p|a IHa b IHb|a IHa b IHb|a IHa]; intros s t; cbn [rests].
  - rewrite list_elem_of_singleton. split; [intros ->; exists []; split; [done|constructor]|].
    intros (u & -> & Hu). by inversion Hu.
  - destruct s as [|c s].
    { split; [by intros ?%elem_of_nil|]. intros (u & E & Hu). inversion Hu; subst. done. }
    destruct (p c) eqn:Hc.
    + rewrite list_elem_of_singleton. split; [intros ->; exists [c]; split; [done|by constructor]|].
      intros (u & E & Hu). inversion Hu; subst. by injection E.
    + split; [by intros ?%elem_of_nil|]. intros (u & E & Hu). inversion Hu; subst. injection E as <- <-. congruence.
  - rewrite elem_of_concat_map. setoid_rewrite IHa. setoid_rewrite IHb. split.
    + intros (m & (u & -> & Hu) & (v & -> & Hv)). exists (u ++ v). split; [by rewrite app_assoc|by constructor].
    + intros (u & -> & Hu). inversion Hu as [| |? ? v w Hv Hw| | | |]; subst. exists (w ++ t). rewrite <- app_assoc. split; [by exists v|by exists w].
  - rewrite elem_of_app, IHa, IHb. split.
    + intros [(u & -> & Hu)|(u & -> & Hu)]; exists u; (split; [done|]); [by apply m_left|by apply m_right].
    + intros (u & -> & Hu). inversion Hu; subst; [left|right]; by exists u.
  - by apply star_spec.
Qed.
(** Past a character that no match contains nothing is looked at. *)
Lemma rests_stop c r u t : excludes c r = true -> rests r (u ++ c :: t) = map (fun x => x ++ c :: t) (rests r u).
Proof.
  revert u. induction r as [|p|a IHa b IHb|a IHa b IHb|]; intros u He; cbn [rests excludes] in *; try done.
  - apply negb_true_iff in He. destruct u as [|d u]; cbn; [by rewrite He|]. by destruct (p d).
  - apply andb_prop in He as [Ha Hb]. rewrite IHa by done. induction (rests a u) as [|x l IHl]; [done|]. cbn.
    by rewrite map_app, IHb, IHl.
  - apply andb_prop in He as [Ha Hb]. by rewrite map_app, IHa, IHb.
Qed.

(** [find_at] is the leftmost match. *)
Lemma find_from_spec r s i :
  match find_from r i s with
  | Some (a, b) => exists v u t, s = v ++ u ++ t /\ a = (i + length v)%nat /\ b = (a + length u)%nat /\ matches r u /\
      head (rests r (u ++ t)) = Some t /\
      forall v' w, v = v' ++ w -> w <> [] -> rests r (w ++ u ++ t) = []
  | None => forall v u t, s = v ++ u ++ t -> ~ matches r u
  end.
Proof.
  assert (forall s t l i, rests r s = t :: l -> exists v u t', s = v ++ u ++ t' /\ i = (i + length v)%nat /\
    (i + (length s - length t))%nat = (i + length u)%nat /\ matches r u /\ head (rests r (u ++ t')) = Some t' /\
    forall v' w, v = v' ++ w -> w <> [] -> rests r (w ++ u ++ t') = []) as Hhere.
  { clear. intros s t l i Er. destruct (proj1 (rests_spec r s t) ltac:(rewrite Er; left)) as (u & E & Hu).
    exists [], u, t. split; [exact E|]. split; [cbn; lia|]. split; [rewrite E, length_app; lia|]. split; [done|].
    split; [by rewrite <- E, Er|]. intros v' w E' Hw. symmetry in E'. by apply app_eq_nil in E' as [_ ->]. }
  revert i. induction s as [|c s IH]; intros i; cbn [find_from]; (destruct (rests r _) as [|t l] eqn:Er; [|by eapply Hhere]).
  - intros v u t E Hu. symmetry in E. apply app_eq_nil in E as [-> E]. apply app_eq_nil in E as [-> ->].
    assert ([] ∈ rests r []) as H by (apply rests_spec; by exists []). rewrite Er in H. by apply elem_of_nil in H.
  - specialize (IH (S i)). destruct (find_from r (S i) s) as [[a b]|].
    + destruct IH as (v & u & t & -> & -> & -> & Hu & Hh & Hv). exists (c :: v), u, t. split_and!; try done; [cbn; lia|].
      intros v' w E Hw. destruct v' as [|d v']; [cbn in E; by subst w|]. injection E as <- E. by eapply Hv.
    + intros v u t E Hu. destruct v as [|d v]; [|injection E as <- E; by eapply IH].
      assert (t ∈ rests r (c :: s)) as H by (apply rests_spec; by exists u). rewrite Er in H. by apply elem_of_nil in H.
Qed.
Lemma re_find_range r text i a b : nullable r = false -> re_find_at r text i = Some (a, b) -> (i <= a < b)%nat /\ (b <= length text)%nat.
Proof.
  intros Hn. unfold re_find_at. destruct (Nat.leb_spec i (length text)) as [Hi|]; [|done]. intros E.
  pose proof (find_from_spec r (drop i text) i) as H. rewrite E in H. destruct H as (v & u & t & Es & -> & -> & Hu & _ & _).
  apply (f_equal length) in Es. rewrite length_drop, !length_app in Es.
  destruct u as [|c u]; [by rewrite (nullable_matches _ _ Hu eq_refl) in Hn|]. cbn in *. lia.
Qed.

(** ** The patterns *)
Definition one (c : ascii) : re := RSet (fun d => bool_decide (d = c)).
Definition digit : re := RSet is_digit.
(** [25[0-5]|2[0-4]\d|[01]?\d\d?]. *)
Definition octet : re :=
  RAlt (RCat (one "2") (RCat (one "5") (RSet (between 48 53))))
    (RAlt (RCat (one "2") (RCat (RSet (between 48 52)) digit))
       (RCat (ROpt (RSet (between 48 49))) (RCat digit (ROpt digit)))).
Definition dotted : re := RCat octet (one ".").
Definition IPV4 : re := RCat dotted (RCat dotted (RCat dotted octet)).
(** [\d{2,5}]. *)
Definition PORT_RE : re := RCat digit (RCat digit (ROpt (RCat digit (ROpt (RCat digit (ROpt digit)))))).
Definition zone_char (c : ascii) : bool :=
  between 65 90 c || between 97 122 c || between 48 57 c || bool_decide (c ∈ ["_"%char; "."%char; "-"%char]).
Definition IPV6_CANDIDATE_RE : re :=
  RCat (RSet hex_colon) (RCat (RStar (RSet v6_char))
    (ROpt (RCat (one "%") (RCat (RSet zone_char) (RStar (RSet zone_char)))))).
Definition ascii_regexes : Regexes.
Proof.
  refine {| ipv4_find_at := re_find_at IPV4; port_find_at := re_find_at PORT_RE; ipv6_find_at := re_find_at IPV6_CANDIDATE_RE |}.
  intros find s i a b [->|[->| ->]]; by apply re_find_range.
Defined.

Lemma matches_cat r s u : matches (RCat r s) u <-> exists v w, u = v ++ w /\ matches r v /\ matches s w.
Proof. split; [inversion 1; subst; eauto|]. intros (v & w & -> & ? & ?). by constructor. Qed.
Lemma matches_alt r s u : matches (RAlt r s) u <-> matches r u \/ matches s u.
Proof. split; [inversion 1; subst; eauto|]. intros [?|?]; [by apply m_left|by apply m_right]. Qed.
Lemma matches_set p u : matches (RSet p) u <-> exists c, u = [c] /\ p c = true.
Proof. split; [inversion 1; subst; eauto|]. intros (c & -> & ?). by constructor. Qed.
Lemma matches_eps u : matches REps u <-> u = [].
Proof. split; [by inversion 1|]. intros ->. constructor. Qed.
(** Takes apart what is matched. *)
Ltac re_inv :=
  repeat match goal with
    | H : matches (ROpt _) _ |- _ => unfold ROpt in H
    | H : matches (one _) _ |- _ => unfold one in H
    | H : matches digit _ |- _ => unfold digit in H
    | H : matches (RCat _ _) _ |- _ => apply matches_cat in H as (? & ? & -> & ? & ?)
    | H : matches (RAlt _ _) _ |- _ => apply matches_alt in H as [?|?]
    | H : matches (RSet _) _ |- _ => apply matches_set in H as (? & -> & ?)
    | H : matches REps _ |- _ => apply matches_eps in H as ->
    end.

(** *** An octet *)
Lemma digit_val_digit c : is_digit c = true -> digit_val 10 c = Some (byte c - 48).
Proof.
  intros Hc. unfold digit_val. rewrite Hc. unfold is_digit, between in Hc. bsimp. by rewrite (proj2 (Z.ltb_lt _ _)) by lia.
Qed.
Lemma between_digit lo hi c : 48 <= lo -> hi <= 57 -> between lo hi c = true -> is_digit c = true.
Proof. unfold is_digit, between. intros ? ? H. bsimp. apply andb_true_intro. split; apply Z.leb_le; lia. Qed.
Definition octet_text (u : str) (n : Z) : Prop :=
  Forall (fun c => is_digit c = true) u /\ (1 <= length u <= 3)%nat /\ digits_val 10 0 u = Some n /\ 0 <= n <= 255.
Lemma octet_matches u : matches octet u -> exists n, octet_text u n.
Proof.
  intros H. unfold octet in H. re_inv.
  all: repeat match goal with
    | H : bool_decide _ = true |- _ => apply bool_decide_eq_true in H as ->
    | H : between ?lo ?hi ?c = true |- _ => pose proof (between_digit lo hi c ltac:(lia) ltac:(lia) H); unfold between in H; bsimp
    end.
  all: eexists; unfold octet_text; cbn [app length digits_val]; rewrite ?digit_val_digit by done.
  all: split; [by repeat constructor|]; split; [lia|]; split; [reflexivity|].
  all: unfold is_digit, between in *; bsimp; try change (byte "2"%char) with 50 in *; try change (byte "5"%char) with 53 in *; lia.
Qed.
Lemma octet_parse_u8 u n : octet_text u n -> parse_u8 u = Some n.
Proof.
  intros (Hd & Hl & Hv & Hn). unfold parse_u8, parse_uint. destruct u as [|c u]; [cbn in Hl; lia|].
  apply Forall_cons in Hd as [Hc _]. rewrite decide_False by (intros ->; discriminate Hc). rewrite Hv. by rewrite (proj2 (Z.leb_le _ _)) by lia.
Qed.
Lemma read_octet_text u n rest : octet_text u n -> not_digit_head rest -> read_octet (u ++ rest) = Some (n, rest) \/ read_octet (u ++ rest) = None.
Proof.
  intros (_ & Hl & Hv & Hn) Hr. unfold read_octet, read_number. rewrite (read_digits_app _ _ _ _ _ Hv) by (lia || done).
  rewrite (proj2 (Nat.eqb_neq _ _)), (proj2 (Nat.ltb_ge _ _)), (proj2 (Z.ltb_ge _ _)) by lia. cbn [orb negb andb].
  destruct (_ && _); auto.
Qed.

(** *** A dotted quad *)
Lemma dotted_matches u : matches dotted u -> exists o n, u = o ++ ["."%char] /\ octet_text o n.
Proof.
  intros (o & d & -> & Ho & Hd)%matches_cat. apply matches_set in Hd as (c & -> & Hc%bool_decide_eq_true). subst c.
  destruct (octet_matches _ Ho) as [n Hn]. by exists o, n.
Qed.
Lemma quad_matches u : matches IPV4 u -> exists os ns, u = join (lit ".") os /\ Forall2 octet_text os ns /\ length os = 4%nat.
Proof.
  intros (u1 & w1 & -> & H1 & (u2 & w2 & -> & H2 & (u3 & w3 & -> & H3 & H4)%matches_cat)%matches_cat)%matches_cat.
  destruct (dotted_matches _ H1) as (o1 & n1 & -> & Ho1), (dotted_matches _ H2) as (o2 & n2 & -> & Ho2),
    (dotted_matches _ H3) as (o3 & n3 & -> & Ho3), (octet_matches _ H4) as (n4 & Ho4).
  exists [o1; o2; o3; w3], [n1; n2; n3; n4]. split; [|split; [by repeat apply Forall2_cons_2|done]].
  unfold join. cbn [fold_left]. change (lit ".") with ["."%char]. by rewrite <- !app_assoc.
Qed.
Lemma octet_no_sep u n c : octet_text u n -> is_digit c = false -> c ∉ u.
Proof. intros (Hd & _) Hc Hin. rewrite Forall_forall in Hd. rewrite (Hd c Hin) in Hc. done. Qed.
Lemma read_digits_suffix radix acc k s v n r : read_digits radix acc k s = (v, n, r) -> exists t, s = t ++ r.
Proof.
  revert acc s v n r. induction k as [|k IH]; intros acc s v n r; cbn; [intros [= _ _ <-]; by exists []|].
  destruct s as [|c s]; [intros [= _ _ <-]; by exists []|]. destruct (digit_val radix c) as [d|]; [|intros [= _ _ <-]; by exists []].
  destruct (read_digits radix _ k s) as [[v' n'] r'] eqn:E. intros [= _ _ <-]. destruct (IH _ _ _ _ _ E) as [t ->]. by exists (c :: t).
Qed.
Lemma read_number_suffix radix hi k z s v r : read_number radix hi k z s = Some (v, r) -> exists t, s = t ++ r.
Proof.
  unfold read_number. destruct (read_digits _ _ _ _) as [[v' n] r'] eqn:E. apply read_digits_suffix in E.
  destruct (_ || _); [done|]. destruct (_ <? _); [done|]. destruct (_ && _); [done|]. by intros [= _ <-].
Qed.
(** Without a colon there is no IPv6 literal. *)
Lemma read_ipv6_no_colon s : ":"%char ∉ s -> read_ipv6 s = None.
Proof.
  intros Hs.
  assert (forall r, (exists t, s = t ++ r) -> read_char ":"%char r = None) as Hno.
  { intros r [t ->]. unfold read_char. destruct r as [|c r]; [done|]. cbn. rewrite decide_False; [done|]. intros <-. apply Hs, elem_of_app. right. left. }
  assert (forall k i r, (exists t, s = t ++ r) -> read_groups (S k) (S i) r = ([], false, r)) as Hgr.
  { intros k i r Hr. cbn [read_groups]. unfold read_separator. rewrite Hno by done. by destruct (1 <? S k)%nat. }
  assert (read_groups 8 0 s = match read_ipv4 s with
    | Some (a, s) => ([a / 2 ^ 16; a mod 2 ^ 16], true, s)
    | None => match read_number 16 65535 4 true s with
              | Some (g, s) => let '(gs, b, s) := read_groups 7 1 s in (g :: gs, b, s)
              | None => ([], false, s)
              end
    end) as E8 by reflexivity.
  unfold read_ipv6. rewrite E8. clear E8.
  destruct (read_ipv4 s) as [[a r]|]; [done|]. destruct (read_number _ _ _ _ s) as [[g r]|] eqn:E.
  - apply read_number_suffix in E. rewrite Hgr by done. cbn [length Nat.eqb]. by rewrite Hno.
  - cbn [length Nat.eqb]. rewrite Hno; [done|]. by exists [].
Qed.
Lemma quad_lenient os ns : Forall2 octet_text os ns -> length os = 4%nat -> parse_ip_lenient (join (lit ".") os) = Some (V4 (be_value 8 ns)).
Proof.
  intros Hf Hl. assert (Forall (fun o => forall c, is_digit c = false -> c ∉ o) os) as Hsep.
  { clear Hl. induction Hf as [|o n os ns Ho _ IH]; constructor; [|done]. intros c. by apply octet_no_sep with n. }
  assert (split_char "."%char (join (lit ".") os) = os) as Hsplit.
  { apply split_join; [|by destruct os]. eapply Forall_impl; [exact Hsep|]. intros o Ho. by apply Ho. }
  assert (mapM parse_u8 os = Some ns) as Hparse by (apply mapM_Some; eapply Forall2_impl; [exact Hf|]; apply octet_parse_u8).
  assert (":"%char ∉ join (lit ".") os) as Hcolon.
  { apply not_elem_of_join; [by apply (bool_decide_unpack _)|]. eapply Forall_impl; [exact Hsep|]. intros o Ho. by apply Ho. }
  assert (read_ipv4 (join (lit ".") os) = Some (be_value 8 ns, []) \/ read_ipv4 (join (lit ".") os) = None) as H4.
  { destruct Hf as [|o1 n1 ? ? H1 [|o2 n2 ? ? H2 [|o3 n3 ? ? H3 [|o4 n4 ? ? H4 []]]]]; try done. 
    unfold join. cbn [fold_left]. rewrite <- !app_assoc. change (lit ".") with ["."%char]. unfold read_ipv4. cbn [read_octets read_separator app].
    destruct (read_octet_text o1 n1 ("."%char :: o2 ++ "."%char :: o3 ++ "."%char :: o4) H1 eq_refl) as [-> | ->]; [|by right].
    unfold read_char. cbn [strip_prefix]. rewrite !decide_True by done.
    destruct (read_octet_text o2 n2 ("."%char :: o3 ++ "."%char :: o4) H2 eq_refl) as [-> | ->]; [|by right]. cbn [strip_prefix]. rewrite !decide_True by done.
    destruct (read_octet_text o3 n3 ("."%char :: o4) H3 eq_refl) as [-> | ->]; [|by right]. cbn [strip_prefix]. rewrite !decide_True by done.
    rewrite <- (app_nil_r o4). destruct (read_octet_text o4 n4 [] H4 I) as [-> | ->]; [|by right]. by left. }
  unfold parse_ip_lenient. rewrite decide_False.
  2: { intros E. rewrite E in Hsplit. cbn in Hsplit. by subst os. }
  unfold ip_parse. destruct H4 as [-> | ->]; [done|]. rewrite read_ipv6_no_colon by done. cbn [all_read fmap option_fmap option_map].
  assert (contains (join (lit ".") os) (lit ".") && negb (contains (join (lit ".") os) (lit ":")) = true) as ->.
  2: { cbn zeta. by rewrite Hsplit, decide_True, Hparse. }
  apply andb_true_intro. split.
  - destruct os as [|o1 [|o2 os]]; try done. rewrite join_cons. cbn [map concat]. change (lit ".") with ["."%char]. rewrite <- app_assoc. apply contains_app.
  - apply negb_true_iff, bool_decide_eq_false. intros [k Hk]. apply position_Some in Hk as [Hk _]. apply Hcolon. rewrite Hk.
    apply elem_of_app. right. change (lit ":") with [":"%char]. left.
Qed.

(** *** A port *)
Lemma port_matches u : matches PORT_RE u -> Forall (fun c => is_digit c = true) u /\ (2 <= length u <= 5)%nat.
Proof. unfold PORT_RE. intros H. re_inv; (split; [by repeat constructor|cbn; lia]). Qed.
Lemma port_first ds : Forall (fun c => is_digit c = true) ds -> (2 <= length ds <= 5)%nat -> head (rests PORT_RE ds) = Some [].
Proof.
  intros Hd Hl. destruct ds as [|a [|b [|c [|d [|e [|]]]]]]; cbn in Hl; try lia; rewrite !Forall_cons in Hd; destruct_and!;
    unfold PORT_RE, digit, ROpt; cbn [rests]; repeat (match goal with H : is_digit ?x = true |- _ => rewrite H; clear H end; cbn); reflexivity.
Qed.
Lemma show_fuel_length radix fuel z acc n : 1 < radix -> 0 <= z < radix ^ Z.of_nat (S n) -> (length (show_fuel radix fuel z acc) <= S n + length acc)%nat.
Proof.
  intros Hr. revert z acc n. induction fuel as [|fuel IH]; intros z acc n Hz; cbn [show_fuel]; [lia|].
  destruct (Z.eqb_spec (z / radix) 0) as [E|E]; [cbn; lia|]. destruct n as [|n].
  - rewrite Z.pow_1_r in Hz. rewrite Z.div_small in E by lia. done.
  - rewrite Nat2Z.inj_succ, Z.pow_succ_r in Hz by lia.
    pose proof (IH (z / radix) (digit_char (z mod radix) :: acc) n ltac:(split; [apply Z.div_pos; lia|apply Z.div_lt_upper_bound; lia])) as H.
    cbn [length] in H. lia.
Qed.
Lemma show_port_length z : 10 <= z <= 65535 -> (2 <= length (show_uint z) <= 5)%nat.
Proof.
  intros Hz. split.
  - pose proof (digits_val_show_radix 10 z ltac:(lia) ltac:(lia)) as Hv. fold (show_uint z) in Hv.
    pose proof (show_uint_digits z) as Hd. pose proof (show_uint_ne_nil z). destruct (show_uint z) as [|c [|d s]]; [done| |cbn; lia].
    apply Forall_cons in Hd as [Hc _]. cbn in Hv. rewrite digit_val_digit in Hv by done. injection Hv as <-.
    unfold is_digit, between in Hc. bsimp. lia.
  - pose proof (show_fuel_length 10 (S (Z.to_nat (Z.log2 z))) z [] 4 ltac:(lia) ltac:(cbn; lia)) as H. cbn [length] in H. unfold show_uint, show_radix. lia.
Qed.

(** ** What the line scanner does *)
Lemma find_from_head r s t i : head (rests r s) = Some t -> find_from r i s = Some (i, (i + (length s - length t))%nat).
Proof. destruct s; cbn [find_from]; (destruct (rests r _) as [|x l]; [done|]); by intros [= ->]. Qed.
Lemma head_cat a b s m t : head (rests a s) = Some m -> head (rests b m) = Some t -> head (rests (RCat a b) s) = Some t.
Proof. cbn [rests]. destruct (rests a s) as [|x l]; [done|]. intros [= ->]. cbn. by destruct (rests b m). Qed.
Lemma octet_first o c t : 0 <= o < 256 -> excludes c octet = true -> head (rests octet (show_uint o ++ c :: t)) = Some (c :: t).
Proof.
  intros Ho Hc. rewrite rests_stop by done.
  assert (forallb (fun o => bool_decide (head (rests octet (show_uint o)) = Some [])) (seqZ 0 256) = true) as H by (vm_compute; reflexivity).
  rewrite forallb_elem in H. specialize (H o ltac:(apply elem_of_seqZ; lia)). apply bool_decide_eq_true in H.
  destruct (rests octet (show_uint o)) as [|x l]; [done|]. by injection H as ->.
Qed.
Lemma dotted_first o t : 0 <= o < 256 -> head (rests dotted (show_uint o ++ "."%char :: t)) = Some t.
Proof. intros Ho. eapply head_cat; [by apply octet_first|]. done. Qed.
Lemma quad_first a c t : excludes c octet = true -> head (rests IPV4 (v4_show a ++ c :: t)) = Some (c :: t).
Proof.
  intros Hc. unfold v4_show. pose proof (be_digits_range 8 4 a ltac:(lia)) as Hf. pose proof (be_digits_length 8 4 a) as Hn. fold (octets4 a) in Hf, Hn.
  destruct (octets4 a) as [|o0 [|o1 [|o2 [|o3 [|]]]]]; try done. rewrite !Forall_cons in Hf. destruct Hf as (H0 & H1 & H2 & H3 & _).
  cbn [map join fold_left]. change (lit ".") with ["."%char]. rewrite <- !app_assoc. cbn [app].
  repeat (eapply head_cat; [by apply dotted_first|]). by apply octet_first.
Qed.

Section scanning.
#[local] Existing Instance ascii_regexes.
(** What is found on a line: a dotted quad whose octets may have leading zeros, and after it two to five
    digits. *)
Lemma find_addr_in_line_sound line ip port : find_addr_in_line line = Some (ip, port) ->
  (exists a, parse_ip_lenient ip = Some (V4 a) /\ 0 <= a < 2 ^ 32) /\
  Forall (fun c => is_digit c = true) port /\ (2 <= length port <= 5)%nat /\
  exists pre mid post, line = pre ++ ip ++ mid ++ port ++ post.
Proof.
  unfold find_addr_in_line. change (ipv4_find_at line 0) with (find_from IPV4 0 line).
  pose proof (find_from_spec IPV4 line 0) as H1. destruct (find_from IPV4 0 line) as [[a b]|]; [|done].
  destruct H1 as (v & u & t & -> & -> & -> & Hu & _ & _). cbn [Nat.add].
  assert (slice (length v) (length v + length u) (v ++ u ++ t) = u) as ->.
  { unfold slice. rewrite drop_app_length, take_app_le by lia. apply take_ge. lia. }
  assert (drop (length v + length u) (v ++ u ++ t) = t) as -> by (rewrite <- drop_drop, !drop_app_length; done).
  change (port_find_at t 0) with (find_from PORT_RE 0 t). pose proof (find_from_spec PORT_RE t 0) as H2.
  destruct (find_from PORT_RE 0 t) as [[c d]|]; [|done]. destruct H2 as (mid & p & post & -> & -> & -> & Hp & _ & _). cbn [Nat.add].
  assert (slice (length mid) (length mid + length p) (mid ++ p ++ post) = p) as ->.
  { unfold slice. rewrite drop_app_length, take_app_le by lia. apply take_ge. lia. }
  intros [= <- <-]. destruct (quad_matches _ Hu) as (os & ns & -> & Hf & Hl). destruct (port_matches _ Hp) as [H3 H4]. split_and!; [|done|lia|lia|by exists v, mid, post].
  exists (be_value 8 ns). split; [by apply quad_lenient|]. clear Hu.
  destruct Hf as [|o1 n1 ? ? (_ & _ & _ & R1) [|o2 n2 ? ? (_ & _ & _ & R2) [|o3 n3 ? ? (_ & _ & _ & R3) [|o4 n4 ? ? (_ & _ & _ & R4) []]]]]; try done.
  unfold be_value. cbn [fold_left]. lia.
Qed.
(** An address as the program writes it is found whole. *)
Lemma find_addr_shown a port : 10 <= port <= 65535 -> find_addr_in_line (v4_show a ++ lit ":" ++ show_uint port) = Some (v4_show a, show_uint port).
Proof.
  intros Hp. change (lit ":") with [":"%char]. cbn [app]. unfold find_addr_in_line. set (line := v4_show a ++ _). change (ipv4_find_at line 0) with (find_from IPV4 0 line). unfold line.
  rewrite (find_from_head _ _ _ 0 (quad_first a ":" (show_uint port) eq_refl)). cbn [Nat.add].
  assert (length (v4_show a ++ ":"%char :: show_uint port) - length (":"%char :: show_uint port) = length (v4_show a))%nat as -> by (rewrite length_app; lia).
  rewrite drop_app_length. change (port_find_at ?t 0) with (find_from PORT_RE 0 t). cbn [find_from]. assert (rests PORT_RE (":"%char :: show_uint port) = []) as -> by reflexivity.
  rewrite (find_from_head _ _ [] 1) by (apply port_first; [apply show_uint_digits|by apply show_port_length]).
  unfold slice. rewrite drop_0, Nat.sub_0_r, take_app_length. cbn [drop length]. f_equal. f_equal. apply take_ge. lia.
Qed.
End scanning.

(** ** What is written one address a line is read back *)
Section addr_lines.
#[local] Existing Instance ascii_regexes.
Definition v4_proxy (p : Proxy) : Prop := exists a, p_host p = V4 a /\ 0 <= a < 2 ^ 32.
Lemma split_text_of ls : Forall plain_line ls -> split_char LF (text_of ls) = ls ++ [[]].
Proof.
  induction 1 as [|s ls [Hl _] _ IH]; [done|]. unfold text_of in *. cbn [map concat]. rewrite <- app_assoc. cbn [app].
  rewrite split_char_app by done. by rewrite IH.
Qed.
Lemma length_omap_le {A B} (f : A -> option B) l : (length (omap f l) <= length l)%nat.
Proof. induction l as [|x l IH]; cbn; [lia|]. destruct (f x); cbn; lia. Qed.
Lemma v4_show_lenient a : 0 <= a < 2 ^ 32 -> parse_ip_lenient (v4_show a) = Some (V4 a).
Proof.
  intros Ha. pose proof (ip_parse_v4_show a Ha) as E. unfold parse_ip_lenient. rewrite decide_False; [by rewrite E|].
  intros E0. by rewrite E0 in E.
Qed.
Lemma small_port_lost a port : 0 <= port < 10 -> find_addr_in_line (v4_show a ++ lit ":" ++ show_uint port) = None.
Proof.
  intros Hp. change (lit ":") with [":"%char]. cbn [app]. unfold find_addr_in_line. set (line := v4_show a ++ _).
  change (ipv4_find_at line 0) with (find_from IPV4 0 line). unfold line.
  rewrite (find_from_head _ _ _ 0 (quad_first a ":" (show_uint port) eq_refl)). cbn [Nat.add].
  assert (length (v4_show a ++ ":"%char :: show_uint port) - length (":"%char :: show_uint port) = length (v4_show a))%nat as -> by (rewrite length_app; lia).
  rewrite drop_app_length.
  assert (forallb (fun p => bool_decide (port_find_at (":"%char :: show_uint p) 0 = None)) (seqZ 0 10) = true) as H by (vm_compute; reflexivity).
  rewrite forallb_elem in H. specialize (H port ltac:(apply elem_of_seqZ; lia)). apply bool_decide_eq_true in H. by rewrite H.
Qed.

(** C35: addresses one a line, as the patterns read them. What a text gives are IPv4 addresses with a port of
    sixteen bits and nothing known about them, at most one a line. What [find] prints by default is
    read back by [check], address by address and in its order, when the addresses are IPv4 and the
    ports have two digits; an address whose port has one digit is passed over. *)
Theorem addr_lines_readable : forall f64_show json_text,
  (forall text, (length (parse_proxy_lines text) <= length (split_char LF text))%nat /\
     forall px, px ∈ parse_proxy_lines text -> exists a port, px = new (V4 a) port ∅ /\ 0 <= a < 2 ^ 32 /\ 0 <= port <= 65535) /\
  (forall ps, Forall (fun p => v4_proxy p /\ 10 <= p_port p <= 65535) ps ->
     parse_proxy_lines (write_stream f64_show json_text FDefault None false ps).1 = map (fun p => new (p_host p) (p_port p) ∅) ps) /\
  (forall ps, Forall (fun p => v4_proxy p /\ 0 <= p_port p < 10) ps ->
     parse_proxy_lines (write_stream f64_show json_text FDefault None false ps).1 = []).
Proof.
  intros f64_show json_text.
  assert (forall ps, parse_proxy_lines (write_stream f64_show json_text FDefault None false ps).1 =
    omap parse_proxy_line (omap find_addr_in_line (map addr ps))) as Hout.
  { intros ps. unfold write_stream, new_emitter, em_prefix, em_suffix. cbn [fst em_template em_format].
    rewrite (em_items_lines _ _ _ _ addr), app_nil_r by done. unfold parse_proxy_lines, find_addrs_line. cbn [app]. rewrite split_text_of, omap_app.
    - by rewrite app_nil_r.
    - apply Forall_map, Forall_true. intros p. split; by apply (clean_not_in _ _ (addr_clean p)). }
  split_and!.
  - intros text. unfold parse_proxy_lines, find_addrs_line. split.
    + etransitivity; apply length_omap_le.
    + intros px ([ip port] & Hin & Hpx)%list_elem_of_omap. apply list_elem_of_omap in Hin as (line & _ & Hline).
      destruct (find_addr_in_line_sound _ _ _ Hline) as ((a & Ha & Hr) & _). unfold parse_proxy_line in Hpx. cbn [fst snd] in Hpx.
      rewrite Ha in Hpx. destruct (parse_u16 port) as [n|] eqn:En; [|done]. injection Hpx as <-. exists a, n. split; [done|]. split; [done|]. by apply (parse_uint_bounds _ _ _ En).
  - intros ps Hps. rewrite Hout. induction Hps as [|p ps [(a & Hh & Ha) Hp] _ IH]; [done|]. cbn [map omap list_omap].
    unfold addr at 1. rewrite Hh. cbn [ip_show]. rewrite find_addr_shown by done. cbn [omap list_omap]. unfold parse_proxy_line at 1. cbn [fst snd].
    rewrite v4_show_lenient by done. unfold parse_u16. rewrite parse_show_uint by lia. f_equal. exact IH.
  - intros ps Hps. rewrite Hout. induction Hps as [|p ps [(a & Hh & Ha) Hp] _ IH]; [done|]. cbn [map omap list_omap].
    unfold addr at 1. rewrite Hh. cbn [ip_show]. by rewrite small_port_lost.
Qed.
Lemma addr_lines_readable_witness :
  parse_proxy_lines (write_stream shown sample_text FDefault None false [sample; sample]).1 = [new (V4 134744072) 8080 ∅; new (V4 134744072) 8080 ∅] /\
  parse_proxy_lines (write_stream shown sample_text FDefault None false [new (V4 1) 9 ∅]).1 = [].
Proof.
  destruct (addr_lines_readable shown sample_text) as (_ & H1 & H2). split.
  - rewrite H1; [reflexivity|]. repeat constructor; (exists 134744072; split; [reflexivity|lia]) || (cbn; lia).
  - apply H2. repeat constructor; (exists 1; split; [reflexivity|lia]) || (cbn; lia).
Defined.
End addr_lines.

(** ** An address shown in a page is seen *)
Section seen.
#[local] Existing Instance ascii_regexes.
Definition addr_char (c : ascii) : bool := is_digit c || bool_decide (c = "."%char).
(** [pre] and [post] let an address between them stand apart. *)
Definition apart (pre post : str) : Prop :=
  match last pre with Some c => addr_char c = false | None => True end /\
  match post with c :: _ => is_digit c = false | [] => True end.
Lemma excludes_octet c : is_digit c = false -> excludes c octet = true.
Proof.
  intros Hc. assert (forall lo hi, 48 <= lo -> hi <= 57 -> between lo hi c = false) as Hb.
  { intros lo hi Hl Hh. destruct (between lo hi c) eqn:E; [|done]. apply between_digit in E; congruence. }
  cbn. rewrite !Hb, Hc by lia. by rewrite !bool_decide_eq_false_2 by (intros ->; discriminate Hc).
Qed.
Lemma quad_first_apart pre a post : apart pre post -> head (rests IPV4 (v4_show a ++ post)) = Some post.
Proof.
  intros [_ Hp]. destruct post as [|c post]; [|by apply quad_first, excludes_octet]. rewrite app_nil_r.
  pose proof (quad_first a ":" [] eq_refl) as H. rewrite rests_stop in H by reflexivity.
  destruct (rests IPV4 (v4_show a)) as [|x l]; [done|]. cbn [map head] in H. assert (x = []) as ->; [|done].
  apply (inj Some), (f_equal length) in H. rewrite length_app in H. destruct x; [done|cbn in H; lia].
Qed.
Lemma quad_chars u : matches IPV4 u -> Forall (fun c => addr_char c = true) u.
Proof.
  intros (os & ns & -> & Hf & _)%quad_matches. apply Forall_join; [by repeat constructor|].
  induction Hf as [|o n os ns (Hd & _) _ IH]; constructor; [|done]. eapply Forall_impl; [exact Hd|]. intros c Hc. unfold addr_char. by rewrite Hc.
Qed.
(** A match ahead is found: [u0] is what the pattern takes where it stands before [post], and what
    precedes it ends with a character that is in no match. *)
Section ahead.
Variables (r : re) (P : ascii -> bool) (u0 post : str).
Hypothesis Hnull : nullable r = false.
Hypothesis Hchars : forall u, matches r u -> Forall (fun c => P c = true) u.
Hypothesis Hfirst : head (rests r (u0 ++ post)) = Some post.
Definition ends_clear (w : str) : Prop := match last w with Some c => P c = false | None => True end.
(** The next match, when the text has one at a known place ahead. *)
Lemma next_match w i : ends_clear w ->
  exists v u rest, find_from r i (w ++ u0 ++ post) = Some ((i + length v)%nat, (i + length v + length u)%nat) /\
    ((v = w /\ u = u0 /\ rest = post) \/
     exists w', w = v ++ u ++ w' /\ u <> [] /\ rest = w' ++ u0 ++ post).
Proof using Hnull Hchars Hfirst.
  intros Hw. pose proof (find_from_spec r (w ++ u0 ++ post) i) as H.
  destruct (find_from r i _) as [[s e]|].
  2: { exfalso. assert (post ∈ rests r (u0 ++ post)) as Hin by (destruct (rests r _); [done|injection Hfirst as ->; left]).
    apply rests_spec in Hin as (u & E & Hu). apply (H w u post); [by rewrite E|done]. }
  destruct H as (v & u & t & E & -> & -> & Hu & Hh & Hleft). exists v, u.
  assert (v = w -> u ++ t = u0 ++ post -> v = w /\ u = u0 /\ t = post) as Hhere.
  { intros -> E'. rewrite E', Hfirst in Hh. injection Hh as ->. split; [done|]. by apply app_inv_tail in E' as ->. }
  apply app_eq_inv in E as [(x & Ew & E)|(x & Ev & E)].
  - destruct (decide (x = [])) as [->|Hx].
    + rewrite app_nil_r in Ew. exists t. split; [done|]. left. by apply Hhere.
    + symmetry in E. apply app_eq_inv in E as [(y & -> & E)|(y & -> & E)].
      * exists t. split; [done|]. right. exists y. split_and!; [done| |done]. intros ->. apply nullable_matches in Hu; [congruence|done].
      * exfalso. destruct (exists_last Hx) as (x' & c & ->). unfold ends_clear in Hw. rewrite Ew, app_assoc, last_snoc in Hw.
        apply Hchars in Hu. rewrite !Forall_app, Forall_singleton in Hu. destruct_and!. congruence.
  - destruct (decide (x = [])) as [->|Hx].
    + rewrite app_nil_r in Ev. exists t. split; [done|]. left. by apply Hhere.
    + exfalso. pose proof (Hleft w x Ev Hx) as Hn. by rewrite E, Hn in Hfirst.
Qed.
Lemma find_iter_shown pre : ends_clear pre -> forall fuel w p, pre = p ++ w -> (length w < fuel)%nat ->
  u0 ∈ find_iter_from (re_find_at r) fuel (length p) (pre ++ u0 ++ post).
Proof using Hnull Hchars Hfirst.
  intros Hap. induction fuel as [|fuel IH]; intros w p -> Hf; [lia|]. cbn [find_iter_from].
  assert (ends_clear w) as Hw.
  { unfold ends_clear in *. destruct (decide (w = [])) as [->|Hne]; [done|]. destruct (exists_last Hne) as (w' & c & ->).
    rewrite app_assoc, last_snoc in Hap. by rewrite last_snoc. }
  unfold re_find_at at 1. rewrite (proj2 (Nat.leb_le _ _)) by (rewrite !length_app; lia).
  rewrite <- app_assoc, drop_app_length.
  destruct (next_match w (length p) Hw) as (v & u & rest & -> & [(-> & -> & ->)|(w' & -> & Hu & ->)]).
  - apply elem_of_cons. left. unfold slice. rewrite <- drop_drop, drop_app_length, drop_app_length.
    rewrite take_app_le by lia. symmetry. apply take_ge. lia.
  - right. specialize (IH w' (p ++ v ++ u)). rewrite !length_app, Nat.add_assoc in IH.
    rewrite <- !app_assoc in *. apply IH; [done|]. rewrite !length_app in Hf. destruct u; [done|]. cbn in Hf. lia.
Qed.
Lemma find_iter_ahead pre : ends_clear pre -> u0 ∈ find_iter (re_find_at r) (pre ++ u0 ++ post).
Proof using Hnull Hchars Hfirst.
  intros Hp. apply (find_iter_shown pre Hp _ pre []); [done|]. rewrite length_app. lia.
Qed.
End ahead.
Lemma v4_seen a pre post : apart pre post -> v4_show a ∈ get_all_ip (pre ++ v4_show a ++ post).
Proof.
  intros Hap. apply get_all_ip_elem. left. apply (find_iter_ahead IPV4 addr_char); [done|exact quad_chars| |exact (proj1 Hap)].
  by eapply quad_first_apart.
Qed.

(** *** An IPv6 address *)
(** What a token may hold, its zone included. *)
Definition token_char (c : ascii) : bool := v6_char c || zone_char c || bool_decide (c = "%"%char).
Definition apart6 (pre post : str) : Prop :=
  match last pre with Some c => token_char c = false | None => True end /\
  match post with c :: _ => v6_char c = false /\ c <> "%"%char | [] => True end.
Lemma star_set_chars p u : matches (RStar (RSet p)) u -> Forall (fun c => p c = true) u.
Proof.
  remember (RStar (RSet p)) as q eqn:Eq. induction 1 as [| | | | | |r' v w Hv _ Hw IH]; simplify_eq; [constructor|].
  apply Forall_app. split; [|by apply IH]. apply matches_set in Hv as (c & -> & Hc). by constructor.
Qed.
Lemma token_chars u : matches IPV6_CANDIDATE_RE u -> Forall (fun c => token_char c = true) u.
Proof.
  intros H. unfold IPV6_CANDIDATE_RE in H. apply matches_cat in H as (u1 & u2 & -> & H1 & H).
  apply matches_cat in H as (u3 & u4 & -> & H2%star_set_chars & H). apply matches_set in H1 as (c & -> & Hc).
  rewrite !Forall_app. split; [repeat constructor; unfold token_char, v6_char; by rewrite Hc|].
  split; [eapply Forall_impl; [exact H2|]; intros d Hd; unfold token_char; by rewrite Hd|].
  apply matches_alt in H as [H| ->%matches_eps]; [|constructor]. apply matches_cat in H as (v & w & -> & Hv & Hw).
  apply matches_cat in Hw as (x & y & -> & Hx & Hy%star_set_chars).
  apply matches_set in Hv as (d & -> & ->%bool_decide_eq_true). apply matches_set in Hx as (e & -> & He).
  assert (forall e, zone_char e = true -> token_char e = true) as Hz by (intros e' He'; unfold token_char; by rewrite He', orb_true_r).
  rewrite !Forall_app. split; [by repeat constructor|]. split; [repeat constructor; by apply Hz|]. eapply Forall_impl; [exact Hy|exact Hz].
Qed.
(** A repetition of one character takes all it can. *)
Lemma star_first p fuel t post : Forall (fun c => p c = true) t -> match post with c :: _ => p c = false | [] => True end ->
  (length t <= fuel)%nat -> head (star (rests (RSet p)) fuel (t ++ post)) = Some post.
Proof.
  intros Ht Hp. revert fuel. induction Ht as [|c t Hc Ht IH]; intros fuel Hf.
  - destruct fuel as [|fuel]; [done|]. cbn [star app rests]. destruct post as [|c post]; [done|]. by rewrite Hp.
  - destruct fuel as [|fuel]; [cbn in Hf; lia|]. cbn [star app].
    assert (rests (RSet p) (c :: t ++ post) = [t ++ post]) as -> by (cbn; by rewrite Hc). cbn [List.filter length].
    rewrite (proj2 (Nat.ltb_lt _ _)) by lia. cbn [map concat]. specialize (IH fuel ltac:(cbn in Hf; lia)).
    destruct (star (rests (RSet p)) fuel (t ++ post)); [done|]. exact IH.
Qed.
Lemma token_first t post pre : taken t -> t <> [] -> apart6 pre post -> head (rests IPV6_CANDIDATE_RE (t ++ post)) = Some post.
Proof.
  intros (Ht & Hh & _) Hne [_ Hp]. destruct t as [|c t]; [done|]. apply Forall_cons in Ht as [Hc Ht].
  assert (hex_colon c = true) as Hc'.
  { unfold v6_char in Hc. apply orb_true_iff in Hc as [?|E%bool_decide_eq_true]; [done|]. by subst c. }
  unfold IPV6_CANDIDATE_RE. apply (head_cat _ _ _ (t ++ post)); [cbn; by rewrite Hc'|]. apply (head_cat _ _ _ post).
  - cbn [rests]. apply (star_first v6_char); [done|by destruct post; [|destruct Hp]|]. rewrite length_app. lia.
  - destruct post as [|d post]; [done|]. destruct Hp as [_ Hp]. cbn. by rewrite bool_decide_eq_false_2.
Qed.
Lemma taken_no_percent t : taken t -> "%"%char ∉ t.
Proof. intros (H & _) Hin. rewrite Forall_forall in H. by specialize (H _ Hin). Qed.
Lemma trim_end_dots_taken t : taken t -> trim_end_dots t = t.
Proof.
  intros (_ & _ & H). unfold trim_end_dots. destruct (decide (t = [])) as [->|Hne]; [done|].
  destruct (exists_last Hne) as (t' & c & ->). rewrite last_snoc in H. rewrite rev_unit. cbn [trim_from].
  assert (ws_len [lit "."] (c :: rev t') = 0%nat) as ->.
  { unfold ws_len. cbn [List.find]. assert (starts_with (lit ".") (c :: rev t') = false) as ->; [|done].
    apply not_true_is_false. intros [r Er]%starts_with_true. injection Er as Ec _. congruence. }
  cbn [rev]. by rewrite rev_involutive.
Qed.
Lemma canonicalize_taken t a : ip_parse t = Some (V6 a) -> canonicalize_ip (trim_end_dots t) = Some (ip_show (V6 a)).
Proof.
  intros E. destruct (ip_parse_v6_text _ _ E) as [Ht _]. rewrite trim_end_dots_taken by done. unfold canonicalize_ip.
  destruct (split_once (lit "%") t) as [[x y]|] eqn:Es; [|by rewrite E].
  apply split_once_Some in Es. exfalso. apply (taken_no_percent _ Ht). rewrite Es, !elem_of_app. right. left. by left.
Qed.
Lemma v6_seen t a pre post : ip_parse t = Some (V6 a) -> apart6 pre post -> ip_show (V6 a) ∈ get_all_ip (pre ++ t ++ post).
Proof.
  intros E Hap. destruct (ip_parse_v6_text _ _ E) as [Ht Hc]. assert (t <> []) as Hne by (intros ->; by apply elem_of_nil in Hc).
  apply get_all_ip_elem. right. exists t. split; [|split; [|by apply canonicalize_taken]].
  - apply (find_iter_ahead IPV6_CANDIDATE_RE token_char); [done|exact token_chars|by eapply token_first|exact (proj1 Hap)].
  - apply list_elem_of_split in Hc as (x & y & ->). apply contains_true. by exists x, y.
Qed.

(** [t] shows [ip]: an IPv4 address as it is printed, an IPv6 address in any spelling; with nothing
    beside it that could belong to it. *)
Definition shows (t : str) (ip : IpAddr) : Prop := match ip with V4 a => t = v4_show a | V6 a => ip_parse t = Some (V6 a) end.
Definition stands_apart (ip : IpAddr) (pre post : str) : Prop :=
  match ip with V4 _ => apart pre post | V6 _ => apart6 pre post end.
Lemma shown_seen t ip pre post : shows t ip -> stands_apart ip pre post -> ip_show ip ∈ get_all_ip (pre ++ t ++ post).
Proof. destruct ip as [a|a]; cbn [shows stands_apart]; [intros ->; apply v4_seen|apply v6_seen]. Qed.

Context `{TL : TunnelLibs} `{UC : UnicodeCase} `{F : Flate} `{P : Powi}.
(** Then it decides the level. *)
Lemma own_address_seen : forall ck content j pre t ip post proto marker obs,
  ip ∈ ck_real_ext_ips ck -> to_lowercase content = pre ++ t ++ post -> shows t ip -> stands_apart ip pre post ->
  anonymity_level ck content j = Transparent /\
  (judge_response ck proto j marker content = Working obs -> ob_level obs = if checks_anon_level proto then Some Transparent else None).
Proof.
  intros ck content j pre t ip post proto marker obs Hin Hc Ht Hap.
  assert (anonymity_level ck content j = Transparent) as E.
  { unfold anonymity_level. rewrite Hc. replace (ip_visible _ _) with true; [done|]. symmetry. apply ip_visible_iff.
    exists ip. split; [done|]. by apply shown_seen. }
  split; [done|]. unfold judge_response. destruct (negb _); [done|]. intros [= <-]. cbn. by rewrite E.
Qed.
End seen.


(** ** The patterns at work *)
Section demo.
#[local] Existing Instance ascii_regexes.
(** An address with more digits in front is not seen: the quad found is another. *)
Example hidden_by_digits : lit "1.2.3.4" ∉ get_all_ip (lit "9.1.2.3.4") /\ lit "1.2.3.4" ∈ get_all_ip (lit "x.1.2.3.4.").
Proof. split; apply (bool_decide_unpack _); vm_compute; exact I. Qed.
Example scanned : find_addrs_line (lit "300.1.2.3:8080") = [(lit "00.1.2.3", lit "8080")] /\
  find_addrs_global (lit "999.1.1.1:80 5.5.5.5:0 010.1.1.1:80 7.7.7.7:1234") =
    [(lit "99.1.1.1", lit "80"); (lit "5.5.5.5", []); (lit "010.1.1.1", lit "80"); (lit "7.7.7.7", lit "1234")].
Proof. split; vm_compute; reflexivity. Qed.
End demo.
