(* ===== verification/Resolver.v ===== *)
(** * The resolver and the machine's own addresses (src/resolver.rs)

    How a [Resolver] comes to be, the endpoints it asks for the machine's external addresses, and what the
    checker a broker builds from their answers makes of a page that shows one of them. *)
From S2P Require Import Prelude F64 Text Types Addr Utils Proxy Http Negotiator Judge Checker Pipeline Broker Regex.
Open Scope Z_scope.

Definition DEFAULT_IP_ENDPOINTS : list str :=
  [lit "https://api64.ipify.org/"; lit "https://api.ipify.org/"; lit "https://icanhazip.com/"].
(** The name service and the HTTP client are no data here. *)
Record Resolver := { rs_timeout : Z; rs_ip_endpoints : list str }.
(** The system's name service: its configuration may be unreadable, or unusable. *)
Record DnsInit := { dns_init : option str; dns_build : option str }.
Definition resolver_new (dns : DnsInit) (timeout : Z) : result Resolver Error :=
  match dns_init dns with
  | Some e => Err (Config (lit "dns resolver init: " ++ e))
  | None =>
      match dns_build dns with
      | Some e => Err (Config (lit "dns resolver build: " ++ e))
      | None => Ok {| rs_timeout := timeout; rs_ip_endpoints := DEFAULT_IP_ENDPOINTS |}
      end
  end.
Definition with_ip_endpoints (endpoints : list str) (r : Resolver) : Resolver :=
  {| rs_timeout := rs_timeout r; rs_ip_endpoints := endpoints |}.

(** The broker's own resolver, or a new one with the query's timeout. *)
Definition broker_resolver (dns : DnsInit) (own : option Resolver) (q : FindQuery) : result Resolver Error :=
  match own with Some r => Ok r | None => resolver_new dns (fq_timeout q) end.

(** The endpoints, asked at once; an answer counts whatever its status. *)
Definition probe_endpoint `{WebLibs} (url : str) : option str := let? (_, body) := fetch url [] in body.
Definition endpoint_bodies `{WebLibs} (r : Resolver) : list (option str) := map probe_endpoint (rs_ip_endpoints r).
Definition resolver_external_ips `{WebLibs} (r : Resolver) : result (list IpAddr) Error := external_ips (endpoint_bodies r).

Section resolver.
Context `{W : WebLibs}.
(** What an endpoint reports. *)
Definition reports (url : str) (ip : IpAddr) : Prop := exists text, probe_endpoint url = Some text /\ ip_parse (trim text) = Some ip.
Lemma external_ips_reported r :
  match resolver_external_ips r with
  | Ok ips => NoDup ips /\ ips <> [] /\ forall ip, ip ∈ ips <-> exists url, url ∈ rs_ip_endpoints r /\ reports url ip
  | Err e => e = ExtIpUnknown /\ forall url ip, url ∈ rs_ip_endpoints r -> ~ reports url ip
  end.
Proof.
  unfold resolver_external_ips. pose proof (external_ips_spec (endpoint_bodies r)) as H.
  assert (forall text, Some text ∈ endpoint_bodies r <-> exists url, url ∈ rs_ip_endpoints r /\ probe_endpoint url = Some text) as Hb.
  { intros text. unfold endpoint_bodies. rewrite list_elem_of_fmap. naive_solver. }
  destruct (external_ips (endpoint_bodies r)) as [ips|e] eqn:E.
  - destruct H as [Hne H]. split; [|split; [done|]].
    + unfold external_ips in E. case_decide; [done|]. injection E as <-. apply NoDup_elements.
    + intros ip. rewrite H. unfold reports. setoid_rewrite Hb. naive_solver.
  - destruct H as [-> H]. split; [done|]. intros url ip Hu (text & Ht & Hp). by rewrite (H text) in Hp by (apply Hb; eauto).
Qed.
(** The order of the endpoints does not matter. *)
Lemma external_ips_order r r' : rs_ip_endpoints r ≡ₚ rs_ip_endpoints r' ->
  match resolver_external_ips r, resolver_external_ips r' with
  | Ok ips, Ok ips' => ips ≡ₚ ips'
  | Err e, Err e' => e = e'
  | _, _ => False
  end.
Proof.
  intros Hp. pose proof (external_ips_reported r) as H. pose proof (external_ips_reported r') as H'.
  assert (forall ip, (exists url, url ∈ rs_ip_endpoints r /\ reports url ip) <-> exists url, url ∈ rs_ip_endpoints r' /\ reports url ip) as He.
  { intros ip. by setoid_rewrite Hp. }
  destruct (resolver_external_ips r) as [ips|e], (resolver_external_ips r') as [ips'|e'].
  - destruct H as (Hn & _ & H), H' as (Hn' & _ & H'). apply NoDup_Permutation; [done|done|]. intros ip. by rewrite H, H', He.
  - destruct H as (_ & Hne & H), H' as (_ & H'). destruct ips as [|ip ips]; [done|]. destruct (proj1 (H ip)) as (url & Hu & Hr); [left|].
    destruct (proj1 (He ip)) as (url' & Hu' & Hr'); [by exists url|]. by apply (H' url' ip).
  - destruct H as (_ & H), H' as (_ & Hne & H'). destruct ips' as [|ip ips']; [done|]. destruct (proj1 (H' ip)) as (url & Hu & Hr); [left|].
    destruct (proj2 (He ip)) as (url' & Hu' & Hr'); [by exists url|]. by apply (H url' ip).
  - by destruct H as [-> _], H' as [-> _].
Qed.

Context `{TL : TunnelLibs} `{UC : UnicodeCase} `{F : Flate} `{P : Powi}.
#[local] Existing Instance ascii_regexes.
Variable lookup_ip : str -> option (list IpAddr).
Variables (default_judges : list str) (marker : Judge -> str).
(** The checker of a search: [Broker::build_checker]. *)
Definition broker_checker (dns : DnsInit) (own : option Resolver) (q : FindQuery) : result Checker Error :=
  build_checker lookup_ip default_judges marker (let! r := broker_resolver dns own q in Ok (endpoint_bodies r)) q.

End resolver.

(** ** One endpoint answers, another shows an error page *)
Section resolver_demo.
#[local] Existing Instances ascii_regexes no_libs ascii_case no_flate one_powi.
#[local] Instance ip_web : WebLibs :=
  {| url_parse := @url_parse Broker.demo_web;
     fetch url _ := if decide (url = lit "http://ip/") then Some (200, Some (lit " 1.2.3.4" ++ [LF]))
                    else if decide (url = lit "http://ip6/") then Some (200, Some (lit "2001:db8::1"))
                    else if decide (url = lit "http://down/") then Some (503, Some (lit "busy"))
                    else Some (200, Some (lit "4711 1.2.3.4")) |}.
Definition demo_dns : DnsInit := {| dns_init := Some (lit "no resolv.conf"); dns_build := None |}.
Definition demo_endpoints : Resolver := with_ip_endpoints [lit "http://down/"; lit "http://ip/"; lit "http://ip6/"] {| rs_timeout := 1; rs_ip_endpoints := [] |}.
Abbreviation demo_checker := (broker_checker (fun _ => Some [V4 9]) [] (fun _ => lit "4711") demo_dns (Some demo_endpoints) demo_query).
Definition echoed : str := to_lowercase (lit "HTTP/1.1 200 OK" ++ crlf2 ++ build_request false (lit "4711") demo_judge Http).
(** The address of the other family, spelt out. *)
Definition page6 : str := lit "<p>[2001:DB8:0:0:0::1]</p>".
(** Without a name service, and without a resolver of its own, the broker has no checker. *)
Example no_dns : broker_checker (fun _ => None) [] (fun _ => []) demo_dns None demo_query = Err (Config (lit "dns resolver init: no resolv.conf")).
Proof. reflexivity. Qed.
End resolver_demo.
