(* ===== verification/Report.v ===== *)
(** * What the program reports (src/server.rs, [render_metrics]; src/stats.rs, [Display]; the progress line)

    Texts made of the pool's state and of the aggregates, with the two-decimal printing of a double,
    and the answer of the metrics listener. *)

From S2P Require Import Prelude F64 Text Types Addr Proxy Pool Stats Http Client Ndjson.
Open Scope Z_scope.

(** [{x:.2}]: the exact value rounded to hundredths, ties to even; a sign is kept, of zero too. *)
Definition two_digits (n : Z) : str := [digit_char (n / 10); digit_char (n mod 10)].
Definition show_hundredths (s : bool) (q : Z) : str :=
  (if s then lit "-" else []) ++ show_uint (q / 100) ++ lit "." ++ two_digits (q mod 100).
Definition show_fixed2 (x : f64) : str :=
  match x with
  | S754_zero s => show_hundredths s 0
  | S754_infinity s => (if s then lit "-" else []) ++ lit "inf"
  | S754_nan => lit "NaN"
  | S754_finite s m e =>
      show_hundredths s (if 0 <=? e then Zpos m * 2 ^ e * 100 else div_half_even (Zpos m * 100) (2 ^ (- e)))
  end.
Definition show_nat (n : nat) : str := show_uint (Z.of_nat n).

(** ** Prometheus text *)
Definition DQ : ascii := chr 34.
Definition quoted (s : str) : str := [DQ] ++ s ++ [DQ].
Definition size_metric (scheme : str) : str :=
  lit "proxybroker_pool_size{scheme=" ++ quoted scheme ++ lit "}".
(** The samples: a name and a value. *)
Definition metric_sample (name value : str) : str := name ++ lit " " ++ value.
Definition metric_lines (s : PoolSnapshot) (evict rot : Z) : list str :=
  [lit "# HELP proxybroker_pool_size Proxies currently available in the pool.";
   lit "# TYPE proxybroker_pool_size gauge";
   metric_sample (size_metric (lit "http")) (show_nat (sn_http s));
   metric_sample (size_metric (lit "https")) (show_nat (sn_https s));
   lit "# HELP proxybroker_pool_error_rate_avg Mean proxy error rate over the pool.";
   lit "# TYPE proxybroker_pool_error_rate_avg gauge";
   metric_sample (lit "proxybroker_pool_error_rate_avg") (show_fixed2 (sn_avg_error_rate s));
   lit "# HELP proxybroker_pool_resp_time_avg_seconds Mean proxy response time over the pool.";
   lit "# TYPE proxybroker_pool_resp_time_avg_seconds gauge";
   metric_sample (lit "proxybroker_pool_resp_time_avg_seconds") (show_fixed2 (sn_avg_resp_time s));
   lit "# HELP proxybroker_pool_probe_latency_avg_seconds Mean judge-probe latency (check-time) over the pool.";
   lit "# TYPE proxybroker_pool_probe_latency_avg_seconds gauge";
   metric_sample (lit "proxybroker_pool_probe_latency_avg_seconds") (show_fixed2 (sn_probe_latency_avg s));
   lit "# HELP proxybroker_evictions_total Proxies hard-evicted from the pool.";
   lit "# TYPE proxybroker_evictions_total counter";
   metric_sample (lit "proxybroker_evictions_total") (show_uint evict);
   lit "# HELP proxybroker_rotations_total Mid-request rotations to a different proxy.";
   lit "# TYPE proxybroker_rotations_total counter";
   metric_sample (lit "proxybroker_rotations_total") (show_uint rot)].
Definition metrics_text (s : PoolSnapshot) (evict rot : Z) : str := text_of (metric_lines s evict rot).
(** Three readings of the pool, here all of one moment: the snapshot is taken under the lock, the counters
    are read one after the other. *)
Definition render_metrics (p : Pool) : str := metrics_text (snapshot p) (evictions p) (rotations p).

(** The answer to any request on the metrics port. *)
Definition metrics_head (n : nat) : str :=
  lit "HTTP/1.1 200 OK" ++ crlf ++ lit "Content-Type: text/plain; version=0.0.4" ++ crlf ++
  lit "Content-Length: " ++ show_nat n ++ crlf ++ lit "Connection: close" ++ crlf ++ crlf.
Definition metrics_reply (body : str) : str := metrics_head (length body) ++ body.

(** ** The summary of a run *)
Definition count_list {K} (show : K -> str) (l : list (K * nat)) : str :=
  join (lit ", ") (map (fun kn => show kn.1 ++ lit ": " ++ show_nat kn.2) l).
(** The entries of a [BTreeMap], in the order of its keys. *)
Definition proto_entries (m : gmap Proto nat) : list (Proto * nat) :=
  omap (fun p => (fun n => (p, n)) <$> m !! p) Protos.ALL.
Definition str_entries {V} (m : gmap str V) : list (str * V) := sort_by (cmp_on fst str_cmp) (map_to_list m).
(** [b.1.cmp(a.1).then(a.0.cmp(b.0))]. *)
Definition country_cmp (a b : str * nat) : comparison :=
  cmp_then (Nat.compare b.2 a.2) (str_cmp a.1 b.1).
Definition top_countries (m : gmap str nat) : list (str * nat) := take 10 (sort_by country_cmp (str_entries m)).
Definition anon_entries (m : gmap AnonLevel nat) : list (AnonLevel * nat) :=
  omap (fun l => (fun n => (l, n)) <$> m !! l) [High; Anonymous; Transparent].

Definition stats_lines (s : Stats) : list str :=
  [lit "Found " ++ show_nat (st_total s) ++ lit " proxies (" ++ show_nat (st_working s) ++ lit " working)"] ++
  (if decide (st_by_protocol s = ∅) then []
   else [lit "  By protocol: " ++ count_list proto_as_str (proto_entries (st_by_protocol s))]) ++
  (if decide (st_by_anonymity s = ∅) then []
   else [lit "  By anonymity (HTTP): " ++ count_list anon_as_str (anon_entries (st_by_anonymity s))]) ++
  (if decide (st_by_country s = ∅) then []
   else [lit "  By country: " ++ count_list id (top_countries (st_by_country s))]) ++
  [lit "  Avg response time: " ++ show_fixed2 (st_avg_resp_time s) ++ lit "s"] ++
  (if f_gtb (st_p50 s) f_zero then
     [lit "  Response time p50/p90/p95: " ++ show_fixed2 (st_p50 s) ++ lit "s / " ++ show_fixed2 (st_p90 s) ++
      lit "s / " ++ show_fixed2 (st_p95 s) ++ lit "s"] else []) ++
  (if decide (st_errors s = ∅) then []
   else [lit "  Errors: " ++ join (lit ", ") (map (fun en => en.1 ++ lit ": " ++ show_uint en.2) (str_entries (st_errors s)))]).
Definition stats_display (s : Stats) : str := text_of (stats_lines s).
(** The middle dot is two bytes of UTF-8. *)
Definition render_progress (s : Stats) : str :=
  let dot := lit " " ++ [chr 194; chr 183] ++ lit " " in
  lit "checked " ++ show_nat (st_total s) ++ dot ++ lit "working " ++ show_nat (st_working s) ++ dot ++
  lit "avg " ++ show_fixed2 (st_avg_resp_time s) ++ lit "s".

(** ** Reading them back *)
Definition plain_char (c : ascii) : bool := negb (bool_decide (c = LF) || bool_decide (c = CR)).
Definition plain (s : str) : Prop := Forall (fun c => plain_char c = true) s.
Lemma plain_app s t : plain s -> plain t -> plain (s ++ t).
Proof. apply Forall_app_2. Qed.
Lemma plain_check s : forallb plain_char s = true -> plain s.
Proof. intros H. apply Forall_forall. intros c Hc. rewrite forallb_elem in H. by apply H. Qed.
Lemma plain_is_line s : plain s -> plain_line s.
Proof. unfold plain. rewrite Forall_forall. intros Hs. split; intros Hin; by apply Hs in Hin. Qed.
Lemma line_is_plain s : plain_line s -> plain s.
Proof.
  intros [Hl Hc]. apply Forall_forall. intros c Hin. unfold plain_char.
  rewrite !bool_decide_false; [done|by intros ->..].
Qed.
Lemma show_uint_plain z : plain (show_uint z).
Proof. apply line_is_plain. split; by apply show_uint_not_in. Qed.
Lemma digit_plain n : 0 <= n < 10 -> plain_char (digit_char n) = true.
Proof.
  intros Hn. assert (forallb (fun d => plain_char (digit_char d)) (seqZ 0 10) = true) as H by (vm_compute; reflexivity).
  rewrite forallb_elem in H. apply H, elem_of_seqZ. lia.
Qed.
Lemma show_hundredths_plain s q : plain (show_hundredths s q).
Proof.
  unfold show_hundredths. repeat apply plain_app; [destruct s; by apply plain_check|apply show_uint_plain|by apply plain_check|].
  pose proof (Z.mod_pos_bound q 100 ltac:(lia)). repeat apply Forall_cons_2; [..|constructor]; apply digit_plain.
  - split; [apply Z.div_pos; lia|apply Z.div_lt_upper_bound; lia].
  - apply Z.mod_pos_bound. lia.
Qed.
Lemma show_fixed2_plain x : plain (show_fixed2 x).
Proof.
  destruct x as [s|s| |s m e]; simpl; [apply show_hundredths_plain| |by apply plain_check|apply show_hundredths_plain].
  apply plain_app; [destruct s|]; by apply plain_check.
Qed.
Create HintDb plain_text.
#[local] Hint Resolve plain_app show_uint_plain show_fixed2_plain : plain_text.
#[local] Hint Extern 2 (plain (lit _)) => apply plain_check; reflexivity : plain_text.
#[local] Hint Extern 2 (plain (_ :: _)) => apply plain_check; reflexivity : plain_text.
#[local] Hint Extern 2 (plain []) => constructor : plain_text.
Lemma show_nat_plain n : plain (show_nat n).
Proof. apply show_uint_plain. Qed.
#[local] Hint Resolve show_nat_plain : plain_text.

Lemma metric_lines_plain s e r : Forall plain_line (metric_lines s e r).
Proof.
  unfold metric_lines, metric_sample, size_metric, quoted. repeat apply Forall_cons_2; try apply Forall_nil_2;
    apply plain_is_line; auto 10 with plain_text.
Qed.

(** What a scraper reads under a name: the rest of the first line that starts with it and a space. *)
Definition scrape (name text : str) : option str := head (omap (strip_prefix (name ++ lit " ")) (lines text)).
(** The head and the body of an answer: what is before and after the first blank line. *)
Lemma position_free c pat s r : c ∉ s -> position (c :: pat) (s ++ r) = Nat.add (length s) <$> position (c :: pat) r.
Proof.
  induction s as [|d s IH]; intros Hn; [cbn; by destruct (position _ r)|]. apply not_elem_of_cons in Hn as [Hd Hn].
  cbn [app position]. destruct (starts_with (c :: pat) (d :: s ++ r)) eqn:E.
  - apply starts_with_true in E as [q [= -> _]]. done.
  - rewrite IH by done. by destruct (position _ r).
Qed.
Lemma position_miss pat c s : starts_with pat (c :: s) = false -> position pat (c :: s) = S <$> position pat s.
Proof. intros E. cbn [position]. by rewrite E. Qed.
Lemma position_hit pat r : position pat (pat ++ r) = Some 0%nat.
Proof. unfold position. destruct (pat ++ r) eqn:E; rewrite <- E, starts_with_app; done. Qed.
Lemma head_position ls l body : Forall (fun l => CR ∉ l /\ l <> []) (ls ++ [l]) ->
  position crlf2 (framed (ls ++ [l]) (crlf ++ body)) = Some (length (framed ls l)).
Proof.
  induction ls as [|x ls IH]; cbn [app]; intros H; apply Forall_cons in H as [[Hx Hne] H]; rewrite framed_cons.
  - change crlf2 with (CR :: [LF; CR; LF]). rewrite position_free by done.
    change (crlf ++ framed [] (crlf ++ body)) with (CR :: LF :: CR :: LF :: body).
    change (CR :: LF :: CR :: LF :: body) with ((CR :: [LF; CR; LF]) ++ body). rewrite position_hit.
    cbn. f_equal. unfold framed. cbn. lia.
  - change crlf2 with (CR :: [LF; CR; LF]) at 1. rewrite position_free by done.
    change (CR :: [LF; CR; LF]) with crlf2. change (crlf ++ ?r) with (CR :: LF :: r).
    assert (exists c r, framed (ls ++ [l]) (crlf ++ body) = c :: r /\ c <> CR) as (c & r & Er & Hc).
    { destruct ls as [|y ls]; cbn [app] in *; apply Forall_cons in H as [[Hy Hny] _]; rewrite framed_cons.
      - destruct l as [|c l]; [done|]. exists c. eexists. split; [reflexivity|]. intros ->. apply Hy. left.
      - destruct y as [|c y]; [done|]. exists c. eexists. split; [reflexivity|]. intros ->. apply Hy. left. }
    rewrite position_miss, position_miss.
    + rewrite IH by done. rewrite framed_cons, !length_app. cbn [fmap option_fmap option_map].
      apply (f_equal Some). change (length crlf) with 2%nat. lia.
    + done.
    + rewrite Er. apply not_true_is_false. intros [q E]%starts_with_true. by injection E.
Qed.

Lemma split_head ls l body : Forall (fun l => CR ∉ l /\ l <> []) (ls ++ [l]) ->
  split_once crlf2 (framed (ls ++ [l]) (crlf ++ body)) = Some (framed ls l, body).
Proof.
  intros H. assert (framed (ls ++ [l]) (crlf ++ body) = framed ls l ++ crlf2 ++ body) as E.
  { clear H. induction ls as [|x ls IH]; cbn [app]; rewrite !framed_cons; [unfold framed; by rewrite <- !app_assoc|].
    by rewrite IH, <- !app_assoc. }
  unfold split_once. rewrite head_position by done. rewrite E, take_app_length. f_equal. f_equal.
  rewrite drop_app_add. change (length crlf2) with 4%nat. done.
Qed.

Lemma visible_ws_len table c s :
  forallb (fun w => match w with d :: _ => negb (visible d) | [] => false end) table = true ->
  visible c = true -> ws_len table (c :: s) = 0%nat.
Proof.
  intros Ht Hv. unfold ws_len. destruct (List.find _ _) as [w|] eqn:E; [|done]. apply find_some in E as [Hw Hs].
  rewrite forallb_forall in Ht. specialize (Ht _ Hw). destruct w as [|d w]; [done|].
  apply starts_with_true in Hs as [r [= -> _]]. by rewrite Hv in Ht.
Qed.
Lemma trim_from_visible table s :
  forallb (fun w => match w with d :: _ => negb (visible d) | [] => false end) table = true ->
  forallb visible s = true -> trim_from table 0 s = s.
Proof.
  intros Ht Hs. destruct s as [|c s]; [done|]. cbn in Hs. apply andb_true_iff in Hs as [Hc _]. cbn [trim_from].
  by rewrite visible_ws_len.
Qed.
Lemma trim_visible s : forallb visible s = true -> trim (lit " " ++ s) = s.
Proof.
  intros Hs. unfold trim. assert (trim_start (lit " " ++ s) = trim_from white_space 0 s) as -> by reflexivity.
  rewrite (trim_from_visible white_space) by (vm_compute; reflexivity) || done. unfold trim_end.
  rewrite trim_from_visible; [apply rev_involutive|vm_compute; reflexivity|].
  rewrite forallb_forall in *. intros c Hc. apply Hs. by rewrite in_rev.
Qed.
Lemma show_uint_visible z : forallb visible (show_uint z) = true.
Proof.
  rewrite forallb_elem. intros c Hc. pose proof (show_uint_digits z) as Hd. rewrite Forall_forall in Hd.
  specialize (Hd c Hc). unfold is_digit, visible, between in *. bsimp. apply andb_true_iff. split; apply Z.leb_le; lia.
Qed.

(** The lines of the head of [metrics_reply]. *)
Definition head_lines (n : nat) : list str :=
  [lit "Content-Type: text/plain; version=0.0.4"; lit "Content-Length: " ++ show_nat n].
Lemma head_lines_plain n : Forall plain_line (lit "HTTP/1.1 200 OK" :: head_lines n).
Proof. repeat apply Forall_cons_2; try apply Forall_nil_2; apply plain_is_line; auto with plain_text. Qed.
Lemma metrics_reply_framed body :
  metrics_reply body = framed ((lit "HTTP/1.1 200 OK" :: head_lines (length body)) ++ [lit "Connection: close"]) (crlf ++ body).
Proof.
  unfold metrics_reply, metrics_head, head_lines. cbn [app]. rewrite !framed_cons. unfold framed.
  cbn [map concat app]. by rewrite <- !app_assoc.
Qed.

Lemma metrics_head_reads body : Z.of_nat (length body) < 2 ^ 64 ->
  exists head, split_once crlf2 (metrics_reply body) = Some (head, body) /\
    parse_http_status (default [] (lines head !! 0%nat)) = 200 /\
    header_value (head ++ crlf) (lit "Content-Length") ≫= parse_u64 = Some (Z.of_nat (length body)).
Proof.
  intros Hb.
  eexists. rewrite metrics_reply_framed. split; [apply split_head|split].
  - unfold head_lines. repeat apply Forall_cons_2; try apply Forall_nil_2; (split; [|done]).
      1, 2, 4: apply (bool_decide_unpack _); vm_compute; exact I.
      rewrite not_elem_of_app. split; [apply (bool_decide_unpack _); vm_compute; exact I|by apply show_uint_not_in].
  - rewrite lines_framed; [reflexivity| |apply (bool_decide_unpack _); vm_compute; exact I].
      eapply Forall_impl; [apply head_lines_plain|]. by intros l [? _].
  - assert (framed (lit "HTTP/1.1 200 OK" :: head_lines (length body)) (lit "Connection: close") ++ crlf =
        framed (lit "HTTP/1.1 200 OK" :: head_lines (length body) ++ [lit "Connection: close"]) []) as ->.
      { unfold framed. cbn [map concat app head_lines]. by rewrite <- !app_assoc. }
      rewrite header_value_framed.
    + unfold head_lines. cbn [app List.find].
        change (is_header_line _ (lit "Content-Type: text/plain; version=0.0.4")) with false. cbn iota.
        unfold is_header_line, header_prefix, to_ascii_lowercase. rewrite map_app.
        change (map ascii_lower (lit "Content-Length: ")) with ((map ascii_lower (lit "Content-Length") ++ lit ":") ++ lit " ").
        rewrite <- app_assoc, starts_with_app. cbn [mbind option_bind].
        change (drop (length (lit "Content-Length") + 1) (lit "Content-Length: " ++ show_nat (length body)))
          with (lit " " ++ show_nat (length body)). rewrite trim_visible by apply show_uint_visible.
        apply parse_show_uint. lia.
    + rewrite ascii_text_framed. split; [|done]. unfold head_lines. repeat apply Forall_cons_2; try apply Forall_nil_2; try done.
        apply ascii_text_app. split; [done|]. apply visible_ascii, show_uint_visible.
    + apply (Forall_impl plain_line); [|by intros l [? _]].
        change (Forall plain_line ((lit "HTTP/1.1 200 OK" :: head_lines (length body)) ++ [lit "Connection: close"])).
        apply Forall_app_2; [apply head_lines_plain|]. apply Forall_cons_2, Forall_nil_2. by apply plain_is_line, plain_check.
Qed.


Section metrics_demo.
#[local] Existing Instance ascii_case.
Definition demo_pool : Pool := from_proxies (map proxy slow_fast) PoolConfig_default.
End metrics_demo.

(** ** The summary *)
Lemma count_desc_order : CmpOrder (fun a b : str * nat => Nat.compare b.2 a.2).
Proof.
  split; intros; [apply Nat.compare_antisym|]. rewrite Nat.compare_le_iff in *. lia.
Qed.
#[export] Instance country_cmp_order : CmpOrder country_cmp.
Proof.
  pose proof count_desc_order. exact (cmp_then_order (fun a b : str * nat => Nat.compare b.2 a.2) (cmp_on fst str_cmp)).
Qed.
Lemma sorted_take {A} (R : A -> A -> Prop) n l : StronglySorted R l ->
  StronglySorted R (take n l) /\ forall x y, x ∈ take n l -> y ∈ drop n l -> R x y.
Proof.
  intros H. revert n. induction H as [|x l H IH Hx]; intros n.
  - rewrite take_nil, drop_nil. split; [constructor|]. by intros ? ? ?%elem_of_nil.
  - destruct n as [|n]; simpl; [split; [constructor|by intros ? ? ?%elem_of_nil]|]. destruct (IH n) as [H1 H2].
    split; [constructor; [done|by apply Forall_take]|]. intros a b [->|Ha]%elem_of_cons Hb; [|by apply H2].
    rewrite Forall_forall in Hx. apply Hx. rewrite <- (take_drop n l). apply elem_of_app. by right.
Qed.
Lemma str_entries_perm {V} (m : gmap str V) : str_entries m ≡ₚ map_to_list m.
Proof. apply sort_by_perm. Qed.
Lemma elem_of_str_entries {V} (m : gmap str V) k v : (k, v) ∈ str_entries m <-> m !! k = Some v.
Proof. rewrite str_entries_perm. apply elem_of_map_to_list. Qed.
Lemma join_plain sep l : plain sep -> Forall plain l -> plain (join sep l).
Proof. apply Forall_join. Qed.
Lemma count_list_plain {K} (show : K -> str) l : (forall k n, (k, n) ∈ l -> plain (show k)) -> plain (count_list show l).
Proof.
  intros Hl. apply join_plain; [by apply plain_check|]. apply Forall_map, Forall_forall. intros [k n] Hk.
  apply plain_app; [by apply (Hl k n)|]. auto with plain_text.
Qed.
(** The names in a summary have no line ends. *)
Definition names_plain (s : Stats) : Prop :=
  (forall c n, st_by_country s !! c = Some n -> plain c) /\ (forall e n, st_errors s !! e = Some n -> plain e).
Lemma top_elem m c n : (c, n) ∈ top_countries m -> m !! c = Some n.
Proof.
  intros Hin. apply elem_of_str_entries. rewrite <- (sort_by_perm country_cmp).
  rewrite <- (take_drop 10 (sort_by _ _)). apply elem_of_app. by left.
Qed.
Lemma stats_lines_plain s : names_plain s -> Forall plain_line (stats_lines s).
Proof.
  intros [Hc He]. apply (Forall_impl plain); [|exact plain_is_line]. unfold stats_lines.
  repeat apply (Forall_app_2 plain); repeat case_match; repeat apply (Forall_cons_2 plain); try apply (Forall_nil_2 plain); auto 10 with plain_text.
  - apply plain_app; [by apply plain_check|]. apply count_list_plain. intros [] ? _; by apply plain_check.
  - apply plain_app; [by apply plain_check|]. apply count_list_plain. intros [] ? _; by apply plain_check.
  - apply plain_app; [by apply plain_check|]. apply count_list_plain. intros c k Hin%top_elem. by apply (Hc c k).
  - apply plain_app; [by apply plain_check|]. apply join_plain; [by apply plain_check|]. apply Forall_map, Forall_forall.
    intros [e k] Hin%elem_of_str_entries. apply plain_app; [by apply (He e k)|]. auto with plain_text.
Qed.

(** The summary is complete lines, and its countries are the ten with the highest counts (ties in
    the order of their codes), in that order, each once and with its count; none left out has a
    higher count than one that is shown. *)
Theorem stats_report : forall s, names_plain s ->
  let m := st_by_country s in let top := top_countries m in
  lines (stats_display s) = stats_lines s /\
  StronglySorted (in_order country_cmp) top /\ NoDup (map fst top) /\ length top = (10 `min` size m)%nat /\
  (forall c n, (c, n) ∈ top -> m !! c = Some n) /\
  (forall c n c' n', (c, n) ∈ top -> m !! c' = Some n' -> (c', n') ∉ top -> (n' <= n)%nat).
Proof.
  intros s Hs m top. split; [by apply lines_text_of, stats_lines_plain|].
  pose proof (sorted_take _ 10 _ (sort_by_sorted country_cmp (str_entries m))) as [Hso Hsp].
  assert (sort_by country_cmp (str_entries m) ≡ₚ map_to_list m) as Hperm by (by rewrite sort_by_perm, str_entries_perm).
  split; [exact Hso|]. split.
  - assert (NoDup (map fst (sort_by country_cmp (str_entries m)))) as Hn.
    { apply (NoDup_Permutation_proper (fst <$> map_to_list m)); [by apply fmap_Permutation|]. apply NoDup_fst_map_to_list. }
    rewrite <- (take_drop 10 (sort_by _ _)), map_app in Hn. by apply NoDup_app in Hn as [? _].
  - split; [unfold top, top_countries; by rewrite length_take, Hperm, length_map_to_list|].
    split; [intros c n; apply top_elem|]. intros c n c' n' Hin Hm Hout.
    assert ((c', n') ∈ sort_by country_cmp (str_entries m)) as Hel by (rewrite Hperm; by apply elem_of_map_to_list).
    rewrite <- (take_drop 10 (sort_by _ _)), elem_of_app in Hel. destruct Hel as [Hel|Hel]; [done|].
    specialize (Hsp _ _ Hin Hel). unfold in_order, country_cmp, cmp_then in Hsp. cbn in Hsp.
    destruct (Nat.compare_spec n' n); [lia|lia|done].
Qed.
