(* ===== verification/Dashboard.v ===== *)
(** * The terminal dashboard (src/tui.rs)

    The state behind the [top] command: what a snapshot of the pool and a key press make of it, the
    texts and numbers of a frame, the event loop and the modes of the terminal around it. Laying a
    frame out on the screen is ratatui's. *)
From S2P Require Import Prelude F64 Text Types Addr Proxy Pool Report.
Open Scope Z_scope.

Abbreviation Key := (IpAddr * Z)%type.

Record Row := {
  row_key : Key;
  row_addr : str;
  row_protos : str;
  row_error_rate : f64;
  row_resp_time : f64;
  row_country : str;
}.
Inductive SortKey := ByAddr | ByErrorRate | ByRespTime | ByCountry.
Definition RING_CAP : nat := 60.
Record DashboardState := {
  d_rows : list Row;
  d_snapshot : PoolSnapshot;
  d_sort : SortKey;
  d_history : gmap Key (list f64);
  d_selected : nat;
}.
Definition snapshot_default : PoolSnapshot :=
  {| sn_http := 0; sn_https := 0; sn_total := 0; sn_avg_error_rate := f_zero; sn_avg_resp_time := f_zero;
     sn_probe_latency_avg := f_zero |}.
Definition dashboard_default : DashboardState :=
  {| d_rows := []; d_snapshot := snapshot_default; d_sort := ByRespTime; d_history := ∅; d_selected := 0 |}.

Definition row_of (p : Proxy) : Row :=
  {| row_key := p_key p; row_addr := addr p;
     row_protos := join (lit ",") (map (fun t => proto_as_str t.1) (types_list (p_types p)));
     row_error_rate := error_rate p; row_resp_time := avg_resp_time p;
     row_country := match p_geo p with Some c => c_code c | None => [] end |}.
Definition row_cmp (k : SortKey) : Row -> Row -> comparison :=
  match k with
  | ByAddr => cmp_on row_addr str_cmp
  | ByErrorRate => cmp_on row_error_rate total_cmp
  | ByRespTime => cmp_on row_resp_time total_cmp
  | ByCountry => cmp_on row_country str_cmp
  end.
Definition sort_rows (k : SortKey) (rows : list Row) : list Row := sort_by (row_cmp k) rows.

(** The push of one response time and the loop that pops the oldest ones. *)
Definition push_ring (ring : list f64) (x : f64) : list f64 :=
  let ring := ring ++ [x] in drop (length ring - RING_CAP) ring.
Definition push_history (h : gmap Key (list f64)) (p : Proxy) : gmap Key (list f64) :=
  <[p_key p := push_ring (default [] (h !! p_key p)) (avg_resp_time p)]> h.

(** The header counts, in one pass over the proxies. *)
Definition count_step (acc : nat * nat * f64 * f64 * f64) (p : Proxy) : nat * nat * f64 * f64 * f64 :=
  let '(http, https, err_sum, rt_sum, probe_sum) := acc in
  (if serves SHttp p then S http else http, if serves SHttps p then S https else https,
   f_add err_sum (error_rate p), f_add rt_sum (avg_resp_time p), f_add probe_sum (probe_latency p)).
Definition header_snapshot (proxies : list Proxy) : PoolSnapshot :=
  let total := length proxies in
  let '(http, https, err_sum, rt_sum, probe_sum) := fold_left count_step proxies (0%nat, 0%nat, f_zero, f_zero, f_zero) in
  let mean x := if (0 <? total)%nat then f_div x (f_of_Z (Z.of_nat total)) else f_zero in
  {| sn_http := http; sn_https := https; sn_total := total; sn_avg_error_rate := mean err_sum;
     sn_avg_resp_time := mean rt_sum; sn_probe_latency_avg := mean probe_sum |}.

Definition apply (proxies : list Proxy) (s : DashboardState) : DashboardState :=
  let rows := sort_rows (d_sort s) (map row_of proxies) in
  {| d_rows := rows; d_snapshot := header_snapshot proxies; d_sort := d_sort s;
     d_history := fold_left push_history proxies (d_history s);
     d_selected := d_selected s `min` (length rows - 1) |}.

Inductive KeyCode := KChar (c : ascii) | KEsc | KDown | KUp | KOther.
Definition with_sort (k : SortKey) (s : DashboardState) : DashboardState :=
  {| d_rows := sort_rows k (d_rows s); d_snapshot := d_snapshot s; d_sort := k; d_history := d_history s;
     d_selected := d_selected s |}.
Definition select (n : nat) (s : DashboardState) : DashboardState :=
  {| d_rows := d_rows s; d_snapshot := d_snapshot s; d_sort := d_sort s; d_history := d_history s; d_selected := n |}.
Definition select_down (s : DashboardState) : DashboardState :=
  match d_rows s with [] => s | _ => select (S (d_selected s) `min` (length (d_rows s) - 1)) s end.
Definition select_up (s : DashboardState) : DashboardState := select (d_selected s - 1) s.
Definition on_key (key : KeyCode) (s : DashboardState) : bool * DashboardState :=
  match key with
  | KEsc => (false, s)
  | KDown => (true, select_down s)
  | KUp => (true, select_up s)
  | KChar c =>
      if decide (c = "q"%char) then (false, s)
      else if decide (c = "a"%char) then (true, with_sort ByAddr s)
      else if decide (c = "e"%char) then (true, with_sort ByErrorRate s)
      else if decide (c = "r"%char) then (true, with_sort ByRespTime s)
      else if decide (c = "c"%char) then (true, with_sort ByCountry s)
      else if decide (c = "j"%char) then (true, select_down s)
      else if decide (c = "k"%char) then (true, select_up s)
      else (true, s)
  | KOther => (true, s)
  end.

(** ** A frame *)
(** [x.round() as u64]: half away from zero, then a saturating cast. *)
Definition f_round_u64 (x : f64) : Z :=
  match x with
  | S754_infinity false => 2 ^ 64 - 1
  | S754_finite false m e =>
      Z.min (2 ^ 64 - 1) (if 0 <=? e then Zpos m * 2 ^ e else (2 * Zpos m + 2 ^ (- e)) / (2 * 2 ^ (- e)))
  | _ => 0
  end.
Record Frame := { fr_header : str; fr_table : list (list str); fr_spark : list Z }.
Definition header_text (sn : PoolSnapshot) : str :=
  lit "total " ++ show_nat (sn_total sn) ++ lit " | http " ++ show_nat (sn_http sn) ++ lit " | https " ++ show_nat (sn_https sn) ++
  lit " | avg err " ++ show_fixed2 (sn_avg_error_rate sn) ++ lit " | avg resp " ++ show_fixed2 (sn_avg_resp_time sn) ++ lit "s".
Definition table_row (r : Row) : list str :=
  [row_addr r; row_protos r; show_fixed2 (row_error_rate r); show_fixed2 (row_resp_time r); row_country r].
Definition selected_ring (s : DashboardState) : option (list f64) :=
  let? r := d_rows s !! d_selected s in d_history s !! row_key r.
Definition render (s : DashboardState) : Frame :=
  {| fr_header := header_text (d_snapshot s);
     fr_table := [lit "Addr"; lit "Protos"; lit "Err%"; lit "Resp(s)"; lit "Country"] :: map table_row (d_rows s);
     fr_spark := map (fun secs => f_round_u64 (f_mul secs (f_of_Z 1000))) (default [] (selected_ring s)) |}.

(** ** The event loop ([run_top]) *)
Inductive KeyKind := Press | Repeat | Release.
Inductive TermEvent := TKey (kind : KeyKind) (code : KeyCode) | TOther | TError.
(** What the [select!] takes: a tick, with the pool's proxies then, or the next terminal event. *)
Inductive LoopEvent := LTick (proxies : list Proxy) | LNext (ev : option TermEvent).
(** [None] leaves the loop. *)
Definition loop_step (e : LoopEvent) (s : DashboardState) : option DashboardState :=
  match e with
  | LTick proxies => Some (apply proxies s)
  | LNext (Some (TKey Press code)) => let '(go, s) := on_key code s in if go then Some s else None
  | LNext (Some TError) | LNext None => None
  | LNext _ => Some s
  end.
(** How the loop is left: by an event, by a failing draw, by a panic; or not yet. *)
Inductive LoopEnd := Quit | DrawFailed | Panicked | Running.
Inductive DrawResult := Drawn | DrawError | DrawPanic.
(** Each round draws, then takes an event. *)
Fixpoint top_loop (es : list (DrawResult * LoopEvent)) (s : DashboardState) : list Frame * LoopEnd :=
  match es with
  | [] => ([], Running)
  | (DrawError, _) :: _ => ([], DrawFailed)
  | (DrawPanic, _) :: _ => ([], Panicked)
  | (Drawn, e) :: es =>
      match loop_step e s with
      | None => ([render s], Quit)
      | Some s' => let '(frames, how) := top_loop es s' in (render s :: frames, how)
      end
  end.
Definition tick_period (refresh : Z) : Z := Z.max refresh (100 * 10 ^ 6).

(** *** The terminal's modes *)
Record Terminal := { raw_mode : bool; alt_screen : bool }.
(** Whether each of the four calls succeeds. *)
Record TermOps := { op_raw : bool; op_alt : bool; op_unraw : bool; op_leave : bool }.
Definition unraw (o : TermOps) (t : Terminal) : Terminal :=
  {| raw_mode := raw_mode t && negb (op_unraw o); alt_screen := alt_screen t |}.
(** [Drop for TermGuard], and the panic hook. *)
Definition restore (o : TermOps) (t : Terminal) : Terminal :=
  let t := unraw o t in {| raw_mode := raw_mode t; alt_screen := alt_screen t && negb (op_leave o) |}.
Definition enter (o : TermOps) (t : Terminal) : bool * Terminal :=
  if op_raw o then
    let t := {| raw_mode := true; alt_screen := alt_screen t |} in
    if op_alt o then (true, {| raw_mode := true; alt_screen := true |}) else (false, unraw o t)
  else (false, t).
(** Whether it ends well, the frames drawn and the terminal it leaves; [opened]: [Terminal::new]. *)
Definition run_top (o : TermOps) (opened : bool) (first : list Proxy) (es : list (DrawResult * LoopEvent)) (t : Terminal)
    : LoopEnd * list Frame * Terminal :=
  let '(entered, t) := enter o t in
  if negb entered then (DrawFailed, [], t)
  else if negb opened then (DrawFailed, [], restore o t)
  else
    let '(frames, how) := top_loop es (apply first dashboard_default) in
    match how with
    | Running => (Running, frames, t)
    | Panicked => (Panicked, frames, restore o (restore o t))
    | how => (how, frames, restore o t)
    end.

(** What happens to a dashboard. *)
Inductive DashEvent := DApply (proxies : list Proxy) | DKey (key : KeyCode).
Definition dash_step (s : DashboardState) (e : DashEvent) : DashboardState :=
  match e with DApply proxies => apply proxies s | DKey key => (on_key key s).2 end.
Definition dash_run (es : list DashEvent) : DashboardState := fold_left dash_step es dashboard_default.

(** ** Sorting *)
#[export] Instance row_cmp_order k : CmpOrder (row_cmp k).
Proof. destruct k; apply _. Qed.


(** ** What a dashboard shows *)
Fixpoint last_applied (acc : list Proxy) (es : list DashEvent) : list Proxy :=
  match es with
  | [] => acc
  | DApply proxies :: es => last_applied proxies es
  | DKey _ :: es => last_applied acc es
  end.
(** The response times a run of frames has shown for an address, in order. *)
Definition times_of (k : Key) (proxies : list Proxy) : list f64 :=
  map avg_resp_time (List.filter (fun p => bool_decide (p_key p = k)) proxies).
Definition samples (k : Key) (es : list DashEvent) : list f64 :=
  concat (map (fun e => match e with DApply proxies => times_of k proxies | DKey _ => [] end) es).
(** The last [RING_CAP] of them. *)
Definition ring_of (l : list f64) : option (list f64) :=
  match l with [] => None | _ => Some (drop (length l - RING_CAP) l) end.

Lemma push_ring_snoc l x : Some (push_ring (default [] (ring_of l)) x) = ring_of (l ++ [x]).
Proof.
  unfold push_ring. assert (default [] (ring_of l) = drop (length l - RING_CAP) l) as -> by (by destruct l).
  replace (ring_of (l ++ [x])) with (Some (drop (length (l ++ [x]) - RING_CAP) (l ++ [x]))) by (by destruct l).
  apply (f_equal Some). cbv zeta. rewrite !length_app, length_drop. simpl length.
  rewrite <- drop_app_le, drop_drop by lia. f_equal. lia.
Qed.
Lemma history_push ps : forall h done k, (forall k, h !! k = ring_of (done k)) ->
  fold_left push_history ps h !! k = ring_of (done k ++ times_of k ps).
Proof.
  induction ps as [|p ps IH]; intros h done k Hh; simpl; [by rewrite app_nil_r|].
  rewrite (IH _ (fun j => done j ++ times_of j [p])).
  - rewrite <- app_assoc. f_equal. f_equal. unfold times_of. simpl. by case_bool_decide.
  - intros j. unfold push_history, times_of. simpl. destruct (decide (p_key p = j)) as [->|Hne].
    + rewrite lookup_insert_eq, Hh, bool_decide_true by done. apply push_ring_snoc.
    + rewrite lookup_insert_ne, bool_decide_false, app_nil_r by done. apply Hh.
Qed.

Lemma count_fold ps : forall a b x y z,
  fold_left count_step ps (a, b, x, y, z) =
    ((a + length (retain (serves SHttp) ps))%nat, (b + length (retain (serves SHttps) ps))%nat,
     fold_left f_add (map error_rate ps) x, fold_left f_add (map avg_resp_time ps) y,
     fold_left f_add (map probe_latency ps) z).
Proof.
  induction ps as [|p ps IH]; intros a b x y z; simpl; [by rewrite !Nat.add_0_r|].
  rewrite IH. f_equal; f_equal; f_equal; f_equal; destruct (serves _ p); simpl; lia.
Qed.
Lemma header_snapshot_spec pool : header_snapshot (proxies pool) = snapshot pool.
Proof. unfold header_snapshot, snapshot. by rewrite count_fold. Qed.

Record dash_ok (ps : list Proxy) (es : list DashEvent) (s : DashboardState) : Prop := {
  ok_rows : d_rows s ≡ₚ map row_of ps;
  ok_sorted : StronglySorted (in_order (row_cmp (d_sort s))) (d_rows s);
  ok_selected : (d_selected s <= length (d_rows s) - 1)%nat;
  ok_history : forall k, d_history s !! k = ring_of (samples k es);
  ok_snapshot : d_snapshot s = header_snapshot ps;
}.
Lemma samples_snoc k es e : samples k (es ++ [e]) = samples k es ++ match e with DApply ps => times_of k ps | DKey _ => [] end.
Proof. unfold samples. rewrite map_app, concat_app. simpl. by rewrite app_nil_r. Qed.
Lemma last_applied_snoc acc es e :
  last_applied acc (es ++ [e]) = match e with DApply ps => ps | DKey _ => last_applied acc es end.
Proof. revert acc. induction es as [|[ps|k] es IH]; intros acc; simpl; [by destruct e|apply IH..]. Qed.

Lemma with_sort_ok ps es k s : dash_ok ps es s -> dash_ok ps es (with_sort k s).
Proof.
  intros [H1 H2 H3 H4 H5]. split; simpl; [|apply sort_by_sorted; apply _| |done|done].
  - unfold sort_rows. by rewrite sort_by_perm.
  - unfold sort_rows. by rewrite sort_by_perm.
Qed.
Lemma select_ok ps es n s : (n <= length (d_rows s) - 1)%nat -> dash_ok ps es s -> dash_ok ps es (select n s).
Proof. intros Hn [H1 H2 H3 H4 H5]. by split. Qed.
Lemma on_key_ok ps es key s : dash_ok ps es s -> dash_ok ps es (on_key key s).2.
Proof.
  intros H. assert (dash_ok ps es (select_down s)) as Hd.
  { unfold select_down. destruct (d_rows s) eqn:E; [done|]. apply select_ok; [rewrite E; lia|done]. }
  assert (dash_ok ps es (select_up s)) as Hu.
  { apply select_ok; [|done]. pose proof (ok_selected _ _ _ H). lia. }
  destruct key; simpl; try done. repeat case_decide; simpl; try done; by apply with_sort_ok.
Qed.
Lemma dash_run_ok es : dash_ok (last_applied [] es) es (dash_run es).
Proof.
  induction es as [|e es IH] using rev_ind; [by split; simpl; try constructor|].
  unfold dash_run. rewrite fold_left_app. fold (dash_run es). simpl. rewrite last_applied_snoc.
  destruct e as [ps|key]; simpl.
  - split; simpl; [by unfold sort_rows; rewrite sort_by_perm|apply sort_by_sorted; apply _|lia| |done].
    intros k. rewrite samples_snoc. apply (history_push ps _ (fun k => samples k es)), IH.
  - destruct (on_key_ok _ _ key _ IH) as [H1 H2 H3 H4 H5]. split; try done.
    intros k. by rewrite samples_snoc, app_nil_r.
Qed.

(** The dashboard after any frames and key presses. Its rows are those of the proxies of the
    last frame, in the order of the current column; the selection is a row, or zero without rows;
    the header counts are the pool's own snapshot of those proxies; the ring of an address holds
    the last sixty of all response times shown for it, whether or not it left the pool in
    between. Only [q] and Escape quit, and they change nothing. *)
Theorem dashboard_sound : forall es,
  let s := dash_run es in
  let ps := last_applied [] es in
  d_rows s ≡ₚ map row_of ps /\ StronglySorted (in_order (row_cmp (d_sort s))) (d_rows s) /\
  (d_rows s = [] /\ d_selected s = 0%nat \/ (d_selected s < length (d_rows s))%nat) /\
  (forall pool, proxies pool = ps -> d_snapshot s = snapshot pool) /\
  (forall k, d_history s !! k = ring_of (samples k es)) /\
  (forall k ring, d_history s !! k = Some ring -> (0 < length ring <= RING_CAP)%nat) /\
  forall key, (on_key key s).1 = false <-> (key = KChar "q" \/ key = KEsc) /\ (on_key key s).2 = s.
Proof.
  intros es s ps. destruct (dash_run_ok es) as [H1 H2 H3 H4 H5]. fold s in H1, H2, H3, H4, H5. fold ps in H1, H5.
  split; [done|]. split; [done|]. split; [|split; [|split; [done|split]]].
  - destruct (d_rows s); [left; simpl in H3; split; [done|lia]|right; simpl in *; lia].
  - intros pool Hp. rewrite H5, <- Hp. apply header_snapshot_spec.
  - intros k ring Hk. rewrite H4 in Hk. unfold ring_of in Hk. destruct (samples k es) as [|x l]; [done|].
    injection Hk as <-. unfold RING_CAP. rewrite length_drop. simpl. lia.
  - intros key. destruct key as [c| | | |]; simpl; try (split; [discriminate|intros [[?|?] _]; discriminate]); [|split; [by auto|done]].
    repeat case_decide; subst; simpl; (split; [intros ?; first [discriminate|by auto]|intros [[?|?] _]; congruence]).
Qed.

(** ** The loop *)
#[export] Instance KeyCode_eq_dec : EqDecision KeyCode.
Proof. solve_decision. Defined.
Definition action (e : LoopEvent) : option DashEvent :=
  match e with LTick ps => Some (DApply ps) | LNext (Some (TKey Press code)) => Some (DKey code) | LNext _ => None end.
(** The events that leave the loop. *)
Definition leaves (e : LoopEvent) : bool :=
  match e with
  | LNext (Some (TKey Press code)) => bool_decide (code = KChar "q" \/ code = KEsc)
  | LNext (Some TError) | LNext None => true
  | _ => false
  end.
Definition step_by (o : option DashEvent) (s : DashboardState) : DashboardState :=
  match o with Some a => dash_step s a | None => s end.
Lemma loop_step_spec e s : loop_step e s = if leaves e then None else Some (step_by (action e) s).
Proof.
  destruct e as [ps|[[[] code| |]|]]; try done. cbn [loop_step leaves action step_by dash_step].
  destruct code as [c| | | |]; cbn -[decide]; try done.
  destruct (decide (c = "q"%char)) as [->|Hq]; [by rewrite bool_decide_true by (by left)|].
  rewrite bool_decide_false by (intros [[= ?]|?]; done). by repeat case_decide.
Qed.
Lemma dash_run_snoc past o : dash_run (past ++ option_list o) = step_by o (dash_run past).
Proof. unfold dash_run. rewrite fold_left_app. by destruct o. Qed.

(** The frames of a loop, and why it was left. *)
Definition loop_spec (past : list DashEvent) (es : list (DrawResult * LoopEvent)) (frames : list Frame) (how : LoopEnd) : Prop :=
  (forall i f, frames !! i = Some f -> f = render (dash_run (past ++ omap action (take i (map snd es))))) /\
  match how with
  | Quit => exists i e, es !! i = Some (Drawn, e) /\ leaves e = true /\ length frames = S i
  | DrawFailed => exists e, es !! length frames = Some (DrawError, e)
  | Panicked => exists e, es !! length frames = Some (DrawPanic, e)
  | Running => length frames = length es
  end /\
  (forall x, x ∈ take (length frames - 1) es -> x.1 = Drawn /\ leaves x.2 = false) /\
  ((forall x, x ∈ es -> x.1 = Drawn /\ leaves x.2 = false) -> how = Running).
Lemma top_loop_spec es past frames how : top_loop es (dash_run past) = (frames, how) -> loop_spec past es frames how.
Proof.
  revert past frames how. induction es as [|[d e] es IH]; intros past frames how.
  { intros [= <- <-]. split; [intros i f Hi; by rewrite lookup_nil in Hi|]. split; [done|]. split; [by intros x ?%elem_of_nil|done]. }
  assert (forall d0 h, d0 <> Drawn -> loop_spec past ((d0, e) :: es) [] h <->
    match h with Quit => False | DrawFailed => d0 = DrawError | Panicked => d0 = DrawPanic | Running => False end) as Hstop.
  { intros d0 h Hd. unfold loop_spec. cbn. split.
    - intros (_ & H & _ & Hr). destruct h; [by destruct H as (? & ? & _ & _ & ?)|destruct H as [? [= ?]]..|done]; done.
    - intros H. split; [intros i f Hi; by rewrite lookup_nil in Hi|]. split; [destruct h; subst; eauto; done|]. split; [by intros x ?%elem_of_nil|].
      intros Hall. destruct (Hall (d0, e)) as [? _]; [left|]. done. }
  cbn [top_loop]. destruct d; [|intros [= <- <-]; by apply Hstop..].
  rewrite loop_step_spec. destruct (leaves e) eqn:El.
  - intros [= <- <-]. split; [|split; [by exists 0%nat, e|]].
    + intros [|i] f; [|done]. intros [= <-]. cbn. by rewrite app_nil_r.
    + split; [by intros x ?%elem_of_nil|]. intros Hall. destruct (Hall (Drawn, e)) as [_ H]; [left|]. cbn in H. by rewrite El in H.
  - destruct (top_loop es (step_by (action e) (dash_run past))) as [fs h] eqn:E. intros [= <- <-].
    rewrite <- dash_run_snoc in E. apply IH in E as (H1 & H2 & H3 & H4). split; [|split; [|split]].
    + intros [|i] f; cbn; [intros [= <-]; by rewrite app_nil_r|]. intros Hf. rewrite (H1 i f Hf), <- app_assoc.
      do 3 f_equal. by destruct (action e).
    + destruct h; cbn; [|done|done|lia]. destruct H2 as (i & e' & ? & ? & ?). exists (S i), e'. split; [done|]. split; [done|]. lia.
    + cbn. rewrite Nat.sub_0_r. intros x Hx. destruct (length fs) as [|n] eqn:En; [by apply elem_of_nil in Hx|].
      cbn in Hx. apply elem_of_cons in Hx as [->|Hx]; [done|]. apply H3. by rewrite Nat.sub_succ, Nat.sub_0_r.
    + intros Hall. apply H4. intros x Hx. apply Hall. by right.
Qed.

(** What is on the screen after the events [past]. *)
Record shows (past : list DashEvent) (f : Frame) : Prop := {
  sh_header : forall pool, proxies pool = last_applied [] past -> fr_header f = header_text (snapshot pool);
  sh_table : exists rows, rows ≡ₚ map row_of (last_applied [] past) /\
    StronglySorted (in_order (row_cmp (d_sort (dash_run past)))) rows /\
    fr_table f = [lit "Addr"; lit "Protos"; lit "Err%"; lit "Resp(s)"; lit "Country"] :: map table_row rows;
  sh_spark : fr_spark f = [] /\ last_applied [] past = [] \/
    exists p, p ∈ last_applied [] past /\ let times := samples (p_key p) past in
      fr_spark f = map (fun secs => f_round_u64 (f_mul secs (f_of_Z 1000))) (drop (length times - RING_CAP) times);
  sh_bounds : (length (fr_spark f) <= RING_CAP)%nat /\ Forall (fun ms => 0 <= ms < 2 ^ 64) (fr_spark f);
}.
Lemma f_round_u64_range x : 0 <= f_round_u64 x < 2 ^ 64.
Proof.
  unfold f_round_u64. destruct x as [[]|[]| |[] m e]; try lia.
  assert (0 <= if 0 <=? e then Zpos m * 2 ^ e else (2 * Zpos m + 2 ^ (- e)) / (2 * 2 ^ (- e))); [|lia].
  destruct (Z.leb_spec 0 e); [by apply Z.mul_nonneg_nonneg; [|apply Z.pow_nonneg]|].
  assert (0 < 2 ^ (- e)) by (apply Z.pow_pos_nonneg; lia). apply Z.div_pos; lia.
Qed.
Lemma drop_ring (l : list f64) : (length (drop (length l - RING_CAP) l) <= RING_CAP)%nat.
Proof. rewrite length_drop. lia. Qed.
Lemma render_shows past : shows past (render (dash_run past)).
Proof.
  destruct (dash_run_ok past) as [H1 H2 H3 H4 H5]. set (s := dash_run past) in *. set (ps := last_applied [] past) in *.
  assert (fr_spark (render s) = [] /\ ps = [] \/ exists p, p ∈ ps /\ let times := samples (p_key p) past in
      fr_spark (render s) = map (fun secs => f_round_u64 (f_mul secs (f_of_Z 1000))) (drop (length times - RING_CAP) times)) as Hsp.
  { unfold render, selected_ring. cbn [fr_spark]. destruct (d_rows s) as [|r0 rows] eqn:Er.
    - left. cbn. split; [done|]. destruct ps; [done|]. by apply Permutation_nil_cons in H1.
    - right. destruct (lookup_lt_is_Some_2 (r0 :: rows) (d_selected s)) as [r Hr]; [cbn in *; lia|]. rewrite Hr. cbn.
      assert (r ∈ map row_of ps) as (p & -> & Hp)%list_elem_of_fmap by (rewrite <- H1; by eapply list_elem_of_lookup_2).
      exists p. split; [done|]. rewrite H4. change (row_key (row_of p)) with (p_key p). by destruct (samples (p_key p) past). }
  split.
  - intros pool Hp. unfold render. cbn. by rewrite H5; unfold ps; rewrite <- Hp, header_snapshot_spec.
  - exists (d_rows s). by split_and!.
  - exact Hsp.
  - split; [|apply Forall_map, Forall_true; intros x; apply f_round_u64_range].
    destruct Hsp as [[-> _]|(p & _ & ->)]; [cbn; lia|]. rewrite length_map. apply drop_ring.
Qed.

