(* ===== verification/Sink.v ===== *)
(** * What the command line reads and writes (src/bin/proxybroker.rs, [write_stream])

    The files and the two output streams as a state, every operation on them as a step that may
    fail after part of its work, and the loop that drains a stream of proxies into them: the
    output, the file of [--save] beside it, and the progress bar. The three are written in three ways: a
    file of the standard library at once, tokio's [File] with one write under way behind the caller's
    back, and the standard output through a buffer that goes out with each line. Paths are compared as texts: two
    names of one file are not known to be one. *)
From S2P Require Import Prelude F64 Text Types Addr Proxy ProxyJson Stats Report Http Ndjson Cli.
Open Scope Z_scope.

(** ** The system *)
(** What the next operation meets: it goes through, or it fails after so many bytes. *)
Inductive IoEv := IoOk | IoFault (written : nat).
(** An open file: what has been handed over is written up to [hd_pos], and [hd_flight] is under way. *)
Record Handle := mkHandle { hd_path : str; hd_pos : nat; hd_flight : str }.
Record Sys := mkSys {
  files : gmap str str;
  opened : list Handle;      (* the files created *)
  input : str;
  delivered : str;               (* what has out_to the standard output *)
  buffered : str;                (* and what its line buffer still holds *)
  notes : list str;          (* what has been printed to standard error *)
  script : list IoEv;        (* beyond its end, nothing fails *)
}.
(** All that has been printed. *)
Definition out (s : Sys) : str := delivered s ++ buffered s.
(** The [Box<dyn Error>] of the commands. *)
Inductive CmdError := CIo | CNdjson (e : NdjsonError) | CLib (e : Error) | CAddr | CText (msg : str).

Definition IO (A : Type) : Type := Sys -> result A CmdError * Sys.
Definition io_ret {A} (a : A) : IO A := fun s => (Ok a, s).
Definition io_fail {A} (e : CmdError) : IO A := fun s => (Err e, s).
Definition io_bind {A B} (m : IO A) (k : A -> IO B) : IO B :=
  fun s => match m s with (Ok a, s) => k a s | (Err e, s) => (Err e, s) end.
Notation "'do!' x ':=' m 'in' k" := (io_bind m (fun x => k))
  (at level 10, x pattern, m at level 100, k at level 200) : rs_scope.
Notation "'then!' m 'in' k" := (io_bind m (fun _ => k))
  (at level 10, m at level 100, k at level 200) : rs_scope.
Definition lift {A} (r : result A CmdError) : IO A := fun s => (r, s).

Definition set_files (f : gmap str str) (o : list Handle) (s : Sys) : Sys :=
  mkSys f o (input s) (delivered s) (buffered s) (notes s) (script s).
Definition set_out (t u : str) (s : Sys) : Sys := mkSys (files s) (opened s) (input s) t u (notes s) (script s).
Definition set_script (l : list IoEv) (s : Sys) : Sys := mkSys (files s) (opened s) (input s) (delivered s) (buffered s) (notes s) l.
(** The next operation: [None] when it goes through. *)
Definition next_fault : Sys -> option nat * Sys := fun s =>
  match script s with
  | IoFault n :: l => (Some n, set_script l s)
  | IoOk :: l => (None, set_script l s)
  | [] => (None, s)
  end.
(** How much of [t] an operation that met [f] has written, and its outcome. *)
Definition upto (f : option nat) (t : str) : str := match f with Some n => take n t | None => t end.
Definition outcome (f : option nat) : result unit CmdError := match f with Some _ => Err CIo | None => Ok tt end.

(** [File::create]: a handle at the start of an empty file. *)
Definition create (path : str) : IO nat := fun s =>
  match next_fault s with
  | (Some _, s) => (Err CIo, s)
  | (None, s) => (Ok (length (opened s)), set_files (<[path := []]> (files s)) (opened s ++ [mkHandle path 0 []]) s)
  end.
(** Bytes reach a file at its position, over what is there. *)
Definition overwrite (pos : nat) (t c : str) : str := take pos c ++ t ++ drop (pos + length t) c.
Definition land (h : nat) (hd : Handle) (t : str) : IO unit := fun s =>
  let '(f, s) := next_fault s in
  let t := upto f t in
  (outcome f, set_files (<[hd_path hd := overwrite (hd_pos hd) t (default [] (files s !! hd_path hd))]> (files s))
                        (<[h := mkHandle (hd_path hd) (hd_pos hd + length t) []]> (opened s)) s).
(** [std::fs::File]: [write_all] writes. *)
Definition write_file (h : nat) (t : str) : IO unit := fun s =>
  match opened s !! h with None => (Err CIo, s) | Some hd => land h hd t s end.

(** [tokio::fs::File]: a write is handed to another thread and reported done. The next operation waits for it, and
    it is that operation that fails if the write did; a longer text is handed over in pieces. *)
Definition await_write (h : nat) : IO unit := fun s =>
  match opened s !! h with
  | None => (Err CIo, s)
  | Some hd => if decide (hd_flight hd = []) then (Ok tt, s) else land h hd (hd_flight hd) s
  end.
Definition hand_over (h : nat) (t : str) : IO unit := fun s =>
  match opened s !! h with
  | None => (Err CIo, s)
  | Some hd => (Ok tt, set_files (files s) (<[h := mkHandle (hd_path hd) (hd_pos hd) t]> (opened s)) s)
  end.
Class AsyncFile : Type := {
  pieces : str -> list str; (* as many bytes at a time as the library's buffer takes *)
  pieces_all t : concat (pieces t) = t;
}.
Fixpoint send_pieces (h : nat) (cs : list str) : IO unit :=
  match cs with
  | [] => io_ret tt
  | c :: cs => then! await_write h in then! hand_over h c in send_pieces h cs
  end.
Definition send_file `{AsyncFile} (h : nat) (t : str) : IO unit := send_pieces h (pieces t).
Definition flush_file (h : nat) : IO unit := await_write h.
(** Dropping the file lets the write under way finish and its error go. *)
Definition closing {A} (h : nat) (m : IO A) : IO A := fun s => let '(r, s) := m s in (r, (await_write h s).2).

(** [LineWriter] over the standard output: up to the last line end at once, the rest when it must. *)
Definition LINE_CAPACITY : nat := 1024.
Definition write_out (t : str) : IO unit := fun s =>
  if decide (t = []) then (Ok tt, s)
  else let '(f, s) := next_fault s in (outcome f, set_out (delivered s ++ upto f t) (buffered s) s).
Definition flush_buf : IO unit := fun s =>
  if decide (buffered s = []) then (Ok tt, s)
  else let '(f, s) := next_fault s in
       let t := upto f (buffered s) in (outcome f, set_out (delivered s ++ t) (drop (length t) (buffered s)) s).
Definition hold (t : str) : IO unit := fun s => (Ok tt, set_out (delivered s) (buffered s ++ t) s).
(** [BufWriter::write_all]. *)
Definition buffer (t : str) : IO unit := fun s =>
  let spare := (LINE_CAPACITY - length (buffered s))%nat in
  if (length t <? spare)%nat then hold t s
  else (then! (if (spare <? length t)%nat then flush_buf else io_ret tt) in
        if (LINE_CAPACITY <=? length t)%nat then write_out t else hold t) s.
(** Up to the last line end, and what follows it. *)
Fixpoint last_line (t : str) : str * str :=
  match t with
  | [] => ([], [])
  | c :: t => let '(ls, tl) := last_line t in
      if decide (ls = []) then if decide (c = LF) then ([c], tl) else ([], c :: tl) else (c :: ls, tl)
  end.
(** [write!] to the locked standard output: one [write_all] of the text. *)
Definition print (t : str) : IO unit := fun s =>
  match last_line t with
  | ([], _) => (then! (if decide (last (buffered s) = Some LF) then flush_buf else io_ret tt) in buffer t) s
  | (ls, tl) => (then! (if decide (buffered s = []) then write_out ls else then! buffer ls in flush_buf) in buffer tl) s
  end.
Definition eprint (t : str) : IO unit := fun s =>
  (Ok tt, mkSys (files s) (opened s) (input s) (delivered s) (buffered s) (notes s ++ [t]) (script s)).
Definition eprintln (t : str) : IO unit := eprint (t ++ [LF]).
(** [File::open] and reading all of it; [read_to_string] also wants UTF-8. *)
Definition read_file (path : str) : IO str := fun s =>
  match next_fault s with
  | (Some _, s) => (Err CIo, s)
  | (None, s) => match files s !! path with Some t => (Ok t, s) | None => (Err CIo, s) end
  end.
Definition text_only (t : str) : IO str := if is_utf8 t then io_ret t else io_fail CIo.
Definition read_to_string (path : str) : IO str := do! t := read_file path in text_only t.
Definition read_stdin : IO str := fun s =>
  match next_fault s with (Some _, s) => (Err CIo, s) | (None, s) => text_only (input s) s end.

(** ** The progress bar *)
Record Bar := { bar_pos : nat; bar_message : option str; bar_finished : bool }.
Definition make_progress (on : bool) : option Bar :=
  if on then Some {| bar_pos := 0; bar_message := None; bar_finished := false |} else None.
Definition bar_inc (b : Bar) : Bar :=
  {| bar_pos := S (bar_pos b); bar_message := bar_message b; bar_finished := bar_finished b |}.
Definition bar_tick (st : Stats) (b : Bar) : Bar :=
  {| bar_pos := bar_pos b; bar_message := Some (render_progress st); bar_finished := bar_finished b |}.
Definition bar_finish (b : Bar) : Bar :=
  {| bar_pos := bar_pos b; bar_message := bar_message b; bar_finished := true |}.

(** ** Draining a stream *)
Inductive Sink := SinkOut | SinkFile (h : nat).
Definition emit `{AsyncFile} (k : Sink) (t : str) : IO unit := match k with SinkOut => print t | SinkFile h => send_file h t end.
(** [if let Some(p) = emitter.prefix()]: no text there is empty. *)
Definition emit_some `{AsyncFile} (k : Sink) (t : str) : IO unit := if decide (t = []) then io_ret tt else emit k t.
(** What the loop's [select!] takes: a proxy, or a tick of the bar's timer with what the stream's
    statistics are then ([None] for a loaded file). Without a bar there is no timer. *)
Inductive DrainEvent := DItem (p : Proxy) | DTick (stats : option Stats).
Definition item_of (ev : DrainEvent) : option Proxy := match ev with DItem p => Some p | DTick _ => None end.
Definition items (es : list DrainEvent) : list Proxy := omap item_of es.

Section drain.
Context `{AF : AsyncFile}.
Variables (f64_show : f64 -> str) (json_text : json -> str).

Definition save_line (save : option nat) (p : Proxy) : IO unit :=
  match save with Some h => write_file h (write_ndjson json_text [p]) | None => io_ret tt end.
Fixpoint drain (k : Sink) (save : option nat) (es : list DrainEvent) (e : Emitter) (count : nat) (bar : option Bar)
    : IO (Emitter * nat * option Bar) :=
  match es with
  | [] => io_ret (e, count, bar_finish <$> bar)
  | DItem p :: es =>
      let '(t, e) := em_item f64_show json_text e p in
      then! emit k t in
      then! save_line save p in
      drain k save es e (S count) (bar_inc <$> bar)
  | DTick st :: es =>
      drain k save es e count (match bar, st with Some b, Some st => Some (bar_tick st b) | _, _ => bar end)
  end.
(** What the branches for a file and for the standard output have in common. *)
Definition drain_all (k : Sink) (save : option nat) (es : list DrainEvent) (e : Emitter) (bar : option Bar)
    : IO (nat * option Bar) :=
  then! emit_some k (em_prefix e) in
  do! (e, count, bar) := drain k save es e 0 bar in
  then! emit_some k (em_suffix e) in
  io_ret (count, bar).
Definition wrote (count : nat) (path : str) : str :=
  lit "wrote " ++ show_nat count ++ lit " proxies to " ++ path.
Definition write_stream_io (f : Format) (tmpl outfile save : option str) (bar : option Bar) (es : list DrainEvent)
    : IO (option Bar) :=
  do! save := match save with Some path => do! h := create path in io_ret (Some h) | None => io_ret None end in
  let e := new_emitter f tmpl in
  match outfile with
  | Some path =>
      do! h := create path in
      closing h (do! (count, bar) := drain_all (SinkFile h) save es e bar in
                 then! flush_file h in
                 then! eprintln (wrote count path) in
                 io_ret bar)
  | None => do! (_, bar) := drain_all SinkOut save es e bar in io_ret bar
  end.
End drain.

(** ** What an operation leaves behind *)
Definition quiet (s : Sys) : Prop := Forall (eq IoOk) (script s).
Lemma next_fault_spec s f s' : next_fault s = (f, s') ->
  files s' = files s /\ opened s' = opened s /\ input s' = input s /\ (delivered s' = delivered s /\ buffered s' = buffered s) /\ notes s' = notes s /\
  (quiet s -> quiet s' /\ f = None).
Proof.
  unfold next_fault, quiet. destruct (script s) as [|[|n] l] eqn:E; intros [= <- <-]; cbn; rewrite ?E; split_and!; try done;
    intros Hq; apply Forall_cons in Hq as [Hq ?]; done.
Qed.
Lemma upto_prefix f t : upto f t `prefix_of` t.
Proof. destruct f as [n|]; [|done]. exists (drop n t). cbn. by rewrite take_drop. Qed.
(** An operation that met [f] on [s] did all of [t] or failed. *)
Lemma outcome_spec (f : option nat) (Q Q' : Prop) t : (Q -> Q' /\ f = None) ->
  outcome f = Ok tt /\ upto f t = t \/ outcome f = Err CIo /\ ~ Q.
Proof. intros HQ. destruct f; [right|by left]. split; [done|]. intros H. by destruct (HQ H). Qed.
Lemma overwrite_end c t : overwrite (length c) t c = c ++ t.
Proof. unfold overwrite. rewrite take_ge, drop_ge, app_nil_r by lia. done. Qed.

(** *** Files *)
(** A handle at the end of its file, with [lag] under way. *)
Definition at_end (h : nat) (path c lag : str) (s : Sys) : Prop :=
  opened s !! h = Some (mkHandle path (length c) lag) /\ files s !! path = Some c.
(** Only this file and its handle are touched. *)
Definition only (h : nat) (path : str) (s s' : Sys) : Prop :=
  notes s' = notes s /\ input s' = input s /\ (delivered s' = delivered s /\ buffered s' = buffered s) /\
  (forall q, q <> path -> files s' !! q = files s !! q) /\ (forall i, i <> h -> opened s' !! i = opened s !! i) /\
  (quiet s -> quiet s').
#[export] Instance only_preorder h path : PreOrder (only h path).
Proof.
  split; [by intros s; split_and!|]. intros s1 s2 s3 (A1 & A2 & [A3 A4] & A5 & A6 & A7) (B1 & B2 & [B3 B4] & B5 & B6 & B7).
  split_and!; try congruence; [intros q Hq; by rewrite B5, A5|intros i Hi; by rewrite B6, A6|auto].
Qed.
Lemma at_end_other h path c lag h' path' s s' : at_end h path c lag s -> path <> path' -> h <> h' -> only h' path' s s' ->
  at_end h path c lag s'.
Proof. intros [H1 H2] Hp Hh (_ & _ & _ & Hf & Ho & _). split; [by rewrite Ho|by rewrite Hf]. Qed.
Lemma at_end_handles h path c lag h' path' c' lag' s : at_end h path c lag s -> at_end h' path' c' lag' s -> path <> path' -> h <> h'.
Proof. intros [H1 _] [H2 _] Hp ->. rewrite H1 in H2. by injection H2. Qed.

Lemma land_at h path c lag lag' t s r s' : at_end h path c lag s -> land h (mkHandle path (length c) lag') t s = (r, s') ->
  exists u, u `prefix_of` t /\ at_end h path (c ++ u) [] s' /\ only h path s s' /\ (r = Ok tt /\ u = t \/ r = Err CIo /\ ~ quiet s).
Proof.
  intros [Ho Hf]. unfold land. destruct (next_fault s) as [f s1] eqn:En.
  apply next_fault_spec in En as (E1 & E2 & E3 & E4 & E5 & Hq). intros [= <- <-]. exists (upto f t).
  split; [apply upto_prefix|]. unfold at_end. cbn [files opened set_files hd_path hd_pos]. rewrite E1, E2, Hf. cbn [default].
  rewrite overwrite_end, lookup_insert_eq, length_app, list_lookup_insert_eq by (by eapply lookup_lt_Some).
  split; [done|]. split; [|by eapply outcome_spec]. split_and!; cbn; try done; [apply E4..| | |].
  - intros q Hne. by rewrite lookup_insert_ne by congruence.
  - intros i Hne. by rewrite list_lookup_insert_ne by congruence.
  - intros Hs. exact (proj1 (Hq Hs)).
Qed.
Lemma write_file_at h path c t s r s' : at_end h path c [] s -> write_file h t s = (r, s') ->
  exists u, u `prefix_of` t /\ at_end h path (c ++ u) [] s' /\ only h path s s' /\ (r = Ok tt /\ u = t \/ r = Err CIo /\ ~ quiet s).
Proof. intros H E. unfold write_file in E. rewrite (proj1 H) in E. by eapply land_at. Qed.
Lemma await_write_at h path c lag s r s' : at_end h path c lag s -> await_write h s = (r, s') ->
  exists u, u `prefix_of` lag /\ at_end h path (c ++ u) [] s' /\ only h path s s' /\ (r = Ok tt /\ u = lag \/ r = Err CIo /\ ~ quiet s).
Proof.
  intros H E. unfold await_write in E. rewrite (proj1 H) in E. cbn [hd_flight] in E. case_decide; [|by eapply land_at].
  injection E as <- <-. subst. exists []. rewrite app_nil_r. split; [done|]. split; [done|]. split; [done|by left].
Qed.
(** What is handed over lands in order, and the earlier text before the next is taken. *)
Lemma send_pieces_at h path cs : forall c lag s r s', at_end h path c lag s -> send_pieces h cs s = (r, s') ->
  exists c' lag', at_end h path c' lag' s' /\ only h path s s' /\ c `prefix_of` c' /\ c' ++ lag' `prefix_of` (c ++ lag) ++ concat cs /\
    (r = Ok tt /\ c' ++ lag' = (c ++ lag) ++ concat cs /\ (cs <> [] -> c ++ lag `prefix_of` c') \/ r = Err CIo /\ ~ quiet s).
Proof.
  induction cs as [|t cs IH]; intros c lag s r s' H E.
  - injection E as <- <-. exists c, lag. rewrite app_nil_r. split_and!; try done. left. by split_and!.
  - cbn [send_pieces] in E. unfold io_bind in E. destruct (await_write h s) as [r1 s1] eqn:E1.
    destruct (await_write_at _ _ _ _ _ _ _ H E1) as (u & Hu & H1 & F1 & [[-> ->]|[-> Hq]]).
    2: { injection E as <- <-. exists (c ++ u), []. rewrite app_nil_r. split_and!; try done; [by apply prefix_app_r| |by right].
         apply prefix_app_r. by apply prefix_app. }
    unfold hand_over in E. rewrite (proj1 H1) in E. cbn in E.
    assert (at_end h path (c ++ lag) t (set_files (files s1) (<[h := mkHandle path (length (c ++ lag)) t]> (opened s1)) s1)) as H2.
    { destruct H1 as [H1 H1']. split; [|done]. cbn. apply list_lookup_insert_eq. by eapply lookup_lt_Some. }
    destruct (IH _ _ _ _ _ H2 E) as (c' & lag' & H3 & F3 & P1 & P2 & R). exists c', lag'. cbn [concat]. rewrite (app_assoc (c ++ lag)).
    split; [done|]. split.
    { transitivity s1; [done|]. etransitivity; [|exact F3]. split_and!; cbn; try done. intros i Hi. by rewrite list_lookup_insert_ne. }
    split; [etransitivity; [|exact P1]; by apply prefix_app_r|]. split; [done|].
    destruct R as [(-> & Hc & _)|[-> Hq]]; [left|right]; split_and!; try done. intros Hs. by apply Hq, F1.
Qed.

(** *** The standard output *)
Definition printed (s s' : Sys) : Prop :=
  files s' = files s /\ opened s' = opened s /\ notes s' = notes s /\ input s' = input s /\ (quiet s -> quiet s') /\
  delivered s `prefix_of` delivered s'.
#[export] Instance printed_preorder : PreOrder printed.
Proof.
  split; [by intros s; split_and!|]. intros s1 s2 s3 (A1 & A2 & A3 & A4 & A5 & A6) (B1 & B2 & B3 & B4 & B5 & B6).
  split_and!; try congruence; [auto|by etransitivity].
Qed.
Lemma flush_buf_at s r s' : flush_buf s = (r, s') ->
  printed s s' /\ out s' = out s /\ (r = Ok tt /\ buffered s' = [] \/ r = Err CIo /\ ~ quiet s).
Proof.
  unfold flush_buf. case_decide as Hh; [intros [= <- <-]; split; [done|]; split; [done|by left]|].
  destruct (next_fault s) as [f s1] eqn:En. apply next_fault_spec in En as (E1 & E2 & E3 & [E4 E5] & E6 & Hq). intros [= <- <-].
  destruct (upto_prefix f (buffered s)) as [rest Hr]. unfold printed, out. cbn. rewrite E4, E5. split; [split_and!; try done; [intros Hs; exact (proj1 (Hq Hs))|by apply prefix_app_r]|].
  rewrite Hr at 3. split.
  - rewrite <- app_assoc, drop_app_length. f_equal. by rewrite <- Hr.
  - destruct (outcome_spec f _ _ (buffered s) Hq) as [[-> ->]|[-> ?]]; [left|by right]. by rewrite drop_all.
Qed.
Lemma write_out_at t s r s' : buffered s = [] -> write_out t s = (r, s') ->
  exists u, u `prefix_of` t /\ printed s s' /\ out s' = out s ++ u /\ buffered s' = [] /\ (r = Ok tt /\ u = t \/ r = Err CIo /\ ~ quiet s).
Proof.
  intros Hh. unfold write_out. case_decide as Ht.
  { intros [= <- <-]. exists []. rewrite app_nil_r. subst t. split_and!; try done. by left. }
  destruct (next_fault s) as [f s1] eqn:En. apply next_fault_spec in En as (E1 & E2 & E3 & [E4 E5] & E6 & Hq). intros [= <- <-].
  exists (upto f t). split; [apply upto_prefix|]. unfold printed, out. cbn. rewrite E4, E5, Hh, !app_nil_r.
  split_and!; try done; [intros Hs; exact (proj1 (Hq Hs))|by apply prefix_app_r|by eapply outcome_spec].
Qed.
Lemma hold_at t s r s' : hold t s = (r, s') -> printed s s' /\ out s' = out s ++ t /\ buffered s' = buffered s ++ t /\ r = Ok tt.
Proof. intros [= <- <-]. unfold printed, out. cbn. rewrite app_assoc. by split_and!. Qed.
Lemma buffer_at t s r s' : buffer t s = (r, s') ->
  exists u, u `prefix_of` t /\ printed s s' /\ out s' = out s ++ u /\
    (r = Ok tt /\ u = t /\ (t = [] -> buffered s = [] -> buffered s' = []) \/ r = Err CIo /\ ~ quiet s).
Proof.
  unfold buffer. destruct (Nat.ltb_spec (length t) (LINE_CAPACITY - length (buffered s))) as [_|Hl].
  { intros (H1 & H2 & H3 & ->)%hold_at. exists t. split_and!; try done. left. split_and!; try done. intros -> Hh. by rewrite H3, Hh. }
  unfold io_bind at 1. destruct ((if (_ <? _)%nat then flush_buf else io_ret tt) s) as [r1 s1] eqn:E1.
  assert (printed s s1 /\ out s1 = out s /\ (r1 = Ok tt /\ ((LINE_CAPACITY <= length t)%nat -> buffered s1 = []) /\ (buffered s = [] -> buffered s1 = []) \/ r1 = Err CIo /\ ~ quiet s)) as (F1 & O1 & R1).
  { destruct (Nat.ltb_spec (LINE_CAPACITY - length (buffered s)) (length t)).
    - apply flush_buf_at in E1 as (H1 & H2 & [[-> H3]|H3]); split_and!; try done; [by left|by right].
    - injection E1 as <- <-. split; [done|]. split; [done|]. left. split_and!; try done. intros Hc.
      unfold LINE_CAPACITY in *. apply nil_length_inv. lia. }
  destruct R1 as [(-> & Hc & Hh)|[-> Hq]]; [|intros [= <- <-]; exists []; rewrite app_nil_r; split_and!; try done; [apply prefix_nil|by right]].
  destruct (Nat.leb_spec LINE_CAPACITY (length t)) as [Hc'|_]; intros E.
  - destruct (write_out_at _ _ _ _ (Hc Hc') E) as (u & Hu & F2 & O2 & Hh2 & R2). exists u. rewrite <- O1. split_and!; try done; [by transitivity s1|].
    destruct R2 as [[-> ->]|[-> Hq]]; [by left|right]. split; [done|]. intros Hs. by apply Hq, F1.
  - apply hold_at in E as (F2 & O2 & Hh2 & ->). exists t. rewrite <- O1. split_and!; try done; [by transitivity s1|]. left. split_and!; try done.
    intros -> Hs. by rewrite Hh2, Hh.
Qed.
Lemma last_line_app t : (last_line t).1 ++ (last_line t).2 = t.
Proof.
  induction t as [|c t IH]; [done|]. cbn [last_line]. destruct (last_line t) as [ls tl]. cbn in IH.
  case_decide as Hl; [subst ls; case_decide|]; cbn in *; by rewrite <- IH.
Qed.
Lemma last_line_end t : last_line (t ++ [LF]) = (t ++ [LF], []).
Proof. induction t as [|c t IH]; [done|]. cbn [app last_line]. rewrite IH. case_decide as Hn; [by apply app_nil in Hn as [_ ?]|done]. Qed.
Lemma print_at t s r s' : print t s = (r, s') ->
  exists u, u `prefix_of` t /\ printed s s' /\ out s' = out s ++ u /\
    (r = Ok tt /\ u = t /\ (t = [] -> buffered s = [] -> buffered s' = []) /\ (last t = Some LF -> buffered s' = []) \/ r = Err CIo /\ ~ quiet s).
Proof.
  unfold print. pose proof (last_line_app t) as Ht. destruct (last_line t) as [ls tl] eqn:El. cbn in Ht. destruct ls as [|c0 ls0].
  - cbn in Ht. subst tl. unfold io_bind at 1. destruct ((if decide _ then flush_buf else io_ret tt) s) as [r1 s1] eqn:E1.
    assert (printed s s1 /\ out s1 = out s /\ (r1 = Ok tt /\ (buffered s = [] -> buffered s1 = []) \/ r1 = Err CIo /\ ~ quiet s)) as (F1 & O1 & R1).
    { case_decide; [apply flush_buf_at in E1 as (H1 & H2 & [[-> H3]|H3]); split_and!; try done; [by left|by right]|].
      injection E1 as <- <-. split; [done|]. split; [done|by left]. }
    destruct R1 as [[-> Hh]|[-> Hq]]; [|intros [= <- <-]; exists []; rewrite app_nil_r; split_and!; try done; [apply prefix_nil|by right]].
    intros (u & Hu & F2 & O2 & R2)%buffer_at. exists u. rewrite <- O1. split_and!; try done; [by transitivity s1|].
    destruct R2 as [(-> & -> & H)|[-> Hq]]; [left|right; split; [done|]; intros Hs; by apply Hq, F1]. split_and!; try done.
    { intros -> Hs. by apply H, Hh. } intros Hl. apply last_Some in Hl as [w ->]. rewrite last_line_end in El. injection El as Hw. by apply app_nil in Hw as [_ ?].
  - set (ls := c0 :: ls0) in *. unfold io_bind at 1.
    destruct ((if decide _ then write_out ls else _) s) as [r1 s1] eqn:E1.
    assert (exists u, u `prefix_of` ls /\ printed s s1 /\ out s1 = out s ++ u /\ (r1 = Ok tt /\ u = ls /\ buffered s1 = [] \/ r1 = Err CIo /\ ~ quiet s)) as (u & Hu & F1 & O1 & R1).
    { case_decide as Hh.
      - destruct (write_out_at _ _ _ _ Hh E1) as (u & H1 & H2 & H3 & H4 & [[-> ->]|H5]); exists u || exists ls; split_and!; try done; [by left|by right].
      - unfold io_bind in E1. destruct (buffer ls s) as [r2 s2] eqn:E2. apply buffer_at in E2 as (u & H1 & H2 & H3 & [(-> & -> & _)|[-> Hq]]).
        + apply flush_buf_at in E1 as (F & O & R). exists ls. split; [done|]. split; [by transitivity s2|]. split; [by rewrite O|].
          destruct R as [[-> ?]|[-> Hq]]; [by left|right]. split; [done|]. intros Hs. by apply Hq, H2.
        + injection E1 as <- <-. exists u. split_and!; try done. by right. }
    destruct R1 as [(-> & -> & Hh)|[-> Hq]].
    2: { intros [= <- <-]. exists u. split; [rewrite <- Ht; by apply prefix_app_r|]. split_and!; try done. by right. }
    intros (u2 & Hu2 & F2 & O2 & R2)%buffer_at. exists (ls ++ u2). rewrite <- Ht. split; [by apply prefix_app|]. split; [by transitivity s1|].
    split; [by rewrite O2, O1, app_assoc|]. destruct R2 as [(-> & -> & H)|[-> Hq]]; [left|right; split; [done|]; intros Hs; by apply Hq, F1].
    split_and!; try done. intros Hl. apply H; [|done]. rewrite Ht in Hl. apply last_Some in Hl as [w ->]. rewrite last_line_end in El. by injection El.
Qed.

Section views.
Context `{AF : AsyncFile}.
Variables (f64_show : f64 -> str) (json_text : json -> str).
Abbreviation text_items := (em_items f64_show json_text).
Abbreviation ndjson := (write_ndjson json_text).

(** The output has [l], and [lag] is under way or held back. *)
Definition sink_at (k : Sink) (po : option str) (l lag : str) (s : Sys) : Prop :=
  match k, po with SinkOut, None => delivered s = l /\ buffered s = lag | SinkFile h, Some path => at_end h path l lag s | _, _ => False end.
Definition save_at (save : option nat) (ps : option str) (c : str) (s : Sys) : Prop :=
  match save, ps with None, None => c = [] | Some h, Some path => at_end h path c [] s | _, _ => False end.
Definition apart (po ps : option str) : Prop := forall p, po = Some p -> ps <> Some p.
(** And the saved file has [cs]. *)
Definition view (k : Sink) (save : option nat) (po ps : option str) (l lag cs : str) (s : Sys) : Prop :=
  sink_at k po l lag s /\ save_at save ps cs s /\ apart po ps.
(** Everything else is as it was. *)
Definition frame (po ps : option str) (s s' : Sys) : Prop :=
  notes s' = notes s /\ input s' = input s /\ (po <> None -> delivered s' = delivered s /\ buffered s' = buffered s) /\
  (forall q, po <> Some q -> ps <> Some q -> files s' !! q = files s !! q) /\ (quiet s -> quiet s').
#[export] Instance frame_preorder po ps : PreOrder (frame po ps).
Proof.
  split; [by intros s; split_and!|]. intros s1 s2 s3 (A1 & A2 & A3 & A4 & A5) (B1 & B2 & B3 & B4 & B5). split_and!.
  - by rewrite B1. - by rewrite B2. - intros H. destruct (A3 H), (B3 H). split; congruence. - intros q H1 H2. by rewrite B4, A4. - auto.
Qed.
Lemma only_frame h path po ps s s' : only h path s s' -> po = Some path \/ po = None /\ ps = Some path \/ ps = Some path -> frame po ps s s'.
Proof.
  intros (H1 & H2 & H3 & H4 & H5 & H6) Hp. split_and!; try done. intros q Hq Hs. apply H4. intros ->. naive_solver.
Qed.

(** When a text is out: at once on the standard output if it ends its line; in a file, when the next one is written. *)
Definition prompt (k : Sink) (t l lag l' lag' : str) : Prop :=
  match k with
  | SinkOut => (t = [] -> lag = [] -> lag' = []) /\ (last t = Some LF -> lag' = [])
  | SinkFile _ => t <> [] -> l ++ lag `prefix_of` l'
  end.
Lemma emit_view k save po ps l lag cs t s r s' : view k save po ps l lag cs s -> emit k t s = (r, s') ->
  exists l' lag', view k save po ps l' lag' cs s' /\ frame po ps s s' /\ l `prefix_of` l' /\ l' ++ lag' `prefix_of` (l ++ lag) ++ t /\
    (k = SinkOut -> l ++ lag `prefix_of` l' ++ lag') /\
    (r = Ok tt /\ l' ++ lag' = (l ++ lag) ++ t /\ prompt k t l lag l' lag' \/ r = Err CIo /\ ~ quiet s).
Proof.
  intros (Hk & Hs & Ha). destruct k as [|h], po as [path|]; try done; cbn in Hk |- *.
  - destruct Hk as [<- <-]. intros (u & Hu & (F1 & F2 & F3 & F4 & F5 & F6) & Ho & R)%print_at. unfold out in Ho. exists (delivered s'), (buffered s').
    split. { split; [done|]. split; [|done]. destruct save as [h|], ps as [q|]; try done. cbn in Hs |- *. destruct Hs. by split; rewrite ?F1, ?F2. }
    split; [split_and!; try done; intros; by rewrite F1|]. split; [done|]. split; [rewrite Ho; by apply prefix_app|].
    split; [intros _; rewrite Ho; by apply prefix_app_r|]. destruct R as [(-> & -> & H)|H]; [left|by right]. split; [done|]. by split.
  - intros E. destruct (send_pieces_at _ _ _ _ _ _ _ _ Hk E) as (l' & lag' & H1 & F & H3 & H4 & R). rewrite pieces_all in H4, R.
    exists l', lag'. split.
    { split; [done|]. split; [|done]. destruct save as [h'|], ps as [q|]; try done. cbn in Hs |- *.
      assert (q <> path) as Hne by (intros ->; by apply (Ha path)).
      eapply at_end_other; [exact Hs|exact Hne| |exact F]. by apply (at_end_handles _ _ _ _ _ _ _ _ _ Hs Hk Hne). }
    split; [eapply only_frame; [done|by left]|]. split; [done|]. split; [done|]. split; [done|].
    destruct R as [(-> & H & Hp)|H]; [left|by right]. split_and!; try done. intros Ht. apply Hp. intros Hn. apply Ht. by rewrite <- (pieces_all t), Hn.
Qed.
Lemma save_view k save po ps l lag cs p s r s' : view k save po ps l lag cs s -> save_line json_text save p s = (r, s') ->
  exists v, v `prefix_of` (if save then ndjson [p] else []) /\ view k save po ps l lag (cs ++ v) s' /\ frame po ps s s' /\
    (r = Ok tt /\ v = (if save then ndjson [p] else []) \/ r = Err CIo /\ ~ quiet s).
Proof.
  intros (Hk & Hs & Ha). destruct save as [h|], ps as [q|]; try done; cbn in Hs |- *.
  - intros E. destruct (write_file_at _ _ _ _ _ _ _ Hs E) as (v & Hv & H1 & F & R).
    exists v. split; [done|]. split; [|split; [eapply only_frame; [done|by right; right]|done]].
    split; [|split; [done|done]]. destruct k as [|h'], po as [path|]; try done; cbn in Hk |- *.
    + destruct F as (_ & _ & [-> ->] & _). done.
    + assert (path <> q) as Hne by (intros ->; by apply (Ha q)).
      eapply at_end_other; [exact Hk|exact Hne| |exact F]. by apply (at_end_handles _ _ _ _ _ _ _ _ _ Hk Hs).
  - intros [= <- <-]. subst cs. exists []. split; [done|]. split; [by split_and!|]. split; [done|by left].
Qed.

(** ** The loop *)
Definition saved {A} (save : option A) (ps : list Proxy) : str := if save then ndjson ps else [].
Lemma saved_cons {A} (save : option A) p ps : saved save (p :: ps) = (if save then ndjson [p] else []) ++ saved save ps.
Proof. destruct save; [|done]. unfold saved, Ndjson.write_ndjson. cbn [map concat]. by rewrite app_nil_r. Qed.
Lemma em_item_kind e p : em_format (em_item f64_show json_text e p).2 = em_format e /\
  em_template (em_item f64_show json_text e p).2 = em_template e.
Proof. unfold em_item. destruct (em_template e) eqn:Et; [by rewrite ?Et|]. destruct (em_format e) eqn:Ef; cbn; by rewrite ?Ef, ?Et. Qed.
(** Every item of the format is a line. *)
Definition lined (e : Emitter) : bool := match em_template e, em_format e with None, FJsonArray => false | _, _ => true end.
(** No item is empty, whatever the texts of JSON: the first of an array has no comma before it. *)
Definition eager (e : Emitter) : bool := lined e || em_started e.
Lemma item_lined e p : lined e = true -> last (em_item f64_show json_text e p).1 = Some LF /\ lined (em_item f64_show json_text e p).2 = true.
Proof.
  unfold lined. destruct (em_item_kind e p) as [-> ->]. split; [|done]. unfold em_item in *.
  destruct (em_template e); [apply last_snoc|]. destruct (em_format e); try done; cbn [fst]; rewrite ?(app_assoc _ _ [LF]); apply last_snoc.
Qed.
Lemma item_eager e p : (eager e = true -> (em_item f64_show json_text e p).1 <> []) /\ eager (em_item f64_show json_text e p).2 = true.
Proof.
  unfold eager. split.
  - intros He. destruct (lined e) eqn:El.
    + pose proof (proj1 (item_lined e p El)) as Hl. intros Hn. by rewrite Hn in Hl.
    + unfold lined in El. unfold em_item. destruct (em_template e); [done|]. destruct (em_format e); try done. cbn in He. by rewrite He.
  - destruct (lined e) eqn:El; [by rewrite (proj2 (item_lined e p El))|]. apply orb_true_iff. right.
    unfold lined in El. unfold em_item. destruct (em_template e); [done|]. by destruct (em_format e).
Qed.
Definition bar_seen (b : Bar) : nat * bool := (bar_pos b, bar_finished b).

(** How far the output is when the first [j] of [ps] have been saved. *)
Definition out_to (k : Sink) (e : Emitter) (ps : list Proxy) (j : nat) (l lag l' lag' : str) : Prop :=
  match k with
  | SinkOut => (l ++ lag) ++ text_items e (take j ps) `prefix_of` l' ++ lag' /\
      (lined e = true -> lag = [] -> l ++ text_items e (take j ps) `prefix_of` l')
  | SinkFile _ => ((if eager e then 0 else 1) < j)%nat -> (l ++ lag) ++ text_items e (take (pred j) ps) `prefix_of` l'
  end.
Lemma reached_none k e ps l lag l' lag' : l `prefix_of` l' -> (k = SinkOut -> l ++ lag `prefix_of` l' ++ lag') -> out_to k e ps 0 l lag l' lag'.
Proof.
  intros Hl Ho. destruct k; cbn.
  - rewrite take_0. cbn. rewrite !app_nil_r. auto.
  - destruct (eager e); lia.
Qed.
Lemma reached_item k e p ps j l lag l1 lag1 l' lag' :
  let t := (em_item f64_show json_text e p).1 in
  l1 ++ lag1 = (l ++ lag) ++ t -> prompt k t l lag l1 lag1 -> l1 `prefix_of` l' ->
  out_to k (em_item f64_show json_text e p).2 ps j l1 lag1 l' lag' -> out_to k e (p :: ps) (S j) l lag l' lag'.
Proof.
  intros t H1 Hp Hl Hr. unfold out_to in *. assert (forall qs, text_items e (p :: qs) = t ++ text_items (em_item f64_show json_text e p).2 qs) as Hit
    by (intros qs; cbn [Cli.em_items]; unfold t; by destruct (em_item f64_show json_text e p)).
  destruct k as [|h].
  - cbn [take]. rewrite Hit. destruct Hr as [R1 R2]. rewrite H1 in R1. split; [by rewrite (app_assoc _ t)|].
    intros He ->. destruct (item_lined e p He) as [Ht He']. destruct Hp as [_ Hp]. rewrite app_nil_r in H1. rewrite (Hp Ht), app_nil_r in H1.
    rewrite app_assoc, <- H1. apply R2; auto.
  - intros Hj. cbn [pred take]. destruct (item_eager e p) as [Hne He']. rewrite He' in Hr. destruct j as [|j].
    + rewrite take_0. cbn. rewrite app_nil_r. transitivity l1; [|done]. apply Hp, Hne. destruct (eager e); [done|lia].
    + cbn [take]. rewrite Hit, (app_assoc _ t), <- H1. apply Hr. lia.
Qed.

(** Draining [ps]: each is written, then saved. *)
Record drained (k : Sink) (save : option nat) (e : Emitter) (count : nat) (bar : option Bar) (ps : list Proxy) (l lag l' lag' v : str)
    (r : result (Emitter * nat * option Bar) CmdError) (calm : Prop) : Prop := {
  dr_partial : exists j, (j <= length ps)%nat /\ v `prefix_of` saved save (take j ps) /\ out_to k e ps j l lag l' lag' /\
    (is_ok r = true -> j = length ps);
  dr_grows : l `prefix_of` l' /\ (k = SinkOut -> l ++ lag `prefix_of` l' ++ lag') /\ l' ++ lag' `prefix_of` (l ++ lag) ++ text_items e ps;
  dr_result : match r with
    | Ok (e', n, bar') =>
        l' ++ lag' = (l ++ lag) ++ text_items e ps /\ (k = SinkOut -> lined e = true -> lag = [] -> lag' = []) /\
        v = saved save ps /\ n = (count + length ps)%nat /\ em_format e' = em_format e /\
        em_template e' = em_template e /\
        bar_seen <$> bar' = (fun b => ((bar_pos b + length ps)%nat, true)) <$> bar
    | Err x => x = CIo /\ ~ calm
    end;
}.
Lemma drain_view k po qs save es e count bar : forall l lag cs s r s',
  view k save po qs l lag cs s -> drain f64_show json_text k save es e count bar s = (r, s') ->
  exists l' lag' v, view k save po qs l' lag' (cs ++ v) s' /\ frame po qs s s' /\
    drained k save e count bar (items es) l lag l' lag' v r (quiet s).
Proof.
  revert e count bar. induction es as [|[p|st] es IH]; intros e count bar l lag cs s r s' Hv E.
  - cbn in E. injection E as <- <-. exists l, lag, []. rewrite !app_nil_r. split; [done|]. split; [done|]. split.
    + exists 0%nat. split; [done|]. split; [by destruct save|]. split; [by apply reached_none|done].
    + cbn. by rewrite app_nil_r.
    + cbn. rewrite app_nil_r. rewrite Nat.add_0_r. split_and!; try done; [by destruct save|].
      destruct bar as [[]|]; [|done]. cbn. unfold bar_seen. cbn. by rewrite Nat.add_0_r.
  - cbn [drain] in E. pose proof (em_item_kind e p) as [Kf Kt]. pose proof (reached_item k e p (items es)) as Hstep.
    assert (forall qs, text_items e (p :: qs) = (em_item f64_show json_text e p).1 ++ text_items (em_item f64_show json_text e p).2 qs) as Hit
      by (intros ?; cbn [Cli.em_items]; by destruct (em_item f64_show json_text e p)).
    pose proof (item_lined e p) as Hlined. destruct (em_item f64_show json_text e p) as [t e1] eqn:Ei. unfold io_bind in E. cbn [fst snd] in Kf, Kt, Hstep, Hit, Hlined. cbn zeta in Hstep.
    change (items (DItem p :: es)) with (p :: items es). set (ps := items es) in *.
    destruct (emit k t s) as [r1 s1] eqn:E1. destruct (emit_view _ _ _ _ _ _ _ _ _ _ _ Hv E1) as (l1 & lag1 & Hv1 & F1 & G1 & G2 & G3 & R1).
    destruct R1 as [(-> & Hl1 & Hp)|[-> Hq]].
    2: { injection E as <- <-. exists l1, lag1, []. rewrite app_nil_r. split; [done|]. split; [done|]. split; [| |done].
         - exists 0%nat. split; [cbn; lia|]. split; [apply prefix_nil|]. split; [by apply reached_none|done].
         - split; [done|]. split; [done|]. rewrite Hit, app_assoc. by apply prefix_app_r. }
    destruct (save_line json_text save p s1) as [r2 s2] eqn:E2.
    destruct (save_view _ _ _ _ _ _ _ _ _ _ _ Hv1 E2) as (v2 & Hv2 & Hw2 & F2 & R2).
    assert (frame po qs s s2) as F12 by (by transitivity s1).
    assert (forall l' lag', l1 ++ lag1 `prefix_of` l' ++ lag' -> k = SinkOut -> l ++ lag `prefix_of` l' ++ lag') as Hgrow.
    { intros l' lag' H _. rewrite Hl1 in H. etransitivity; [|exact H]. by apply prefix_app_r. }
    destruct R2 as [[-> ->]|[-> Hq]].
    2: { injection E as <- <-. exists l1, lag1, v2. split; [done|]. split; [done|].
         split; [| |split; [done|]; intros Hs; apply Hq; by apply F1].
         - exists 1%nat. split; [cbn; lia|]. cbn [take]. rewrite take_0. rewrite saved_cons. split; [by apply prefix_app_r|].
           split; [|done]. eapply Hstep; [done|done|done|]. by apply reached_none.
         - split; [done|]. split; [by apply Hgrow|]. rewrite Hit, app_assoc. by apply prefix_app_r. }
    destruct (IH _ _ _ _ _ _ _ _ _ Hw2 E) as (l' & lag' & v & Hv3 & F3 & [(j & Hj & P1 & P2 & Pj) (P3 & P4 & P5) Hr]).
    exists l', lag', ((if save then ndjson [p] else []) ++ v). rewrite !(app_assoc cs).
    split; [done|]. split; [by transitivity s2|]. split.
    + exists (S j). split; [cbn; lia|]. cbn [take]. rewrite saved_cons. split; [by apply prefix_app|]. split; [by eapply Hstep|]. intros Hok. cbn. by rewrite Pj.
    + split; [by etransitivity|]. split; [intros Hk; apply Hgrow; auto|]. by rewrite Hit, (app_assoc _ t), <- Hl1.
    + destruct r as [[[e' n] bar']|x]; [|destruct Hr as [-> Hq]; split; [done|]; intros Hs; apply Hq; by apply F12].
      destruct Hr as (A0 & A1 & -> & -> & A2 & A3 & A4). rewrite Hit, saved_cons. split_and!; try done; try congruence.
      * by rewrite A0, Hl1, app_assoc.
      * intros -> He Hlag. destruct (Hlined He) as [Ht He']. apply A1; [done|done|]. by apply Hp.
      * cbn; lia.
      * rewrite A4. destruct bar as [b|]; [|done]. cbn. f_equal. f_equal. lia.
  - cbn [drain] in E. change (items (DTick st :: es)) with (items es).
    destruct (IH _ _ _ _ _ _ _ _ _ Hv E) as (l' & lag' & v & H1 & H2 & [H3 H4 H5]). exists l', lag', v. split; [done|]. split; [done|]. split; [done|done|].
    destruct r as [[[e' n] bar']|x]; [|done]. destruct H5 as (A0 & A1 & A2 & A3 & A4 & A5 & A6). split_and!; try done.
    rewrite A6. destruct bar as [b|]; [|done]. by destruct st.
Qed.

(** ** The whole stream *)
Definition full_text (e : Emitter) (ps : list Proxy) : str := em_prefix e ++ text_items e ps ++ em_suffix e.
(** As [out_to], from before the prefix. *)
Definition reached_all (k : Sink) (e : Emitter) (ps : list Proxy) (j : nat) (l lag l' lag' : str) : Prop :=
  match k with
  | SinkOut => (l ++ lag) ++ em_prefix e ++ text_items e (take j ps) `prefix_of` l' ++ lag' /\
      (lined e = true -> lag = [] -> l ++ em_prefix e ++ text_items e (take j ps) `prefix_of` l')
  | SinkFile _ => (1 < j)%nat -> (l ++ lag) ++ em_prefix e ++ text_items e (take (pred j) ps) `prefix_of` l'
  end.
(** What is out and saved when writing stops, at the end or at a failure, with [j] proxies reached. *)
Record got {A} (k : Sink) (e : Emitter) (save : option A) (ps : list Proxy) (j : nat) (l lag l' lag' v : str) : Prop := {
  got_count : (j <= length ps)%nat;
  got_saved : v `prefix_of` saved save (take j ps);
  got_grows : l `prefix_of` l' /\ (k = SinkOut -> l ++ lag `prefix_of` l' ++ lag') /\ l' ++ lag' `prefix_of` (l ++ lag) ++ full_text e ps;
  got_reached : (0 < j)%nat -> reached_all k e ps j l lag l' lag';
}.

Lemma emit_some_view k save po qs l lag cs t s r s' : view k save po qs l lag cs s -> emit_some k t s = (r, s') ->
  exists l' lag', view k save po qs l' lag' cs s' /\ frame po qs s s' /\ l `prefix_of` l' /\ l' ++ lag' `prefix_of` (l ++ lag) ++ t /\
    (k = SinkOut -> l ++ lag `prefix_of` l' ++ lag') /\
    (r = Ok tt /\ l' ++ lag' = (l ++ lag) ++ t /\ (k = SinkOut -> (t = [] /\ lag = [] \/ last t = Some LF) -> lag' = []) \/ r = Err CIo /\ ~ quiet s).
Proof.
  unfold emit_some. case_decide as Ht.
  - intros Hv [= <- <-]. exists l, lag. rewrite Ht, app_nil_r. split_and!; try done. left. split_and!; try done. by intros _ [[_ ?]|?].
  - intros Hv E. destruct (emit_view _ _ _ _ _ _ _ _ _ _ _ Hv E) as (l' & lag' & H1 & H2 & H3 & H4 & H5 & R). exists l', lag'.
    split_and!; try done. destruct R as [(-> & H & Hp)|R]; [left|by right]. split; [done|]. split; [done|].
    intros -> [[? _]|Hl]; [done|]. by apply Hp.
Qed.
Lemma suffix_kind e e' : em_format e' = em_format e -> em_template e' = em_template e -> em_suffix e' = em_suffix e.
Proof. unfold em_suffix. by intros -> ->. Qed.
Lemma prefix_lined e : lined e = true -> em_prefix e = [] \/ last (em_prefix e) = Some LF.
Proof. unfold lined, em_prefix. destruct (em_template e); [by left|]. destruct (em_format e); try (by left). right. apply last_snoc. Qed.
Lemma suffix_lined e : em_suffix e = [] /\ lined e = true \/ last (em_suffix e) = Some LF.
Proof. unfold lined, em_suffix. destruct (em_template e); [by left|]. destruct (em_format e); try (by left). by right. Qed.
Lemma reached_prefix k e ps j l lag l1 lag1 l' lag' : l1 ++ lag1 = (l ++ lag) ++ em_prefix e ->
  (k = SinkOut -> em_prefix e = [] /\ lag = [] \/ last (em_prefix e) = Some LF -> lag1 = []) ->
  out_to k e ps j l1 lag1 l' lag' -> reached_all k e ps j l lag l' lag'.
Proof.
  intros H1 Hp Hr. unfold out_to, reached_all in *. destruct k as [|h].
  - destruct Hr as [R1 R2]. rewrite H1, <- app_assoc in R1. split; [done|]. intros He ->.
    assert (lag1 = []) as -> by (apply Hp; [done|]; destruct (prefix_lined e He); auto). rewrite !app_nil_r in H1.
    rewrite app_assoc, <- H1. by apply R2.
  - intros Hj. rewrite app_assoc, <- H1. apply Hr. destruct (eager e); lia.
Qed.
Lemma reached_more k e ps j l lag l' lag' l2 lag2 : l' `prefix_of` l2 -> (k = SinkOut -> l' ++ lag' `prefix_of` l2 ++ lag2) ->
  reached_all k e ps j l lag l' lag' -> reached_all k e ps j l lag l2 lag2.
Proof.
  intros H1 H2. unfold reached_all. destruct k as [|h].
  - intros [R1 R2]. split; [etransitivity; [exact R1|auto]|]. intros. etransitivity; [|exact H1]. auto.
  - intros R Hj. etransitivity; [|exact H1]. auto.
Qed.

Lemma drain_all_view k po qs save es e bar l lag s r s' : view k save po qs l lag [] s ->
  drain_all f64_show json_text k save es e bar s = (r, s') ->
  exists j l' lag' v, view k save po qs l' lag' v s' /\ frame po qs s s' /\ got k e save (items es) j l lag l' lag' v /\
    match r with
    | Ok (n, bar') => l' ++ lag' = (l ++ lag) ++ full_text e (items es) /\ (k = SinkOut -> lag = [] -> lag' = []) /\
        j = length (items es) /\ v = saved save (items es) /\ n = length (items es) /\
        bar_seen <$> bar' = (fun b => ((bar_pos b + length (items es))%nat, true)) <$> bar
    | Err x => x = CIo /\ ~ quiet s
    end.
Proof.
  intros Hv E. unfold drain_all, io_bind in E. destruct (emit_some k (em_prefix e) s) as [r1 s1] eqn:E1.
  destruct (emit_some_view _ _ _ _ _ _ _ _ _ _ _ Hv E1) as (l1 & lag1 & Hv1 & F1 & G1 & G2 & G3 & [(-> & Hl1 & Hp)|[-> Hq]]).
  2: { injection E as <- <-. exists 0%nat, l1, lag1, []. split; [done|]. split; [done|]. split; [|done]. split; [lia|apply prefix_nil| |lia].
       split; [done|]. split; [done|]. unfold full_text. rewrite app_assoc. by apply prefix_app_r. }
  destruct (drain f64_show json_text k save es e 0 bar s1) as [r2 s2] eqn:E2.
  destruct (drain_view _ _ _ _ _ _ _ _ _ _ _ _ _ _ Hv1 E2) as (l2 & lag2 & v2 & Hv2 & F2 & [(j & Hj & A1 & A2 & Aj) (A3 & A4 & A5) Hr]).
  assert (frame po qs s s2) as F12 by (by transitivity s1). cbn [app] in Hv2. apply (reached_prefix _ _ _ _ l lag) in A2; [|done|done].
  assert (l2 ++ lag2 `prefix_of` ((l ++ lag) ++ em_prefix e) ++ text_items e (items es)) as Hmost by (by rewrite <- Hl1).
  assert (k = SinkOut -> l ++ lag `prefix_of` l2 ++ lag2) as Hgrow by (intros Hk; etransitivity; [by apply G3|by apply A4]).
  destruct r2 as [[[e' n] bar']|x].
  2: { injection E as <- <-. exists j, l2, lag2, v2. split; [done|]. split; [done|]. split.
       - split; [done|done| |done]. split; [by etransitivity|]. split; [done|]. unfold full_text. rewrite app_assoc, (app_assoc _ (text_items e _)). by apply prefix_app_r.
       - destruct Hr as [-> Hq]. split; [done|]. intros Hs. by apply Hq, F1. }
  destruct Hr as (B1 & B2 & -> & -> & K1 & K2 & Hb). rewrite (suffix_kind _ _ K1 K2) in E. rewrite Hl1 in B1.
  destruct (emit_some k (em_suffix e) s2) as [r3 s3] eqn:E3.
  destruct (emit_some_view _ _ _ _ _ _ _ _ _ _ _ Hv2 E3) as (l3 & lag3 & Hv3 & F3 & G4 & G5 & G6 & R3).
  assert (frame po qs s s3) as F13 by (by transitivity s2). rewrite B1 in G5, R3.
  assert (got k e save (items es) j l lag l3 lag3 (saved save (items es))) as Hgot.
  { split; [done|done| |intros _; by eapply reached_more]. split; [by transitivity l1; [|transitivity l2]|]. split; [intros Hk; etransitivity; [by apply Hgrow|by apply G6]|].
    unfold full_text. by rewrite app_assoc, (app_assoc _ (text_items e _)). }
  exists j, l3, lag3, (saved save (items es)).
  destruct R3 as [(-> & C1 & C2)|[-> Hq]]; injection E as <- <-; (split; [done|]; split; [done|]; split; [done|]).
  - split_and!; try done; [by rewrite C1; unfold full_text; rewrite !app_assoc| |by apply Aj]. intros Hk Hlag. apply C2; [done|].
    destruct (suffix_lined e) as [[Hs He]|Hs]; [left|by right]. split; [done|]. apply B2; [done|done|]. apply Hp; [done|].
    destruct (prefix_lined e He); auto.
  - split; [done|]. intros Hs. by apply Hq, F12.
Qed.

Lemma create_spec path s r s' : create path s = (r, s') ->
  notes s' = notes s /\ input s' = input s /\ (delivered s' = delivered s /\ buffered s' = buffered s) /\ (quiet s -> quiet s') /\
  match r with
  | Ok h => at_end h path [] [] s' /\ (forall q, q <> path -> files s' !! q = files s !! q) /\
      (forall h' q c lag, q <> path -> at_end h' q c lag s -> at_end h' q c lag s')
  | Err x => x = CIo /\ files s' = files s /\ opened s' = opened s /\ ~ quiet s
  end.
Proof.
  unfold create. destruct (next_fault s) as [f s1] eqn:En. apply next_fault_spec in En as (E1 & E2 & E3 & E4 & E5 & Hq).
  destruct f as [n|]; intros [= <- <-]; cbn; split_and!; try done; try apply E4; try (intros Hs; exact (proj1 (Hq Hs))).
  - intros Hs. by destruct (Hq Hs).
  - split; cbn; [by rewrite E2, list_lookup_middle|by rewrite lookup_insert_eq].
  - intros q Hne. by rewrite lookup_insert_ne, E1.
  - intros h' q c lag Hne [H1 H2]. split; cbn; [|by rewrite lookup_insert_ne, E1].
    rewrite E2. by apply lookup_app_l_Some.
Qed.

(** ** What is left when [write_stream] is over *)
(** At its end, the whole text; at a failure, whole items and then a part of one. *)
Definition stream_left (f : Format) (tmpl outfile save : option str) (bar : option Bar) (ps : list Proxy) (s s' : Sys)
    (r : result (option Bar) CmdError) : Prop :=
  let e := new_emitter f tmpl in
  match r with
  | Ok bar' =>
      let full := write_stream f64_show json_text f tmpl (if save then true else false) ps in
      match outfile with
      | Some path => files s' !! path = Some full.1 /\ (delivered s' = delivered s /\ buffered s' = buffered s) /\ notes s' = notes s ++ [wrote (length ps) path ++ [LF]]
      | None => out s' = out s ++ full.1 /\ (buffered s = [] -> buffered s' = []) /\ notes s' = notes s
      end /\
      (forall path, save = Some path -> files s' !! path = full.2) /\
      bar_seen <$> bar' = (fun b => ((bar_pos b + length ps)%nat, true)) <$> bar
  | Err x => x = CIo /\ notes s' = notes s /\ ~ quiet s /\
      exists j u v, (j <= length ps)%nat /\ u `prefix_of` full_text e ps /\ v `prefix_of` saved save (take j ps) /\
      match outfile with
      | Some path => (delivered s' = delivered s /\ buffered s' = buffered s) /\
          (files s' !! path = Some u \/ (files s' !! path = files s !! path /\ j = 0%nat)) /\
          ((1 < j)%nat -> em_prefix e ++ text_items e (take (pred j) ps) `prefix_of` u)
      | None => out s' = out s ++ u /\ delivered s `prefix_of` delivered s' /\
          ((0 < j)%nat -> em_prefix e ++ text_items e (take j ps) `prefix_of` u /\
             (lined e = true -> buffered s = [] -> delivered s ++ em_prefix e ++ text_items e (take j ps) `prefix_of` delivered s'))
      end /\
      (forall path, save = Some path -> files s' !! path = Some v \/ (files s' !! path = files s !! path /\ j = 0%nat))
  end.
Lemma full_written f tmpl save ps : write_stream f64_show json_text f tmpl save ps =
  (full_text (new_emitter f tmpl) ps, if save then Some (ndjson ps) else None).
Proof. unfold write_stream, full_text. by rewrite saved_items. Qed.

(** With the file of [--save] created, or none asked for. *)
Lemma save_handle handle save c s : save_at handle save c s ->
  (forall ps, saved handle ps = saved save ps) /\
  (forall q, save = Some q -> files s !! q = Some c) /\
  forall ps, c = saved handle ps -> forall q, save = Some q -> files s !! q = (if save then Some (ndjson ps) else None).
Proof.
  intros Hs. destruct handle as [h|], save as [q|]; try done. destruct Hs as [_ Hf].
  split; [done|]. split; [by intros ? [= <-]|]. by intros ps -> ? [= <-].
Qed.
Lemma await_write_view h save path ps l lag cs s r s' : view (SinkFile h) save (Some path) ps l lag cs s -> await_write h s = (r, s') ->
  exists u, u `prefix_of` lag /\ view (SinkFile h) save (Some path) ps (l ++ u) [] cs s' /\ frame (Some path) ps s s' /\
    (r = Ok tt /\ u = lag \/ r = Err CIo /\ ~ quiet s).
Proof.
  intros (Hk & Hs & Ha) E. destruct (await_write_at _ _ _ _ _ _ _ Hk E) as (u & Hu & H1 & F & R). exists u. split; [done|].
  split; [|split; [eapply only_frame; [done|by left]|done]]. split; [done|]. split; [|done].
  destruct save as [h'|], ps as [q|]; try done. cbn in Hs |- *.
  assert (q <> path) as Hne by (intros ->; by apply (Ha path)).
  eapply at_end_other; [exact Hs|exact Hne| |exact F]. by apply (at_end_handles _ _ _ _ _ _ _ _ _ Hs Hk Hne).
Qed.
Lemma got_lands {A} h e (save : option A) ps j l lag v u : got (SinkFile h) e save ps j [] [] l lag v -> u `prefix_of` lag ->
  got (SinkFile h) e save ps j [] [] (l ++ u) [] v.
Proof.
  intros [G1 G2 (G3 & _ & G4) G5] Hu. split; [done|done| |].
  - split; [apply prefix_nil|]. split; [done|]. rewrite app_nil_r. etransitivity; [|exact G4]. by apply prefix_app.
  - intros Hj. apply (reached_more _ _ _ _ _ _ l lag); [by apply prefix_app_r|done|by apply G5].
Qed.
(** Nothing is under way when the file is dropped after a flush, and what is under way when a command fails still lands. *)
Lemma drain_to_file f tmpl path h save q bar es s r s' : view (SinkFile h) save (Some path) q [] [] [] s ->
  closing h (do! (count, bar) := drain_all f64_show json_text (SinkFile h) save es (new_emitter f tmpl) bar in
      then! flush_file h in
      then! eprintln (wrote count path) in
      io_ret bar) s = (r, s') ->
  exists j u v, view (SinkFile h) save (Some path) q u [] v s' /\ got (SinkFile h) (new_emitter f tmpl) save (items es) j [] [] u [] v /\
    input s' = input s /\ (delivered s' = delivered s /\ buffered s' = buffered s) /\
    (forall x, Some path <> Some x -> q <> Some x -> files s' !! x = files s !! x) /\
    match r with
    | Ok bar' => u = full_text (new_emitter f tmpl) (items es) /\ v = saved save (items es) /\ notes s' = notes s ++ [wrote (length (items es)) path ++ [LF]] /\
        bar_seen <$> bar' = (fun b => ((bar_pos b + length (items es))%nat, true)) <$> bar
    | Err x => x = CIo /\ ~ quiet s /\ notes s' = notes s
    end.
Proof.
  intros Hv. unfold closing, io_bind. set (e := new_emitter f tmpl).
  destruct (drain_all f64_show json_text (SinkFile h) save es e bar s) as [r1 s1] eqn:Ed.
  destruct (drain_all_view _ _ _ _ _ _ _ _ _ _ _ _ Hv Ed) as (j & l & lag & v & Hv1 & F1 & Hg & R1).
  assert (forall s2 s3 r2, frame (Some path) q s s2 -> forall u, u `prefix_of` lag -> view (SinkFile h) save (Some path) q (l ++ u) [] v s2 ->
    await_write h s2 = (r2, s3) -> view (SinkFile h) save (Some path) q (l ++ u) [] v s3 /\ frame (Some path) q s s3 /\
      got (SinkFile h) e save (items es) j [] [] (l ++ u) [] v) as Hclosed.
  { intros s2 s3 r2 F u Hu Hw Es. destruct (await_write_view _ _ _ _ _ _ _ _ _ _ Hw Es) as (w & ->%prefix_nil_inv & Hw' & F' & _).
    rewrite app_nil_r in Hw'. split; [done|]. split; [by transitivity s2|]. by eapply got_lands. }
  destruct r1 as [[n bar']|x].
  2: { destruct (await_write h s1) as [r2 s2] eqn:Es. intros [= <- <-].
       destruct (await_write_view _ _ _ _ _ _ _ _ _ _ Hv1 Es) as (u & Hu & Hw & F2 & _). cbn [snd].
       assert (frame (Some path) q s s2) as F12 by (by transitivity s1).
       exists j, (l ++ u), v. split; [done|]. split; [by eapply got_lands|].
       destruct F12 as (N & I & O & Ff & _). destruct R1 as [-> Hq]. split_and!; try done; by apply O. }
  destruct R1 as (Hl & _ & -> & -> & -> & Hb). unfold flush_file. destruct (await_write h s1) as [r2 s2] eqn:Es.
  destruct (await_write_view _ _ _ _ _ _ _ _ _ _ Hv1 Es) as (u & Hu & Hw & F2 & R2).
  assert (frame (Some path) q s s2) as F12 by (by transitivity s1).
  destruct R2 as [[-> ->]|[-> Hq]].
  - cbn [eprintln]. unfold eprintln, eprint, io_ret.
    set (s2' := mkSys _ _ _ _ _ _ _). destruct (await_write h s2') as [r3 s3] eqn:E3. intros [= <- <-].
    assert (view (SinkFile h) save (Some path) q (l ++ lag) [] (saved save (items es)) s2') as Hw' by done.
    destruct (await_write_view _ _ _ _ _ _ _ _ _ _ Hw' E3) as (w & ->%prefix_nil_inv & Hw3 & F3 & _). rewrite app_nil_r in Hw3.
    cbn in Hl. exists (length (items es)), (l ++ lag), (saved save (items es)). cbn [snd]. split; [done|]. split.
    { by eapply got_lands. }
    destruct F12 as (N & I & O & Ff & _), F3 as (N3 & I3 & O3 & Ff3 & _). destruct (O ltac:(done)), (O3 ltac:(done)).
    change (delivered s2') with (delivered s2) in *. change (buffered s2') with (buffered s2) in *. change (input s2') with (input s2) in *.
    change (files s2') with (files s2) in *. change (notes s2') with (notes s2 ++ [wrote (length (items es)) path ++ [LF]]) in *.
    split_and!; try done; [by rewrite I3|congruence|congruence|intros; by rewrite Ff3, Ff|by rewrite N3, N].
  - destruct (await_write h s2) as [r3 s3] eqn:E3. intros [= <- <-]. cbn [snd].
    destruct (Hclosed s2 s3 r3 F12 u Hu Hw E3) as (Hw3 & (N & I & O & Ff & _) & Hg3).
    exists (length (items es)), (l ++ u), (saved save (items es)). split_and!; try done; try by apply O. intros Hs. by apply Hq, F1.
Qed.

Lemma write_to_file f tmpl path save handle bar es s r s' : apart (Some path) save -> save_at handle save [] s ->
  io_bind (create path) (fun h =>
      closing h (do! (count, bar) := drain_all f64_show json_text (SinkFile h) handle es (new_emitter f tmpl) bar in
      then! flush_file h in
      then! eprintln (wrote count path) in
      io_ret bar)) s = (r, s') ->
  stream_left f tmpl (Some path) save bar (items es) s s' r /\
  (forall q, Some path <> Some q -> save <> Some q -> files s' !! q = files s !! q).
Proof.
  intros Ha Hs E. unfold io_bind at 1 in E.
  destruct (create path s) as [[h|x] s1] eqn:Ec; apply create_spec in Ec as (N1 & I1 & [O1 O1'] & Q1 & Hc).
  2: { injection E as <- <-. destruct Hc as (-> & Hf & _ & Hq). split; [|by rewrite Hf]. split; [done|]. split; [done|]. split; [done|].
       exists 0%nat, [], []. rewrite Hf. split; [lia|]. split; [apply prefix_nil|]. split; [apply prefix_nil|]. split; [split; [done|]; split; [by right|lia]|].
       intros q _. by right. }
  destruct Hc as (Hh & Hf & Hkeep).
  assert (view (SinkFile h) handle (Some path) save [] [] [] s1) as Hv.
  { split; [done|]. split; [|done]. destruct handle as [h'|], save as [q|]; try done. apply Hkeep; [|done]. intros ->. by apply (Ha path). }
  destruct (drain_to_file _ _ _ _ _ _ _ _ _ _ _ Hv E) as (j & u & v & ([_ Hu] & Hsave & _) & [G1 G2 (_ & _ & G3) G4] & _ & [O2 O2'] & Hoth & Hr).
  cbn [app] in *. rewrite app_nil_r in G3. destruct (save_handle _ _ _ _ Hsave) as (Hsame & Hsv & Hsd).
  split; [|intros q H1 H2; rewrite Hoth, Hf by congruence; done]. unfold stream_left. destruct r as [bar'|x].
  - destruct Hr as (-> & -> & Hn & Hb). rewrite full_written. cbn [fst snd]. split; [split_and!; congruence|]. split; [|done].
    intros q Hs'. by rewrite (Hsd _ eq_refl q Hs'), Hs'.
  - destruct Hr as (-> & Hq & Hn). split; [done|]. split; [congruence|]. split; [intros Hs'; by apply Hq, Q1|]. exists j, u, v.
    rewrite <- Hsame. split; [done|]. split; [done|]. split; [done|]. split.
    + split; [split; congruence|]. split; [by left|]. intros Hj. by apply G4; [lia|].
    + intros q Hq'. left. by apply Hsv.
Qed.
Lemma write_to_out f tmpl save handle bar es s r s' : save_at handle save [] s ->
  io_bind (drain_all f64_show json_text SinkOut handle es (new_emitter f tmpl) bar) (fun '(_, bar) => io_ret bar) s = (r, s') ->
  stream_left f tmpl None save bar (items es) s s' r /\
  (forall q, save <> Some q -> files s' !! q = files s !! q).
Proof.
  intros Hs E. unfold io_bind in E. assert (view SinkOut handle None save (delivered s) (buffered s) [] s) as Hv by (by split_and!).
  destruct (drain_all f64_show json_text SinkOut handle es _ bar s) as [r2 s2] eqn:Ed.
  destruct (drain_all_view _ _ _ _ _ _ _ _ _ _ _ _ Hv Ed) as (j & l & lag & v & ([Hu1 Hu2] & Hsave & _) & (N2 & I2 & _ & F2 & Q2) & Hg & Hr).
  fold (out s) in Hg, Hr. destruct (save_handle _ _ _ _ Hsave) as (Hsame & Hsv & Hsd). subst l lag.
  destruct r2 as [[n bar']|x]; injection E as <- <-; (split; [|intros q H2; by apply F2]); unfold stream_left.
  - destruct Hr as (Hout & Hheld & _ & Ev & -> & Hb). rewrite full_written. cbn [fst snd]. fold (out s2) in Hout.
    split; [split; [done|]; split; [by apply Hheld|done]|]. split; [|done]. intros q Hs'. by rewrite (Hsd _ Ev q Hs'), Hs'.
  - destruct Hr as [-> Hq]. destruct Hg as [G1 G2 (G3 & G4 & G5) G6]. split; [done|]. split; [done|]. split; [done|].
    unfold reached_all in G6. fold (out s) in G4, G5, G6. fold (out s2) in G4, G5, G6. destruct (G4 eq_refl) as [u Hu].
    exists j, u, v. rewrite <- Hsame. split; [done|]. rewrite Hu in G5. split; [by apply prefix_app_inv in G5|]. split; [done|].
    split; [|intros q Hq'; left; by apply Hsv]. split; [done|]. split; [done|]. intros Hj. destruct (G6 Hj) as [G7 G8]. rewrite Hu in G7.
    split; [by apply prefix_app_inv in G7|done].
Qed.

(** Having created the file of [--save] first makes no difference to the account. *)
Lemma left_after_create f tmpl outfile q bar ps s s1 s' r : apart outfile (Some q) ->
  stream_left f tmpl outfile (Some q) bar ps s1 s' r ->
  files s1 !! q = Some [] -> (forall p, p <> q -> files s1 !! p = files s !! p) -> notes s1 = notes s -> (delivered s1 = delivered s /\ buffered s1 = buffered s) ->
  (quiet s -> quiet s1) -> stream_left f tmpl outfile (Some q) bar ps s s' r.
Proof.
  intros Ha Hl Hq Hf Hn [Ho Hh] Hc. unfold stream_left, out in *. rewrite Hn, Ho, Hh in Hl. destruct r as [bar'|x]; [done|].
  destruct Hl as (-> & H1 & H2 & j & u & v & Hj & Hu & Hv & Hout & Hsv). split; [done|]. split; [done|]. split; [by intros ?%Hc|].
  exists j, u, v. split; [done|]. split; [done|]. split; [done|]. split.
  - destruct outfile as [path|]; [|done]. rewrite Hf in Hout; [done|]. intros ->. by apply (Ha q).
  - intros p [= <-]. left. destruct (Hsv q eq_refl) as [?|[E ->]]; [done|]. rewrite E, Hq.
    cbn in Hv. by apply prefix_nil_inv in Hv as ->.
Qed.

Lemma write_stream_left f tmpl outfile save bar es s r s' :
  write_stream_io f64_show json_text f tmpl outfile save bar es s = (r, s') -> apart outfile save ->
  stream_left f tmpl outfile save bar (items es) s s' r /\
  (forall q, outfile <> Some q -> save <> Some q -> files s' !! q = files s !! q).
Proof.
  intros E Ha. unfold write_stream_io in E. destruct save as [q|].
  - unfold io_bind at 1 2 in E. destruct (create q s) as [[h|x] s1] eqn:Ec; apply create_spec in Ec as (N1 & I1 & O1 & Q1 & Hc).
    + destruct Hc as (Hh & Hf & _). assert (save_at (Some h) (Some q) [] s1) as Hs by done. cbn [io_ret] in E.
      assert (stream_left f tmpl outfile (Some q) bar (items es) s1 s' r /\
        (forall p, outfile <> Some p -> Some q <> Some p -> files s' !! p = files s1 !! p)) as [Hl Ho].
      { destruct outfile as [path|]; [by eapply write_to_file|]. destruct (write_to_out _ _ _ _ _ _ _ _ _ Hs E) as [A B]. split; [done|].
        intros p _ Hp. by apply B. }
      split; [|intros p Hp Hq; rewrite Ho, Hf by congruence; done].
      eapply left_after_create; [done|exact Hl|exact (proj2 Hh)|done..].
    + injection E as <- <-. destruct Hc as (-> & Hf & _ & Hq). split; [|by rewrite Hf]. split; [done|]. split; [done|]. split; [done|].
      exists 0%nat, [], []. unfold out. destruct O1 as [-> ->]. rewrite Hf. split; [lia|]. split; [apply prefix_nil|]. split; [apply prefix_nil|].
      split; [|intros p _; by right]. destruct outfile; [split; [done|]; split; [by right|lia]|].
      rewrite app_nil_r. split; [done|]. split; [done|lia].
  - unfold io_bind at 1 in E. cbn [io_ret] in E. assert (save_at None None [] s) as Hs by done. destruct outfile as [path|]; [by eapply write_to_file|].
    destruct (write_to_out _ _ _ _ _ _ _ _ _ Hs E) as [A B]. split; [done|]. intros p _ Hp. by apply B.
Qed.

End views.

(** ** A disk that fills up *)
(** In pieces of at most 2 MiB, as tokio has it. *)
Fixpoint chop (fuel n : nat) (t : str) : list str :=
  match fuel, t with
  | O, _ | _, [] => []
  | S fuel, _ => take n t :: chop fuel n (drop n t)
  end.
Lemma chop_all fuel n t : (0 < n)%nat -> (length t <= fuel)%nat -> concat (chop fuel n t) = t.
Proof.
  intros Hn. revert t. induction fuel as [|fuel IH]; intros t Hl; destruct t as [|c t]; cbn [length] in Hl; try done; [lia|].
  cbn [chop concat]. rewrite IH by (rewrite length_drop; cbn [length]; lia). apply take_drop.
Qed.
Program Definition two_mebibytes : AsyncFile := {| pieces t := chop (length t) (N.to_nat (2 ^ 21)) t |}.
Next Obligation. intros t. apply chop_all; lia. Qed.
Section sink_demo.
#[local] Existing Instance two_mebibytes.
Definition demo_disk (script : list IoEv) : Sys := mkSys ∅ [] [] [] [] [] script.
Definition demo_events : list DrainEvent := [DItem sample; DTick None; DItem sample].
Abbreviation demo_write f outfile s :=
  (write_stream_io shown sample_text f None outfile (Some (lit "saved")) (make_progress true) demo_events s).
Definition demo_line : str := lit "8.8.8.8:8080" ++ [LF].
(** The second address does not fit. Its line has been saved by then. *)
Definition demo_full : Sys := demo_disk [IoOk; IoOk; IoOk; IoOk; IoOk; IoFault 3].
(** A JSON array is saved while nothing of it is out yet. *)
Example array_held : let s' := (demo_write FJsonArray None (demo_disk [IoOk; IoOk; IoFault 0])).2 in
  delivered s' = [] /\ buffered s' = lit "[" ++ sample_line ++ lit "," ++ sample_line /\ files s' !! lit "saved" = Some (sample_line ++ [LF]).
Proof. by vm_compute. Qed.
End sink_demo.
