(* ===== verification/Listener.v ===== *)
(** * The accept loop (src/server.rs, [serve])

    The task that [serve] spawns: it waits for the pool, then admits clients one at a time, each
    behind a permit that the client's own task gives back when it ends. A step is one branch of a
    [select!] or the end of a client's task; which branch is taken when several are ready is left
    open. Binding and the clients' own work ([handle_client]) are elsewhere. *)
From S2P Require Import Prelude Text Types Addr Proxy Pool PoolSteps.
Open Scope Z_scope.

Section listener.
Context `{HO : HashOrder} `{N : Notify} `{UC : UnicodeCase}.

(** Waiting for the pool (the task of [wait_ready]); for a permit; with a permit, for a client. *)
Inductive LPhase := LGate (t : Task) | LAcquire | LAccept | LStopped.
Record Listener := {
  ls_phase : LPhase;
  ls_permits : nat;
  ls_cancelled : bool;
  ls_clients : list (IpAddr * bool); (* a client's peer, and whether its task is running *)
}.
Definition slots (cfg : PoolConfig) : nat := Nat.max (max_clients cfg) 1.
Definition gate_task (min_queue : nat) : Task :=
  {| t_scheme := SHttp; t_key := KIp (V4 0); t_pc := RStart min_queue |}.
Definition new_listener (cfg : PoolConfig) (min_queue : nat) : Listener :=
  {| ls_phase := LGate (gate_task min_queue); ls_permits := slots cfg; ls_cancelled := false; ls_clients := [] |}.

Inductive LEvent :=
| LShutdown                   (* [shutdown], or the handle is dropped *)
| LStop                       (* the loop takes the branch of the cancellation *)
| LPoll (w : World)           (* a step of [wait_ready] over the pool as it is then *)
| LPermit | LClient (peer : IpAddr) | LAcceptError
| LEnd (i : nat).             (* the task of a client ends *)
Definition at_phase (ph : LPhase) (permits : nat) (l : Listener) : Listener :=
  {| ls_phase := ph; ls_permits := permits; ls_cancelled := ls_cancelled l; ls_clients := ls_clients l |}.

Definition listen_step (e : LEvent) (l : Listener) : option Listener :=
  match e, ls_phase l with
  | LShutdown, _ =>
      Some {| ls_phase := ls_phase l; ls_permits := ls_permits l; ls_cancelled := true; ls_clients := ls_clients l |}
  | LStop, LStopped => None
  | LStop, ph =>
      (* a permit in hand is dropped *)
      if ls_cancelled l then Some (at_phase LStopped (match ph with LAccept => S (ls_permits l) | _ => ls_permits l end) l)
      else None
  | LPoll w, LGate t =>
      let? (t, _) := task_step 0 false t w in
      Some (at_phase (match t_pc t with RDone => LAcquire | _ => LGate t end) (ls_permits l) l)
  | LPermit, LAcquire =>
      match ls_permits l with S k => Some (at_phase LAccept k l) | O => None end
  | LClient peer, LAccept =>
      Some {| ls_phase := LAcquire; ls_permits := ls_permits l; ls_cancelled := ls_cancelled l;
              ls_clients := ls_clients l ++ [(peer, true)] |}
  | LAcceptError, LAccept => Some (at_phase LAcquire (S (ls_permits l)) l)
  | LEnd i, ph =>
      match ls_clients l !! i with
      | Some (peer, true) =>
          Some {| ls_phase := ph; ls_permits := S (ls_permits l); ls_cancelled := ls_cancelled l;
                  ls_clients := <[i := (peer, false)]> (ls_clients l) |}
      | _ => None
      end
  | _, _ => None
  end.
Fixpoint listen_run (es : list LEvent) (l : Listener) : option Listener :=
  match es with [] => Some l | e :: es => let? l := listen_step e l in listen_run es l end.

(** ** Permits and clients *)
Definition serving (l : Listener) : nat := length (List.filter snd (ls_clients l)).
Definition in_hand (l : Listener) : nat := match ls_phase l with LAccept => 1 | _ => 0 end.
(** [wait_ready] may return: nothing was asked for, enough is pooled, or the source has ended. *)
Definition pool_ready (min_queue : nat) (p : Pool) : Prop :=
  min_queue = 0%nat \/ (min_queue <= len p)%nat \/ exhausted p = true.
Definition gate_pc (n : nat) (pc : Pc) : Prop :=
  pc = RStart n \/ exists k, pc = RCheck k n \/ pc = RWait k n.
Definition ready_seen (n : nat) (es : list LEvent) : Prop := exists w, LPoll w ∈ es /\ pool_ready n (w_pool w).
(** What holds after the events [es]. *)
Definition listener_ok (cfg : PoolConfig) (n : nat) (es : list LEvent) (l : Listener) : Prop :=
  (ls_permits l + serving l + in_hand l = slots cfg)%nat /\
  (ls_cancelled l = true <-> LShutdown ∈ es) /\
  match ls_phase l with
  | LGate t => gate_pc n (t_pc t) /\ ls_clients l = []
  | LStopped => ls_cancelled l = true /\ (ls_clients l <> [] -> ready_seen n es)
  | _ => ready_seen n es
  end.

Lemma running_snoc l peer ph k : serving {| ls_phase := ph; ls_permits := k; ls_cancelled := ls_cancelled l;
  ls_clients := ls_clients l ++ [(peer, true)] |} = S (serving l).
Proof. unfold serving. cbn. rewrite List.filter_app, length_app. cbn. lia. Qed.
Lemma running_end (cs : list (IpAddr * bool)) i peer : cs !! i = Some (peer, true) ->
  S (length (List.filter snd (<[i := (peer, false)]> cs))) = length (List.filter snd cs).
Proof.
  revert i. induction cs as [|[q b] cs IH]; intros [|i]; cbn; [done|done|intros [= -> ->]; done|].
  intros Hi. destruct b; cbn; by rewrite <- (IH i Hi).
Qed.
Lemma gate_step n t w t' w' : gate_pc n (t_pc t) -> task_step 0 false t w = Some (t', w') ->
  gate_pc n (t_pc t') \/ (t_pc t' = RDone /\ pool_ready n (w_pool w)).
Proof.
  intros Hpc. unfold task_step. destruct Hpc as [->|(k & [-> | ->])].
  - intros [= <- <-]. cbn. destruct (Nat.eqb_spec n 0); [right; split; [done|by left]|left; right; eauto].
  - intros [= <- <-]. cbn. destruct (Nat.leb_spec n (len (w_pool w))); cbn; [right; split; [done|right; by left]|].
    destruct (exhausted (w_pool w)) eqn:E; [right; split; [done|by right; right]|left; right; eauto].
  - destruct (woken _ _); [|done]. intros [= <- <-]. left. by left.
Qed.
Lemma ready_mono n es e : ready_seen n es -> ready_seen n (es ++ [e]).
Proof. intros (w & ? & ?). exists w. split; [|done]. apply elem_of_app. by left. Qed.
Lemma shutdown_snoc es e : e <> LShutdown -> (LShutdown ∈ es ++ [e] <-> LShutdown ∈ es).
Proof. intros He. rewrite elem_of_app, list_elem_of_singleton. naive_solver. Qed.
Lemma listener_step cfg n es e l l' : listener_ok cfg n es l -> listen_step e l = Some l' ->
  listener_ok cfg n (es ++ [e]) l'.
Proof.
  intros (Hp & Hc & Hph) Hs. destruct l as [ph k b cs]. unfold listen_step in Hs. cbn [ls_phase ls_permits ls_cancelled ls_clients] in *.
  destruct e as [| |w| |peer| |i].
  - injection Hs as <-. split; [exact Hp|]. split; [|destruct ph; cbn; naive_solver eauto using ready_mono].
    cbn. rewrite elem_of_app, list_elem_of_singleton. naive_solver.
  - assert (b = true /\ ph <> LStopped) as [-> Hne] by (destruct ph; try destruct b; done).
    assert (l' = at_phase LStopped (match ph with LAccept => S k | _ => k end) {| ls_phase := ph; ls_permits := k; ls_cancelled := true; ls_clients := cs |})
      as -> by (destruct ph; try done; by injection Hs).
    split; [destruct ph; unfold serving, in_hand in *; cbn in *; lia|]. split; [by rewrite shutdown_snoc|]. split; [done|].
    intros Hcs. apply ready_mono. destruct ph; cbn in *; naive_solver.
  - destruct ph as [t| | |]; try done. destruct (task_step 0 false t w) as [[t' w']|] eqn:Et; [|done]. injection Hs as <-.
    destruct Hph as [Hg ->]. destruct (gate_step _ _ _ _ _ Hg Et) as [Hg'|[-> Hr]].
    + assert (match t_pc t' with RDone => LAcquire | _ => LGate t' end = LGate t') as ->
        by (destruct Hg' as [->|(q & [-> | ->])]; done).
      split; [done|]. split; [by rewrite shutdown_snoc|done].
    + split; [done|]. split; [by rewrite shutdown_snoc|]. exists w. split; [|done]. apply elem_of_app. right. left.
  - destruct ph; try done. destruct k as [|k]; [done|]. injection Hs as <-. split; [unfold serving, in_hand in *; cbn in *; lia|].
    split; [by rewrite shutdown_snoc|]. by apply ready_mono.
  - destruct ph; try done. injection Hs as <-. split; [|split; [by rewrite shutdown_snoc|by apply ready_mono]].
    rewrite (running_snoc {| ls_phase := LAccept; ls_permits := k; ls_cancelled := b; ls_clients := cs |}).
    unfold in_hand in *. cbn in *. lia.
  - destruct ph; try done. injection Hs as <-. split; [unfold serving, in_hand in *; cbn in *; lia|].
    split; [by rewrite shutdown_snoc|]. by apply ready_mono.
  - destruct (cs !! i) as [[peer []]|] eqn:Ei; try (by destruct ph).
    assert (l' = {| ls_phase := ph; ls_permits := S k; ls_cancelled := b; ls_clients := <[i := (peer, false)]> cs |})
      as -> by (destruct ph; by injection Hs).
    pose proof (running_end cs i peer Ei) as Hr.
    split; [unfold serving, in_hand in *; cbn in *; lia|]. split; [by rewrite shutdown_snoc|].
    destruct ph as [t| | |]; cbn in *; eauto using ready_mono.
    + destruct Hph as [_ ->]. done.
    + destruct Hph as [-> Hcs]. split; [done|]. intros _. apply ready_mono, Hcs. by intros ->.
Qed.
Lemma listener_reach cfg n es l : listen_run es (new_listener cfg n) = Some l -> listener_ok cfg n es l.
Proof.
  enough (forall done l0, listener_ok cfg n done l0 -> forall l, listen_run es l0 = Some l -> listener_ok cfg n (done ++ es) l) as H.
  { intros Hr. apply (H [] (new_listener cfg n)); [|done]. split; [unfold serving, in_hand; cbn; lia|].
    split; [split; [done|by intros ?%elem_of_nil]|]. split; [by left|done]. }
  induction es as [|e es IH]; intros done_ l0 Hok l1 Hr; [injection Hr as <-; by rewrite app_nil_r|].
  cbn in Hr. destruct (listen_step e l0) as [l2|] eqn:E; [|discriminate]. 
  rewrite (cons_middle e done_ es), app_assoc. eapply IH; [|exact Hr]. by eapply listener_step.
Qed.
(** A stopped loop admits nobody. *)
Lemma stopped_run es l l' : ls_phase l = LStopped -> listen_run es l = Some l' ->
  ls_phase l' = LStopped /\ map fst (ls_clients l') = map fst (ls_clients l).
Proof.
  revert l. induction es as [|e es IH]; intros l Hl Hr; [by injection Hr as <-|]. cbn in Hr.
  destruct (listen_step e l) as [l2|] eqn:E; [|done]. cbn in Hr.
  assert (ls_phase l2 = LStopped /\ map fst (ls_clients l2) = map fst (ls_clients l)) as [H1 H2].
  { unfold listen_step in E. rewrite Hl in E. destruct e as [| |w| |peer| |i]; try done; [by injection E as <-|].
    destruct (ls_clients l !! i) as [[peer []]|] eqn:Ei; try done. injection E as <-. split; [done|]. cbn.
    change (fst <$> <[i := (peer, false)]> (ls_clients l) = fst <$> ls_clients l).
    rewrite list_fmap_insert. apply list_insert_id. by rewrite list_lookup_fmap, Ei. }
  destruct (IH l2 H1 Hr) as [H3 H4]. split; [done|]. by rewrite H4, H2.
Qed.

Lemma running_some (cs : list (IpAddr * bool)) : (0 < length (List.filter snd cs))%nat -> exists i peer, cs !! i = Some (peer, true).
Proof.
  induction cs as [|[q b] cs IH]; cbn; [lia|]. destruct b; [intros _; by exists 0%nat, q|]. intros Hl.
  destruct (IH Hl) as (i & peer & Hi). by exists (S i), peer.
Qed.
Lemma gate_opens n t w k b : gate_pc n (t_pc t) -> pool_ready n (w_pool w) -> (forall k m, t_pc t <> RWait k m) ->
  exists polls l', Forall (fun e => e = LPoll w) polls /\
    listen_run polls {| ls_phase := LGate t; ls_permits := k; ls_cancelled := b; ls_clients := [] |} = Some l' /\ ls_phase l' = LAcquire.
Proof.
  intros Hg Hw Hn. destruct t as [sc key pc]. cbn in Hg, Hn.
  assert (n <> 0%nat -> (n <=? len (w_pool w))%nat || exhausted (w_pool w) = true) as Hr.
  { intros Hz. destruct Hw as [?|[Hle| ->]]; [done| |apply orb_true_r]. by rewrite (proj2 (Nat.leb_le _ _) Hle). }
  destruct Hg as [->|(q & [-> | ->])]; [| |by destruct (Hn q n)].
  - destruct (Nat.eqb_spec n 0) as [->|Hz]; [exists [LPoll w]; by eexists; split_and!; [by repeat constructor|reflexivity|]|].
    exists [LPoll w; LPoll w]. eexists. split; [by repeat constructor|]. cbn. rewrite (proj2 (Nat.eqb_neq _ _) Hz). cbn.
    rewrite Hr by done. by split.
  - exists [LPoll w]. eexists. split; [by repeat constructor|]. cbn. 
    destruct ((n <=? len (w_pool w))%nat || exhausted (w_pool w)) eqn:E; [by split|].
    destruct (decide (n = 0%nat)) as [->|Hz]; [discriminate E|]. discriminate (Hr Hz).
Qed.

(** The server's front door. In every run of the accept loop the permits, the clients being
    served and the permit in hand add up to [max_clients], one at least: no more clients than that
    are served at once and no permit is lost, whatever accepts fail and however clients end. Nobody
    is admitted before [wait_ready] saw its number of proxies, or the end of the source. The loop is
    never stuck: it waits for a permit only while all of them are held by clients that can still
    end, the gate opens once the
    pool is ready, and the loop can stop as soon as it is cancelled; it stops for no other reason, and then admits
    nobody. *)
Theorem listener_sound : forall cfg n es l, listen_run es (new_listener cfg n) = Some l ->
  (ls_permits l + serving l + in_hand l = slots cfg)%nat /\ (serving l <= slots cfg)%nat /\
  (ls_clients l <> [] -> ready_seen n es) /\
  match ls_phase l with
  | LGate t => ls_clients l = [] /\
      forall w, pool_ready n (w_pool w) -> (forall k m, t_pc t <> RWait k m) ->
        exists polls l', Forall (fun e => e = LPoll w) polls /\ listen_run polls l = Some l' /\ ls_phase l' = LAcquire
  | LAcquire => is_Some (listen_step LPermit l) \/ (serving l = slots cfg /\ exists i, is_Some (listen_step (LEnd i) l))
  | LAccept => forall peer, is_Some (listen_step (LClient peer) l)
  | LStopped => LShutdown ∈ es /\
      forall es' l', listen_run es' l = Some l' -> map fst (ls_clients l') = map fst (ls_clients l)
  end /\
  (LShutdown ∈ es -> ls_phase l <> LStopped -> is_Some (listen_step LStop l)).
Proof.
  intros cfg n es l Hr. pose proof (listener_reach _ _ _ _ Hr) as (Hp & Hc & Hph). split; [done|]. split; [lia|].
  split; [revert Hph; destruct (ls_phase l); [by intros [_ ->]|by intros ?|by intros ?|by intros [_ ?]]|]. split.
  - destruct l as [ph k b cs]. cbn in Hph, Hc. destruct ph as [t| | |]; cbn [ls_phase ls_clients].
    + destruct Hph as [Hg ->]. split; [done|]. intros w Hw Hn.
      destruct (gate_opens n t w k b Hg Hw Hn) as (polls & l' & ? & ? & ?). by exists polls, l'.
    + unfold in_hand in Hp. cbn in Hp. destruct k as [|k]; [right|left; by eexists].
      split; [cbn in *; lia|]. destruct (running_some cs) as (i & peer & Hi).
      { unfold slots in Hp. unfold serving in Hp. cbn in Hp. lia. }
      exists i. cbn. rewrite Hi. by eexists.
    + intros peer. by eexists.
    + destruct Hph as [-> _]. split; [by apply Hc|]. intros es' l' Hl'. by apply (stopped_run es' _ l') in Hl' as [_ ?].
  - intros Hsd Hns. apply Hc in Hsd. unfold listen_step. rewrite Hsd. destruct (ls_phase l); done || by eexists.
Qed.
End listener.

Section listener_demo.
#[local] Existing Instances list_order counter_notify ascii_case.
Definition one_client : PoolConfig :=
  let d := PoolConfig_default in
  {| max_tries := max_tries d; max_error_rate := max_error_rate d; max_resp_time := max_resp_time d; min_req := min_req d;
     countries := countries d; strategy := strategy d; sticky_header := sticky_header d; max_sessions := max_sessions d;
     fail_timeout := fail_timeout d; prefer_connect := prefer_connect d; http_allowed_codes := http_allowed_codes d;
     verify_on_lease := verify_on_lease d; verify_target := verify_target d; max_clients := 0 |}.
Definition filled : World := mkWorld (from_proxies [new (V4 1) 80 ∅] one_client) 1 notify_new 0.
Definition one_served : list LEvent :=
  [LPoll filled; LPoll filled; LPermit; LAcceptError; LPermit; LClient (V4 7); LShutdown].
(** A limit of 0 serves one client at a time; the loop then waits for it to end, or stops. *)
Lemma listener_sound_witness : exists l, listen_run one_served (new_listener one_client 1) = Some l /\
  serving l = slots one_client /\ listen_step LPermit l = None /\ is_Some (listen_step (LEnd 0) l) /\ is_Some (listen_step LStop l).
Proof.
  destruct (listen_run one_served (new_listener one_client 1)) as [l|] eqn:E; [|discriminate E]. exists l. split; [reflexivity|].
  pose proof (listener_sound one_client 1 one_served l E) as (_ & _ & _ & _ & Hstop).
  split; [|split; [|split]]; [injection E as <-; reflexivity|injection E as <-; reflexivity|injection E as <-; by eexists|].
  apply Hstop; [|injection E as <-; discriminate].
  apply elem_of_app with (l1 := [LPoll filled; LPoll filled; LPermit; LAcceptError; LPermit; LClient (V4 7)]). right. left.
Defined.
End listener_demo.
