(* ===== verification/Gateway.v ===== *)
(** * The running server (src/server.rs, [serve] and [handle_client])

    The accept loop, the handlers of all its clients and everybody else's operations on the pool,
    interleaved over the one pool and the one history they share. What Server.v has as one function
    is here a state machine whose steps are a critical section of the pool or the history, or a
    stretch of work on the client's own connection; the function is one of its schedules. *)
From S2P Require Import Prelude F64 Text Types Addr Utils Proxy Pool PoolSteps Holds Http Net Negotiator Client Relay Server Trades Listener.
Open Scope Z_scope.

Section gateway.
Context `{HO : HashOrder} `{N : Notify} `{UC : UnicodeCase} `{TL : TunnelLibs} `{SP : Splice}.

(** [ConnCtx], less what is shared and changes; the resolver by its answers. *)
Record ConnCtx := { cx_lookup : str -> option (list IpAddr); cx_max_tries : nat; cx_auth : option AuthExpect }.
Definition conn_ctx (lookup_ip : str -> option (list IpAddr)) (cfg : PoolConfig) (auth : option str) : ConnCtx :=
  {| cx_lookup := lookup_ip; cx_max_tries := max_tries cfg; cx_auth := auth_expect <$> auth |}.

(** What one request keeps over its attempts. *)
Record Job := { jb_req : ClientRequest; jb_key : ClientKey; jb_target : Target }.
Inductive HPc :=
| HParse
| HGate (req : ClientRequest)
| HReply (text : str)                                   (* about to write its last words *)
| HGet (j : Job) (attempt : nat) (t : Task)
| HCount (j : Job) (attempt : nat) (px : Proxy)         (* about to count a rotation *)
| HRelay (j : Job) (attempt : nat) (px : Proxy)
| HRecord (j : Job) (px : Proxy)                        (* about to record who served it *)
| HPut (j : Job) (next : option nat) (failed : bool) (px : Proxy)
| HNotify (j : Job) (next : option nat)                 (* pushed, the waiters not yet woken *)
| HEnd.
Record Handler := { hd_peer : IpAddr; hd_client : Conn; hd_pc : HPc }.
Definition at_hpc (h : Handler) (pc : HPc) : Handler := {| hd_peer := hd_peer h; hd_client := hd_client h; hd_pc := pc |}.
Definition with_client (h : Handler) (c : Conn) (pc : HPc) : Handler := {| hd_peer := hd_peer h; hd_client := c; hd_pc := pc |}.
(** What a step meets: the clock, the liveness probe, the dial. *)
Record Input := { in_now : Z; in_live : bool; in_dial : Dial }.

Definition hands (h : Handler) : list Proxy :=
  match hd_pc h with
  | HGet _ _ t => held t
  | HCount _ _ px | HRelay _ _ px | HRecord _ px | HPut _ _ _ px => [px]
  | _ => []
  end.

Definition get_task (j : Job) : Task := {| t_scheme := rq_scheme (jb_req j); t_key := jb_key j; t_pc := GStart 0 |}.
Definition failure_reply (j : Job) : HPc := HReply (terminal_failure (rq_frontend (jb_req j))).
(** The head of the loop over the attempts. *)
Definition begin (cx : ConnCtx) (j : Job) (attempt : nat) : HPc :=
  if (attempt <? cx_max_tries cx)%nat then HGet j attempt (get_task j) else failure_reply j.
Definition continue (cx : ConnCtx) (j : Job) (next : option nat) : HPc :=
  match next with Some attempt => begin cx j attempt | None => HEnd end.
Definition got (j : Job) (attempt : nat) (t : Task) : HPc :=
  match t_pc t with
  | GDone (Some px) => HCount j attempt px
  | GDone None => failure_reply j
  | _ => HGet j attempt t
  end.
Definition relayed (j : Job) (attempt : nat) (px : Proxy) (out : RelayOutcome) : HPc :=
  match out with
  | ROk => HRecord j (record_attempt (Some f_zero) None px)
  | RetryableFailure e => HPut j (Some (S attempt)) true (record_attempt None (Some e) px)
  | ClientCommitted e => HPut j None true (record_attempt None (Some e) px)
  | ClientGone => HPut j None false (record_attempt (Some f_zero) None px)
  end.
Definition job_of (cx : ConnCtx) (cfg : PoolConfig) (peer_ip : IpAddr) (req : ClientRequest) : Job :=
  {| jb_req := req; jb_key := client_key cfg peer_ip req;
     jb_target := {| tg_host := rq_host req; tg_ip := ok (resolve (cx_lookup cx) (rq_host req)); tg_port := rq_port req |} |}.
Definition gate (cx : ConnCtx) (peer_ip : IpAddr) (req : ClientRequest) (w : World) (m : History) : HPc * World :=
  if auth_refused (cx_auth cx) req then (HReply auth_required, w)
  else if decide (rq_host req = lit "proxycontrol") then
    let '(reply, pool) := serve_control req (w_pool w) m peer_ip
                            (control_remove_allowed (bool_decide (is_Some (cx_auth cx))) peer_ip) in
    (HReply reply, with_pool pool w)
  else
    (begin cx (job_of cx (config (w_pool w)) peer_ip req) 0, w).

(** One step of a handler; [None] when it has ended, or waits: for a notification, for an upstream
    or for the client. *)
Definition handler_step (cx : ConnCtx) (x : Input) (h : Handler) (w : World) (m : History)
    : option (Handler * World * History) :=
  match hd_pc h with
  | HParse =>
      match parse_client_request (cx_auth cx) (hd_client h) with
      | (Ok req, c) => Some (with_client h c (HGate req), w, m)
      | (Err _, c) => Some (with_client h c HEnd, w, m)
      end
  | HGate req => let '(pc, w) := gate cx (hd_peer h) req w m in Some (at_hpc h pc, w, m)
  | HReply text => let? (_, c) := write_forever text (hd_client h) in Some (with_client h c HEnd, w, m)
  | HGet j a t => let? (t, w) := task_step (in_now x) (in_live x) t w in Some (at_hpc h (got j a t), w, m)
  | HCount j a px => Some (at_hpc h (HRelay j a px), if (0 <? a)%nat then rotate w else w, m)
  | HRelay j a px =>
      let? (out, c) := relay (hd_client h) (in_dial x) px (choose_proto px (rq_scheme (jb_req j))) (jb_target j) (jb_req j)
                         (http_allowed_codes (config (w_pool w))) in
      Some (with_client h c (relayed j a px out), w, m)
  | HRecord j px =>
      Some (at_hpc h (HPut j None false px), w, history_record (history_key (hd_peer h) (rq_path (jb_req j))) (peer px) m)
  | HPut j next failed px =>
      Some (at_hpc h (if put_pushes px w then HNotify j next else continue cx j next),
            if failed then put_failed_world (in_now x) px w else put_ok_world px w, m)
  | HNotify j next => Some (at_hpc h (continue cx j next), notify_all w, m)
  | HEnd => None
  end.

(** The server: the accept loop and its handlers, one for each client it admitted. *)
Record Gateway := mkGw { gw_listener : Listener.Listener; gw_handlers : list Handler; gw_world : World; gw_history : History }.
Inductive GwEvent :=
| GwShutdown | GwStop | GwReady | GwPermit | GwRefused
| GwAccept (peer : IpAddr) (client : Conn)
| GwStep (i : nat) (x : Input)
| GwClose (i : nat)              (* a handler that has ended gives its permit back *)
| GwEnv (op : EnvOp).            (* anybody else, on the pool *)
Definition new_handler (peer : IpAddr) (client : Conn) : Handler := {| hd_peer := peer; hd_client := client; hd_pc := HParse |}.
(** The accept loop's share of an event. *)
Definition listen_event (e : GwEvent) (g : Gateway) : option LEvent :=
  match e with
  | GwShutdown => Some LShutdown | GwStop => Some LStop | GwReady => Some (LPoll (gw_world g))
  | GwPermit => Some LPermit | GwRefused => Some LAcceptError | GwAccept peer _ => Some (LClient peer)
  | GwClose i => Some (LEnd i)
  | GwStep _ _ | GwEnv _ => None
  end.
Definition ended (h : Handler) : bool := match hd_pc h with HEnd => true | _ => false end.
Definition gw_step (cx : ConnCtx) (e : GwEvent) (g : Gateway) : option Gateway :=
  match e with
  | GwEnv op => Some (mkGw (gw_listener g) (gw_handlers g) (env_step op (gw_world g)) (gw_history g))
  | GwStep i x =>
      let? h := gw_handlers g !! i in
      let? (h, w, m) := handler_step cx x h (gw_world g) (gw_history g) in
      Some (mkGw (gw_listener g) (<[i := h]> (gw_handlers g)) w m)
  | e =>
      let? _ := match e with GwClose i => let? h := gw_handlers g !! i in if ended h then Some tt else None | _ => Some tt end in
      let? le := listen_event e g in
      let? l := listen_step le (gw_listener g) in
      Some (mkGw l (gw_handlers g ++ match e with GwAccept peer c => [new_handler peer c] | _ => [] end) (gw_world g) (gw_history g))
  end.
Fixpoint gw_run (cx : ConnCtx) (es : list GwEvent) (g : Gateway) : option Gateway :=
  match es with [] => Some g | e :: es => let? g := gw_step cx e g in gw_run cx es g end.
(** [serve], its socket bound, over a pool. *)
Definition gw_start (pool : Pool) (min_queue : nat) (rng : Z) : Gateway :=
  mkGw (new_listener (config pool) min_queue) [] (mkWorld pool rng notify_new 0) ∅.

(** ** Where the proxies are *)
(** Whether a step of a handler is a request to the control API. *)
Definition asks_control (h : Handler) : bool :=
  match hd_pc h with HGate req => bool_decide (rq_host req = lit "proxycontrol") | _ => false end.
Lemma hands_begin cx j a h : hands (at_hpc h (begin cx j a)) = [].
Proof. unfold begin, hands. by destruct (a <? _)%nat. Qed.
Lemma hands_continue cx j next h : hands (at_hpc h (continue cx j next)) = [].
Proof. destruct next; [apply hands_begin|done]. Qed.
Lemma hands_got j a t h : hands (at_hpc h (got j a t)) = held t.
Proof. unfold got, held. destruct (t_pc t) as [| | | | | | |[]| | | |] eqn:E; cbn; unfold held; by rewrite ?E. Qed.
Lemma control_trades req m ip allowed w : exists taken,
  trades [] taken w [] (with_pool (serve_control req (w_pool w) m ip allowed).2 w) [].
Proof.
  assert (exists taken, trades [] taken w [] (with_pool (w_pool w) w) []) as Hid by (exists []; by apply trades_same).
  unfold serve_control. destruct (splitn3 _ _) as [|? [|op [|params [|]]]]; try exact Hid. case_decide.
  - destruct allowed; cbn; [|exact Hid]. destruct (split_host_port params 0) as [hh pp]. cbn. destruct (ip_parse hh); [|exact Hid].
    apply trades_remove.
  - case_decide; [|exact Hid]. by destruct (history_get _ _).
Qed.
Lemma gate_trades cx ip req w m h : exists taken,
  trades [] taken w [] (gate cx ip req w m).2 (hands (at_hpc h (gate cx ip req w m).1)) /\
  (rq_host req <> lit "proxycontrol" -> taken = []).
Proof.
  unfold gate. destruct (auth_refused _ _); [exists []; split; [apply trades_refl|done]|]. case_decide as Hc.
  - destruct (control_trades req m ip (control_remove_allowed (bool_decide (is_Some (cx_auth cx))) ip) w) as [taken H].
    destruct (serve_control _ _ _ _ _) as [reply pool]. exists taken. split; [exact H|done].
  - exists []. split; [|done]. cbn [fst snd]. rewrite hands_begin. apply trades_refl.
Qed.
Lemma put_trades (failed : bool) now px w :
  trades [] [] w [px] (if failed then put_failed_world now px w else put_ok_world px w) [].
Proof.
  apply conserves_trades. destruct failed.
  - eapply conserves_pool; [|apply (put_conserves (Some (now + fail_timeout (config (w_pool w)))))].
    unfold put_failed_world. by destruct (put_pushes _ _).
  - eapply conserves_pool; [|apply (put_conserves None)]. unfold put_ok_world. by destruct (put_pushes _ _).
Qed.
Lemma handler_trades cx x h w m h' w' m' : handler_step cx x h w m = Some (h', w', m') ->
  exists taken, trades [] taken w (hands h) w' (hands h') /\ (asks_control h = false -> taken = []).
Proof.
  assert (forall px e1 e2 w1, trades [] [] w1 [px] w1 [record_attempt e1 e2 px]) as Hrec.
  { intros px e1 e2 w1. apply conserves_trades. eapply conserves_keys; [|apply conserves_refl]. cbn. by rewrite record_attempt_key. }
  unfold handler_step. intros E. unfold hands at 1, asks_control.
  destruct (hd_pc h) as [|req|text|j a t|j a px|j a px|j px|j next failed px|j next|] eqn:Hpc.
  - exists []. split; [|done]. destruct (parse_client_request _ _) as [[req|e] c]; injection E as <- <- <-; apply trades_refl.
  - destruct (gate_trades cx (hd_peer h) req w m h) as (taken & Ht & Hn). destruct (gate _ _ _ _ _) as [pc w1].
    injection E as <- <- <-. exists taken. split; [exact Ht|]. intros Hf%bool_decide_eq_false. by apply Hn.
  - destruct (write_forever _ _) as [[b c]|]; [|done]. injection E as <- <- <-. exists []. split; [apply trades_refl|done].
  - destruct (task_step _ _ t w) as [[t' w1]|] eqn:Et; [|done]. injection E as <- <- <-. exists []. split; [|done].
    rewrite hands_got. by eapply conserves_trades, task_step_conserves.
  - injection E as <- <- <-. exists []. split; [|done]. apply conserves_trades. destruct (0 <? a)%nat; [apply rotate_conserves|apply conserves_refl].
  - destruct (relay _ _ _ _ _ _ _) as [[out c]|]; [|done]. injection E as <- <- <-. exists []. split; [|done].
    unfold hands. destruct out; cbn; apply Hrec.
  - injection E as <- <- <-. exists []. split; [apply trades_refl|done].
  - injection E as <- <- <-. exists []. split; [|done]. assert (hands (at_hpc h (if put_pushes px w then HNotify j next else continue cx j next)) = []) as ->
      by (destruct (put_pushes px w); [done|apply hands_continue]). apply put_trades.
  - injection E as <- <- <-. exists []. split; [|done]. rewrite hands_continue. by apply trades_same.
  - done.
Qed.

(** ** What a client sees *)
Lemma task_step_scheme now live t w t' w' : task_step now live t w = Some (t', w') -> t_scheme t' = t_scheme t.
Proof. unfold task_step. intros E. repeat case_match; by simplify_eq. Qed.
Section clients.
Variables (cx : ConnCtx) (cfg : PoolConfig) (S : Proxy -> Prop).
(** [S] is a property of every proxy brought in; using a proxy does not change it. *)
Hypothesis S_used : forall px t e, S px -> S (record_attempt t e px).

Definition asks (c0 : Conn) (req : ClientRequest) (c1 : Conn) : Prop := parse_client_request (cx_auth cx) c0 = (Ok req, c1).
(** Past the gate: for the upstreams. *)
Definition passes_gate (req : ClientRequest) : Prop :=
  auth_refused (cx_auth cx) req = false /\ rq_host req <> lit "proxycontrol".
(** What the server itself says to a client. *)
Definition last_words (ip : IpAddr) (req : ClientRequest) (text : str) : Prop :=
  (auth_refused (cx_auth cx) req = true /\ text = auth_required) \/
  (auth_refused (cx_auth cx) req = false /\ rq_host req = lit "proxycontrol" /\ exists pool m,
     text = (serve_control req pool m ip (control_remove_allowed (bool_decide (is_Some (cx_auth cx))) ip)).1) \/
  (passes_gate req /\ text = terminal_failure (rq_frontend req)).
(** The proxy [px] was brought in and serves what was asked for; through it the conversation went. *)
Definition through (ip : IpAddr) (req : ClientRequest) (c1 : Conn) (px : Proxy) (out : RelayOutcome) (c2 : Conn) : Prop :=
  let j := job_of cx cfg ip req in
  passes_gate req /\ S px /\ serves (rq_scheme req) px = true /\
  exists d, relay c1 d px (choose_proto px (rq_scheme req)) (jb_target j) req (http_allowed_codes cfg) = Some (out, c2).
Definition answered (ip : IpAddr) (c0 c2 : Conn) : Prop :=
  match parse_client_request (cx_auth cx) c0 with
  | (Err _, c) => c2 = c
  | (Ok req, c1) =>
      (exists text b, last_words ip req text /\ write_forever text c1 = Some (b, c2)) \/
      (exists px out, through ip req c1 px out c2 /\ forall e, out <> RetryableFailure e)
  end.
(** A line of the history. *)
Definition entry (clients : list (IpAddr * Conn)) (k v : str) : Prop :=
  exists ip c0 req c1 px c2, (ip, c0) ∈ clients /\ asks c0 req c1 /\ through ip req c1 px ROk c2 /\
    k = history_key ip (rq_path req) /\ v = peer px.

(** Its client was let through to the upstreams. *)
Definition admits (c0 : Conn) : Prop := exists req c1, asks c0 req c1 /\ passes_gate req.
Definition working (c0 : Conn) (h : Handler) (j : Job) : Prop :=
  exists req, asks c0 req (hd_client h) /\ passes_gate req /\ j = job_of cx cfg (hd_peer h) req.
Definition may_use (j : Job) (px : Proxy) : Prop := S px /\ serves (rq_scheme (jb_req j)) px = true.
(** After the relay: to be tried again, the connection as it was, or answered. *)
Definition after (c0 : Conn) (h : Handler) (j : Job) (next : option nat) : Prop :=
  match next with Some _ => working c0 h j | None => answered (hd_peer h) c0 (hd_client h) end.
Definition handler_ok (c0 : Conn) (h : Handler) : Prop :=
  match hd_pc h with
  | HParse => hd_client h = c0
  | HGate req => asks c0 req (hd_client h)
  | HReply text => exists req, asks c0 req (hd_client h) /\ last_words (hd_peer h) req text
  | HGet j a t => working c0 h j /\ (a < cx_max_tries cx)%nat /\ task_holds S t /\ t_scheme t = rq_scheme (jb_req j)
  | HCount j a px | HRelay j a px => working c0 h j /\ (a < cx_max_tries cx)%nat /\ may_use j px
  | HRecord j px => S px /\ exists req c1 px0, asks c0 req c1 /\ j = job_of cx cfg (hd_peer h) req /\
      through (hd_peer h) req c1 px0 ROk (hd_client h) /\ peer px = peer px0
  | HPut j next _ px => after c0 h j next /\ S px /\ admits c0
  | HNotify j next => after c0 h j next
  | HEnd => answered (hd_peer h) c0 (hd_client h)
  end.

Lemma begin_ok c0 h j a : working c0 h j -> handler_ok c0 (at_hpc h (begin cx j a)).
Proof.
  intros Hw. unfold begin. destruct (Nat.ltb_spec a (cx_max_tries cx)).
  - cbn. split_and!; [done|done| |done]. intros px Hx. by apply elem_of_nil in Hx.
  - destruct Hw as (req & Ha & Hp & ->). exists req. split; [done|]. right. right. done.
Qed.
Lemma continue_ok c0 h j next : after c0 h j next -> handler_ok c0 (at_hpc h (continue cx j next)).
Proof. destruct next; [apply begin_ok|done]. Qed.
Lemma got_ok c0 h j a t : working c0 h j -> (a < cx_max_tries cx)%nat -> task_holds S t -> t_scheme t = rq_scheme (jb_req j) ->
  handler_ok c0 (at_hpc h (got j a t)).
Proof.
  intros Hw Ha Ht Hs. unfold got. destruct (t_pc t) as [| | | | | | |[px|]| | | |] eqn:E; try done.
  - cbn. split_and!; [done|done|]. unfold may_use. rewrite <- Hs. apply Ht. unfold held. rewrite E. by left.
  - destruct Hw as (req & Hq & Hp & ->). exists req. split; [done|]. right. right. done.
Qed.
Lemma gate_ok c0 h req w m : config (w_pool w) = cfg -> asks c0 req (hd_client h) ->
  handler_ok c0 (at_hpc h (gate cx (hd_peer h) req w m).1).
Proof.
  intros Hc Ha. unfold gate. destruct (auth_refused (cx_auth cx) req) eqn:E.
  { exists req. split; [done|]. by left. }
  case_decide as Hd; [|apply begin_ok; by exists req; rewrite Hc].
  destruct (serve_control _ _ _ _ _) as [reply pool] eqn:Es.
  exists req. split; [done|]. right. left. split_and!; [done|done|]. exists (w_pool w), m. cbn [fst hd_peer at_hpc]. by rewrite Es.
Qed.
Lemma gate_holds req w m ip : pool_holds cfg S (w_pool w) -> pool_holds cfg S (w_pool (gate cx ip req w m).2).
Proof.
  intros Hp. unfold gate. destruct (auth_refused _ _); [done|]. case_decide; [|done].
  assert (pool_holds cfg S (serve_control req (w_pool w) m ip (control_remove_allowed (bool_decide (is_Some (cx_auth cx))) ip)).2) as H0.
  { unfold serve_control. destruct (splitn3 _ _) as [|? [|op [|params [|]]]]; try exact Hp. case_decide.
    - destruct (control_remove_allowed _ _); cbn; [|exact Hp]. destruct (split_host_port params 0) as [hh pp]. cbn.
      destruct (ip_parse hh); [|exact Hp]. apply (pool_holds_sub _ _ (w_pool w)); [done| |done]. by intros e [_ ?]%elem_of_retain.
    - case_decide; [|exact Hp]. by destruct (history_get _ _). }
  by destruct (serve_control _ _ _ _ _) as [reply pool].
Qed.
Lemma relay_ok c0 h j a px d out c : working c0 h j -> may_use j px ->
  relay (hd_client h) d px (choose_proto px (rq_scheme (jb_req j))) (jb_target j) (jb_req j) (http_allowed_codes cfg) = Some (out, c) ->
  handler_ok c0 (with_client h c (relayed j a px out)).
Proof.
  intros Hw [HS Hs] E. pose proof Hw as (req & Ha & Hp & ->). cbn [jb_req job_of] in Hs.
  assert (through (hd_peer h) req (hd_client h) px out c) as Ht by (split; [exact Hp|]; split; [exact HS|]; split; [exact Hs|]; by exists d).
  assert ((forall e, out <> RetryableFailure e) -> answered (hd_peer h) c0 c) as Hans.
  { intros Hn. unfold answered. rewrite Ha. right. by exists px, out. }
  assert (admits c0) as Hadm by (by exists req, (hd_client h)).
  destruct out as [|e|e|]; cbn [relayed handler_ok with_client hd_pc].
  - split; [by apply S_used|]. exists req, (hd_client h), px. by split_and!.
  - pose proof (relay_cases _ _ _ _ _ _ _ _ _ E) as Hcl. cbn in Hcl. rewrite Hcl. split; [exact Hw|split; [by apply S_used|done]].
  - split; [by apply Hans|split; [by apply S_used|done]].
  - split; [by apply Hans|split; [by apply S_used|done]].
Qed.
Lemma handler_step_ok c0 x h w m h' w' m' : handler_step cx x h w m = Some (h', w', m') ->
  handler_ok c0 h -> pool_holds cfg S (w_pool w) ->
  hd_peer h' = hd_peer h /\ handler_ok c0 h' /\ pool_holds cfg S (w_pool w') /\
  (m' = m \/ exists k v, m' = history_record k v m /\ entry [(hd_peer h, c0)] k v).
Proof.
  intros E Hh Hp. pose proof Hp as [Hc _]. unfold handler_step in E. unfold handler_ok in Hh.
  destruct (hd_pc h) as [|req|text|j a t|j a px|j a px|j px|j next failed px|j next|] eqn:Hpc.
  - destruct (parse_client_request _ _) as [[req|e] c] eqn:Ep; injection E as <- <- <-;
      (split; [done|]; split; [|split; [done|by left]]); cbn; [|unfold answered]; subst; by rewrite ?Ep.
  - pose proof (gate_ok c0 h req w m Hc Hh) as Hg. pose proof (gate_holds req w m (hd_peer h) Hp) as Hw.
    destruct (gate _ _ _ _ _) as [pc w1]. injection E as <- <- <-. split_and!; auto.
  - destruct (write_forever text (hd_client h)) as [[b c]|] eqn:Ew; [|done]. injection E as <- <- <-. split_and!; auto.
    destruct Hh as (req & Ha & Hl). cbn. unfold answered. rewrite Ha. left. by exists text, b.
  - destruct (task_step _ _ t w) as [[t' w1]|] eqn:Et; [|done]. injection E as <- <- <-. destruct Hh as (Hw & Ha & Ht & Hs).
    destruct (task_step_holds _ _ _ _ _ _ _ _ Et Ht Hp) as [Ht' Hp']. split; [done|]. split; [|split; [done|by left]].
    apply got_ok; try done. by rewrite (task_step_scheme _ _ _ _ _ _ Et).
  - injection E as <- <- <-. split; [done|]. split; [exact Hh|]. split; [by destruct (0 <? a)%nat|by left].
  - destruct (relay _ _ _ _ _ _ _) as [[out c]|] eqn:Er; [|done]. injection E as <- <- <-. destruct Hh as (Hw & Ha & Hu).
    split; [done|]. split; [|split; [done|by left]]. rewrite Hc in Er. by eapply relay_ok.
  - injection E as <- <- <-. destruct Hh as (HS & req & c1 & px0 & Ha & -> & Ht & Hpeer). split; [done|]. split; [|split; [done|]].
    + cbn. split; [|split; [done|exists req, c1; by split; [|apply Ht]]]. unfold answered. rewrite Ha. right. exists px0, ROk. by split.
    + right. eexists _, _. split; [done|]. exists (hd_peer h), c0, req, c1, px0, (hd_client h). split_and!; try done; [by left|apply Ht..].
  - injection E as <- <- <-. destruct Hh as (Ha & HS & _). split; [done|]. split; [|split; [|by left]].
    + destruct (put_pushes px w); [exact Ha|]. by apply continue_ok.
    + destruct failed; unfold put_failed_world, put_ok_world; (destruct (put_pushes px w); by apply pool_holds_put).
  - injection E as <- <- <-. split; [done|]. split; [by apply continue_ok|]. split; [done|by left].
  - done.
Qed.

(** ** The whole server *)
Definition admitted (e : GwEvent) : option (IpAddr * Conn) := match e with GwAccept ip c => Some (ip, c) | _ => None end.
Definition accepted (es : list GwEvent) : list (IpAddr * Conn) := omap admitted es.
Definition gw_brings (e : GwEvent) : Prop := match e with GwEnv op => brings cfg S op | _ => True end.
Record gw_ok (n : nat) (es : list GwEvent) (g : Gateway) : Prop := {
  gk_handlers : Forall2 (fun a h => hd_peer h = a.1 /\ handler_ok a.2 h) (accepted es) (gw_handlers g);
  gk_pool : pool_holds cfg S (w_pool (gw_world g));
  gk_history : (size (gw_history g) <= HISTORY_CAP)%nat /\ forall k v, gw_history g !! k = Some v -> entry (accepted es) k v;
  gk_listener : exists les, listener_ok cfg n les (gw_listener g);
  gk_closed : Forall2 (fun c h => c.2 = false -> ended h = true) (ls_clients (gw_listener g)) (gw_handlers g);
}.
Lemma entry_mono l l' k v : (forall a, a ∈ l -> a ∈ l') -> entry l k v -> entry l' k v.
Proof. intros Hs (ip & c0 & req & c1 & px & c2 & Hin & H). exists ip, c0, req, c1, px, c2. split; [by apply Hs|done]. Qed.
Lemma listen_clients e l l' : listen_step e l = Some l' ->
  ls_clients l' = match e with
                  | LClient ip => ls_clients l ++ [(ip, true)]
                  | LEnd i => match ls_clients l !! i with Some (ip, _) => <[i := (ip, false)]> (ls_clients l) | None => [] end
                  | _ => ls_clients l
                  end.
Proof.
  destruct l as [ph k b cs]. unfold listen_step. cbn [ls_phase ls_permits ls_cancelled ls_clients].
  destruct e as [| |w| |ip| |i]; try (destruct ph; intros E; by simplify_eq).
  - destruct ph; try done; destruct b; intros E; by simplify_eq.
  - destruct ph as [t| | |]; try done. destruct (task_step 0 false t w) as [[t' w']|]; [|done]. intros E. by simplify_eq.
  - destruct ph; try done. destruct k; intros E; by simplify_eq.
  - intros E. destruct ph; (destruct (cs !! i) as [[ip [|]]|]; by simplify_eq).
Qed.
Lemma recorded_entry l k v m k' v' : entry l k v -> (forall k v, m !! k = Some v -> entry l k v) ->
  history_record k v m !! k' = Some v' -> entry l k' v'.
Proof.
  intros He Hm. unfold history_record. case_match; intros [[<- <-]|[_ Hl]]%lookup_insert_Some; try done. by apply Hm.
Qed.
Lemma accepted_snoc es e : accepted (es ++ [e]) = accepted es ++ option_list (admitted e).
Proof. unfold accepted. rewrite omap_app. cbn. by destruct (admitted e). Qed.
Lemma handler_ended x h w m : ended h = true -> handler_step cx x h w m = None.
Proof. unfold ended, handler_step. by destruct (hd_pc h). Qed.
Lemma gw_listen_ok n es e le g l : admitted e = None -> listen_event e g = Some le -> listen_step le (gw_listener g) = Some l ->
  match e with GwClose i => exists h, gw_handlers g !! i = Some h /\ ended h = true | _ => True end ->
  gw_ok n es g -> gw_ok n (es ++ [e]) (mkGw l (gw_handlers g) (gw_world g) (gw_history g)).
Proof.
  intros Ha Hle El Hclose [H1 H2 H3 [les H4] H5]. split; rewrite ?accepted_snoc, ?Ha; cbn [option_list]; rewrite ?app_nil_r; try done.
  - exists (les ++ [le]). by eapply listener_step.
  - cbn [gw_listener gw_handlers]. rewrite (listen_clients _ _ _ El). destruct e; try done; injection Hle as <-; try done.
    destruct Hclose as (h & Hi & He). pose proof El as El'. unfold listen_step in El'.
    destruct (Forall2_lookup_r _ _ _ _ _ H5 Hi) as ([ip b] & Hc & _). cbn. rewrite Hc.
    rewrite <- (list_insert_id _ _ _ Hi). by apply Forall2_insert.
Qed.
Lemma gw_step_ok n es e g g' : gw_ok n es g -> gw_brings e -> gw_step cx e g = Some g' -> gw_ok n (es ++ [e]) g'.
Proof.
  intros Hg Hb E. destruct e as [| | | | |ip c|i x|i|op]; cbn [gw_step] in E.
  1-5: cbn [listen_event mbind option_bind] in E; destruct (listen_step _ (gw_listener g)) as [l|] eqn:El; [|done]; injection E as <-; rewrite app_nil_r;
    by eapply gw_listen_ok.
  - cbn [listen_event mbind option_bind] in E. destruct (listen_step _ (gw_listener g)) as [l|] eqn:El; [|done]. injection E as <-. destruct Hg as [H1 H2 [H3 H3'] [les H4] H5].
    split; rewrite ?accepted_snoc; cbn [option_list admitted gw_handlers gw_world gw_history gw_listener]; try done.
    + apply Forall2_app; [done|]. by repeat constructor.
    + split; [done|]. intros k v Hl. eapply entry_mono, H3', Hl. intros a Hin. apply elem_of_app. by left.
    + exists (les ++ [LClient ip]). by eapply listener_step.
    + rewrite (listen_clients _ _ _ El). apply Forall2_app; [done|]. by repeat constructor.
  - destruct (gw_handlers g !! i) as [h|] eqn:Hi; [|done]. cbn [mbind option_bind] in E. destruct (handler_step cx x h _ _) as [[[h' w'] m']|] eqn:Es; [|done].
    injection E as <-. destruct Hg as [H1 H2 [H3 H3'] H4 H5].
    destruct (Forall2_lookup_r _ _ _ _ _ H1 Hi) as ([ip c0] & Hc & Hpeer & Hok). cbn [fst snd] in Hpeer, Hok. subst ip.
    destruct (handler_step_ok _ _ _ _ _ _ _ _ Es Hok H2) as (Hpeer & Hok' & Hp' & Hm).
    split; rewrite ?accepted_snoc; cbn [option_list admitted gw_handlers gw_world gw_history gw_listener]; rewrite ?app_nil_r; try done.
    + rewrite <- (list_insert_id _ _ _ Hc). by apply Forall2_insert.
    + destruct Hm as [->|(k & v & -> & He)]; [done|]. split; [by apply (history_record_sound k v _ [])|].
      intros k' v'. apply recorded_entry; [|done]. eapply entry_mono; [|exact He]. intros a ->%list_elem_of_singleton. by eapply list_elem_of_lookup_2.
    + destruct (Forall2_lookup_r _ _ _ _ _ H5 Hi) as (cl & Hcl & He).
      rewrite <- (list_insert_id _ _ _ Hcl). apply Forall2_insert; [done|]. intros Hf. by rewrite (handler_ended _ _ _ _ (He Hf)) in Es.
  - cbn [listen_event mbind option_bind] in E. destruct (gw_handlers g !! i) as [h|] eqn:Hi; [|done]. cbn [mbind option_bind] in E. destruct (ended h) eqn:He; [|done]. cbn [mbind option_bind] in E.
    destruct (listen_step _ (gw_listener g)) as [l|] eqn:El; [|done]. injection E as <-. rewrite app_nil_r. eapply gw_listen_ok; eauto.
  - injection E as <-. destruct Hg as [H1 H2 H3 H4 H5].
    split; rewrite ?accepted_snoc; cbn [option_list admitted]; rewrite ?app_nil_r; try done. by apply pool_holds_env.
Qed.
Lemma gw_run_ok n es fs g g' : gw_ok n es g -> Forall gw_brings fs -> gw_run cx fs g = Some g' -> gw_ok n (es ++ fs) g'.
Proof.
  revert es g. induction fs as [|e fs IH]; intros es g Hg Hb E; [injection E as <-; by rewrite app_nil_r|].
  cbn in E. destruct (gw_step cx e g) as [g1|] eqn:Es; [|done]. inversion Hb; subst.
  rewrite cons_middle, app_assoc. eapply IH; [|done|exact E]. by eapply gw_step_ok.
Qed.
Lemma gw_start_ok n pool rng : pool_holds cfg S pool -> gw_ok n [] (gw_start pool n rng).
Proof.
  intros Hp. split; cbn; [constructor|done| |exists []|constructor].
  - split; [apply Nat.le_0_l|]. intros k v Hl. by apply lookup_empty_Some in Hl.
  - destruct Hp as [-> _]. split; [unfold serving, Listener.in_hand; cbn; lia|]. split; [|by split; [left|]].
    split; [done|]. by intros ?%elem_of_nil.
Qed.
End clients.

(** No more handlers are at work than there are permits out. *)
Lemma at_work (cs : list (IpAddr * bool)) hs : Forall2 (fun c h => c.2 = false -> ended h = true) cs hs ->
  (length (List.filter (fun h => negb (ended h)) hs) <= length (List.filter snd cs))%nat.
Proof.
  induction 1 as [|[ip b] h cs hs Hc _ IH]; [done|]. cbn. destruct b; cbn; [destruct (ended h); cbn; lia|]. by rewrite (Hc eq_refl).
Qed.
Lemma hands_ok cx cfg S c0 h : handler_ok cx cfg S c0 h ->
  (forall px, px ∈ hands h -> S px) /\ (hands h <> [] -> admits cx c0).
Proof.
  unfold handler_ok, hands. assert (forall (j : Job), working cx cfg c0 h j -> admits cx c0) as Hw.
  { intros j (req & Ha & Hp & _). by exists req, (hd_client h). }
  destruct (hd_pc h) as [|req|text|j a t|j a px|j a px|j px|j next failed px|j next|] eqn:Hpc; try (by intros; split; [intros px ?%elem_of_nil|]).
  - intros (H1 & _ & Ht & _). split; [intros px Hx; by apply Ht|]. intros _. by eapply Hw.
  - intros (H1 & _ & HS & _). split; [by intros x ->%list_elem_of_singleton|]. intros _. by eapply Hw.
  - intros (H1 & _ & HS & _). split; [by intros x ->%list_elem_of_singleton|]. intros _. by eapply Hw.
  - intros (HS & req & c1 & px0 & Ha & _ & Ht & _). split; [by intros x ->%list_elem_of_singleton|]. intros _. exists req, c1. split; [done|apply Ht].
  - intros (_ & HS & Hadm). split; [by intros x ->%list_elem_of_singleton|done].
Qed.

(** What a run that keeps to [S] promises its clients. *)
Lemma gw_ok_says cx cfg S n es g : gw_ok cx cfg S n es g ->
  (length (List.filter (fun h => negb (ended h)) (gw_handlers g)) <= slots cfg)%nat /\
  length (gw_handlers g) = length (accepted es) /\
  (forall i h ip c0, gw_handlers g !! i = Some h -> accepted es !! i = Some (ip, c0) ->
     (ended h = true -> answered cx cfg S ip c0 (hd_client h)) /\ (forall px, px ∈ hands h -> S px) /\
     (hands h <> [] -> exists req c1, asks cx c0 req c1 /\ rq_host req <> lit "proxycontrol" /\
        forall exp, cx_auth cx = Some exp -> authenticated exp c0 req)).
Proof.
  intros [H1 _ _ [les (Hp & _)] H5]. split; [|split; [symmetry; by eapply Forall2_length|]].
  - apply at_work in H5. unfold serving in Hp. lia.
  - intros i h ip c0 Hi Ha. destruct (Forall2_lookup_lr _ _ _ _ _ _ H1 Ha Hi) as [Hpeer Hok]. cbn [fst snd] in Hpeer, Hok. subst ip.
    destruct (hands_ok _ _ _ _ _ Hok) as [HS Hadm]. split_and!; [|done|].
    + intros He. unfold ended in He. unfold handler_ok in Hok. by destruct (hd_pc h).
    + intros Hh. destruct (Hadm Hh) as (req & c1 & Hq & Hr & Hc). exists req, c1. split_and!; [done|done|]. intros exp Hexp.
      unfold asks in Hq. rewrite Hexp in Hq, Hr. by eapply parse_client_request_auth.
Qed.

(** C2: the server as a whole. In every interleaving of the accept loop, the handlers of all its clients
    and the others' operations on the pool: no more handlers are at work than [max_clients]. A
    handler that has ended has given its client one answer: nothing when there was no request to parse, the
    server's own words ([407], the control API's reply, the failure reply), or one conversation with
    one upstream that was not to be tried again. A handler holds a proxy only for a request that
    passed the gate, with the credentials if any are asked for; every proxy used, or held, is one that
    was brought in, and every one used serves the scheme. The history stays within its cap and has only lines of
    requests that were served so. *)
Theorem gateway_sound : forall cx S pool n rng es g,
  (forall px t e, S px -> S (record_attempt t e px)) -> (forall px, px ∈ proxies pool -> S px) ->
  Forall (gw_brings (config pool) S) es -> gw_run cx es (gw_start pool n rng) = Some g ->
  (length (List.filter (fun h => negb (ended h)) (gw_handlers g)) <= slots (config pool))%nat /\
  length (gw_handlers g) = length (accepted es) /\
  (forall i h ip c0, gw_handlers g !! i = Some h -> accepted es !! i = Some (ip, c0) ->
     (ended h = true -> answered cx (config pool) S ip c0 (hd_client h)) /\ (forall px, px ∈ hands h -> S px) /\
     (hands h <> [] -> exists req c1, asks cx c0 req c1 /\ rq_host req <> lit "proxycontrol" /\
        forall exp, cx_auth cx = Some exp -> authenticated exp c0 req)) /\
  (size (gw_history g) <= HISTORY_CAP)%nat /\
  (forall k v, gw_history g !! k = Some v -> entry cx (config pool) S (accepted es) k v).
Proof.
  intros cx S pool n rng es g Hused Hpool Hb E.
  pose proof (gw_run_ok cx (config pool) S Hused n [] es _ g (gw_start_ok cx (config pool) S n pool rng (conj eq_refl Hpool)) Hb E) as Hg.
  destruct (gw_ok_says _ _ _ _ _ _ Hg) as (H1 & H2 & H3). split_and!; try done; apply Hg.
Qed.

(** ** No proxy is lost or duplicated *)
Definition on_loan (g : Gateway) : list Proxy := concat (map hands (gw_handlers g)).
Definition gw_brought (e : GwEvent) (g : Gateway) : list (IpAddr * Z) :=
  match e with GwEnv op => op_brought op (gw_world g) | _ => [] end.
Fixpoint all_brought (cx : ConnCtx) (es : list GwEvent) (g : Gateway) : list (IpAddr * Z) :=
  match es with
  | [] => []
  | e :: es => gw_brought e g ++ match gw_step cx e g with Some g => all_brought cx es g | None => [] end
  end.
(** Nobody takes a proxy out of the pool for good. *)
Definition calm (cx : ConnCtx) (es : list GwEvent) : Prop :=
  (forall op, GwEnv op ∈ es -> op_takes op = false) /\
  forall ip c0 req c1, (ip, c0) ∈ accepted es -> asks cx c0 req c1 -> rq_host req <> lit "proxycontrol".
Lemma hands_insert hs i h h' : hs !! i = Some h -> exists l r,
  concat (map hands hs) = l ++ hands h ++ r /\ concat (map hands (<[i := h']> hs)) = l ++ hands h' ++ r.
Proof.
  intros Hi. pose proof (lookup_lt_Some _ _ _ Hi) as Hlt. exists (concat (map hands (take i hs))), (concat (map hands (drop (S i) hs))).
  split; [rewrite <- (take_drop_middle _ _ _ Hi) at 1|rewrite insert_take_drop by done]; by rewrite map_app, concat_app; cbn.
Qed.
Lemma gw_step_trades cx e g g' : gw_step cx e g = Some g' -> exists taken,
  trades (gw_brought e g) taken (gw_world g) (on_loan g) (gw_world g') (on_loan g') /\
  ((forall op, e = GwEnv op -> op_takes op = false) ->
   (forall i x h, e = GwStep i x -> gw_handlers g !! i = Some h -> asks_control h = false) -> taken = []).
Proof.
  intros E. assert (forall l hs, hands <$> hs = hands <$> gw_handlers g ++ [] \/ (exists ip c, hs = gw_handlers g ++ [new_handler ip c]) ->
    trades [] [] (gw_world g) (on_loan g) (gw_world g) (on_loan (mkGw l hs (gw_world g) (gw_history g)))) as Hsame.
  { intros l hs Hhs. assert (on_loan (mkGw l hs (gw_world g) (gw_history g)) = on_loan g) as ->; [|apply trades_refl].
    unfold on_loan. cbn [gw_handlers]. destruct Hhs as [Hhs|(ip & c & ->)].
    - change (concat (hands <$> hs) = concat (hands <$> gw_handlers g)). by rewrite Hhs, app_nil_r.
    - rewrite map_app, concat_app. cbn. by rewrite app_nil_r. }
  destruct e as [| | | | |ip c|i x|i|op]; cbn [gw_step] in E.
  7: { destruct (gw_handlers g !! i) as [h|] eqn:Hi; [|done]. cbn [mbind option_bind] in E.
    destruct (handler_step cx x h _ _) as [[[h' w'] m']|] eqn:Es; [|done]. injection E as <-.
    destruct (handler_trades _ _ _ _ _ _ _ _ Es) as (taken & Ht & Hq). exists taken. split.
    - destruct (hands_insert _ _ _ h' Hi) as (l & r & H1 & H2). unfold on_loan. cbn [gw_handlers gw_brought gw_world]. rewrite H1, H2.
      by apply trades_frame.
    - intros _ Hc. apply Hq. by eapply Hc. }
  8: { injection E as <-. destruct (env_trades op (gw_world g)) as (taken & Ht & Hq). exists taken. split; [|intros Hc _; by apply Hq, Hc].
    cbn [gw_brought gw_world]. apply (trades_frame _ _ _ [] _ [] (on_loan g) []) in Ht. cbn in Ht. by rewrite app_nil_r in Ht. }
  all: exists []; split; [|done]; cbn [gw_brought].
  all: revert E; cbn [listen_event mbind option_bind].
  1-5: destruct (listen_step _ _) as [l|]; intros E; [|done]; injection E as <-; apply Hsame; by left.
  - destruct (listen_step _ _) as [l|]; intros E; [|done]. injection E as <-. apply Hsame. right. by exists ip, c.
  - destruct (gw_handlers g !! i) as [h|]; [|done]. cbn [mbind option_bind]. destruct (ended h); [|done]. cbn [mbind option_bind].
    destruct (listen_step _ _) as [l|]; intros E; [|done]. injection E as <-. apply Hsame. by left.
Qed.
Lemma gate_asked cx cfg S n es g i h : gw_ok cx cfg S n es g -> gw_handlers g !! i = Some h -> asks_control h = true ->
  exists ip c0 req c1, (ip, c0) ∈ accepted es /\ asks cx c0 req c1 /\ rq_host req = lit "proxycontrol".
Proof.
  intros [H1 _ _ _ _] Hi Hc. destruct (Forall2_lookup_r _ _ _ _ _ H1 Hi) as ([ip c0] & Ha & _ & Hok). unfold asks_control in Hc.
  unfold handler_ok in Hok. destruct (hd_pc h) as [|req| | | | | | | |]; try done. apply bool_decide_eq_true in Hc.
  exists ip, c0, req, (hd_client h). split_and!; [by eapply list_elem_of_lookup_2|done|done].
Qed.
Lemma run_trades cx cfg n es fs g g' : gw_ok cx cfg (fun _ => True) n es g -> Forall (gw_brings cfg (fun _ => True)) fs -> gw_run cx fs g = Some g' ->
  exists taken, trades (all_brought cx fs g) taken (gw_world g) (on_loan g) (gw_world g') (on_loan g') /\ (calm cx (es ++ fs) -> taken = []).
Proof.
  revert es g. induction fs as [|e fs IH]; intros es g Hg Hb E; [injection E as <-; exists []; split; [apply trades_refl|done]|].
  cbn in E. destruct (gw_step cx e g) as [g1|] eqn:Es; [|done]. inversion Hb as [|? ? Hb1 Hb2]; subst.
  destruct (gw_step_trades _ _ _ _ Es) as (t1 & H1 & Hq1).
  destruct (IH (es ++ [e]) g1) as (t2 & H2 & Hq2); [by eapply gw_step_ok|done|done|].
  exists (t1 ++ t2). cbn [all_brought]. rewrite Es. split; [by eapply trades_trans|]. intros [Hop Hctl].
  rewrite Hq1, Hq2; [done|rewrite <- app_assoc; by split| |].
  - intros op ->. apply Hop, elem_of_app. right. by left.
  - intros i x h -> Hi. destruct (asks_control h) eqn:Ha; [|done]. destruct (gate_asked _ _ _ _ _ _ _ _ Hg Hi Ha) as (ip & c0 & req & c1 & Hin & Hq & Hh).
    exfalso. apply (Hctl ip c0 req c1); [|done|done]. unfold accepted in *. rewrite omap_app. apply elem_of_app. by left.
Qed.

(** C3: no proxy is lost or lent twice. At any moment of any interleaving, the addresses the pool
    started with and those brought to it since are, each as often as it came: evicted as unhealthy,
    and counted; taken by the control API, the watcher or a caller of [try_get]; in the pool; or in the
    hands of one handler. (What was taken is what is left of the account: nothing is said of it but that, when nobody
    takes proxies away, it is nothing, so then only evictions lose any.) So while no address is brought twice none is lent to two clients, or lent
    and pooled; and when every handler has
    ended none is on loan. *)
Theorem gateway_conserves : forall cx pool n rng es g, gw_run cx es (gw_start pool n rng) = Some g ->
  let keys := map p_key (proxies pool) ++ all_brought cx es (gw_start pool n rng) in
  let here := map p_key (proxies (w_pool (gw_world g)) ++ on_loan g) in
  exists evicted taken, keys ≡ₚ evicted ++ taken ++ here /\ counted (length evicted) pool (w_pool (gw_world g)) /\
    (calm cx es -> taken = []) /\ (NoDup keys -> NoDup here) /\
    (Forall (fun h => ended h = true) (gw_handlers g) -> on_loan g = []).
Proof.
  intros cx pool n rng es g E keys here.
  destruct (run_trades cx (config pool) n [] es (gw_start pool n rng) g) as (taken & (gone & Hp & Hc) & Hq); [|apply Forall_true|done|].
  - apply gw_start_ok. by split.
  - intros []; try done. by destruct op.
  - exists gone, taken. cbn [on_loan gw_start gw_handlers gw_world w_pool map concat] in Hp. rewrite app_nil_r in Hp.
    split_and!; [done|done|done| |].
    + intros Hd. assert (NoDup ((gone ++ taken) ++ here)) as Hd' by (rewrite <- app_assoc; exact (proj1 (NoDup_Permutation_proper _ _ Hp) Hd)). by apply NoDup_app in Hd' as (_ & _ & ?).
    + unfold on_loan. induction 1 as [|h hs He _ IH]; [done|]. cbn. rewrite IH, app_nil_r. unfold ended in He. unfold hands. by destruct (hd_pc h).
Qed.

(** ** One handler by itself *)
Section solo.
Variables (cx : ConnCtx) (world : nat -> Attempt) (g : Gateway) (i : nat).
(** A step of handler [i], or an operation of the others that the script of an attempt names. *)
Definition mine (e : GwEvent) : Prop :=
  match e with
  | GwStep j _ => j = i
  | GwEnv op => exists k mo, mo ∈ at_script (world k) /\ op ∈ mo_env mo
  | _ => False
  end.
Definition put_handler (h : Handler) (w : World) (m : History) : Gateway := mkGw (gw_listener g) (<[i := h]> (gw_handlers g)) w m.
Hypothesis here : (i < length (gw_handlers g))%nat.
Definition solo (h : Handler) (w : World) (m : History) (h' : Handler) (w' : World) (m' : History) : Prop :=
  exists es, Forall mine es /\ gw_run cx es (put_handler h w m) = Some (put_handler h' w' m').
Lemma gw_run_app es fs g0 : gw_run cx (es ++ fs) g0 = (let? g1 := gw_run cx es g0 in gw_run cx fs g1).
Proof. revert g0. induction es as [|e es IH]; intros g0; [done|]. cbn. destruct (gw_step cx e g0); [apply IH|done]. Qed.
Lemma solo_refl h w m : solo h w m h w m.
Proof. by exists []. Qed.
Lemma solo_trans h1 w1 m1 h2 w2 m2 h3 w3 m3 : solo h1 w1 m1 h2 w2 m2 -> solo h2 w2 m2 h3 w3 m3 -> solo h1 w1 m1 h3 w3 m3.
Proof.
  intros (es & Hes & E1) (fs & Hfs & E2). exists (es ++ fs). split; [by apply Forall_app_2|]. by rewrite gw_run_app, E1.
Qed.
(** A step of its own, and what follows. *)
Lemma solo_step x h1 w1 m1 h2 w2 m2 h3 w3 m3 : handler_step cx x h1 w1 m1 = Some (h2, w2, m2) ->
  solo h2 w2 m2 h3 w3 m3 -> solo h1 w1 m1 h3 w3 m3.
Proof.
  intros Es. apply solo_trans. exists [GwStep i x]. split; [by repeat constructor|]. cbn.
  rewrite list_lookup_insert_eq by done. cbn. rewrite Es. cbn. unfold put_handler. by rewrite list_insert_insert_eq.
Qed.
Lemma solo_env k mo h w m : mo ∈ at_script (world k) -> solo h w m h (fold_left (fun w op => env_step op w) (mo_env mo) w) m.
Proof.
  intros Hmo. assert (forall ops, (forall op, op ∈ ops -> op ∈ mo_env mo) -> forall w, solo h w m h (fold_left (fun w op => env_step op w) ops w) m) as Hops.
  { induction ops as [|op ops IH]; intros Hin w0; [apply solo_refl|]. cbn. eapply solo_trans; [|apply IH; intros o Ho; apply Hin; by right].
    exists [GwEnv op]. split; [|done]. repeat constructor. exists k, mo. split; [done|]. apply Hin. by left. }
  by apply Hops.
Qed.

Lemma solo_meanwhile k script h w m : (forall mo, mo ∈ script -> mo ∈ at_script (world k)) -> solo h w m h (meanwhile script w) m.
Proof.
  unfold meanwhile. revert w. induction script as [|mo script IH]; intros w Hin; [apply solo_refl|]. cbn [fold_left].
  eapply solo_trans; [apply (solo_env k mo); apply Hin; by left|]. apply IH. intros mo' H'. apply Hin. by right.
Qed.
Lemma get_solo k j a script t h w m r w' rest : hd_pc h = got j a t -> (forall mo, mo ∈ script -> mo ∈ at_script (world k)) ->
  get_run script t w = Some (r, w', rest) ->
  solo h w m (at_hpc h (match r with Some px => HCount j a px | None => failure_reply j end)) w' m.
Proof.
  revert t h w. induction script as [|mo script IH]; intros t h w Hpc Hin E.
  - cbn in E. unfold got in Hpc. destruct (t_pc t) as [| | | | | | |o| | | |] eqn:Et; try done. injection E as -> -> _.
    assert (at_hpc h match r with Some px => HCount j a px | None => failure_reply j end = h) as ->; [|apply solo_refl].
    destruct h as [ip c pc]. cbn in *. subst pc. by destruct r.
  - assert (forall o, t_pc t = GDone o -> solo h w m (at_hpc h (match r with Some px => HCount j a px | None => failure_reply j end)) w' m) as Hdone.
    { intros o Et. cbn in E. rewrite Et in E. injection E as -> -> _. unfold got in Hpc. rewrite Et in Hpc.
      destruct h as [ip c pc]. cbn in *. subst pc. destruct r; apply solo_refl. }
    assert ((forall o, t_pc t <> GDone o) -> solo h w m (at_hpc h (match r with Some px => HCount j a px | None => failure_reply j end)) w' m) as Hgo.
    { intros Hn. eapply solo_trans; [apply (solo_env k mo); apply Hin; by left|]. set (w1 := fold_left _ _ _) in *.
      assert ((match task_step (mo_now mo) (mo_live mo) t w1 with Some (t', w'') => get_run script t' w'' | None => get_run script t w1 end) = Some (r, w', rest)) as E'.
      { cbn [get_run] in E. fold w1 in E. destruct (t_pc t) eqn:Et; try exact E. by destruct (Hn r0). }
      destruct (task_step _ _ t w1) as [[t' w2]|] eqn:Et.
      - eapply (solo_step {| in_now := mo_now mo; in_live := mo_live mo; in_dial := DialErr |}).
        { unfold handler_step. replace (hd_pc h) with (HGet j a t) by (rewrite Hpc; unfold got; destruct (t_pc t); try done; by destruct (Hn r0)).
          cbn [in_now in_live]. rewrite Et. done. }
        apply (IH t' (at_hpc h (got j a t')) w2); [done| |exact E']. intros mo' H'. apply Hin. by right.
      - apply (IH t h w1); [done| |exact E']. intros mo' H'. apply Hin. by right. }
    destruct (t_pc t) as [| | | | | | |o| | | |] eqn:Et; try (apply Hgo; by intros ? [=]). by eapply Hdone.
Qed.
Lemma put_solo now j next (failed : bool) px h w m : hd_pc h = HPut j next failed px ->
  solo h w m (at_hpc h (continue cx j next)) (if failed then settle_failed now px w else settle_ok px w) m.
Proof.
  intros Hpc. set (x := {| in_now := now; in_live := false; in_dial := DialErr |}).
  eapply (solo_step x); [unfold handler_step; rewrite Hpc; done|]. unfold settle_failed, settle_ok. cbn [in_now x].
  destruct (put_pushes px w); [|destruct failed; apply solo_refl].
  eapply (solo_step x); [done|]. destruct failed; apply solo_refl.
Qed.
Lemma reply_solo text h w m b c : hd_pc h = HReply text -> write_forever text (hd_client h) = Some (b, c) ->
  solo h w m (with_client h c HEnd) w m.
Proof.
  intros Hpc Ew. eapply (solo_step {| in_now := 0; in_live := false; in_dial := DialErr |}); [|apply solo_refl].
  unfold handler_step. by rewrite Hpc, Ew.
Qed.
Lemma attempts_solo j ip n a s s' h : (n + a = cx_max_tries cx)%nat ->
  attempts world ip (jb_key j) (jb_target j) (jb_req j) n a s = Some s' ->
  hd_pc h = begin cx j a -> hd_peer h = ip -> hd_client h = h_client s ->
  solo h (h_world s) (h_history s) (with_client h (h_client s') HEnd) (h_world s') (h_history s').
Proof.
  revert a s h. induction n as [|n IH]; intros a s h Hn E Hpc Hip Hcl; cbn [attempts] in E; unfold begin in Hpc.
  - destruct (Nat.ltb_spec a (cx_max_tries cx)); [lia|]. destruct (write_forever _ _) as [[b c]|] eqn:Ew; [|done]. injection E as <-.
    rewrite <- Hcl in Ew. by eapply reply_solo.
  - destruct (Nat.ltb_spec a (cx_max_tries cx)); [|lia]. destruct (get _ _ _ _) as [[[r w] rest]|] eqn:Eg; [|done].
    eapply solo_trans; [apply (get_solo a j a _ (get_task j) h _ _ r w rest Hpc (fun _ x => x) Eg)|].
    assert (forall mo, mo ∈ rest -> mo ∈ at_script (world a)) as Hrest
      by (intros mo Hmo; destruct (get_run_rest _ _ _ _ _ _ Eg) as [used ->]; apply elem_of_app; by right).
    destruct r as [px|].
    2:{ destruct (write_forever _ _) as [[b c]|] eqn:Ew; [|done]. injection E as <-. rewrite <- Hcl in Ew. by eapply (reply_solo _ (at_hpc h _)). }
    eapply (solo_step {| in_now := 0; in_live := false; in_dial := DialErr |}); [done|]. cbn [hd_pc at_hpc] in *.
    set (w1 := if (0 <? a)%nat then rotate w else w) in *.
    destruct (relay _ _ _ _ _ _ _) as [[out c]|] eqn:Er; [|done]. rewrite <- Hcl in Er.
    eapply (solo_step {| in_now := 0; in_live := false; in_dial := at_dial (world a) |});
      [unfold handler_step; cbn [hd_pc at_hpc hd_client in_dial]; rewrite Er; done|].
    eapply solo_trans; [apply (solo_meanwhile a rest); exact Hrest|].
    destruct out as [|e|e|]; cbn [relayed].
    + injection E as <-. eapply (solo_step {| in_now := 0; in_live := false; in_dial := DialErr |}); [done|].
      subst ip. by apply (put_solo 0 j None false (record_attempt (Some f_zero) None px) (at_hpc (with_client h c _) _)).
    + eapply solo_trans; [by apply (put_solo (at_put_now (world a)) j (Some (S a)) true (record_attempt None (Some e) px) (with_client h c _))|].
      cbn [continue]. pose proof (IH (S a) _ (at_hpc (with_client h c (HPut j (Some (S a)) true (record_attempt None (Some e) px))) (begin cx j (S a))) ltac:(lia) E eq_refl Hip eq_refl) as Hs.
      exact Hs.
    + injection E as <-. by apply (put_solo (at_put_now (world a)) j None true (record_attempt None (Some e) px) (with_client h c _)).
    + injection E as <-. by apply (put_solo 0 j None false (record_attempt (Some f_zero) None px) (with_client h c _)).
Qed.
End solo.

(** The handler as one function, what Server.v proves things of, is what its steps come to when
    only the others' operations that its script names come between them: whenever
    [handle_client] ends, some such interleaving takes the server from the client's arrival to the
    same last state of its connection, of the pool and of the history, the other handlers and the
    accept loop as they were. *)
Lemma handler_schedule : forall cx world g i ip c s,
  gw_handlers g !! i = Some (new_handler ip c) ->
  handle_client world (cx_lookup cx) (cx_max_tries cx) (cx_auth cx) ip (mkH c (gw_world g) (gw_history g)) = Some s ->
  exists es, Forall (mine world i) es /\
    gw_run cx es g = Some (mkGw (gw_listener g) (<[i := {| hd_peer := ip; hd_client := h_client s; hd_pc := HEnd |}]> (gw_handlers g))
                                (h_world s) (h_history s)).
Proof.
  intros cx world g i ip c s Hi E.
  assert (i < length (gw_handlers g))%nat as Hlt by by eapply lookup_lt_Some.
  assert (put_handler g i (new_handler ip c) (gw_world g) (gw_history g) = g) as Hg.
  { unfold put_handler. rewrite list_insert_id by done. by destruct g. }
  enough (solo cx world g i (new_handler ip c) (gw_world g) (gw_history g)
    {| hd_peer := ip; hd_client := h_client s; hd_pc := HEnd |} (h_world s) (h_history s)) as (es & H1 & H2) by (rewrite Hg in H2; by exists es).
  set (x := {| in_now := 0; in_live := false; in_dial := DialErr |}). unfold handle_client in E. cbn [h_client] in E.
  destruct (parse_client_request (cx_auth cx) c) as [[req|e] c1] eqn:Ep.
  2:{ injection E as <-. eapply (solo_step _ _ _ _ Hlt x); [|apply solo_refl]. unfold handler_step. cbn. by rewrite Ep. }
  eapply (solo_step _ _ _ _ Hlt x); [unfold handler_step; cbn; rewrite Ep; done|].
  unfold serve_request in E. cbn [h_world h_history h_client] in E.
  eapply (solo_step _ _ _ _ Hlt x); [unfold handler_step; cbn [hd_pc with_client hd_peer new_handler]; rewrite (surjective_pairing (gate _ _ _ _ _)); done|].
  unfold gate. destruct (auth_refused (cx_auth cx) req).
  { destruct (write_forever _ _) as [[b c2]|] eqn:Ew; [|done]. injection E as <-. exact (reply_solo _ _ _ _ Hlt _ (at_hpc (with_client (new_handler ip c) c1 (HGate req)) _) _ _ _ _ eq_refl Ew). }
  destruct (decide _).
  { destruct (serve_control _ _ _ _ _) as [reply pool]. destruct (write_forever _ _) as [[b c2]|] eqn:Ew; [|done]. injection E as <-.
    exact (reply_solo _ _ _ _ Hlt _ (at_hpc (with_client (new_handler ip c) c1 (HGate req)) _) _ _ _ _ eq_refl Ew). }
  set (j := job_of cx (config (w_pool (gw_world g))) ip req).
  exact (attempts_solo cx world g i Hlt j ip _ 0 _ s (at_hpc (with_client (new_handler ip c) c1 (HGate req)) (begin cx j 0))
    (Nat.add_0_r _) E eq_refl eq_refl eq_refl).
Qed.

(** ** Nobody waits in vain *)
(** What a handler in [get] knows of the notifications it waits for. *)
Definition getting (pc : Pc) : bool := match pc with GDone _ | RStart _ | RCheck _ _ | RWait _ _ | RDone => false | _ => true end.
Definition wakes (w : World) (h : Handler) : Prop := match hd_pc h with HGet _ _ t => task_ok w t /\ getting (t_pc t) = true | _ => True end.
Lemma wakes_mono w w' h : world_rel w w' -> wakes w h -> wakes w' h.
Proof. intros Hr. unfold wakes. destruct (hd_pc h); try done. intros [H1 H2]. split; [by eapply task_ok_mono|done]. Qed.
(** [get] stays within its own counters. *)
Lemma getting_step now live t w t' w' : task_step now live t w = Some (t', w') -> getting (t_pc t) = true ->
  getting (t_pc t') = true \/ exists r, t_pc t' = GDone r.
Proof.
  unfold task_step. intros E Hg. pose proof after_failure_ok as Haf.
  destruct (t_pc t) as [a|k a|px a|a|k a| |k a|o|n|k n|k n|]; try done.
  - injection E as <- <-. by left.
  - destruct (try_select _ _ _ _ _) as [[[px|] p] rng]; injection E as <- <-; [|by left]. cbn. destruct (verify_on_lease _); [by left|right; eauto].
  - destruct live; injection E as <- <-; [right; eauto|]. cbn. destruct (put_pushes px w); [by left|].
    destruct (Haf a) as [->|[-> _]]; [right; eauto|by left].
  - injection E as <- <-. cbn. destruct (Haf a) as [->|[-> _]]; [right; eauto|by left].
  - injection E as <- <-. left. cbn. by destruct (exhausted _).
  - destruct (try_select _ _ _ _ _) as [[o p] rng]. injection E as <- <-. right. by exists o.
  - destruct (woken _ _); [|done]. injection E as <- <-. by left.
Qed.
Lemma world_rel_shrinks w p : shrinks (w_pool w) p -> world_rel w (with_pool p w).
Proof. intros Hs. left. split_and!; [done|done|by left]. Qed.
Lemma world_rel_refl w : world_rel w w.
Proof. left. split_and!; [done|done|left; apply shrinks_refl]. Qed.
Lemma gate_rel cx ip req w m : world_rel w (gate cx ip req w m).2.
Proof.
  unfold gate. destruct (auth_refused _ _); [apply world_rel_refl|]. case_decide; [|apply world_rel_refl].
  assert (shrinks (w_pool w) (serve_control req (w_pool w) m ip (control_remove_allowed (bool_decide (is_Some (cx_auth cx))) ip)).2) as Hs.
  { unfold serve_control. pose proof (shrinks_refl (w_pool w)) as Hid. destruct (splitn3 _ _) as [|? [|op [|params [|]]]]; try exact Hid. case_decide.
    - destruct (control_remove_allowed _ _); cbn; [|exact Hid]. destruct (split_host_port params 0) as [hh pp]. cbn.
      destruct (ip_parse hh); [|exact Hid]. apply shrinks_state; [by intros e [_ ?]%elem_of_retain|apply filter_length_lt].
    - case_decide; [|exact Hid]. by destruct (history_get _ _). }
  destruct (serve_control _ _ _ _ _) as [reply pool]. by apply world_rel_shrinks.
Qed.
Lemma rotate_rel (b : bool) w : world_rel w (if b then rotate w else w).
Proof. destruct b; [|apply world_rel_refl]. by apply world_rel_shrinks. Qed.
Lemma handler_rel cx x h w m h' w' m' : handler_step cx x h w m = Some (h', w', m') -> world_rel w w'.
Proof.
  unfold handler_step. intros E. destruct (hd_pc h) as [|req|text|j a t|j a px|j a px|j px|j next failed px|j next|].
  - destruct (parse_client_request _ _) as [[?|?] ?]; injection E as <- <- <-; apply world_rel_refl.
  - pose proof (gate_rel cx (hd_peer h) req w m) as Hg. destruct (gate _ _ _ _ _). by injection E as <- <- <-.
  - destruct (write_forever _ _) as [[? ?]|]; [|done]. injection E as <- <- <-. apply world_rel_refl.
  - destruct (task_step _ _ t w) as [[t' w1]|] eqn:Et; [|done]. injection E as <- <- <-. by eapply task_step_rel.
  - injection E as <- <- <-. apply rotate_rel.
  - destruct (relay _ _ _ _ _ _ _) as [[? ?]|]; [|done]. injection E as <- <- <-. apply world_rel_refl.
  - injection E as <- <- <-. apply world_rel_refl.
  - injection E as <- <- <-. destruct failed; apply put_rel, put_inner_unhealthy.
  - injection E as <- <- <-. by right.
  - done.
Qed.
Lemma wakes_at cx w h j a : wakes w (at_hpc h (begin cx j a)).
Proof. unfold begin. destruct (a <? _)%nat; [|done]. split; [|done]. split; [done|]. unfold VERIFY_MAX_ATTEMPTS. cbn. lia. Qed.
Lemma handler_wakes cx x h w m h' w' m' : handler_step cx x h w m = Some (h', w', m') -> wakes w h -> wakes w' h'.
Proof.
  intros E Hw. unfold handler_step in E. unfold wakes in Hw. destruct (hd_pc h) as [|req|text|j a t|j a px|j a px|j px|j next failed px|j next|].
  - by destruct (parse_client_request _ _) as [[?|?] ?]; injection E as <- <- <-.
  - unfold gate in E. destruct (auth_refused _ _); [by injection E as <- <- <-|]. case_decide.
    + destruct (serve_control _ _ _ _ _). by injection E as <- <- <-.
    + injection E as <- <- <-. apply wakes_at.
  - destruct (write_forever _ _) as [[? ?]|]; [|done]. by injection E as <- <- <-.
  - destruct (task_step _ _ t w) as [[t' w1]|] eqn:Et; [|done]. injection E as <- <- <-. destruct Hw as [Ht Hg].
    pose proof (task_step_ok _ _ _ _ _ _ Et Ht) as Ht'. unfold got, wakes. pose proof (getting_step _ _ _ _ _ _ Et Hg) as Hg'.
    destruct Hg' as [Hg'|[r Hr]]; [|rewrite Hr; by destruct r]. by destruct (t_pc t') as [| | | | | | |[?|]| | | |] eqn:Ep; cbn; rewrite ?Ep.
  - by injection E as <- <- <-.
  - destruct (relay _ _ _ _ _ _ _) as [[out ?]|]; [|done]. injection E as <- <- <-. by destruct out.
  - by injection E as <- <- <-.
  - injection E as <- <- <-. destruct (put_pushes px w); [done|]. destruct next; [apply wakes_at|done].
  - injection E as <- <- <-. destruct next; [apply wakes_at|done].
  - done.
Qed.
Definition gate_wakes (w : World) (l : Listener.Listener) : Prop := match ls_phase l with LGate t => task_ok w t /\ exists n, gate_pc n (t_pc t) | _ => True end.
Definition gw_wakes (g : Gateway) : Prop := Forall (wakes (gw_world g)) (gw_handlers g) /\ gate_wakes (gw_world g) (gw_listener g).
Lemma listen_wakes le l l' w : listen_step le l = Some l' -> (forall w1, le = LPoll w1 -> w1 = w) -> gate_wakes w l -> gate_wakes w l'.
Proof.
  destruct l as [ph k b cs]. unfold listen_step, gate_wakes. cbn [ls_phase ls_permits ls_cancelled ls_clients]. intros E Hw Hg.
  destruct le as [| |w1| |ip| |i].
  - by injection E as <-.
  - destruct ph; try done; (destruct b; [|done]); by injection E as <-.
  - destruct ph as [t| | |]; try done. destruct (task_step 0 false t w1) as [[t' w2]|] eqn:Et; [|done]. injection E as <-.
    rewrite (Hw w1 eq_refl) in Et. destruct Hg as [Ht [n Hn]]. pose proof (task_step_ok _ _ _ _ _ _ Et Ht) as Ht'.
    assert (w2 = w) as -> by (unfold task_step in Et; destruct Hn as [Hn|(q & [Hn|Hn])]; rewrite Hn in Et; repeat case_match; by simplify_eq).
    destruct (gate_step _ _ _ _ _ Hn Et) as [Hn'|[Hr _]]; [|cbn; by rewrite Hr].
    assert (match t_pc t' with RDone => LAcquire | _ => LGate t' end = LGate t') as -> by (destruct Hn' as [->|(q & [-> | ->])]; done).
    split; [done|by exists n].
  - destruct ph; try done. destruct k; [done|]. by injection E as <-.
  - destruct ph; try done. by injection E as <-.
  - destruct ph; try done. by injection E as <-.
  - destruct (cs !! i) as [[? [|]]|]; destruct ph; try done; by injection E as <-.
Qed.
Lemma gw_step_wakes cx e g g' : gw_step cx e g = Some g' -> gw_wakes g -> gw_wakes g'.
Proof.
  intros E [Hh Hl]. destruct (listen_event e g) as [le|] eqn:Ele.
  - assert (exists l ex, g' = mkGw l (gw_handlers g ++ ex) (gw_world g) (gw_history g) /\ listen_step le (gw_listener g) = Some l /\
      Forall (wakes (gw_world g)) ex) as (l & ex & -> & El & Hex).
    { destruct e as [| | | | |ip c|i x|i|op]; try done; cbn [gw_step] in E; rewrite Ele in E; cbn [mbind option_bind] in E.
      7: destruct (gw_handlers g !! i) as [h|]; [|done]; cbn [mbind option_bind] in E; destruct (ended h); [|done]; cbn [mbind option_bind] in E.
      all: destruct (listen_step le (gw_listener g)) as [l|]; [|done]; injection E as <-; eexists l, _; split; [done|]; split; [done|].
      all: repeat constructor. }
    split; [by apply Forall_app|]. eapply listen_wakes; [exact El| |done]. intros w1 ->. destruct e; try done. by injection Ele.
  - destruct e as [| | | | |ip c|i x|i|op]; try done; cbn [gw_step] in E.
    + destruct (gw_handlers g !! i) as [h|] eqn:Hi; [|done]. cbn [mbind option_bind] in E.
      destruct (handler_step cx x h _ _) as [[[h' w'] m']|] eqn:Es; [|done]. injection E as <-. pose proof (handler_rel _ _ _ _ _ _ _ _ Es) as Hr.
      split; cbn [gw_handlers gw_world gw_listener].
      * apply Forall_insert; [eapply Forall_impl; [exact Hh|]; intros u; by apply wakes_mono|].
        eapply handler_wakes; [exact Es|]. by eapply Forall_lookup_1.
      * unfold gate_wakes in *. destruct (ls_phase _); try done. destruct Hl as [Ht Hn]. split; [by eapply task_ok_mono|done].
    + injection E as <-. pose proof (env_step_rel op (gw_world g)) as Hr. split; cbn [gw_handlers gw_world gw_listener].
      * eapply Forall_impl; [exact Hh|]. intros u. by apply wakes_mono.
      * unfold gate_wakes in *. destruct (ls_phase _); try done. destruct Hl as [Ht Hn]. split; [by eapply task_ok_mono|done].
Qed.
Lemma gw_run_wakes cx es g g' : gw_run cx es g = Some g' -> gw_wakes g -> gw_wakes g'.
Proof.
  revert g. induction es as [|e es IH]; intros g E Hg; [by injection E as <-|]. cbn in E.
  destruct (gw_step cx e g) as [g1|] eqn:Es; [|done]. eapply IH; [exact E|]. by eapply gw_step_wakes.
Qed.
(** A task that cannot move, when no notification is owed. *)
Lemma asleep now live t w : task_step now live t w = None -> task_ok w t -> w_pending w = 0%nat ->
  match t_pc t with
  | GWait _ _ => exhausted (w_pool w) = false /\ forall e, e ∈ state (w_pool w) -> serves (t_scheme t) (proxy e) = false
  | RWait _ n => exhausted (w_pool w) = false /\ (len (w_pool w) < n)%nat
  | GDone _ | RDone => True
  | _ => False
  end.
Proof.
  intros E [Hk _] Hp. unfold awaited in Hk. unfold task_step in E.
  destruct (t_pc t) as [a|k a|px a|a|k a| |k a|r|n|k n|k n|]; try done; cbn in Hk.
  - destruct (try_select _ _ _ _ _) as [[[px|] p] rng]; done.
  - by destruct live.
  - by destruct (try_select _ _ _ _ _) as [[o p] rng].
  - destruct (woken (w_notify w) k) eqn:Hw; [done|]. specialize (Hk k eq_refl) as [_ Hk]. split.
    + apply not_true_is_false. intros Hx. destruct Hk as [?|?]; [by left|congruence|lia].
    + intros e He. apply not_true_is_false. intros Hs. destruct Hk as [?|?]; [right; eauto|congruence|lia].
  - destruct (woken (w_notify w) k) eqn:Hw; [done|]. specialize (Hk k eq_refl) as [_ Hk]. split.
    + apply not_true_is_false. intros Hx. destruct Hk as [?|?]; [by left|congruence|lia].
    + apply Nat.nle_gt. intros Hl. destruct Hk as [?|?]; [by right|congruence|lia].
Qed.

(** Once the source has ended, it has ended. *)
Lemma gate_exhausted cx ip req w m : exhausted (w_pool (gate cx ip req w m).2) = exhausted (w_pool w).
Proof.
  unfold gate. destruct (auth_refused _ _); [done|]. case_decide; [|done].
  assert (exhausted (serve_control req (w_pool w) m ip (control_remove_allowed (bool_decide (is_Some (cx_auth cx))) ip)).2 = exhausted (w_pool w)) as Hs.
  { unfold serve_control. destruct (splitn3 _ _) as [|? [|op [|params [|]]]]; try done. case_decide.
    - destruct (control_remove_allowed _ _); cbn; [|done]. destruct (split_host_port params 0) as [hh pp]. cbn. by destruct (ip_parse hh).
    - case_decide; [|done]. by destruct (history_get _ _). }
  by destruct (serve_control _ _ _ _ _) as [reply pool].
Qed.
Lemma handler_exhausted cx x h w m h' w' m' : handler_step cx x h w m = Some (h', w', m') -> exhausted (w_pool w') = exhausted (w_pool w).
Proof.
  unfold handler_step. intros E. destruct (hd_pc h) as [|req|text|j a t|j a px|j a px|j px|j next failed px|j next|].
  - by destruct (parse_client_request _ _) as [[?|?] ?]; injection E as <- <- <-.
  - pose proof (gate_exhausted cx (hd_peer h) req w m) as Hg. destruct (gate _ _ _ _ _). by injection E as <- <- <-.
  - destruct (write_forever _ _) as [[? ?]|]; [|done]. by injection E as <- <- <-.
  - destruct (task_step _ _ t w) as [[t' w1]|] eqn:Et; [|done]. injection E as <- <- <-. by eapply task_step_exhausted.
  - injection E as <- <- <-. by destruct (0 <? a)%nat.
  - destruct (relay _ _ _ _ _ _ _) as [[? ?]|]; [|done]. by injection E as <- <- <-.
  - by injection E as <- <- <-.
  - injection E as <- <- <-. unfold put_ok_world, put_failed_world, put_ok, put_failed, put_inner.
    by destruct failed, (put_pushes _ _), (unhealthy _ _).
  - by injection E as <- <- <-.
  - done.
Qed.
Lemma gw_run_exhausted cx es g g' : gw_run cx es g = Some g' -> exhausted (w_pool (gw_world g)) = true -> exhausted (w_pool (gw_world g')) = true.
Proof.
  revert g. induction es as [|e es IH]; intros g E Hx; [by injection E as <-|]. cbn in E. destruct (gw_step cx e g) as [g1|] eqn:Es; [|done].
  eapply IH; [exact E|]. clear E. destruct e as [| | | | |ip c|i x|i|op]; cbn [gw_step listen_event mbind option_bind] in Es.
  7: { destruct (gw_handlers g !! i) as [h|]; [|done]. cbn [mbind option_bind] in Es. destruct (handler_step cx x h _ _) as [[[h' w'] m']|] eqn:Eh; [|done].
    injection Es as <-. cbn. by rewrite (handler_exhausted _ _ _ _ _ _ _ _ Eh). }
  8: { injection Es as <-. by apply env_step_exhausted. }
  7: destruct (gw_handlers g !! i) as [h|]; [|done]; cbn [mbind option_bind] in Es; destruct (ended h); [|done]; cbn [mbind option_bind] in Es.
  all: destruct (listen_step _ _) as [l|]; [|done]; by injection Es as <-.
Qed.
Lemma gw_progress : forall cx pool n rng es g,
  gw_run cx es (gw_start pool n rng) = Some g -> w_pending (gw_world g) = 0%nat ->
  (forall i h x, gw_handlers g !! i = Some h -> ended h = false -> handler_step cx x h (gw_world g) (gw_history g) = None ->
     match hd_pc h with
     | HReply text => write_forever text (hd_client h) = None
     | HRelay j a px => relay (hd_client h) (in_dial x) px (choose_proto px (rq_scheme (jb_req j))) (jb_target j) (jb_req j)
                          (http_allowed_codes (config (w_pool (gw_world g)))) = None
     | HGet j a t => exhausted (w_pool (gw_world g)) = false /\
                     forall e, e ∈ state (w_pool (gw_world g)) -> serves (rq_scheme (jb_req j)) (proxy e) = false
     | _ => False
     end) /\
  match ls_phase (gw_listener g) with
  | LGate t => gw_step cx GwReady g = None -> exhausted (w_pool (gw_world g)) = false /\ (len (w_pool (gw_world g)) < n)%nat
  | LAcquire => gw_step cx GwPermit g = None -> serving (gw_listener g) = slots (config pool)
  | LAccept => forall ip c, is_Some (gw_step cx (GwAccept ip c) g)
  | LStopped => ls_cancelled (gw_listener g) = true
  end.
Proof.
  intros cx pool n rng es g E Hp.
  destruct (gw_run_wakes _ _ _ _ E) as [Hw Hl]; [split; [constructor|split; [by split|exists n; by left]]|].
  destruct (gw_run_ok cx (config pool) (fun _ => True) (fun _ _ _ _ => I) n [] es (gw_start pool n rng) g) as [H1 _ _ [les (Hperm & _ & Hph)] _];
    [by apply gw_start_ok|apply Forall_true; intros []; try done; by destruct op|done|].
  split.
  - intros i h x Hi He Es. pose proof (Forall_lookup_1 _ _ _ _ Hw Hi) as Hwi.
    destruct (Forall2_lookup_r _ _ _ _ _ H1 Hi) as ([ip c0] & _ & _ & Hok). unfold handler_ok in Hok. unfold wakes in Hwi.
    unfold handler_step in Es. unfold ended in He. destruct (hd_pc h) as [|req|text|j a t|j a px|j a px|j px|j next failed px|j next|]; try done.
    + by destruct (parse_client_request _ _) as [[?|?] ?].
    + by destruct (gate _ _ _ _ _).
    + by destruct (write_forever _ _) as [[? ?]|].
    + destruct (task_step _ _ t _) as [[t' w1]|] eqn:Et; [done|]. destruct Hwi as [Ht Hg], Hok as (_ & _ & _ & Hsch).
      pose proof (asleep _ _ _ _ Et Ht Hp) as Ha. rewrite <- Hsch. by destruct (t_pc t).
    + by destruct (relay _ _ _ _ _ _ _) as [[? ?]|].
  - unfold gate_wakes in Hl. unfold in_hand in Hperm. destruct (gw_listener g) as [ph k b cs] eqn:Eg. cbn [ls_phase ls_permits ls_cancelled] in *.
    destruct ph as [t| | |]; cbn [gw_step listen_event mbind option_bind]; rewrite ?Eg; unfold listen_step; cbn [ls_phase ls_permits ls_cancelled ls_clients].
    + destruct Hl as [Ht _], Hph as [Hn _]. destruct (task_step 0 false t (gw_world g)) as [[t' w1]|] eqn:Et; [done|]. intros _.
      pose proof (asleep _ _ _ _ Et Ht Hp) as Ha. destruct Hn as [Hn|(q & [Hn|Hn])]; rewrite Hn in Ha; done.
    + destruct k; [|done]. intros _. lia.
    + intros ip c. cbn. eauto.
    + by destruct Hph.
Qed.

(** C4: the server does not get stuck. Once the owed notifications are delivered, a handler that has not
    ended and cannot move waits for one of three things outside: the client to take its last words, the
    upstream or the client of its relay, or, while the source is live, a proxy for its scheme, of which
    the pool has none. The accept loop, while it has not begun to accept, waits only for a pool
    that is below the asked-for size with its source live; after that it can always go on, or a
    permit is wanting since [max_clients] handlers have not given theirs back. *)
Theorem gateway_progress : forall cx pool n rng es g,
  gw_run cx es (gw_start pool n rng) = Some g -> w_pending (gw_world g) = 0%nat ->
  (forall i h x, gw_handlers g !! i = Some h -> ended h = false -> handler_step cx x h (gw_world g) (gw_history g) = None ->
     match hd_pc h with
     | HReply text => write_forever text (hd_client h) = None
     | HRelay j a px => relay (hd_client h) (in_dial x) px (choose_proto px (rq_scheme (jb_req j))) (jb_target j) (jb_req j)
                          (http_allowed_codes (config (w_pool (gw_world g)))) = None
     | HGet j a t => exhausted (w_pool (gw_world g)) = false /\
                     forall e, e ∈ state (w_pool (gw_world g)) -> serves (rq_scheme (jb_req j)) (proxy e) = false
     | _ => False
     end) /\
  match ls_phase (gw_listener g) with
  | LGate t => gw_step cx GwReady g = None -> exhausted (w_pool (gw_world g)) = false /\ (len (w_pool (gw_world g)) < n)%nat
  | LAcquire => gw_step cx GwPermit g = None -> serving (gw_listener g) = slots (config pool)
  | LAccept => forall ip c, is_Some (gw_step cx (GwAccept ip c) g)
  | LStopped => ls_cancelled (gw_listener g) = true
  end.
Proof. exact gw_progress. Qed.
End gateway.

(** ** Two clients at once *)
Section gateway_demo.
#[local] Existing Instances list_order counter_notify ascii_case no_libs copy_splice.
Definition demo_cx : ConnCtx := conn_ctx (fun _ => None) PoolConfig_default None.
Definition demo_pool : Pool := from_proxies [demo_px; demo_other] PoolConfig_default.
Definition demo_in (dial : Dial) : Input := {| in_now := 0; in_live := true; in_dial := dial |}.
Definition demo_up : Dial := DialOk (demo_answer (lit "200 OK")).
(** Both are admitted and take a proxy each; the first upstream of the first refuses. *)
Definition demo_gw_events : list GwEvent :=
  [GwReady; GwPermit; GwAccept (V4 1) (open_conn demo_raw); GwPermit; GwAccept (V4 3) (open_conn demo_raw)] ++
  concat (replicate 5 [GwStep 0 (demo_in DialErr); GwStep 1 (demo_in DialErr)]) ++
  [GwStep 0 (demo_in DialErr); GwStep 1 (demo_in demo_up)].
Definition demo_gw_end : list GwEvent := replicate 9 (GwStep 0 (demo_in demo_up)) ++ replicate 3 (GwStep 1 (demo_in demo_up)) ++ [GwClose 0].
Abbreviation demo_gw es := (gw_run demo_cx es (gw_start demo_pool 0 rand_seed)).
Definition seen (g : Gateway) := (map (fun h => (ended h, sent (hd_client h), map p_key (hands h))) (gw_handlers g), map p_key (proxies (w_pool (gw_world g)))).
Definition demo_all : list GwEvent := demo_gw_events ++ demo_gw_end.
Definition of_demo (px : Proxy) : Prop := p_key px ∈ [p_key demo_px; p_key demo_other].

Lemma gateway_sound_witness : exists g h, demo_gw demo_all = Some g /\ gw_handlers g !! 0%nat = Some h /\ ended h = true /\
  answered demo_cx PoolConfig_default of_demo (V4 1) (open_conn demo_raw) (hd_client h) /\ size (gw_history g) = 2%nat.
Proof.
  assert (E0 : (let? g := demo_gw demo_all in let? h := gw_handlers g !! 0%nat in Some (ended h, size (gw_history g))) = Some (true, 2%nat))
    by (vm_compute; reflexivity).
  destruct (demo_gw demo_all) as [g|] eqn:E; [|discriminate E0]. cbn [mbind option_bind] in E0.
  destruct (gw_handlers g !! 0%nat) as [h|] eqn:Hi; [|discriminate E0]. cbn [mbind option_bind] in E0. injection E0 as He Hs.
  exists g, h. split; [reflexivity|]. split; [exact Hi|]. split; [exact He|]. split; [|exact Hs].
  destruct (gateway_sound demo_cx of_demo demo_pool 0 rand_seed demo_all g) as (_ & _ & H & _).
  - intros px t e Hp. unfold of_demo. rewrite record_attempt_key. exact Hp.
  - intros px Hp. unfold of_demo. change (px ∈ [demo_px; demo_other]) in Hp.
    apply elem_of_cons in Hp as [Hp|Hp]; [rewrite Hp; left|]. apply list_elem_of_singleton in Hp. rewrite Hp. right. left.
  - vm_compute. repeat constructor.
  - exact E.
  - exact (proj1 (H 0%nat h (V4 1) (open_conn demo_raw) Hi eq_refl) He).
Defined.
(** At the moment when both have a proxy in hand, the pool is empty and the two differ. *)
Lemma gateway_conserves_witness : exists g, demo_gw demo_gw_events = Some g /\
  map p_key (on_loan g) = [(V4 16843009, 8080); (V4 33686018, 3128)] /\ NoDup (map p_key (proxies (w_pool (gw_world g)) ++ on_loan g)).
Proof.
  assert (E0 : (fun g => map p_key (on_loan g)) <$> demo_gw demo_gw_events = Some [(V4 16843009, 8080); (V4 33686018, 3128)])
    by (vm_compute; reflexivity).
  destruct (demo_gw demo_gw_events) as [g|] eqn:E; [|discriminate E0]. exists g. split; [reflexivity|]. injection E0 as ->.
  split; [reflexivity|]. destruct (gateway_conserves demo_cx demo_pool 0 rand_seed demo_gw_events g E) as (evicted & taken & _ & _ & _ & Hd & _).
  apply Hd. apply (bool_decide_unpack _). vm_compute. exact I.
Defined.
(** A client that arrives at a live pool that is empty waits, and for that reason. *)
Definition demo_waiting : list GwEvent :=
  [GwReady; GwPermit; GwAccept (V4 1) (open_conn demo_raw)] ++ replicate 5 (GwStep 0 (demo_in DialErr)).
Lemma gateway_progress_witness : exists g h j a t, gw_run demo_cx demo_waiting (gw_start (spawned PoolConfig_default) 0 rand_seed) = Some g /\
  gw_handlers g !! 0%nat = Some h /\ hd_pc h = HGet j a t /\ exhausted (w_pool (gw_world g)) = false /\ ended h = false.
Proof.
  assert (E0 : (let? g := gw_run demo_cx demo_waiting (gw_start (spawned PoolConfig_default) 0 rand_seed) in let? h := gw_handlers g !! 0%nat in
      match hd_pc h with HGet _ _ _ => Some (ended h, bool_decide (is_Some (handler_step demo_cx (demo_in DialErr) h (gw_world g) (gw_history g))), w_pending (gw_world g))
      | _ => None end) = Some (false, false, 0%nat)) by (vm_compute; reflexivity).
  destruct (gw_run demo_cx demo_waiting _) as [g|] eqn:E; [|discriminate E0]. cbn [mbind option_bind] in E0.
  destruct (gw_handlers g !! 0%nat) as [h|] eqn:Hi; [|discriminate E0]. cbn [mbind option_bind] in E0.
  destruct (hd_pc h) as [| | |j a t| | | | | |] eqn:Hpc; try discriminate E0. injection E0 as He Hn%bool_decide_eq_false Hp.
  exists g, h, j, a, t. split; [reflexivity|]. split; [exact Hi|]. split; [exact Hpc|]. split; [|exact He].
  pose proof (proj1 (gateway_progress demo_cx (spawned PoolConfig_default) 0 rand_seed demo_waiting g E Hp) 0%nat h (demo_in DialErr) Hi He) as H.
  rewrite Hpc in H. apply H. destruct (handler_step _ _ h _ _); [|reflexivity]. destruct Hn. eauto.
Defined.
Definition demo_arrived := demo_gw [GwReady; GwPermit; GwAccept (V4 1) (open_conn demo_raw)].
Definition demo_handled (g : Gateway) :=
  handle_client demo_attempt (cx_lookup demo_cx) (cx_max_tries demo_cx) (cx_auth demo_cx) (V4 1) (mkH (open_conn demo_raw) (gw_world g) (gw_history g)).
Lemma handler_schedule_witness : exists g s es g', demo_arrived = Some g /\ demo_handled g = Some s /\
  gw_run demo_cx es g = Some g' /\ gw_world g' = h_world s /\ rotations (w_pool (h_world s)) = 1.
Proof.
  assert (E0 : (let? g := demo_arrived in let? s := demo_handled g in
      let? h := gw_handlers g !! 0%nat in Some (h, rotations (w_pool (h_world s)))) = Some (new_handler (V4 1) (open_conn demo_raw), 1)) by (vm_compute; reflexivity).
  destruct demo_arrived as [g|] eqn:E; [|discriminate E0]. cbn [mbind option_bind] in E0.
  destruct (demo_handled g) as [s|] eqn:Es; [|discriminate E0]. cbn [mbind option_bind] in E0.
  destruct (gw_handlers g !! 0%nat) as [h|] eqn:Hi; [|discriminate E0]. injection E0 as Hh Hr. subst h.
  destruct (handler_schedule demo_cx demo_attempt g 0 (V4 1) (open_conn demo_raw) s Hi Es) as (es & _ & H).
  exists g, s, es. eexists. split; [reflexivity|]. split; [exact Es|]. split; [exact H|]. split; [reflexivity|exact Hr].
Defined.
End gateway_demo.
