(* ===== verification/Scrape.v ===== *)
(** * The sockets of a server, and the metrics port (src/server.rs, [serve], [ServerHandle], [serve_metrics])

    How [serve] sets its socket up and hands out a handle, then the small HTTP responder that reports
    on the pool while the clients' handlers work on it: a state machine run beside the one of
    Gateway.v, over the same pool. A scrape reads the pool three times. *)
From S2P Require Import Prelude F64 Text Types Addr Utils Proxy Pool PoolSteps Http Net Negotiator Client Relay Server Listener Gateway Report.
Open Scope Z_scope.

(** ** Sockets *)
Inductive SockCall := NewV4 | NewV6 | ReuseAddr | Bind (addr : IpAddr * Z) | Listen (backlog : Z) | LocalAddr.
(** The operating system: its answer to a call, given the calls before it. *)
Class Sockets := {
  sock_call : list SockCall -> SockCall -> bool;
  sock_local : list SockCall -> IpAddr * Z;
}.
(** A running server's handle: its address; what it cancels is the server it came with. *)
Record ServerHandle := { local_addr : IpAddr * Z }.

Section sockets.
Context `{SO : Sockets}.
(** The calls [serve] makes before the [?] of one of them ends it; [true] when all were answered. *)
Fixpoint sock_calls (cs : list SockCall) (done : list SockCall) : bool * list SockCall :=
  match cs with
  | [] => (true, done)
  | c :: cs => if sock_call done c then sock_calls cs (done ++ [c]) else (false, done ++ [c])
  end.
Definition open_socket (addr : IpAddr * Z) (backlog : Z) : list SockCall :=
  [if is_ipv4 addr.1 then NewV4 else NewV6; ReuseAddr; Bind addr; Listen backlog; LocalAddr].
Definition serve_listen (addr : IpAddr * Z) (backlog : Z) : option ServerHandle * list SockCall :=
  let '(okay, calls) := sock_calls (open_socket addr backlog) [] in
  ((if okay then Some {| local_addr := sock_local calls |} else None), calls).
(** [serve]: a handle and a server, or an error and neither. *)
Definition serve `{HO : HashOrder} `{N : Notify} (addr : IpAddr * Z) (pool : Pool) (min_queue : nat) (backlog : Z) (auth : option str)
    (lookup_ip : str -> option (list IpAddr)) (rng : Z) : option (ServerHandle * (ConnCtx * Gateway)) :=
  let? h := (serve_listen addr backlog).1 in
  Some (h, (conn_ctx lookup_ip (config pool) auth, gw_start pool min_queue rng)).

(** The calls stop at the first one refused. *)
Lemma sock_calls_sound cs done : exists n, (sock_calls cs done).2 = done ++ take n cs /\
  (forall k c, cs !! k = Some c -> (S k < n)%nat -> sock_call (done ++ take k cs) c = true) /\
  if (sock_calls cs done).1 then n = length cs /\ (forall k c, cs !! k = Some c -> sock_call (done ++ take k cs) c = true)
  else exists k c, cs !! k = Some c /\ n = S k /\ sock_call (done ++ take k cs) c = false.
Proof.
  revert done. induction cs as [|c cs IH]; intros done; cbn [sock_calls].
  { exists 0%nat. cbn. rewrite app_nil_r. split_and!; [reflexivity|intros k c Hk; discriminate Hk|reflexivity|intros k c Hk; discriminate Hk]. }
  destruct (sock_call done c) eqn:Ec.
  - destruct (IH (done ++ [c])) as (n & Hl & Hb & Hend). exists (S n).
    assert (forall k, (done ++ [c]) ++ take k cs = done ++ take (S k) (c :: cs)) as Ht by (intros k; by rewrite <- app_assoc).
    split; [by rewrite Hl, Ht|]. split.
    + intros [|k] x Hx Hn; [cbn in Hx; injection Hx as <-; by rewrite app_nil_r|]. rewrite <- Ht. apply (Hb k x); [done|lia].
    + destruct (sock_calls cs (done ++ [c])).1.
      * destruct Hend as [-> Hend]. split; [done|]. intros [|k] x Hx; [cbn in Hx; injection Hx as <-; by rewrite app_nil_r|].
        rewrite <- Ht. by apply Hend.
      * destruct Hend as (k & x & Hx & -> & Hf). exists (S k), x. split; [done|]. split; [done|]. by rewrite <- Ht.
  - exists 1%nat. cbn. split; [done|]. split; [intros k x _ Hn; lia|]. exists 0%nat, c. by rewrite app_nil_r.
Qed.
(** A server is there when the socket is bound and listening as asked, and at the address the system gave it. *)
Lemma serve_listens `{HO : HashOrder} `{N : Notify} addr pool n backlog auth lk rng :
  match serve addr pool n backlog auth lk rng with
  | Some (h, (cx, g)) => (serve_listen addr backlog).2 = open_socket addr backlog /\
      local_addr h = sock_local (open_socket addr backlog) /\ g = gw_start pool n rng /\ cx = conn_ctx lk (config pool) auth
  | None => exists k c, open_socket addr backlog !! k = Some c /\ sock_call (take k (open_socket addr backlog)) c = false /\
      (serve_listen addr backlog).2 = take (S k) (open_socket addr backlog)
  end.
Proof.
  unfold serve, serve_listen. pose proof (sock_calls_sound (open_socket addr backlog) []) as (m & Hl & _ & Hend).
  destruct (sock_calls _ _) as [[] calls]; cbn [fst snd mbind option_bind] in *.
  - destruct Hend as [-> _]. rewrite Hl. cbn [app]. by rewrite firstn_all.
  - destruct Hend as (k & c & Hk & -> & Hf). exists k, c. by rewrite Hl.
Qed.
End sockets.

Section node.
Context `{HO : HashOrder} `{N : Notify} `{UC : UnicodeCase} `{TL : TunnelLibs} `{SP : Splice}.

(** [shutdown], and [drop]: both cancel. *)
Definition shutdown (cx : ConnCtx) (g : Gateway) : option Gateway := gw_step cx GwShutdown g.
Definition drop_handle (cx : ConnCtx) (g : Gateway) : option Gateway := gw_step cx GwShutdown g.

(** ** The metrics port *)
Inductive ScPc :=
| ScRead
| ScSnapshot
| ScEvictions (s : PoolSnapshot)
| ScRotations (s : PoolSnapshot) (evict : Z)
| ScWrite (resp : str)
| ScEnd.
Record Scraper := { sc_client : Conn; sc_pc : ScPc }.
(** What a read into [n] bytes leaves unread, when [n] have come or the rest is not there yet. *)
Fixpoint unread (n : nat) (r : list RxEvent) : list RxEvent :=
  match n, r with S n, RxByte _ :: r => unread n r | _, _ => r end.
(** One [read] into a buffer of [size] bytes, of which [avail] have come: it waits for the first. *)
Definition read_some (size avail : nat) (c : Conn) : option Conn :=
  match rx c with
  | RxByte _ :: r => Some (mkConn (unread (Nat.min (pred size) avail) r) (tx c) (sent c))
  | RxFail :: r => Some (mkConn r (tx c) (sent c))
  | RxHang :: _ => None
  | [] => Some c
  end.
Definition REQUEST_BUF : nat := 1024.
Definition scrape_step (avail : nat) (pool : Pool) (sc : Scraper) : option Scraper :=
  match sc_pc sc with
  | ScRead => let? c := read_some REQUEST_BUF avail (sc_client sc) in Some {| sc_client := c; sc_pc := ScSnapshot |}
  | ScSnapshot => Some {| sc_client := sc_client sc; sc_pc := ScEvictions (snapshot pool) |}
  | ScEvictions s => Some {| sc_client := sc_client sc; sc_pc := ScRotations s (evictions pool) |}
  | ScRotations s e =>
      Some {| sc_client := sc_client sc; sc_pc := ScWrite (metrics_reply (metrics_text s e (rotations pool))) |}
  | ScWrite resp => let? (_, c) := write_forever resp (sc_client sc) in Some {| sc_client := c; sc_pc := ScEnd |}
  | ScEnd => None
  end.

(** The loop, and the tasks of its clients. *)
Record Metrics := mkMx { mx_cancelled : bool; mx_stopped : bool; mx_scrapers : list Scraper }.
Inductive MxEvent :=
| MxShutdown | MxStop | MxError
| MxClient (client : Conn)
| MxStep (i avail : nat).
Definition mx_step (pool : Pool) (e : MxEvent) (m : Metrics) : option Metrics :=
  match e with
  | MxShutdown => Some (mkMx true (mx_stopped m) (mx_scrapers m))
  | MxStop => if mx_cancelled m && negb (mx_stopped m) then Some (mkMx true true (mx_scrapers m)) else None
  | MxError => if mx_stopped m then None else Some m
  | MxClient c =>
      if mx_stopped m then None
      else Some (mkMx (mx_cancelled m) false (mx_scrapers m ++ [{| sc_client := c; sc_pc := ScRead |}]))
  | MxStep i avail =>
      let? sc := mx_scrapers m !! i in
      let? sc := scrape_step avail pool sc in
      Some (mkMx (mx_cancelled m) (mx_stopped m) (<[i := sc]> (mx_scrapers m)))
  end.

(** Both servers of [serve --metrics], over one pool. *)
Record Node := mkNode { nd_gateway : Gateway; nd_metrics : Metrics }.
Inductive NodeEvent := NGw (e : GwEvent) | NMx (e : MxEvent).
Definition nd_pool (nd : Node) : Pool := w_pool (gw_world (nd_gateway nd)).
Definition node_step (cx : ConnCtx) (e : NodeEvent) (nd : Node) : option Node :=
  match e with
  | NGw e => let? g := gw_step cx e (nd_gateway nd) in Some (mkNode g (nd_metrics nd))
  | NMx e => let? m := mx_step (nd_pool nd) e (nd_metrics nd) in Some (mkNode (nd_gateway nd) m)
  end.
Fixpoint node_run (cx : ConnCtx) (es : list NodeEvent) (nd : Node) : option Node :=
  match es with [] => Some nd | e :: es => let? nd := node_step cx e nd in node_run cx es nd end.
Definition node_start (g : Gateway) : Node := mkNode g (mkMx false false []).

(** ** What a scrape reports *)
Definition gw_of (e : NodeEvent) : option GwEvent := match e with NGw e => Some e | NMx _ => None end.
Definition conn_of (e : NodeEvent) : option Conn := match e with NMx (MxClient c) => Some c | _ => None end.
(** The pool before the [k]-th event. *)
Definition moment (cx : ConnCtx) (g0 : Gateway) (es : list NodeEvent) (k : nat) (p : Pool) : Prop :=
  exists nd, node_run cx (take k es) (node_start g0) = Some nd /\ nd_pool nd = p.
(** A reading of the pool at an event after the [lo]-th. *)
Definition reading (cx : ConnCtx) (g0 : Gateway) (es : list NodeEvent) (lo : nat) (Q : nat -> Pool -> Prop) : Prop :=
  exists k p, (lo < k < length es)%nat /\ moment cx g0 es k p /\ Q k p.
Definition replied (cx : ConnCtx) (g0 : Gateway) (es : list NodeEvent) (k0 : nat) (resp : str) : Prop :=
  reading cx g0 es k0 (fun k1 p => reading cx g0 es k1 (fun k2 q => reading cx g0 es k2 (fun _ r =>
    resp = metrics_reply (metrics_text (snapshot p) (evictions q) (rotations r))))).
Definition scrape_ok (cx : ConnCtx) (g0 : Gateway) (es : list NodeEvent) (c : Conn) (k0 : nat) (sc : Scraper) : Prop :=
  let untouched := tx (sc_client sc) = tx c /\ sent (sc_client sc) = sent c in
  match sc_pc sc with
  | ScRead | ScSnapshot => untouched
  | ScEvictions s => untouched /\ reading cx g0 es k0 (fun _ p => s = snapshot p)
  | ScRotations s e =>
      untouched /\ reading cx g0 es k0 (fun k1 p => s = snapshot p /\ reading cx g0 es k1 (fun _ q => e = evictions q))
  | ScWrite resp => untouched /\ replied cx g0 es k0 resp
  | ScEnd => exists resp, sent (sc_client sc) = sent (write_all resp c).2 /\ replied cx g0 es k0 resp
  end.

Lemma node_run_snoc cx es e nd : node_run cx (es ++ [e]) nd = let? nd := node_run cx es nd in node_step cx e nd.
Proof. revert nd. induction es as [|x es IH]; intros nd; cbn; [by destruct (node_step cx e nd)|]. by destruct (node_step cx x nd); cbn. Qed.
Lemma moment_mono cx g0 es e k p : (k < length es)%nat -> moment cx g0 es k p -> moment cx g0 (es ++ [e]) k p.
Proof. intros Hk (nd & H & Hp). exists nd. split; [|done]. by rewrite take_app_le by lia. Qed.
Lemma reading_mono cx g0 es e lo (Q Q' : nat -> Pool -> Prop) : (forall k p, Q k p -> Q' k p) ->
  reading cx g0 es lo Q -> reading cx g0 (es ++ [e]) lo Q'.
Proof.
  intros HQ (k & p & Hk & Hm & Hp). exists k, p. split; [rewrite length_app; cbn; lia|]. split; [|by apply HQ].
  apply moment_mono; [lia|done].
Qed.
(** The reading that the last event makes. *)
Lemma reading_now cx g0 es e lo nd (Q : nat -> Pool -> Prop) : node_run cx es (node_start g0) = Some nd -> (lo < length es)%nat ->
  Q (length es) (nd_pool nd) -> reading cx g0 (es ++ [e]) lo Q.
Proof.
  intros Hr Hlo HQ. exists (length es), (nd_pool nd). split; [rewrite length_app; cbn; lia|]. split; [|done].
  exists nd. by rewrite take_app_length.
Qed.
Lemma replied_mono cx g0 es e k0 resp : replied cx g0 es k0 resp -> replied cx g0 (es ++ [e]) k0 resp.
Proof. apply reading_mono. intros k p. apply reading_mono. intros k' q. apply reading_mono. done. Qed.
Lemma scrape_ok_mono cx g0 es e c k0 sc : scrape_ok cx g0 es c k0 sc -> scrape_ok cx g0 (es ++ [e]) c k0 sc.
Proof.
  unfold scrape_ok. cbv zeta. destruct (sc_pc sc); [done|done|..].
  - intros [? H]. split; [done|]. eapply reading_mono; [|exact H]; done.
  - intros [? H]. split; [done|]. eapply reading_mono; [|exact H]. intros k p [? Hq]. split; [done|].
    eapply reading_mono; [|exact Hq]. done.
  - intros [? H]. split; [done|]. by apply replied_mono.
  - intros (resp & ? & H). exists resp. split; [done|]. by apply replied_mono.
Qed.
Lemma read_some_untouched n a c c' : read_some n a c = Some c' -> tx c' = tx c /\ sent c' = sent c.
Proof. unfold read_some. destruct (rx c) as [|[]]; intros; by simplify_eq. Qed.
Lemma write_forever_sent s c c0 okay c' : tx c = tx c0 -> sent c = sent c0 -> write_forever s c = Some (okay, c') -> sent c' = sent (write_all s c0).2.
Proof. destruct c as [r t w], c0 as [r0 t0 w0]. cbn. intros -> ->. unfold write_forever, write_all. cbn. destruct t0 as [|[]]; intros; by simplify_eq. Qed.
Lemma scrape_step_ok cx g0 es e c k0 avail nd sc sc' : node_run cx es (node_start g0) = Some nd -> (k0 < length es)%nat ->
  scrape_ok cx g0 es c k0 sc -> scrape_step avail (nd_pool nd) sc = Some sc' -> scrape_ok cx g0 (es ++ [e]) c k0 sc'.
Proof.
  intros Hr Hk Hok Hs. unfold scrape_step in Hs. unfold scrape_ok in Hok. destruct (sc_pc sc) as [| |s|s ev|resp|] eqn:Epc; [..|done].
  - destruct (read_some _ _ _) as [c'|] eqn:Er; [|done]. injection Hs as <-. apply read_some_untouched in Er as [H1 H2].
    unfold scrape_ok. cbn. destruct Hok. split; congruence.
  - injection Hs as <-. split; [done|]. by eapply reading_now.
  - injection Hs as <-. destruct Hok as [Hu (k & p & Hlt & Hm & Hp)]. split; [done|].
    exists k, p. split; [rewrite length_app; cbn; lia|]. split; [by apply moment_mono; [lia|]|]. split; [done|].
    eapply reading_now; [done|lia|done].
  - injection Hs as <-. destruct Hok as [Hu (k & p & Hlt & Hm & -> & k2 & q & Hlt2 & Hm2 & ->)]. split; [done|].
    exists k, p. split; [rewrite length_app; cbn; lia|]. split; [by apply moment_mono; [lia|]|].
    exists k2, q. split; [rewrite length_app; cbn; lia|]. split; [by apply moment_mono; [lia|]|].
    eapply reading_now; [done|lia|done].
  - destruct (write_forever _ _) as [[okay c']|] eqn:Ew; [|done]. injection Hs as <-. destruct Hok as [[H1 H2] H].
    exists resp. split; [by eapply write_forever_sent|]. by apply replied_mono.
Qed.

(** What holds after the events [es]. *)
Definition node_ok (cx : ConnCtx) (g0 : Gateway) (es : list NodeEvent) (nd : Node) : Prop :=
  length (mx_scrapers (nd_metrics nd)) = length (omap conn_of es) /\
  forall i sc, mx_scrapers (nd_metrics nd) !! i = Some sc -> exists c k0,
    es !! k0 = Some (NMx (MxClient c)) /\ length (omap conn_of (take k0 es)) = i /\ scrape_ok cx g0 es c k0 sc.
Lemma node_ok_step cx g0 es e nd nd' : node_run cx es (node_start g0) = Some nd -> node_ok cx g0 es nd ->
  node_step cx e nd = Some nd' -> node_ok cx g0 (es ++ [e]) nd'.
Proof.
  intros Hr [Hl Hok] Hs.
  assert (forall i sc, mx_scrapers (nd_metrics nd) !! i = Some sc -> exists c k0, (k0 < length es)%nat /\
    (es ++ [e]) !! k0 = Some (NMx (MxClient c)) /\ length (omap conn_of (take k0 (es ++ [e]))) = i /\ scrape_ok cx g0 es c k0 sc) as Hold.
  { intros i sc Hi. destruct (Hok i sc Hi) as (c & k0 & He & Hn & Hsc). pose proof (lookup_lt_Some _ _ _ He). exists c, k0.
    rewrite lookup_app_l, take_app_le by lia. done. }
  assert (mx_scrapers (nd_metrics nd') = mx_scrapers (nd_metrics nd) -> conn_of e = None -> node_ok cx g0 (es ++ [e]) nd') as Hsame.
  { intros Hsc Hc. split; [rewrite Hsc, omap_app, length_app, Hl; cbn; rewrite Hc; cbn; lia|]. rewrite Hsc. intros i sc Hi.
    destruct (Hold i sc Hi) as (c & k0 & _ & He & Hn & H). exists c, k0. split; [done|]. split; [done|]. by apply scrape_ok_mono. }
  destruct e as [ge|me]; cbn [node_step] in Hs.
  { destruct (gw_step cx ge (nd_gateway nd)); [|done]. injection Hs as <-. by apply Hsame. }
  destruct (mx_step (nd_pool nd) me (nd_metrics nd)) as [m|] eqn:Em; [|done]. injection Hs as <-.
  destruct me as [| | |c|i avail]; cbn [mx_step] in Em.
  1-3: apply Hsame; [|done]; repeat case_match; by simplify_eq.
  - destruct (mx_stopped _); [done|]. injection Em as <-. split; [cbn; rewrite omap_app, !length_app, Hl; done|]. cbn. intros i sc Hi.
    apply lookup_app_Some in Hi as [Hi|[Hge Hi]].
    + destruct (Hold i sc Hi) as (c' & k0 & _ & He & Hn & H). exists c', k0. split; [done|]. split; [done|]. by apply scrape_ok_mono.
    + apply list_lookup_singleton_Some in Hi as [Hi <-]. exists c, (length es). rewrite take_app_length. split; [by apply list_lookup_middle|].
      split; [lia|done].
  - destruct (mx_scrapers (nd_metrics nd) !! i) as [sc|] eqn:Hi; [|done]. cbn [mbind option_bind] in Em.
    destruct (scrape_step avail (nd_pool nd) sc) as [sc'|] eqn:Es; [|done]. injection Em as <-.
    split; [cbn; rewrite length_insert, omap_app, length_app, Hl; cbn; lia|]. cbn. intros j sc1 Hj.
    apply list_lookup_insert_Some in Hj as [(<- & <- & _)|[_ Hj]].
    + destruct (Hold i sc Hi) as (c' & k0 & Hk & He & Hn & H). exists c', k0. split; [done|]. split; [done|]. by eapply scrape_step_ok.
    + destruct (Hold j sc1 Hj) as (c' & k0 & _ & He & Hn & H). exists c', k0. split; [done|]. split; [done|]. by apply scrape_ok_mono.
Qed.
Lemma node_run_ok cx g0 es nd : node_run cx es (node_start g0) = Some nd -> node_ok cx g0 es nd.
Proof.
  revert nd. induction es as [|e es IH] using rev_ind; intros nd Hr; [injection Hr as <-; split; [done|intros i sc Hi; done]|].
  rewrite node_run_snoc in Hr. destruct (node_run cx es _) as [nd0|] eqn:E; [|done]. eapply node_ok_step; [done|by apply IH|done].
Qed.

(** C7: the metrics port beside the running server. Scrapes do not disturb the server: what the gateway did is a
    run of the gateway alone. A scrape that has ended answered its client with one HTTP response, as
    far as the client took it, whose snapshot, evictions and rotations are the pool's at three moments,
    in this order, all after the client was accepted; before that it has written nothing. A scrape that
    cannot move has ended, or waits for its client to send something or to read. And once the loop has
    stopped it accepts nobody. *)
Theorem scrape_sound : forall cx g0 es nd, node_run cx es (node_start g0) = Some nd ->
  gw_run cx (omap gw_of es) g0 = Some (nd_gateway nd) /\
  (forall i sc, mx_scrapers (nd_metrics nd) !! i = Some sc -> exists c k0,
     es !! k0 = Some (NMx (MxClient c)) /\ length (omap conn_of (take k0 es)) = i /\
     match sc_pc sc with
     | ScEnd => exists resp, sent (sc_client sc) = sent (write_all resp c).2 /\ replied cx g0 es k0 resp
     | _ => sent (sc_client sc) = sent c
     end) /\
  (forall i sc avail, mx_scrapers (nd_metrics nd) !! i = Some sc -> node_step cx (NMx (MxStep i avail)) nd = None ->
     match sc_pc sc with
     | ScRead => exists r, rx (sc_client sc) = RxHang :: r
     | ScWrite resp => write_forever resp (sc_client sc) = None
     | ScEnd => True
     | _ => False
     end) /\
  (mx_stopped (nd_metrics nd) = true -> NMx MxShutdown ∈ es /\ forall c, node_step cx (NMx (MxClient c)) nd = None).
Proof.
  intros cx g0 es nd Hr. split_and!.
  - revert Hr. change g0 with (nd_gateway (node_start g0)) at 2. generalize (node_start g0). induction es as [|e es IH]; intros nd0 Hr.
    { by injection Hr as <-. }
    cbn in Hr. destruct (node_step cx e nd0) as [nd1|] eqn:Es; [|done]. destruct e as [ge|me]; cbn [node_step] in Es.
    + destruct (gw_step cx ge _) as [g|] eqn:Eg; [|done]. injection Es as <-. cbn. rewrite Eg. by apply (IH _ Hr).
    + destruct (mx_step _ _ _); [|done]. injection Es as <-. by apply (IH _ Hr).
  - intros i sc Hi. destruct (node_run_ok _ _ _ _ Hr) as [_ H]. destruct (H i sc Hi) as (c & k0 & He & Hn & Hsc). exists c, k0.
    split; [done|]. split; [done|]. unfold scrape_ok in Hsc. destruct (sc_pc sc); naive_solver.
  - intros i sc avail Hi. cbn. rewrite Hi. cbn. unfold scrape_step, read_some. destruct (sc_pc sc); try done.
    + destruct (rx (sc_client sc)) as [|[] r]; try done. by exists r.
    + by destruct (write_forever _ _) as [[? ?]|].
  - intros Hst. split; [|intros c; cbn; by rewrite Hst].
    assert ((mx_cancelled (nd_metrics nd) = true \/ mx_stopped (nd_metrics nd) = true) -> NMx MxShutdown ∈ es) as H; [|by apply H; right].
    clear Hst. revert nd Hr. induction es as [|e es IH] using rev_ind; intros nd Hr Hst; [injection Hr as <-; by destruct Hst|].
    rewrite node_run_snoc in Hr. destruct (node_run cx es _) as [nd0|] eqn:E; [|done]. apply elem_of_app.
    destruct e as [ge|me]; cbn in Hr; [left|].
    + destruct (gw_step cx ge _); [|done]. injection Hr as <-. by apply (IH nd0).
    + destruct (mx_step _ me _) as [m|] eqn:Em; [|done]. injection Hr as <-. cbn in Hst.
      destruct me as [| | |c|i a]; cbn in Em; [right; left|left; apply (IH nd0 eq_refl)..].
      * destruct (mx_cancelled _); [by left|done].
      * destruct (mx_stopped _) in Em; [done|]. by injection Em as <-.
      * destruct (mx_stopped _); [done|]. injection Em as <-. cbn in Hst. tauto.
      * destruct (mx_scrapers _ !! i); [|done]. cbn in Em. destruct (scrape_step _ _ _); [|done]. by injection Em as <-.
Qed.
End node.

(** ** A scrape while a client is served *)
Section scrape_demo.
#[local] Existing Instances list_order counter_notify ascii_case no_libs copy_splice.
Definition demo_scrape_conn : Conn := open_conn (lit "GET /metrics HTTP/1.1" ++ crlf ++ crlf).
(** The snapshot is taken while both proxies are out; a rotation is counted before the counters are read. *)
Definition demo_scrape_events : list NodeEvent :=
  map NGw demo_gw_events ++ [NMx (MxClient demo_scrape_conn); NMx (MxStep 0 100); NMx (MxStep 0 0)] ++
  map NGw demo_gw_end ++ replicate 3 (NMx (MxStep 0 0)) ++ [NMx MxShutdown; NMx MxStop].
Definition scraped (nd : Node) : option (bool * option str * option str) :=
  let? sc := mx_scrapers (nd_metrics nd) !! 0%nat in
  let read name := scrape name (sent (sc_client sc)) in
  Some (match sc_pc sc with ScEnd => true | _ => false end, read (size_metric (lit "http")), read (lit "proxybroker_rotations_total")).
Lemma scrape_sound_witness : exists nd sc c k0 resp, node_run demo_cx demo_scrape_events (node_start (gw_start demo_pool 0 rand_seed)) = Some nd /\
  mx_scrapers (nd_metrics nd) !! 0%nat = Some sc /\ demo_scrape_events !! k0 = Some (NMx (MxClient c)) /\
  sent (sc_client sc) = sent (write_all resp c).2 /\ replied demo_cx (gw_start demo_pool 0 rand_seed) demo_scrape_events k0 resp /\
  scrape (size_metric (lit "http")) (sent (sc_client sc)) = Some (lit "0") /\
  scrape (lit "proxybroker_rotations_total") (sent (sc_client sc)) = Some (lit "1").
Proof.
  assert (E0 : (node_run demo_cx demo_scrape_events (node_start (gw_start demo_pool 0 rand_seed)) ≫= scraped) = Some (true, Some (lit "0"), Some (lit "1")))
    by (vm_compute; reflexivity).
  destruct (node_run demo_cx demo_scrape_events _) as [nd|] eqn:E; [|discriminate E0]. cbn [mbind option_bind] in E0. unfold scraped in E0.
  destruct (mx_scrapers (nd_metrics nd) !! 0%nat) as [sc|] eqn:Hi; [|discriminate E0]. cbn [mbind option_bind] in E0.
  destruct (proj1 (proj2 (scrape_sound demo_cx (gw_start demo_pool 0 rand_seed) demo_scrape_events nd E)) 0%nat sc Hi) as (c & k0 & Hk & Hn & H).
  injection E0 as Hpc H1 H2. destruct (sc_pc sc) as [| | | | |]; try discriminate Hpc. destruct H as (resp & Hs & Hr).
  exists nd, sc, c, k0, resp. split; [reflexivity|]. split; [exact Hi|]. split; [exact Hk|]. split; [exact Hs|]. split; [exact Hr|]. split; [exact H1|exact H2].
Defined.
End scrape_demo.
