(* ===== verification/ProviderDir.v ===== *)
(** * Provider configurations from a directory (src/provider.rs, [load_provider_dir])

    Which files of a directory are read, in which order, and which of the specifications in them are
    kept. The listing and the contents of the files are arguments; parsing YAML into a
    [ProviderSpec] is serde_yaml_ng's and its derived code's. *)
From stdpp Require Import sorting.
From S2P Require Import Prelude Text Types Provider.
Open Scope Z_scope.

(** [Path::extension] of a file name: what follows the last dot, if anything precedes it. *)
Definition extension (name : str) : option str :=
  let? (stem, ext) := rsplit_once "." name in if decide (stem = []) then None else Some ext.
Definition config_ext (ext : str) : bool := bool_decide (ext ∈ [lit "yaml"; lit "yml"; lit "json"]).
(** The filter of the listing; [to_str] fails on a name that is not UTF-8. *)
Definition config_name (name : str) : bool :=
  is_utf8 name && match extension name with Some ext => config_ext ext | None => false end &&
  negb (starts_with (lit "_") name).
Definition kind_ok (spec : ProviderSpec) : bool :=
  match ps_kind spec with None => true | Some k => bool_decide (k = lit "simple") end.

Section provider_dir.
Variable parse_spec : str -> option ProviderSpec.

(** One file: [read] is [read_to_string]. *)
Definition load_provider_file (read : str -> option str) (name : str) : option ProviderSpec :=
  let? text := read name in
  let? spec := parse_spec text in
  if kind_ok spec then Some spec else None.
(** [listing] is [None] for a path that is no directory or cannot be read; an entry may fail. *)
Definition load_provider_dir (listing : option (list (option str))) (read : str -> option str) : list ProviderSpec :=
  match listing with
  | None => []
  | Some entries => omap (load_provider_file read) (sort_by str_cmp (List.filter config_name (omap id entries)))
  end.

(** ** The order of the listing *)
Lemma str_cmp_eq x y : str_cmp x y = Eq -> x = y.
Proof.
  revert y. induction x as [|c x IH]; intros [|d y]; cbn; try done.
  destruct (byte c ?= byte d) eqn:E; cbn; try done. intros Hr. f_equal; [|by apply IH].
  apply Z.compare_eq in E. by rewrite <- (chr_byte c), E, chr_byte.
Qed.
#[local] Instance str_order_antisymm : AntiSymm (=) (in_order str_cmp).
Proof.
  intros x y H1 H2. unfold in_order in *. apply str_cmp_eq. rewrite (cmp_antisym (cmp := str_cmp) x y) in H2.
  by destruct (str_cmp x y).
Qed.
Lemma sort_str_perm l l' : l ≡ₚ l' -> sort_by str_cmp l = sort_by str_cmp l'.
Proof.
  intros Hp. apply (StronglySorted_unique (in_order str_cmp)); [apply sort_by_sorted, _..|]. by rewrite !sort_by_perm.
Qed.
Lemma filter_perm {A} (f : A -> bool) l l' : l ≡ₚ l' -> List.filter f l ≡ₚ List.filter f l'.
Proof.
  induction 1 as [|x l l' _ IH|x y l|]; cbn; [done|by destruct (f x); rewrite IH| |by etransitivity].
  destruct (f x), (f y); try done. apply perm_swap.
Qed.
Lemma omap_insert_none {B} (f : str -> option B) x l : f x = None -> omap f (insert_by str_cmp x l) = omap f l.
Proof.
  intros Hx. induction l as [|y l IH]; cbn; [by rewrite Hx|]. destruct (str_cmp x y); cbn; rewrite ?Hx; [done|done|].
  by rewrite IH.
Qed.

(** The configurations loaded depend on the files of the directory, not on the order it lists
    them in: they are, in the order of the names, what each readable [.yaml], [.yml] or [.json] file
    whose name does not start with an underscore gives. A file that does not parse, cannot be read
    or is of another kind gives nothing and takes nothing from the others. *)
Theorem load_dir_sound : forall entries read,
  (forall entries', entries' ≡ₚ entries -> load_provider_dir (Some entries') read = load_provider_dir (Some entries) read) /\
  (forall spec, spec ∈ load_provider_dir (Some entries) read <->
     exists name text, Some name ∈ entries /\ config_name name = true /\ read name = Some text /\
       parse_spec text = Some spec /\ kind_ok spec = true) /\
  (exists names, StronglySorted (in_order str_cmp) names /\ Permutation names (List.filter config_name (omap id entries)) /\
     load_provider_dir (Some entries) read = omap (load_provider_file read) names) /\
  (forall name entries', entries ≡ₚ Some name :: entries' ->
     config_name name = false \/ load_provider_file read name = None ->
     load_provider_dir (Some entries) read = load_provider_dir (Some entries') read) /\
  load_provider_dir None read = [].
Proof.
  intros entries read. split; [|split; [|split; [|split; [|done]]]].
  - intros entries' Hp. unfold load_provider_dir. f_equal. apply sort_str_perm, filter_perm. by rewrite Hp.
  - intros spec. unfold load_provider_dir. rewrite list_elem_of_omap. split.
    + intros (name & Hin & E). rewrite sort_by_perm in Hin. apply list_elem_of_In, filter_In in Hin as [Hin Hc].
      apply list_elem_of_In, list_elem_of_omap in Hin as (o & Ho & [= ->]). unfold load_provider_file in E.
      destruct (read name) as [text|] eqn:Er; [|done]. cbn in E. destruct (parse_spec text) as [sp|] eqn:Ep; [|done].
      cbn in E. destruct (kind_ok sp) eqn:Ek; [|done]. injection E as ->. by exists name, text.
    + intros (name & text & Hin & Hc & Hr & Hp & Hk). exists name. split.
      * rewrite sort_by_perm. apply list_elem_of_In, filter_In. split; [|done]. apply list_elem_of_In, list_elem_of_omap. by exists (Some name).
      * unfold load_provider_file. rewrite Hr. cbn. rewrite Hp. cbn. by rewrite Hk.
  - exists (sort_by str_cmp (List.filter config_name (omap id entries))). split; [apply sort_by_sorted, _|]. split; [apply sort_by_perm|done].
  - intros name entries' Hp Hbad. unfold load_provider_dir.
    rewrite (sort_str_perm _ _ (filter_perm config_name _ _ (omap_Permutation _ _ _ Hp))). cbn.
    destruct Hbad as [->|Hn]; [done|]. destruct (config_name name); [|done]. by apply omap_insert_none.
Qed.
End provider_dir.

Example config_names :
  map config_name [lit "a.yaml"; lit "b.yml"; lit "c.json"; lit "_a.yaml"; lit ".yaml"; lit "a.py"; lit "json"; lit "a.tar.json"] =
  [true; true; true; false; false; false; false; true].
Proof. vm_compute. reflexivity. Qed.
