(* ===== verification/Cmd.v ===== *)
(** * The commands (src/bin/proxybroker.rs)

    [main], [run] and what each subcommand does with its flags, over the files and outputs of
    Sink.v: which providers and databases the broker gets, what is read, searched, written and
    printed, in which order, and which failures end the command. What the network answers, the
    databases behind [--state] and whether sockets can be bound are arguments. *)
From S2P Require Import Prelude F64 Text Types Addr Utils Proxy ProxyJson Pool Net Negotiator Judge Checker Store Redis Scheduler Provider Stats Pipeline Geo Broker Http Ndjson Cli Report Sink ProviderDir.
Open Scope Z_scope.

(** ** Providers and databases ([run]) *)
Inductive Command :=
| CGrab (a : GrabArgs) | CFind (a : FindArgs) | CCheck (a : CheckArgs) | CServe (a : ServeArgs) | CMcp (a : McpArgs) | CTop (a : TopArgs).
Record CliArgs := {
  cl_geo_db : option str; cl_asn_db : option str; cl_provider_dir : list str; cl_providers_only : bool; cl_command : Command
}.
Definition no_providers : str := lit "no providers: --providers-only with no valid --provider-dir configs".
Section run.
(** The bundled providers and database; [load_provider_dir] and [GeoDb::open] by path. *)
Variables (registry : list ProviderSpec) (bundled : option GeoDb).
Variables (provider_dir : str -> list ProviderSpec) (open_geo : str -> option GeoDb).

(** [None]: the builder's own default. *)
Definition run_providers (c : CliArgs) : result (option (list ProviderSpec)) CmdError :=
  if negb (bool_decide (cl_provider_dir c = [])) || cl_providers_only c then
    let providers := (if cl_providers_only c then [] else registry) ++ concat (map provider_dir (cl_provider_dir c)) in
    if decide (providers = []) then Err (CText no_providers) else Ok (Some providers)
  else Ok None.
Definition open_db (path : str) : result GeoDb CmdError := ok_or (open_geo path) CIo.
Definition run_broker (c : CliArgs) : result Broker CmdError :=
  let! providers := run_providers c in
  let b := match providers with Some ps => broker_builder ▷ with_providers ps | None => broker_builder end in
  let! db := match cl_geo_db c with
             | Some path => let! db := open_db path in Ok (Some db)
             | None => Ok bundled
             end in
  let b := match db with Some db => b ▷ with_geo db | None => b end in
  let! b := match cl_asn_db c with
            | Some path => let! db := open_db path in Ok (b ▷ with_asn_db db)
            | None => Ok b
            end in
  Ok (build_broker registry bundled b).
End run.

(** ** The databases of [--state] *)
Section stores.
Context `{Lua} `{JsonText}.
(** What a path or a URL reaches; [None]: it cannot be opened or connected to. *)
Record Stores := { st_sqlite : str -> option SqlDb; st_redis : str -> option Db }.
Definition persist : CmdError := CLib (Persist []).
Definition open_redis (d : Stores) (spec : str) : result Db CmdError := ok_or (st_redis d spec ≫= redis_open) persist.
Definition open_sqlite (d : Stores) (spec : str) : result SqlDb CmdError := ok_or (sql_open <$> st_sqlite d spec) persist.
(** [select_store], opening the backend it chooses. *)
Definition open_store (d : Stores) (spec : str) : result unit CmdError :=
  match select_store spec with
  | BRedis => let! _ := open_redis d spec in Ok tt
  | _ => let! _ := open_sqlite d spec in Ok tt
  end.
Definition load_store (d : Stores) (spec : str) : result (list Proxy) CmdError :=
  match select_store spec with
  | BRedis => let! db := open_redis d spec in Ok (redis_load db)
  | _ => let! db := open_sqlite d spec in ok_or (sql_store_load db) persist
  end.
(** The store the observer of every checked proxy upserts into, if any, and the history. *)
Definition open_state (d : Stores) (spec : option str) : result (option str * list Proxy) CmdError :=
  match spec with
  | Some s => let! history := load_store d s in Ok (Some s, history)
  | None => Ok (None, [])
  end.
End stores.

(** ** The summary *)
(** [Stats] as its derived serialization. *)
Definition entries_value {K} (show : K -> str) (l : list (K * nat)) : json :=
  JObj (map (fun kn => (show kn.1, JNum (Z.of_nat kn.2))) l).
Definition anon_order (m : gmap AnonLevel nat) : list (AnonLevel * nat) :=
  omap (fun l => (fun n => (l, n)) <$> m !! l) [Transparent; Anonymous; High].
Definition stats_value (s : Stats) : json :=
  JObj [(lit "total", JNum (Z.of_nat (st_total s))); (lit "working", JNum (Z.of_nat (st_working s)));
        (lit "by_protocol", entries_value proto_as_str (proto_entries (st_by_protocol s)));
        (lit "by_anonymity", entries_value anon_as_str (anon_order (st_by_anonymity s)));
        (lit "by_country", entries_value id (str_entries (st_by_country s)));
        (lit "errors", JObj (map (fun en => (en.1, JNum en.2)) (str_entries (st_errors s))));
        (lit "avg_resp_time", JFloat (st_avg_resp_time s)); (lit "p50_resp_time", JFloat (st_p50 s));
        (lit "p90_resp_time", JFloat (st_p90 s)); (lit "p95_resp_time", JFloat (st_p95 s))].

Section commands.
Context `{TL : TunnelLibs} `{R : Regexes} `{C : Captures} `{UC : UnicodeCase} `{F : Flate} `{P : Powi} `{W : WebLibs} `{L : Lua} `{J : JsonText} `{AF : AsyncFile}.
Variable f64_show : f64 -> str.
Variables (lookup_ip : str -> option (list IpAddr)) (default_judges : list str) (marker : Judge -> str).
Variable stores : Stores.

Definition print_stats (fmt : StatsFormat) (s : Stats) : IO unit :=
  match fmt with
  | SfText => eprint ([LF] ++ stats_display s)
  | SfJson => eprintln (json_text (stats_value s))
  end.
(** What a stream shows the loop that drains it, and its statistics at the end. *)
Definition Drained : Type := (list DrainEvent * option Stats)%type.
Definition lib {A} (r : result A Error) : result A CmdError := match r with Ok a => Ok a | Err e => Err (CLib e) end.

Section one.
Variable broker : Broker.
(** What building a resolver gives and what the address endpoints answer; the batches of the providers. *)
Variables (resolver : result (list (option str)) Error) (batches : list (list Candidate)).
(** How a run of checks goes, with or without an observer. *)
Variable checks : option str -> CheckRun -> Drained.

Definition grab_cmd (a : GrabArgs) : IO unit :=
  let ps := grab broker (grab_query a) (fun _ => true) batches in
  then! write_stream_io f64_show json_text (ga_format a) (ga_output_format a) (ga_outfile a) None None (map DItem ps) in
  io_ret tt.
Definition find_cmd (a : FindArgs) : IO unit :=
  do! st := lift (open_state stores (fa_state a)) in
  do! fr := lift (lib (find lookup_ip default_judges marker broker resolver (find_query a) batches)) in
  let '(es, stats) := checks st.1 fr in
  then! write_stream_io f64_show json_text (fa_format a) (fa_output_format a) (fa_outfile a) (fa_save a)
    (make_progress (fa_progress a)) es in
  if fa_show_stats a then match stats with Some s => print_stats (fa_stats_format a) s | None => io_ret tt end else io_ret tt.

Definition load_file (path : str) : IO (list Proxy) :=
  do! text := read_file path in
  lift (match read_ndjson json_parse text with Ok ps => Ok ps | Err e => Err (CNdjson e) end).
Definition check_loaded (a : CheckArgs) (path : str) : IO unit :=
  do! loaded := load_file path in
  let stats := if ca_show_stats a then Some (stats_from_proxies loaded) else None in
  then! write_stream_io f64_show json_text (ca_format a) (ca_output_format a) (ca_outfile a) (ca_save a) None (map DItem loaded) in
  match stats with Some s => print_stats (ca_stats_format a) s | None => io_ret tt end.
Definition check_cmd (a : CheckArgs) : IO unit :=
  match ca_load a with
  | Some path => check_loaded a path
  | None =>
      do! text := match ca_infile a with Some path => read_to_string path | None => read_stdin end in
      let proxies := parse_proxy_lines text in
      then! if decide (proxies = []) then eprintln (lit "no proxy addresses parsed from input") else io_ret tt in
      do! fr := lift (lib (check_proxies lookup_ip default_judges marker broker resolver (check_query a) proxies)) in
      let '(es, stats) := checks None fr in
      then! write_stream_io f64_show json_text (ca_format a) (ca_output_format a) (ca_outfile a) (ca_save a) None es in
      if ca_show_stats a then match stats with Some s => print_stats (ca_stats_format a) s | None => io_ret tt end else io_ret tt
  end.

(** *** [serve], up to the wait for Ctrl-C *)
(** What else the start needs: a resolver, sockets to bind (with the address bound), the watcher. *)
Record ServeWorld := {
  sw_resolver : result unit Error; sw_bind_metrics : option (IpAddr * Z); sw_watch : bool;
  sw_bind : option (IpAddr * Z); sw_ctrl_c : bool;
}.
(** Where the pool comes from: a file and the history, or the history and a run of [find]. *)
Inductive ServeSource := FromFile (ps : list Proxy) | FromFind (history : list Proxy) (writer : option str) (fr : CheckRun).
(** What runs beside the pool until the handles are dropped. *)
Inductive Service :=
| SvMetrics (at_ : IpAddr * Z)
| SvRecheck (store : Backend) (checker : Checker) (cfg : RecheckConfig)
| SvWatch (path : str)
| SvServer (at_ : IpAddr * Z) (timeout : Z) (min_queue : nat) (backlog : Z) (auth : option str).
Record Serving := { sv_config : PoolConfig; sv_source : ServeSource; sv_services : list Service }.

Definition sockaddr_show (a : IpAddr * Z) : str :=
  match a.1 with
  | V4 v => ip_show (V4 v) ++ lit ":" ++ show_uint a.2
  | V6 v => lit "[" ++ ip_show (V6 v) ++ lit "]:" ++ show_uint a.2
  end.
(** The dash is three bytes of UTF-8. *)
Definition DASH : str := lit " " ++ [chr 226; chr 128; chr 148] ++ lit " ".
Definition open_warning (a : IpAddr * Z) : str :=
  lit "warning: serving on " ++ sockaddr_show a ++ lit " without --auth" ++ DASH ++
  lit "anyone who can reach this address can relay traffic through the pool; pass --auth USER:PASS or bind to 127.0.0.1".
Definition when (b : bool) (m : IO unit) : IO unit := if b then m else io_ret tt.
Definition io_ok (b : bool) : IO unit := if b then io_ret tt else io_fail CIo.

Definition serve_source (a : ServeArgs) : IO ServeSource :=
  do! st := lift (open_state stores (sa_state a)) in
  match sa_load a with
  | Some path =>
      do! loaded := load_file path in
      then! eprintln (lit "loaded " ++ show_nat (length loaded) ++ lit " proxies from " ++ path) in
      io_ret (FromFile (union_dedup st.2 loaded))
  | None =>
      do! fr := lift (lib (find lookup_ip default_judges marker broker resolver (serve_query a) batches)) in
      io_ret (FromFind st.2 st.1 fr)
  end.
Definition start_metrics (w : ServeWorld) (a : ServeArgs) : IO (list Service) :=
  match sa_metrics a with
  | Some _ =>
      do! local := lift (ok_or (sw_bind_metrics w) CIo) in
      then! eprintln (lit "metrics on " ++ sockaddr_show local) in
      io_ret [SvMetrics local]
  | None => io_ret []
  end.
Definition start_recheck (a : ServeArgs) : IO (list Service) :=
  match serve_recheck a with
  | Some (store, q, cfg) =>
      then! match sa_state a with
            | Some spec => lift (open_store stores spec)
            | None => eprintln (lit "re-checking into memory only (no durable --state); scores reset on restart")
            end in
      do! checker := lift (lib (build_checker lookup_ip default_judges marker resolver q)) in
      then! eprintln (lit "adaptive re-checking enabled (rate " ++ f64_show (sa_recheck_rate a) ++ lit "/s)") in
      io_ret [SvRecheck store checker cfg]
  | None => io_ret []
  end.
Definition start_watch (w : ServeWorld) (a : ServeArgs) : IO (list Service) :=
  if sa_watch a then
    match serve_watch a with
    | Some path =>
        then! eprintln (lit "live-reloading " ++ path ++ lit " on change") in
        then! io_ok (sw_watch w) in
        io_ret [SvWatch path]
    | None => then! eprintln (lit "--watch requires --load; live-reload disabled") in io_ret []
    end
  else io_ret [].
Definition serve_start (w : ServeWorld) (a : ServeArgs) : IO Serving :=
  do! address := lift (ok_or (sockaddr_parse (sa_host a)) CAddr) in
  then! when (bool_decide (sa_auth a = None) && negb (is_loopback address.1)) (eprintln (open_warning address)) in
  do! source := serve_source a in
  then! lift (lib (sw_resolver w)) in
  do! metrics := start_metrics w a in
  do! recheck := start_recheck a in
  do! watch := start_watch w a in
  do! local := lift (ok_or (sw_bind w) CIo) in
  then! eprintln (lit "proxybroker serving on " ++ sockaddr_show local ++ DASH ++ lit "Ctrl-C to stop") in
  io_ret {| sv_config := serve_pool_config a; sv_source := source;
            sv_services := metrics ++ recheck ++ watch ++
              [SvServer local (sa_timeout a * 10 ^ 9) (sa_min_queue a) (sa_backlog a) (sa_auth a)] |}.
Definition serve_cmd (w : ServeWorld) (a : ServeArgs) : IO unit :=
  do! _ := serve_start w a in
  then! io_ok (sw_ctrl_c w) in
  eprintln (lit "shutting down").

(** *** [mcp] and [top]: the pool they fill, then the server or the dashboard *)
Definition mcp_start (a : McpArgs) : IO (PoolConfig * CheckRun) :=
  do! fr := lift (lib (find lookup_ip default_judges marker broker resolver (mcp_query a) batches)) in
  then! eprintln (lit "mcp: filling pool (limit " ++ show_nat (ma_limit a) ++
                  lit "); serving get_proxy/pool_status/report_dead over stdio") in
  io_ret (mcp_pool_config a, fr).
Definition top_start (a : TopArgs) : IO (PoolConfig * ServeSource) :=
  do! st := lift (open_state stores (ta_state a)) in
  do! fr := lift (lib (find lookup_ip default_judges marker broker resolver (top_query a) batches)) in
  io_ret (top_pool_config a, FromFind st.2 st.1 fr).
End one.

(** ** The whole program *)
(** The world of one run: the network per broker, and how the long-running commands end. *)
Record World := {
  wo_resolver : result (list (option str)) Error; wo_batches : Broker -> list (list Candidate);
  wo_checks : option str -> CheckRun -> Drained; wo_serve : ServeWorld; wo_stdio : bool; wo_terminal : bool;
}.
Definition dispatch (w : World) (b : Broker) (c : Command) : IO unit :=
  let batches := wo_batches w b in
  match c with
  | CGrab a => grab_cmd b batches a
  | CFind a => find_cmd b (wo_resolver w) batches (wo_checks w) a
  | CCheck a => check_cmd b (wo_resolver w) (wo_checks w) a
  | CServe a => serve_cmd b (wo_resolver w) batches (wo_serve w) a
  | CMcp a => do! _ := mcp_start b (wo_resolver w) batches a in io_ok (wo_stdio w)
  | CTop a => do! _ := top_start b (wo_resolver w) batches a in io_ok (wo_terminal w)
  end.
Section program.
Variables (registry : list ProviderSpec) (bundled : option GeoDb).
Variables (provider_dir : str -> list ProviderSpec) (open_geo : str -> option GeoDb).
(** [Display] of the error a command ends with; [foreign_text] is that of the errors of others. *)
Variable foreign_text : CmdError -> str.
Definition error_text (e : CmdError) : str :=
  match e with
  | CLib e => error_display e
  | CText msg => msg
  | CAddr => lit "invalid socket address syntax"
  | _ => foreign_text e
  end.
Definition run (w : World) (c : CliArgs) : IO unit :=
  do! b := lift (run_broker registry bundled provider_dir open_geo c) in
  dispatch w b (cl_command c).
(** The exit code's success. The runtime flushes the standard output on the way out and drops the error. *)
Definition at_exit (s : Sys) : Sys := (flush_buf s).2.
Definition main (w : World) (c : CliArgs) (s : Sys) : bool * Sys :=
  match run w c s with
  | (Ok _, s) => (true, at_exit s)
  | (Err e, s) => (false, at_exit (eprintln (lit "error: " ++ error_text e) s).2)
  end.
End program.
End commands.

(** ** Steps that only print *)
(** Everything but the notes and the faults to come is as it was. *)
Definition still (s s' : Sys) : Prop :=
  files s' = files s /\ opened s' = opened s /\ input s' = input s /\ out s' = out s /\
  (exists later, notes s' = notes s ++ later) /\ (quiet s -> quiet s').
#[export] Instance still_preorder : PreOrder still.
Proof.
  split.
  - intros s. split_and!; try done. exists []. by rewrite app_nil_r.
  - intros s1 s2 s3 (A1 & A2 & A3 & A4 & [l A5] & A6) (B1 & B2 & B3 & B4 & [k B5] & B6).
    split_and!; try congruence; [|by auto]. exists (l ++ k). by rewrite B5, A5, app_assoc.
Qed.
(** [m] ends with [r] and only prints. *)
Definition says {A} (m : IO A) (s : Sys) (r : result A CmdError) : Prop := exists s', m s = (r, s') /\ still s s'.
Lemma says_ret {A} (a : A) s : says (io_ret a) s (Ok a).
Proof. by exists s. Qed.
Lemma says_lift {A} (r : result A CmdError) s : says (lift r) s r.
Proof. by exists s. Qed.
Lemma says_eprint t s : says (eprint t) s (Ok tt).
Proof. eexists. split; [done|]. split_and!; try done. by exists [t]. Qed.
Lemma says_ok b s : says (io_ok b) s (if b then Ok tt else Err CIo).
Proof. by destruct b; exists s. Qed.
Lemma says_bind {A B} (m : IO A) (k : A -> IO B) s r q : says m s r ->
  match r with Ok a => forall s', still s s' -> says (k a) s' q | Err e => q = Err e end -> says (io_bind m k) s q.
Proof.
  intros (s1 & E & Hs) Hk. unfold says, io_bind. rewrite E. destruct r as [a|e]; [|exists s1; by rewrite Hk].
  destruct (Hk s1 Hs) as (s2 & E2 & Hs2). exists s2. split; [done|]. by transitivity s1.
Qed.
Create HintDb says.
#[export] Hint Resolve says_ret says_lift says_eprint says_ok : says.
(** One step of a sequence, its result first. *)
Ltac says_step := eapply says_bind; [solve [eauto with says]|]; cbn beta iota.

Lemma says_read_file path s : quiet s -> says (read_file path) s (ok_or (files s !! path) CIo).
Proof.
  intros Hq. unfold says, read_file. destruct (next_fault s) as [f s1] eqn:E.
  apply next_fault_spec in E as (E1 & E2 & E3 & E4 & E5 & H). destruct (H Hq) as [H1 ->].
  exists s1. rewrite E1. split; [by destruct (files s !! path)|]. assert (out s1 = out s) by (unfold out; by destruct E4 as [-> ->]).
  split_and!; try done. exists []. by rewrite app_nil_r, E5.
Qed.

(** ** How [serve] starts *)
Section serve_starts.
Context `{TL : TunnelLibs} `{R : Regexes} `{C : Captures} `{UC : UnicodeCase} `{F : Flate} `{P : Powi} `{W : WebLibs} `{L : Lua} `{J : JsonText}.
Variable f64_show : f64 -> str.
Variables (lookup_ip : str -> option (list IpAddr)) (default_judges : list str) (marker : Judge -> str).
Variables (stores : Stores) (b : Broker) (resolver : result (list (option str)) Error) (batches : list (list Candidate)).
Variables (w : ServeWorld) (a : ServeArgs).
Abbreviation find := (find lookup_ip default_judges marker b resolver (serve_query a) batches).
Abbreviation checker := (build_checker lookup_ip default_judges marker resolver (serve_query a)).

(** The outcome of each step. *)
Definition parsed_file (fs : gmap str str) (path : str) : result (list Proxy) CmdError :=
  let! text := ok_or (fs !! path) CIo in match read_ndjson json_parse text with Ok ps => Ok ps | Err e => Err (CNdjson e) end.
Definition source_result (fs : gmap str str) : result ServeSource CmdError :=
  let! st := open_state stores (sa_state a) in
  match sa_load a with
  | Some path => let! loaded := parsed_file fs path in Ok (FromFile (union_dedup st.2 loaded))
  | None => let! fr := lib find in Ok (FromFind st.2 st.1 fr)
  end.
Definition metrics_result : result (list Service) CmdError :=
  match sa_metrics a with Some _ => let! local := ok_or (sw_bind_metrics w) CIo in Ok [SvMetrics local] | None => Ok [] end.
Definition recheck_result : result (list Service) CmdError :=
  match serve_recheck a with
  | Some (store, q, cfg) =>
      let! _ := match sa_state a with Some spec => open_store stores spec | None => Ok tt end in
      let! c := lib (build_checker lookup_ip default_judges marker resolver q) in
      Ok [SvRecheck store c cfg]
  | None => Ok []
  end.
Definition watch_result : result (list Service) CmdError :=
  if sa_watch a then
    match serve_watch a with
    | Some path => let! _ := if sw_watch w then Ok tt else Err CIo in Ok [SvWatch path]
    | None => Ok []
    end
  else Ok [].

Lemma load_file_says path s : quiet s -> says (load_file path) s (parsed_file (files s) path).
Proof.
  intros Hq. unfold load_file, parsed_file. eapply says_bind; [by apply says_read_file|].
  destruct (files s !! path); cbn; [|done]. eauto with says.
Qed.
Lemma source_says s : quiet s ->
  says (serve_source lookup_ip default_judges marker stores b resolver batches a) s (source_result (files s)).
Proof.
  intros Hq. unfold serve_source, source_result. says_step. destruct (open_state stores (sa_state a)) as [st|]; [|done].
  intros s1 H1. destruct (sa_load a) as [path|].
  - eapply says_bind; [apply load_file_says; by apply H1|]. rewrite (proj1 H1).
    destruct (parsed_file (files s) path); [|done]. intros s2 _. says_step. intros s3 _. eauto with says.
  - says_step. destruct (lib find); [|done]. eauto with says.
Qed.
Lemma metrics_says s : says (start_metrics w a) s metrics_result.
Proof.
  unfold start_metrics, metrics_result. destruct (sa_metrics a); [|eauto with says]. says_step.
  destruct (sw_bind_metrics w); cbn; [|done]. intros s1 _. says_step. eauto with says.
Qed.
Lemma recheck_says s : says (start_recheck f64_show lookup_ip default_judges marker stores resolver a) s recheck_result.
Proof.
  unfold start_recheck, recheck_result. destruct (serve_recheck a) as [[[store q] cfg]|]; [|eauto with says].
  destruct (sa_state a) as [spec|]; says_step; [destruct (open_store stores spec) as [[]|]; [|done]|]; intros s1 _; says_step;
    (destruct (lib _); [|done]); intros s2 _; says_step; eauto with says.
Qed.
Lemma watch_says s : says (start_watch w a) s watch_result.
Proof.
  unfold start_watch, watch_result. destruct (sa_watch a); [|eauto with says]. destruct (serve_watch a); says_step; intros s1 _; [|eauto with says].
  says_step. destruct (sw_watch w); [|done]. eauto with says.
Qed.

Definition warned (address : IpAddr * Z) : bool := bool_decide (sa_auth a = None) && negb (is_loopback address.1).
Definition start_result (fs : gmap str str) : result Serving CmdError :=
  let! source := source_result fs in
  let! _ := lib (sw_resolver w) in
  let! metrics := metrics_result in
  let! recheck := recheck_result in
  let! watch := watch_result in
  let! local := ok_or (sw_bind w) CIo in
  Ok {| sv_config := serve_pool_config a; sv_source := source;
        sv_services := metrics ++ recheck ++ watch ++
          [SvServer local (sa_timeout a * 10 ^ 9) (sa_min_queue a) (sa_backlog a) (sa_auth a)] |}.
Abbreviation start := (serve_start f64_show lookup_ip default_judges marker stores b resolver batches w a).
Lemma start_says s address : quiet s -> sockaddr_parse (sa_host a) = Some address ->
  exists s', start s = (start_result (files s), s') /\ still s s' /\
    exists later, notes s' = notes s ++ (if warned address then [open_warning address ++ [LF]] else []) ++ later.
Proof.
  intros Hq Ha. set (s1 := if warned address then (eprintln (open_warning address) s).2 else s).
  assert (quiet s1 /\ files s1 = files s) as [Hq1 Hf1] by (unfold s1; by destruct (warned address)).
  assert (forall m : (IpAddr * Z) -> IO Serving,
    (do! address := lift (ok_or (sockaddr_parse (sa_host a)) CAddr) in
     then! when (bool_decide (sa_auth a = None) && negb (is_loopback address.1)) (eprintln (open_warning address)) in m address) s
    = m address s1) as Hm.
  { intros m. unfold io_bind, lift. rewrite Ha. cbn [ok_or]. fold (warned address). unfold s1, when. by destruct (warned address). }
  unfold serve_start. rewrite (Hm (fun address => _)). rewrite <- Hf1.
  match goal with |- exists s', ?m s1 = _ /\ _ => assert (says m s1 (start_result (files s1))) as (s2 & E & H2) end.
  { unfold start_result. eapply says_bind; [by apply source_says|]. destruct (source_result (files s1)) as [src|]; [|done].
    intros s2 _. says_step. destruct (lib (sw_resolver w)); [|done]. intros s3 _.
    eapply says_bind; [apply metrics_says|]. destruct metrics_result; [|done]. intros s4 _.
    eapply says_bind; [apply recheck_says|]. destruct recheck_result; [|done]. intros s5 _.
    eapply says_bind; [apply watch_says|]. destruct watch_result; [|done]. intros s6 _.
    says_step. destruct (sw_bind w); cbn; [|done]. intros s7 _. says_step. eauto with says. }
  exists s2. split; [exact E|]. destruct H2 as (A1 & A2 & A3 & A4 & [l A5] & A6).
  assert (still s s1) as (B1 & B2 & B3 & B4 & B5 & B6).
  { unfold s1. destruct (warned address); [|done]. split_and!; try done. by eexists. }
  assert (notes s1 = notes s ++ if warned address then [open_warning address ++ [LF]] else []) as Hn.
  { unfold s1. destruct (warned address); [done|]. by rewrite app_nil_r. }
  split; [|exists l; by rewrite A5, Hn, app_assoc]. split_and!; try congruence; [|by auto].
  destruct B5 as [k B5]. exists (k ++ l). by rewrite A5, B5, app_assoc.
Qed.

Lemma open_loaded spec ps : load_store stores spec = Ok ps -> open_store stores spec = Ok tt.
Proof.
  unfold load_store, open_store. destruct (select_store spec); [destruct (open_redis stores spec)|destruct (open_sqlite stores spec)..]; done.
Qed.
Lemma recheck_state st : open_state stores (sa_state a) = Ok st ->
  is_ok recheck_result = true <-> (sa_recheck a = true -> is_ok checker = true).
Proof.
  intros Hs. unfold recheck_result, serve_recheck. destruct (sa_recheck a); [|done].
  assert (match sa_state a with Some spec => open_store stores spec | None => Ok tt end = Ok tt) as ->.
  { unfold open_state in Hs. destruct (sa_state a) as [spec|]; [|done]. destruct (load_store stores spec) eqn:E; [|done].
    by eapply open_loaded. }
  destruct checker; cbn; naive_solver.
Qed.
Lemma watch_can : is_ok watch_result = true <-> (sa_watch a = true -> sa_load a <> None -> sw_watch w = true).
Proof.
  unfold watch_result, serve_watch. destruct (sa_watch a); [|naive_solver]. destruct (sa_load a); [|naive_solver].
  destruct (sw_watch w); cbn; naive_solver.
Qed.
Lemma recheck_services l : recheck_result = Ok l ->
  l = if sa_recheck a then match checker with
        | Ok c => [SvRecheck (recheck_store (sa_state a)) c
            {| min_interval := sa_recheck_min a * 10 ^ 9; max_interval := sa_recheck_max a * 10 ^ 9;
               rate_per_sec := sa_recheck_rate a; decay_halflife := sa_decay_halflife a * 10 ^ 9 |}]
        | Err _ => [] end else [].
Proof.
  unfold recheck_result, serve_recheck. destruct (sa_recheck a); [|by intros [= <-]].
  destruct (match sa_state a with Some spec => open_store stores spec | None => Ok tt end); [|done].
  destruct checker; [|done]. by intros [= <-].
Qed.
Lemma watch_services l : watch_result = Ok l ->
  l = match sa_load a with Some path => if sa_watch a then [SvWatch path] else [] | None => [] end.
Proof.
  unfold watch_result, serve_watch. destruct (sa_watch a), (sa_load a); try by intros [= <-].
  destruct (sw_watch w); [|done]. by intros [= <-].
Qed.
Lemma load_recheck_refused : serve_args_ok a = true -> sa_load a <> None -> is_ok checker = false.
Proof.
  intros Hok Hl. assert (sa_types a = []) as Ht.
  { unfold serve_args_ok in Hok. destruct (sa_load a); [|done]. cbn in Hok. apply (bool_decide_eq_true _). by destruct (bool_decide (sa_types a = [])). }
  by apply untyped_refused.
Qed.
(** What the pool is filled from, and that it could be had. *)
Definition sourced (fs : gmap str str) (src : ServeSource) : Prop :=
  exists writer history, open_state stores (sa_state a) = Ok (writer, history) /\
  match sa_load a, src with
  | Some path, FromFile ps =>
      exists text loaded, fs !! path = Some text /\ read_ndjson json_parse text = Ok loaded /\ ps = union_dedup history loaded
  | None, FromFind h wr fr => h = history /\ wr = writer /\ find = Ok fr
  | _, _ => False
  end.
Lemma source_sourced fs src : source_result fs = Ok src <-> sourced fs src.
Proof.
  unfold source_result, sourced, parsed_file. destruct (open_state stores (sa_state a)) as [[writer history]|e]; [|naive_solver].
  cbn [fst snd]. destruct (sa_load a) as [path|].
  - destruct (fs !! path) as [text|]; cbn.
    2: { split; [done|]. intros (? & ? & _ & H). destruct src; [|done]. by destruct H as (? & ? & ? & _). }
    destruct (read_ndjson json_parse text) as [ps|e] eqn:Er.
    + split; [intros [= <-]; exists writer, history; split; [done|]; by exists text, ps|].
      intros (? & ? & [= <- <-] & H). destruct src; [|done]. destruct H as (t & l & [= <-] & E & ->). rewrite E in Er. by injection Er as ->.
    + split; [done|]. intros (? & ? & _ & H). destruct src; [|done]. destruct H as (t & l & [= <-] & E & _). by rewrite E in Er.
  - destruct find as [fr|e]; cbn; (split; [intros [= <-]; by exists writer, history|intros (? & ? & [= <- <-] & H); destruct src; [done|]]).
    + by destruct H as (-> & -> & [= <-]).
    + by destruct H as (_ & _ & ?).
Qed.

Lemma start_parts fs sv : start_result fs = Ok sv -> sv_config sv = serve_pool_config a /\ source_result fs = Ok (sv_source sv) /\
  exists m l k local, metrics_result = Ok m /\ recheck_result = Ok l /\ watch_result = Ok k /\ sw_bind w = Some local /\
    sv_services sv = m ++ l ++ k ++ [SvServer local (sa_timeout a * 10 ^ 9) (sa_min_queue a) (sa_backlog a) (sa_auth a)].
Proof.
  unfold start_result. intros E. destruct (source_result fs) as [src|]; [|done]. cbn in E. destruct (lib (sw_resolver w)); [|done]. cbn in E.
  destruct metrics_result as [m|]; [|done]. cbn in E. destruct recheck_result as [l|]; [|done]. cbn in E.
  destruct watch_result as [k|]; [|done]. cbn in E. destruct (sw_bind w) as [local|]; [|done]. injection E as <-.
  split; [done|]. split; [done|]. by exists m, l, k, local.
Qed.
Lemma metrics_services m : metrics_result = Ok m ->
  m = match sa_metrics a, sw_bind_metrics w with Some _, Some m => [SvMetrics m] | _, _ => [] end.
Proof. unfold metrics_result. destruct (sa_metrics a); [destruct (sw_bind_metrics w); [|done]|]; by intros [= <-]. Qed.

End serve_starts.

(** ** What [find] saved, [check] loads *)
Section saved.
Context `{TL : TunnelLibs} `{R : Regexes} `{C : Captures} `{UC : UnicodeCase} `{F : Flate} `{P : Powi} `{W : WebLibs} `{L : Lua} `{J : JsonText} `{AF : AsyncFile}.
Variable f64_show : f64 -> str.
Variables (lookup_ip : str -> option (list IpAddr)) (default_judges : list str) (marker : Judge -> str).
Variable stores : Stores.

Lemma io_bind_ok {A B} (m : IO A) (k : A -> IO B) s x s' :
  io_bind m k s = (Ok x, s') <-> exists a s1, m s = (Ok a, s1) /\ k a s1 = (Ok x, s').
Proof. unfold io_bind. destruct (m s) as [[a|e] s1]; naive_solver. Qed.
Lemma print_stats_says fmt st s : says (print_stats fmt st) s (Ok tt).
Proof. destruct fmt; apply says_eprint. Qed.
Lemma says_still {A} (m : IO A) s q r s' : says m s q -> m s = (r, s') -> r = q /\ still s s'.
Proof. intros (s1 & E & H). rewrite E. by intros [= -> <-]. Qed.

(** A [find] that ended well: what it searched, and what it left. *)
Lemma find_cmd_ok b resolver batches checks a s s1 : fa_outfile a <> fa_save a \/ fa_save a = None ->
  find_cmd f64_show lookup_ip default_judges marker stores b resolver batches checks a s = (Ok tt, s1) ->
  exists writer history fr, open_state stores (fa_state a) = Ok (writer, history) /\
    find lookup_ip default_judges marker b resolver (find_query a) batches = Ok fr /\
    let ps := items (checks writer fr).1 in
    let full := write_stream f64_show json_text (fa_format a) (fa_output_format a) (if fa_save a then true else false) ps in
    match fa_outfile a with Some path => files s1 !! path = Some full.1 /\ out s1 = out s | None => out s1 = out s ++ full.1 end /\
    forall path, fa_save a = Some path -> files s1 !! path = full.2.
Proof.
  intros Ha E. unfold find_cmd in E. apply io_bind_ok in E as ([writer history] & s2 & E1 & E). injection E1 as E1 <-.
  apply io_bind_ok in E as (fr & s3 & E2 & E). injection E2 as E2 <-. cbn [fst] in E.
  destruct (find _ _ _ _ _ _ _) as [fr'|] eqn:Ef; [|done]. injection E2 as ->.
  exists writer, history, fr. split; [done|]. split; [done|]. destruct (checks writer fr) as [es st]. cbn [fst].
  apply io_bind_ok in E as (bar & s4 & E3 & E).
  destruct (write_stream_left _ _ _ _ _ _ _ _ _ _ _ E3) as [Hl _]. { intros p Hp Hs. destruct Ha; congruence. }
  assert (still s4 s1) as (F1 & _ & _ & F4 & _).
  { destruct (fa_show_stats a), st as [st|]; try (injection E as <-; done).
    by apply (says_still _ _ _ _ _ (print_stats_says (fa_stats_format a) st s4)) in E as [_ ?]. }
  rewrite F1, F4. destruct Hl as (Ho & Hsv & _). split; [|done]. destruct (fa_outfile a); [|by destruct Ho].
  destruct Ho as (? & [Hsh Hhe] & _). split; [done|]. unfold out. by rewrite Hsh, Hhe.
Qed.

Lemma print_stream f tmpl bar es s : quiet s ->
  exists bar' s', write_stream_io f64_show json_text f tmpl None None bar es s = (Ok bar', s') /\
    out s' = out s ++ (write_stream f64_show json_text f tmpl false (items es)).1 /\ files s' = files s.
Proof.
  intros Hq. destruct (write_stream_io f64_show json_text f tmpl None None bar es s) as [r s'] eqn:E.
  destruct (write_stream_left _ _ _ _ _ _ _ _ _ _ _ E) as [Hl Hf]; [done|].
  destruct r as [bar'|x]; [|by destruct Hl as (_ & _ & Hn & _)]. exists bar', s'. split; [done|].
  destruct Hl as ((Ho & _) & _ & _). split; [done|]. apply map_eq. intros q. by apply Hf.
Qed.
Lemma items_all ps : items (map DItem ps) = ps.
Proof. unfold items. induction ps as [|p ps IH]; [done|]. cbn. by rewrite IH. Qed.

(** C32: what [find --save] saves, [check --load] loads. After a [find] without [--outfile] that ended well, and of proxies whose
    JSON reads back and whose fields a file can carry ([text_ok], [savable]), loading its file with nothing failing
    needs no network and prints, in any format, the text of the same proxies' persistent parts in the
    order they were found; as plain addresses, exactly what [find] printed. The flags of [check] that
    select, [--limit], [--countries] and [--lvl], are accepted and change nothing. *)
Theorem saved_reloaded : forall b resolver batches checks a s s1 path reread,
  find_cmd f64_show lookup_ip default_judges marker stores b resolver batches checks a s = (Ok tt, s1) ->
  fa_save a = Some path -> fa_outfile a = None -> quiet s1 ->
  exists writer history fr, open_state stores (fa_state a) = Ok (writer, history) /\
    find lookup_ip default_judges marker b resolver (find_query a) batches = Ok fr /\
    let ps := items (checks writer fr).1 in
    (Forall (text_ok json_text json_parse reread) ps -> Forall savable ps ->
     out s1 = out s ++ (write_stream f64_show json_text (fa_format a) (fa_output_format a) false ps).1 /\
     forall b' resolver' checks' c, ca_load c = Some path -> ca_outfile c = None -> ca_save c = None ->
       exists s2, check_cmd f64_show lookup_ip default_judges marker b' resolver' checks' c s1 = (Ok tt, s2) /\
         files s2 = files s1 /\
         out s2 = out s1 ++ (write_stream f64_show json_text (ca_format c) (ca_output_format c) false (map persistent ps)).1 /\
         (ca_format c = FDefault -> fa_format a = FDefault -> ca_output_format c = None -> fa_output_format a = None ->
          out s2 = out s1 ++ text_of (map addr ps) /\ out s1 = out s ++ text_of (map addr ps))).
Proof.
  intros b resolver batches checks a s s1 path reread E Hsave Hout Hq.
  assert (fa_outfile a <> fa_save a) as Ha by congruence.
  destruct (find_cmd_ok _ _ _ _ _ _ _ (or_introl Ha) E) as (writer & history & fr & H1 & H2 & Ho & Hf).
  exists writer, history, fr. split; [done|]. split; [done|]. intros ps Ht Hs. rewrite Hout in Ho. rewrite Hsave in Ho, Hf.
  specialize (Hf path eq_refl). rewrite full_written in Ho, Hf. cbn [fst snd] in Ho, Hf. fold ps in Ho, Hf.
  assert (out s1 = out s ++ (write_stream f64_show json_text (fa_format a) (fa_output_format a) false ps).1) as Hout1
    by (by rewrite full_written).
  split; [done|]. intros b' resolver' checks' c Hl Hco Hcs. unfold check_cmd, check_loaded, io_bind. rewrite Hl.
  destruct (load_file_says path s1 Hq) as (s2 & -> & F1 & _ & _ & F4 & _ & F6). unfold parsed_file. rewrite Hf. cbn [ok_or].
  rewrite (read_written json_text json_parse reread) by done. rewrite Hco, Hcs.
  destruct (print_stream (ca_format c) (ca_output_format c) None (map DItem (map persistent ps)) s2 (F6 Hq)) as (bar' & s3 & -> & Ho3 & Hf3).
  rewrite items_all, F4 in Ho3.
  assert (exists s4, match if ca_show_stats c then Some (stats_from_proxies (map persistent ps)) else None with
    | Some x => print_stats (ca_stats_format c) x | None => io_ret tt end s3 = (Ok tt, s4) /\ still s3 s4) as (s4 & -> & G1 & _ & _ & G4 & _).
  { destruct (ca_show_stats c); [apply print_stats_says|apply says_ret]. }
  exists s4. rewrite G1, G4, Hf3, F1. split; [done|]. split; [done|]. split; [exact Ho3|].
  intros Hc Hfa Htc Hta. rewrite Ho3, Hout1, Hc, Hfa, Htc, Hta. rewrite !full_written. unfold full_text, new_emitter. cbn [fst em_prefix em_suffix em_template em_format].
  rewrite !(em_items_lines _ _ _ _ addr), !app_nil_r by done. rewrite map_map. by split.
Qed.
End saved.

(** ** The whole program *)
Lemma at_exit_keeps s : notes (at_exit s) = notes s /\ files (at_exit s) = files s /\ out (at_exit s) = out s /\
  (quiet s -> buffered (at_exit s) = []).
Proof.
  unfold at_exit. destruct (flush_buf s) as [r s'] eqn:E. apply flush_buf_at in E as ((H1 & _ & H2 & _) & H3 & R). cbn [snd].
  split_and!; try done. intros Hq. by destruct R as [[_ ?]|[_ ?]].
Qed.
Section program.
Context `{TL : TunnelLibs} `{R : Regexes} `{C : Captures} `{UC : UnicodeCase} `{F : Flate} `{P : Powi} `{W : WebLibs} `{L : Lua} `{J : JsonText} `{AF : AsyncFile}.
Variable f64_show : f64 -> str.
Variables (lookup_ip : str -> option (list IpAddr)) (default_judges : list str) (marker : Judge -> str).
Variables (stores : Stores) (registry : list ProviderSpec) (bundled : option GeoDb).
Variables (provider_dir : str -> list ProviderSpec) (open_geo : str -> option GeoDb) (foreign_text : CmdError -> str).
Abbreviation exits := (main f64_show lookup_ip default_judges marker stores registry bundled provider_dir open_geo foreign_text).
Abbreviation dispatched := (dispatch f64_show lookup_ip default_judges marker stores).
Abbreviation its_broker := (run_broker registry bundled provider_dir open_geo).

(** The configurations named on the command line, and the providers they leave. *)
Definition configs (c : CliArgs) : list ProviderSpec := concat (map provider_dir (cl_provider_dir c)).
Lemma run_providers_spec c :
  run_providers registry provider_dir c =
  if negb (bool_decide (cl_provider_dir c = [])) || cl_providers_only c then
    (if decide ((if cl_providers_only c then [] else registry) ++ configs c = []) then Err (CText no_providers)
     else Ok (Some ((if cl_providers_only c then [] else registry) ++ configs c)))
  else Ok None.
Proof. reflexivity. Qed.

(** The program as a whole. It runs its command on a broker with the bundled providers and those of the
    named directories, in their order, or the latter only when told so, and with the databases
    named; when there is no provider, or a named database does not open, nothing is read,
    searched or written and the one thing printed is the error. It exits with success just when the
    command does; else the last thing it prints is the command's error. Nothing of the output stays behind in the buffer
    when the last write goes through. *)
Theorem main_sound : forall w c s, registry <> [] ->
  let '(ok, s') := exits w c s in
  match its_broker c with
  | Ok br =>
      br_providers br = (if cl_providers_only c then [] else registry) ++ configs c /\ br_providers br <> [] /\
      br_geo br = match cl_geo_db c with Some path => open_geo path | None => bundled end /\
      br_asn br = match cl_asn_db c with Some path => open_geo path | None => None end /\
      match dispatched w br (cl_command c) s with
      | (Ok _, s1) => ok = true /\ s' = at_exit s1 /\ notes s' = notes s1 /\ files s' = files s1 /\ out s' = out s1 /\ (quiet s1 -> buffered s' = [])
      | (Err e, s1) => ok = false /\ notes s' = notes s1 ++ [lit "error: " ++ error_text foreign_text e ++ [LF]] /\ files s' = files s1 /\ out s' = out s1
      end
  | Err e =>
      ok = false /\ s' = at_exit (eprintln (lit "error: " ++ error_text foreign_text e) s).2 /\
      (cl_providers_only c = true /\ configs c = [] \/
       (exists path, cl_geo_db c = Some path /\ open_geo path = None) \/ (exists path, cl_asn_db c = Some path /\ open_geo path = None))
  end.
Proof.
  intros w c s Hreg. unfold Cmd.main, run, io_bind, lift. destruct (its_broker c) as [br|e] eqn:E; unfold Cmd.run_broker in E; rewrite run_providers_spec in E.
  - assert (br_providers br = (if cl_providers_only c then [] else registry) ++ configs c /\ br_providers br <> [] /\
      br_geo br = match cl_geo_db c with Some path => open_geo path | None => bundled end /\
      br_asn br = match cl_asn_db c with Some path => open_geo path | None => None end) as (H1 & H2 & H3 & H4).
    { destruct (_ || _) eqn:Ho in E; [case_decide as Hn; [done|]|]; unfold open_db in E;
        (destruct (cl_geo_db c) as [g|]; [destruct (open_geo g) eqn:Eg; [|done]|]); 
        (destruct (cl_asn_db c) as [d|]; [destruct (open_geo d) eqn:Ed; [|done]|]); cbn in E; injection E as <-; cbn; rewrite ?Eg, ?Ed;
        try (by destruct bundled);
        (apply orb_false_elim in Ho as [Hd%negb_false_iff%bool_decide_eq_true ->]; unfold configs; rewrite Hd, app_nil_r; by destruct bundled). }
    destruct (dispatched w br (cl_command c) s) as [[[]|e] s1].
    + destruct (at_exit_keeps s1) as (K1 & K2 & K3 & K4). by split_and!.
    + destruct (at_exit_keeps (eprintln (lit "error: " ++ error_text foreign_text e) s1).2) as (K1 & K2 & K3 & _). by split_and!.
  - split; [done|]. split; [done|]. destruct (_ || _) eqn:Ho in E; [case_decide as Hn|].
    { left. destruct (cl_providers_only c); [done|]. exfalso. apply Hreg. by apply app_eq_nil in Hn as [? _]. }
    all: right; unfold open_db in E; (destruct (cl_geo_db c) as [g|]; [destruct (open_geo g) eqn:Eg; [|left; by exists g]|]);
      (destruct (cl_asn_db c) as [d|]; [destruct (open_geo d) eqn:Ed; [|right; by exists d]|]); done.
Qed.
End program.

(** ** The commands at work *)
Section cmd_demo.
(** A text for the sample's object beside the texts of types. *)
Definition sample_json : JsonText.
Proof.
  refine {| json_text j := match j with JObj _ => sample_line | _ => demo_json_text j end;
            json_parse s := if decide (s = sample_line) then Some (serialize sample) else @json_parse demo_json s |}; [reflexivity|].
  intros t. assert (match types_to_json t with JObj _ => sample_line | _ => demo_json_text (types_to_json t) end =
    demo_json_text (types_to_json t)) as -> by reflexivity.
  rewrite decide_False; [apply (@json_parse_types demo_json)|]. unfold demo_json_text, sample_line.
  destruct (types_to_json t) as [| | | |[|]|]; discriminate.
Defined.
#[local] Existing Instances two_mebibytes sample_regexes no_libs ascii_case no_flate one_powi demo_web demo_lua sample_json.
Definition demo_sys : Sys := mkSys {[lit "saved" := sample_line ++ [LF]]} [] [] [] [] [] [].
Definition no_stores : Stores := {| st_sqlite _ := Some sd_fresh; st_redis _ := None |}.
Definition demo_serve_world : ServeWorld :=
  {| sw_resolver := Ok tt; sw_bind_metrics := None; sw_watch := true; sw_bind := Some (V4 0, 8888); sw_ctrl_c := true |}.
Definition demo_load_args : ServeArgs :=
  let d := serve_defaults [] (Some (lit "saved")) in
  {| sa_host := lit "0.0.0.0:8888"; sa_types := sa_types d; sa_load := sa_load d; sa_lvl := sa_lvl d; sa_dnsbl := sa_dnsbl d;
     sa_post := sa_post d; sa_strict := sa_strict d; sa_strategy := sa_strategy d; sa_sticky_header := sa_sticky_header d;
     sa_limit := sa_limit d; sa_countries := sa_countries d; sa_timeout := sa_timeout d;
     sa_max_error_rate := sa_max_error_rate d; sa_max_resp_time := sa_max_resp_time d; sa_fail_timeout := sa_fail_timeout d;
     sa_prefer_connect := sa_prefer_connect d; sa_http_allowed_codes := sa_http_allowed_codes d; sa_min_queue := sa_min_queue d;
     sa_backlog := sa_backlog d; sa_max_clients := sa_max_clients d; sa_auth := sa_auth d; sa_max_tries := sa_max_tries d;
     sa_metrics := sa_metrics d; sa_state := Some (lit "history.db"); sa_recheck := sa_recheck d; sa_recheck_rate := sa_recheck_rate d;
     sa_recheck_min := sa_recheck_min d; sa_recheck_max := sa_recheck_max d; sa_decay_halflife := sa_decay_halflife d;
     sa_watch := true |}.
Abbreviation demo_start := (serve_start shown (fun _ => Some [V4 9]) [] (fun _ => lit "4711") no_stores demo_broker demo_resolver
  demo_batches demo_serve_world demo_load_args demo_sys).

Definition demo_find_args : FindArgs :=
  let d := find_defaults [Http] in
  {| fa_types := fa_types d; fa_lvl := fa_lvl d; fa_limit := 5; fa_countries := fa_countries d; fa_judges := fa_judges d;
     fa_dnsbl := fa_dnsbl d; fa_timeout := fa_timeout d; fa_max_conn := fa_max_conn d; fa_max_tries := fa_max_tries d;
     fa_post := fa_post d; fa_strict := fa_strict d; fa_liveness_url := fa_liveness_url d; fa_retry_on := fa_retry_on d;
     fa_backoff_ms := fa_backoff_ms d; fa_relaxed_validity := fa_relaxed_validity d; fa_require_cookie := fa_require_cookie d;
     fa_require_referer := fa_require_referer d; fa_require_connect25 := fa_require_connect25 d; fa_trust_check := fa_trust_check d;
     fa_require_trusted := fa_require_trusted d; fa_show_stats := true; fa_stats_format := SfText; fa_format := fa_format d;
     fa_output_format := fa_output_format d; fa_outfile := fa_outfile d; fa_save := Some (lit "saved"); fa_progress := true;
     fa_state := fa_state d |}.
Definition demo_drained : option str -> CheckRun -> Drained :=
  fun _ _ => ([DTick None; DItem sample; DItem sample], Some (stats_from_proxies [sample; sample])).
Abbreviation demo_find_cmd := (find_cmd shown (fun _ => Some [V4 9]) [lit "http://judge/"] (fun _ => lit "4711") no_stores
  demo_broker demo_resolver demo_batches demo_drained demo_find_args (mkSys ∅ [] [] [] [] [] [])).
Abbreviation demo_check_cmd s := (check_cmd shown (fun _ => None) [] (fun _ => []) demo_broker (Err ExtIpUnknown)
  (fun _ _ => ([], None)) (check_defaults [] (Some (lit "saved"))) s).
Lemma saved_reloaded_witness :
  let '(r, s1) := demo_find_cmd in
  r = Ok tt /\ exists s2, demo_check_cmd s1 = (Ok tt, s2) /\ out s2 = out s1 ++ out s1 /\
    out s1 = text_of [lit "8.8.8.8:8080"; lit "8.8.8.8:8080"].
Proof.
  assert (E0 : let '(r, s1) := demo_find_cmd in is_ok r = true /\ bool_decide (script s1 = []) = true) by (vm_compute; done).
  destruct demo_find_cmd as [r s1] eqn:E. destruct E0 as [Hr Hq%bool_decide_eq_true]. destruct r as [[]|]; [|discriminate Hr].
  split; [reflexivity|]. destruct sample_savable as [[Ht1 Ht2] Hs].
  assert (text_ok json_text json_parse (fun x => x) sample) as Ht by (split; [exact Ht1|exact Ht2]).
  assert (quiet s1) as Hquiet by (unfold quiet; rewrite Hq; constructor).
  pose proof (saved_reloaded shown (fun _ => Some [V4 9]) [lit "http://judge/"] (fun _ => lit "4711") no_stores demo_broker demo_resolver
    demo_batches demo_drained demo_find_args (mkSys ∅ [] [] [] [] [] []) s1 (lit "saved") (fun x => x) E eq_refl eq_refl Hquiet) as HQ.
  destruct HQ as (wr & h & fr & _ & _ & HQ).
  specialize (HQ (Forall_cons_2 _ _ _ Ht (Forall_cons_2 _ _ _ Ht (Forall_nil_2 _)))).
  specialize (HQ (Forall_cons_2 _ _ _ Hs (Forall_cons_2 _ _ _ Hs (Forall_nil_2 _)))).
  destruct HQ as [_ HQ]. specialize (HQ demo_broker (Err ExtIpUnknown) (fun _ _ => ([], None)) (check_defaults [] (Some (lit "saved")))
    eq_refl eq_refl eq_refl). destruct HQ as (s2 & E2 & _ & _ & HQ).
  exists s2. split; [exact E2|]. destruct (HQ eq_refl eq_refl eq_refl eq_refl) as [H1 H2].
  change (out (mkSys ∅ [] [] [] [] [] [])) with ([] : str) in H2. cbn [app] in H2. split; [rewrite H1, <- H2; reflexivity|]. rewrite H2. vm_compute. reflexivity.
Defined.
End cmd_demo.
