(* ===== verification/Served.v ===== *)
(** * From the provider to the client

    The pool that [find] fills for a rotating connector: what Holds.v says of any pool, of what
    [find] emits. Live.v has the composition that [serve] is. *)
From S2P Require Import Prelude F64 Text Types Addr Utils Proxy Pool PoolSteps Holds Net Negotiator Server Trades Judge Checker Provider Pipeline Geo Connector Broker Cli.
Open Scope Z_scope.

(** ** A pool filled by [find] *)
Section served.
Context `{HO : HashOrder} `{N : Notify} `{TL : TunnelLibs} `{R : Regexes} `{UC : UnicodeCase} `{F : Flate} `{P : Powi} `{W : WebLibs}.
Variable lookup_ip : str -> option (list IpAddr).
Variables (default_judges : list str) (marker : Judge -> str).
Variable broker : Broker.

(** The same proxy, its statistics apart. *)
Definition same_proxy (o px : Proxy) : Prop := p_key px = p_key o /\ p_types px = p_types o /\ p_geo px = p_geo o.
Lemma same_proxy_attempt rt e o px : same_proxy o px -> same_proxy o (record_attempt rt e px).
Proof. intros (H1 & H2 & H3). split_and!; [by rewrite record_attempt_key|by rewrite record_attempt_types|done]. Qed.
(** One that was let in from [known], and may have been used since. *)
Definition from_known (cfg : PoolConfig) (known : list Proxy) (px : Proxy) : Prop :=
  country_ok px (countries cfg) = true /\ exists o, o ∈ known /\ same_proxy o px.
Lemma known_used cfg known rt e px : from_known cfg known px -> from_known cfg known (record_attempt rt e px).
Proof. intros (Hc & o & Ho & Hs). split; [done|]. exists o. split; [done|]. by apply same_proxy_attempt. Qed.
(** The importer takes what is known; what is put back or added is something let in before. *)
Definition serve_event (cfg : PoolConfig) (known : list Proxy) (ev : Event) : Prop :=
  match ev with
  | VEnv (EImport px) => px ∈ known
  | VEnv (EPutOk px) | VEnv (EPutFailed _ px) | VEnv (EAdd px) => from_known cfg known px
  | _ => True
  end.
Lemma serve_brings cfg known evs : Forall (serve_event cfg known) evs -> Forall (brings_ev cfg (from_known cfg known)) evs.
Proof.
  intros H. eapply Forall_impl; [exact H|]. intros [| |[]] He; try done. intros Hc. split; [done|]. exists px. by split_and!.
Qed.

(** *** [Broker::rotating]: a pool filled by [find], for a connector *)
Record Rotating := { ro_config : PoolConfig; ro_run : CheckRun; ro_connector : RotatingProxyConnector }.
(** [own] is the broker's resolver, if it has one; else one is built ([fresh]). *)
Definition rotating (own : bool) (fresh : result unit Error) (resolver : result (list (option str)) Error) (q : FindQuery)
    (batches : list (list Candidate)) (cfg : RotateConfig) : result Rotating Error :=
  let! _ := if own then Ok tt else fresh in
  let! fr := find lookup_ip default_judges marker broker resolver q batches in
  Ok {| ro_config := PoolConfig_default; ro_run := fr; ro_connector := from_pool lookup_ip cfg |}.

(** What a proxy of the pool is: one that [find] emitted, at an address a provider named, found working with a
    confirmed protocol, on none of the blocklists and, when strict, of the requested types and levels only. *)
Definition rotated (q : FindQuery) (batches : list (list Candidate)) (ro : Rotating) (emitted : list Proxy) (px : Proxy) : Prop :=
  exists o, same_proxy o px /\ o ∈ emitted /\ p_key px ∈ omap cand_key (concat batches) /\ p_types px <> ∅ /\
    (fq_dnsbl q = [] \/ in_dnsbl lookup_ip (cr_checker (ro_run ro)) (p_host px) = false) /\
    (fq_strict q = true -> forall t l, p_types px !! t = Some l -> passes (fq_types q) true t l = true).
Section rotated.
Context own fresh resolver q batches cfg ro world draw chk r
  (Hro : rotating own fresh resolver q batches cfg = Ok ro)
  (Hchk : forall p, p ∈ cr_source (ro_run ro) -> check lookup_ip (cr_checker (ro_run ro)) (world p) (draw p) p = Some (chk p))
  (Hr : reaches chk (cr_max_conn (ro_run ro)) (cr_limit (ro_run ro)) (cr_caps (ro_run ro)) (cr_source (ro_run ro)) r).
#[local] Arguments rotated : simpl never.
Lemma rotating_inv : ro_config ro = PoolConfig_default /\ ro_connector ro = from_pool lookup_ip cfg /\
  find lookup_ip default_judges marker broker resolver q batches = Ok (ro_run ro).
Proof using Hro.
  clear - Hro. unfold rotating in Hro. destruct (if own then Ok tt else fresh); [|done].
  destruct (find lookup_ip default_judges marker broker resolver q batches) as [fr|] eqn:Hfind; [|done]. by injection Hro as <-.
Qed.
Lemma known_rotated px : from_known PoolConfig_default (r_emitted r) px -> rotated q batches ro (r_emitted r) px.
Proof using Hro Hchk Hr.
  intros (_ & o & Ho & Hsame). exists o. split; [exact Hsame|]. split; [exact Ho|]. destruct rotating_inv as (_ & _ & Hfind).
  destruct Hsame as (Hk & Hty & _). destruct (find_emitted _ _ _ _ _ _ _ _ _ _ _ _ Hfind Hchk Hr) as [_ Hem].
  destruct (Hem o Ho) as (_ & _ & _ & _ & _ & Hnamed & _).
  destruct (emitted_checked _ _ _ _ _ _ _ _ _ _ _ _ _ Hfind Hchk Hr Ho) as (H1 & H2 & H3).
  rewrite Hk, Hty. injection Hk as Hh _. rewrite Hh. by split_and!.
Qed.
End rotated.
Lemma rotated_pool own fresh resolver q batches cfg ro known evs rng ts w : rotating own fresh resolver q batches cfg = Ok ro ->
  Forall (serve_event PoolConfig_default known) evs ->
  PoolSteps.run evs ([], mkWorld (spawned (ro_config ro)) rng notify_new 0) = Some (ts, w) ->
  Forall (task_holds (from_known PoolConfig_default known)) ts /\ pool_holds PoolConfig_default (from_known PoolConfig_default known) (w_pool w).
Proof.
  intros Hro Hevs Hrun. destruct (rotating_inv _ _ _ _ _ _ _ Hro) as (Hcfg & _). rewrite Hcfg in Hrun.
  apply (run_holds _ _ _ _ _ (serve_brings _ _ _ Hevs) Hrun); [constructor|]. split; [done|]. by intros x ?%elem_of_nil.
Qed.

(** *** A connection through it *)
(** The proxy that a returned stream goes through. *)
Lemma connect_loop_holds cfg S (Sr : forall px rt e, S px -> S (record_attempt rt e px)) world scheme key target
    (Henv : forall k, Forall (fun m => Forall (brings cfg S) (mo_env m)) (at_script (world k))) n : forall k failure w st w',
  connect_loop world scheme key target n k failure w = Some (Ok st, w') -> pool_holds cfg S (w_pool w) ->
  exists j p proto tcp c, (k <= j < k + n)%nat /\ S p /\ serves scheme p = true /\ connect_proto p scheme = Some proto /\
    at_dial (world j) = DialOk tcp /\ negotiate proto tcp target (p_auth p) = Ok st /\ st = Plain c.
Proof.
  induction n as [|n IH]; intros k failure w st w' E Hp; cbn [connect_loop] in E; [done|].
  assert (forall f w1, connect_loop world scheme key target n (Datatypes.S k) f w1 = Some (Ok st, w') -> pool_holds cfg S (w_pool w1) ->
    exists j p proto tcp c, (k <= j < k + Datatypes.S n)%nat /\ S p /\ serves scheme p = true /\ connect_proto p scheme = Some proto /\
      at_dial (world j) = DialOk tcp /\ negotiate proto tcp target (p_auth p) = Ok st /\ st = Plain c) as Hnext.
  { intros f w1 E1 H1. destruct (IH _ _ _ _ _ E1 H1) as (j & p & proto & tcp & c & Hj & H). exists j, p, proto, tcp, c. split; [lia|exact H]. }
  destruct (get _ _ _ _) as [[[[p|] w1] rest]|] eqn:Eg; try done. unfold get in Eg.
  destruct (get_run_holds cfg S _ (Henv k) _ _ _ _ _ Eg) as [HS Hp0]; [by intros px ?%elem_of_nil|done|].
  assert (pool_holds cfg S (w_pool (meanwhile rest w1))) as Hp1.
  { apply meanwhile_holds; [|done]. destruct (get_run_rest _ _ _ _ _ _ Eg) as [used Eu]. pose proof (Henv k) as Hk. rewrite Eu in Hk.
    by apply Forall_app in Hk as [_ ?]. }
  destruct (HS p eq_refl) as [HSp Hserves]. cbn [t_scheme] in Hserves.
  destruct (connect_proto p scheme) as [proto|] eqn:Ep; [|eapply Hnext; [exact E|by apply (pool_holds_settle _ _ 0)]].
  destruct (dial _ _ _ _) as [st'|e] eqn:Ed; [|eapply Hnext; [exact E|by apply pool_holds_settle; [apply Sr|]]].
  injection E as -> <-. unfold dial in Ed. destruct (at_dial (world k)) as [| |tcp] eqn:Ea; try done.
  destruct (negotiate_plain _ _ _ _ _ (connect_proto_tunnels _ _ _ Ep) Ed) as [c Hc]. exists k, p, proto, tcp, c. split_and!; (done || lia).
Qed.

(** C20: a connection through [Broker::rotating], from the provider to the socket. Whenever the connector is
    called, however the pool that [find] fills was used until then and is used meanwhile, a stream it
    returns is a plain tunnel to the address of the URI, negotiated on one of its at most [max_tries] tries through
    one proxy that serves the URI's scheme and that [find] emitted: named by a provider, found
    working with a confirmed protocol, on none of the blocklists, and of the types asked for when strict. *)
Theorem rotating_connects : forall own fresh resolver q batches cfg ro world draw chk r evs rng ts w attempts uri st w'
  (Hro : rotating own fresh resolver q batches cfg = Ok ro)
  (Hchk : forall p, p ∈ cr_source (ro_run ro) -> check lookup_ip (cr_checker (ro_run ro)) (world p) (draw p) p = Some (chk p))
  (Hr : reaches chk (cr_max_conn (ro_run ro)) (cr_limit (ro_run ro)) (cr_caps (ro_run ro)) (cr_source (ro_run ro)) r)
  (Hevs : Forall (serve_event PoolConfig_default (r_emitted r)) evs)
  (Hrun : PoolSteps.run evs ([], mkWorld (spawned (ro_config ro)) rng notify_new 0) = Some (ts, w))
  (Hmean : forall k m op, m ∈ at_script (attempts k) -> op ∈ mo_env m -> serve_event PoolConfig_default (r_emitted r) (VEnv op))
  (Hcall : call attempts (ro_connector ro) uri w = Some (Ok st, w')),
  exists target j px proto tcp c, uri_target lookup_ip uri = Some target /\ (j < rc_max_tries cfg)%nat /\
    serves (uri_target_scheme uri) px = true /\ rotated q batches ro (r_emitted r) px /\
    connect_proto px (uri_target_scheme uri) = Some proto /\ at_dial (attempts j) = DialOk tcp /\
    negotiate proto tcp target (p_auth px) = Ok st /\ st = Plain c.
Proof.
  intros. destruct (rotating_inv _ _ _ _ _ _ _ Hro) as (_ & Hcon & _).
  destruct (rotated_pool _ _ _ _ _ _ _ _ _ _ _ _ Hro Hevs Hrun) as [_ Hpool].
  rewrite Hcon in Hcall. unfold call, from_pool, connect in Hcall. cbn [rp_lookup rp_cfg] in Hcall.
  destruct (uri_target lookup_ip uri) as [target|] eqn:Et; [|done].
  assert (forall k, Forall (fun m => Forall (brings PoolConfig_default (from_known PoolConfig_default (r_emitted r))) (mo_env m)) (at_script (attempts k))) as Henv.
  { intros k. apply Forall_forall. intros m Hm. apply Forall_forall. intros op Hop. specialize (Hmean k m op Hm Hop).
    pose proof (serve_brings _ _ [VEnv op] (Forall_cons_2 _ _ _ Hmean (Forall_nil_2 _))) as Hb. by apply Forall_cons in Hb as [Hb _]. }
  destruct (connect_loop_holds _ _ (fun px rt e Hk => known_used _ _ rt e px Hk) _ _ _ _ Henv _ _ _ _ _ _ Hcall Hpool)
    as (j & px & proto & tcp & c & Hj & HS & H).
  exists target, j, px, proto, tcp, c. split; [done|]. split; [lia|]. destruct H as (Hs & H). split; [done|]. split; [|done].
  by apply (known_rotated _ _ _ _ _ _ _ _ _ _ _ Hro Hchk Hr).
Qed.
End served.

(** ** A client of a served find *)
Section served_demo.
#[local] Existing Instances list_order counter_notify sample_regexes no_libs ascii_case no_flate one_powi demo_web.
Definition demo_serve_args : ServeArgs :=
  {| sa_host := lit "127.0.0.1:8888"; sa_types := [Http]; sa_load := None; sa_lvl := []; sa_dnsbl := []; sa_post := false;
     sa_strict := true; sa_strategy := SsBest; sa_sticky_header := None; sa_limit := 5; sa_countries := [];
     sa_timeout := 8; sa_max_error_rate := f_of_Z 1; sa_max_resp_time := f_of_Z 8; sa_fail_timeout := 30;
     sa_prefer_connect := false; sa_http_allowed_codes := []; sa_min_queue := 0; sa_backlog := 1024; sa_max_clients := 1024;
     sa_auth := None; sa_max_tries := 3; sa_metrics := None; sa_state := None; sa_recheck := false;
     sa_recheck_rate := f_of_Z 5; sa_recheck_min := 60; sa_recheck_max := 3600; sa_decay_halflife := 21600; sa_watch := false |}.
Definition rotating_events (px : Proxy) : list Event := [VEnv (EImport px); VEnv ENotify].
Abbreviation demo_rotating := (rotating (fun _ => Some [V4 9]) [lit "http://judge/"] (fun _ => lit "4711") demo_broker true (Err NoTypes)
  demo_resolver (serve_query demo_serve_args) demo_batches RotateConfig_default).
(** The first dial is refused; the proxy is put back, drawn again and answers. *)
Definition rotating_attempt (k : nat) : Server.Attempt :=
  {| at_script := [tick; tick; tick]; at_dial := match k with O => DialErr | _ => DialOk (open_conn (lit "220 hello")) end; at_put_now := 0 |}.
Definition rotating_uri : Uri := {| uri_scheme := None; uri_host := Some (lit "example.org"); uri_port := Some 8000 |}.
Abbreviation demo_filled ro px :=
  (PoolSteps.run (rotating_events px) ([], mkWorld (spawned (ro_config ro)) 1 notify_new 0)).
Abbreviation demo_call ro w := (call rotating_attempt (ro_connector ro) rotating_uri w).
Abbreviation demo_fr_run fr := (exec_events (demo_answer (cr_checker fr)) (cr_limit fr) (cr_caps fr) demo_find_events
  (new_run (cr_max_conn fr) (cr_source fr))).
Lemma rotating_connects_witness : exists ro r px ts w c w',
  demo_rotating = Ok ro /\ demo_fr_run (ro_run ro) = Some r /\ head (r_emitted r) = Some px /\ demo_filled ro px = Some (ts, w) /\
  demo_call ro w = Some (Ok (Plain c), w') /\ exists used proto, rotated (fun _ => Some [V4 9]) (serve_query demo_serve_args) demo_batches ro (r_emitted r) used /\
    connect_proto used SHttp = Some proto.
Proof.
  assert (E0 : (match demo_rotating with
                | Ok ro => (fun g => is_ok g.1) <$> (demo_fr_run (ro_run ro) ≫= fun r => head (r_emitted r) ≫= fun px =>
                    demo_filled ro px ≫= fun st => demo_call ro st.2)
                | Err _ => None end) = Some true) by (vm_compute; reflexivity).
  assert (E1 : (match demo_rotating with
                | Ok ro => forallb (fun p => bool_decide (is_Some (fst <$> demo_check (cr_checker (ro_run ro)) p))) (cr_source (ro_run ro))
                | Err _ => false end) = true) by (vm_compute; reflexivity).
  destruct demo_rotating as [ro|] eqn:Ef; [|discriminate E0].
  destruct (demo_fr_run (ro_run ro)) as [r|] eqn:Er; [|discriminate E0]. cbn [mbind option_bind] in E0.
  destruct (head (r_emitted r)) as [px|] eqn:Ep; [|discriminate E0]. cbn [mbind option_bind] in E0.
  destruct (demo_filled ro px) as [[ts w]|] eqn:Es; [|discriminate E0]. cbn [mbind option_bind snd] in E0.
  destruct (demo_call ro w) as [[[st|e] w']|] eqn:Ec; try discriminate E0.
  assert (forall p, p ∈ cr_source (ro_run ro) -> check (fun _ => Some [V4 9]) (cr_checker (ro_run ro)) demo_world (fun _ => 0%nat) p =
    Some (demo_answer (cr_checker (ro_run ro)) p)) as Hchk.
  { intros p Hp. rewrite forallb_elem in E1. specialize (E1 p Hp). apply bool_decide_eq_true in E1.
    unfold demo_answer. change (check _ _ _ _ _) with (demo_check (cr_checker (ro_run ro)) p).
    destruct (demo_check (cr_checker (ro_run ro)) p); [reflexivity|]. destruct E1 as [? E1]. discriminate E1. }
  assert (px ∈ r_emitted r) as Hpx by (destruct (r_emitted r); [discriminate Ep|injection Ep as ->; left]).
  assert (Forall (serve_event PoolConfig_default (r_emitted r)) (rotating_events px)) as Hevs.
  { apply Forall_cons_2; [exact Hpx|]. apply Forall_cons_2; [exact I|]. apply Forall_nil_2. }
  destruct (rotating_connects (fun _ => Some [V4 9]) [lit "http://judge/"] (fun _ => lit "4711") demo_broker true (Err NoTypes)
    demo_resolver (serve_query demo_serve_args) demo_batches RotateConfig_default ro (fun _ => demo_world) (fun _ _ => 0%nat)
    (demo_answer (cr_checker (ro_run ro))) r (rotating_events px) 1 ts w rotating_attempt rotating_uri st w' Ef Hchk
    (exec_reaches _ _ _ _ _ _ _ _ (reaches_start _ _ _ _ _) Er) Hevs Es) as (target & j & used & proto & tcp & c & _ & _ & _ & Hrot & Hproto & _ & _ & Hst).
  - intros k m op Hm Hop. exfalso. unfold rotating_attempt in Hm. cbn [at_script] in Hm.
    repeat (apply elem_of_cons in Hm as [->|Hm]; [by apply elem_of_nil in Hop|]). by apply elem_of_nil in Hm.
  - exact Ec.
  - exists ro, r, px, ts, w, c, w'. split; [reflexivity|]. split; [exact Er|]. split; [exact Ep|]. split; [exact Es|].
    split; [rewrite Ec, Hst; reflexivity|]. exists used, proto. split; [exact Hrot|exact Hproto].
Defined.
End served_demo.
