(* ===== verification/Live.v ===== *)
(** * A running [serve]

    The pool with everything that works on it at once: the clients and the importer, the returns of
    proxies, the re-checker (src/scheduler.rs) and the file watcher (src/watch.rs), interleaved between
    their awaits. What Scheduler.v has as one pass with the others' work as functions is here three
    steps with the others' steps in between; both are shown to be the same. *)
From S2P Require Import Prelude F64 Text Types Addr Utils Proxy Pool PoolSteps Holds Net Negotiator Judge Checker Store Scheduler Watch Provider Stats Pipeline Geo Broker Cli Served.
Open Scope Z_scope.

Section live.
Context `{HO : HashOrder} `{N : Notify} `{UC : UnicodeCase} `{PF : Powf} `{PR : Prober} `{ST : Store}.

(** The re-checker: at the top of its loop, asleep until a due time, awaiting the check of [k]. *)
Inductive RcPc := RcTop | RcSleep | RcCheck (k : Key) (start : Start).
(** [lv_ops]: what a reload decided on and has still to do. *)
Record Live := mkLive {
  lv_tasks : list Task; lv_world : World; lv_sched : RState; lv_pc : RcPc; lv_store : store; lv_ops : list WatchOp
}.
Definition lv_pool (l : Live) : Pool := w_pool (lv_world l).
Definition with_world (w : World) (l : Live) : Live := mkLive (lv_tasks l) w (lv_sched l) (lv_pc l) (lv_store l) (lv_ops l).
Definition with_sched (st : RState) (pc : RcPc) (l : Live) : Live :=
  mkLive (lv_tasks l) (lv_world l) st pc (lv_store l) (lv_ops l).
Definition with_ops (ops : list WatchOp) (l : Live) : Live :=
  mkLive (lv_tasks l) (lv_world l) (lv_sched l) (lv_pc l) (lv_store l) ops.

Inductive LiveEvent :=
| LvTask (i : nat) (now : Z) (live : bool) | LvSpawn (s : Scheme) (k : ClientKey)
| LvImport (px : Proxy) | LvEnd | LvNotify
(* the client [i] gives its proxy back, after some attempts with it *)
| LvReturn (i : nat) (attempts : list (option f64 * option ProxyError)) (failed : option Z)
| LvRemove (k : Key)
(* the cursor and the pins, as the clients' selections move them between their sections *)
| LvDrift (cursor : Z) (pins : gmap ClientKey (IpAddr * Z))
| LvEnroll (tk : Tick) | LvWake (tk : Tick) | LvChecked (tk : Tick)
| LvReload (desired : list Proxy) | LvApply.

Definition used (px : Proxy) (attempts : list (option f64 * option ProxyError)) : Proxy :=
  fold_left (fun p x => record_attempt x.1 x.2 p) attempts px.
Definition lent (i : nat) (ts : list Task) : option Proxy :=
  let? t := ts !! i in match t_pc t with GDone o => o | _ => None end.
(** The events of the clients, the importer and the control API, as those of PoolSteps.v. *)
Definition pool_event (ts : list Task) (e : LiveEvent) : option Event :=
  match e with
  | LvTask i now live => Some (VTask i now live)
  | LvSpawn s k => Some (PoolSteps.VSpawn s k None)
  | LvImport px => Some (VEnv (EImport px))
  | LvEnd => Some (VEnv EEnd)
  | LvNotify => Some (VEnv ENotify)
  | LvReturn i attempts failed =>
      let? px := lent i ts in
      let px := used px attempts in
      Some (VEnv (match failed with None => EPutOk px | Some now => EPutFailed now px end))
  | LvRemove k => Some (VEnv (ERemove k.1 k.2))
  | LvDrift n m => Some (VEnv (EDrift n m))
  | _ => None
  end.
Definition op_event (op : WatchOp) : EnvOp := match op with WRemove k => ERemove k.1 k.2 | WAdd px => EAdd px end.

(** The re-checker, up to its first await; from there to the check; after the check. *)
Definition enroll_step (cfg : RecheckConfig) (tk : Tick) (l : Live) : Live :=
  let st := enroll tk cfg (addrs (lv_pool l)) (lv_sched l) in
  with_sched st (match least_due (heap st) with None => RcTop | Some _ => RcSleep end) l.
Definition wake_step (cfg : RecheckConfig) (tk : Tick) (l : Live) : option Live :=
  let st := lv_sched l in
  let? t := least_due (heap st) in
  if tk_woken tk <? t then Some (with_sched st RcTop l)
  else
    let start := Z.max (next_start st) (tk_start tk) in
    let? g := gap cfg in
    let? (job, rest) := pop (tk_pick tk) (heap st) in
    let k := s_key job in
    let st := {| heap := rest; ewma := ewma st; last_ok := last_ok st; retrying := retrying st; next_start := start + g |} in
    if negb (bool_decide (k ∈ retrying st)) && negb (bool_decide (k ∈ addrs (lv_pool l))) then
      Some (with_sched {| heap := heap st; ewma := delete k (ewma st); last_ok := delete k (last_ok st);
                          retrying := retrying st; next_start := next_start st |} RcTop l)
    else Some (with_sched st (RcCheck k (starts_at tk start)) l).
Definition checked_step (cfg : RecheckConfig) (tk : Tick) (k : Key) (l : Live) : option Live :=
  let? (working, p) := prober_check (tk_seed tk) (new k.1 k.2 ∅) in
  let? (st, _) := settle cfg tk k working p (lv_sched l) (lv_pool l) in
  Some (mkLive (lv_tasks l) (env_step (if working then EAdd p else ERemove k.1 k.2) (lv_world l)) st RcTop
          (store_upsert (tk_stored tk) p (lv_store l)) (lv_ops l)).

Definition live_step (cfg : RecheckConfig) (e : LiveEvent) (l : Live) : option Live :=
  match e with
  | LvEnroll tk => match lv_pc l with RcTop => Some (enroll_step cfg tk l) | _ => None end
  | LvWake tk => match lv_pc l with RcSleep => wake_step cfg tk l | _ => None end
  | LvChecked tk => match lv_pc l with RcCheck k _ => checked_step cfg tk k l | _ => None end
  | LvReload desired => match lv_ops l with [] => Some (with_ops (reconcile_ops (addrs (lv_pool l)) desired) l) | _ => None end
  | LvApply =>
      match lv_ops l with
      | op :: ops => Some (with_ops ops (with_world (env_step (op_event op) (lv_world l)) l))
      | [] => None
      end
  | e =>
      let? ev := pool_event (lv_tasks l) e in
      let? (ts, w) := exec ev (lv_tasks l, lv_world l) in
      Some (mkLive ts w (lv_sched l) (lv_pc l) (lv_store l) (lv_ops l))
  end.
Fixpoint live_run (cfg : RecheckConfig) (es : list LiveEvent) (l : Live) : option Live :=
  match es with [] => Some l | e :: es => let? l := live_step cfg e l in live_run cfg es l end.
(** [serve] as its pool starts out: nobody is served yet, nothing scheduled. *)
Definition live_start (pool : Pool) (rng now : Z) (db : store) : Live :=
  mkLive [] (mkWorld pool rng notify_new 0) (initial now) RcTop db [].

(** ** The same re-checker *)
Definition other (e : LiveEvent) : bool := match e with LvEnroll _ | LvWake _ | LvChecked _ => false | _ => true end.
Lemma other_frame cfg e l l' : other e = true -> live_step cfg e l = Some l' ->
  lv_sched l' = lv_sched l /\ lv_pc l' = lv_pc l /\ lv_store l' = lv_store l.
Proof.
  intros Ho E.
  assert ((let? ev := pool_event (lv_tasks l) e in let? (ts, w) := exec ev (lv_tasks l, lv_world l) in
      Some (mkLive ts w (lv_sched l) (lv_pc l) (lv_store l) (lv_ops l))) = Some l' ->
    lv_sched l' = lv_sched l /\ lv_pc l' = lv_pc l /\ lv_store l' = lv_store l) as Hp.
  { destruct (pool_event (lv_tasks l) e) as [ev|]; [|done]. destruct (exec ev (lv_tasks l, lv_world l)) as [[ts w]|]; [|done].
    by intros [= <-]. }
  destruct e; try done; try exact (Hp E); cbn in E; (destruct (lv_ops l); [|try done]); try done; by injection E as <-.
Qed.
Lemma others_frame cfg es l l' : forallb other es = true -> live_run cfg es l = Some l' ->
  lv_sched l' = lv_sched l /\ lv_pc l' = lv_pc l /\ lv_store l' = lv_store l.
Proof.
  revert l. induction es as [|e es IH]; intros l Ho E; [by injection E as <-|]. cbn in Ho, E. apply andb_prop in Ho as [Ho1 Ho].
  destruct (live_step cfg e l) as [l1|] eqn:E1; [|done]. apply other_frame in E1 as (A1 & A2 & A3); [|done].
  apply IH in E as (B1 & B2 & B3); [|done]. split_and!; congruence.
Qed.
Lemma live_run_app cfg es fs l : live_run cfg (es ++ fs) l = (let? l := live_run cfg es l in live_run cfg fs l).
Proof. revert l. induction es as [|e es IH]; intros l; [done|]. cbn. destruct (live_step cfg e l); [apply IH|done]. Qed.
Lemma env_pool op w : w_pool (env_step op w) =
  match op with
  | EAdd px => add px (w_pool w) | ERemove h q => (remove h q (w_pool w)).2 | _ => w_pool (env_step op w)
  end.
Proof.
  destruct op as [px| | |px|now px|px|h q|s c|n m]; try done. cbn. case_decide as Hd; [|done].
  unfold add. destruct (existsb _ _) eqn:E; [done|]. exfalso. apply elem_of_addrs in Hd as (e & He & Hk).
  apply not_true_iff_false in E. apply E, existsb_exists. exists e. split; [by apply list_elem_of_In|]. by apply bool_decide_eq_true.
Qed.

Abbreviation rworld l := (mkR (lv_sched l) (lv_pool l) (lv_store l)).
Lemma pass_idle cfg tk es l l1 : lv_pc l = RcTop -> forallb other es = true ->
  live_run cfg (LvEnroll tk :: es) l = Some l1 ->
  lv_sched l1 = enroll tk cfg (addrs (lv_pool l)) (lv_sched l) /\ lv_store l1 = lv_store l /\
  match least_due (heap (lv_sched l1)) with
  | Some _ => lv_pc l1 = RcSleep
  | None => lv_pc l1 = RcTop /\ forall f, pass cfg tk (fun _ => lv_pool l1) f (rworld l) = Some (PIdle, rworld l1)
  end.
Proof.
  intros Hpc Ho E. cbn [live_run live_step] in E. rewrite Hpc in E. apply others_frame in E as (A1 & A2 & A3); [|done].
  unfold enroll_step in A1, A2, A3. cbn in A1, A2, A3. split; [done|]. split; [done|]. rewrite A2. rewrite <- A1 in *.
  destruct (least_due (heap (lv_sched l1))) as [t|] eqn:Ed; [done|]. split; [done|]. intros f. unfold pass. cbn [rw_state rw_pool rw_store].
  rewrite <- A1, Ed, A3. done.
Qed.
Lemma pass_asleep cfg tk f l l1 l2 : lv_sched l1 = enroll tk cfg (addrs (lv_pool l)) (lv_sched l) -> lv_store l1 = lv_store l ->
  wake_step cfg tk l1 = Some l2 ->
  lv_pool l2 = lv_pool l1 /\ lv_store l2 = lv_store l /\
  match lv_pc l2 with
  | RcCheck k start => pass cfg tk (fun _ => lv_pool l1) f (rworld l) =
      let? (working, p) := prober_check (tk_seed tk) (new k.1 k.2 ∅) in
      let? (st, pool) := settle cfg tk k working p (lv_sched l2) (f (lv_pool l1)) in
      Some (PCheck k start working, mkR st pool (store_upsert (tk_stored tk) p (lv_store l)))
  | _ => exists ev, pass cfg tk (fun _ => lv_pool l1) f (rworld l) = Some (ev, rworld l2) /\ (ev = PWait \/ exists k start, ev = PDrop k start)
  end.
Proof.
  intros A1 A3 E. unfold wake_step in E. unfold pass. cbn [rw_state rw_pool rw_store]. rewrite <- A1, <- A3.
  destruct (least_due (heap (lv_sched l1))) as [t|]; [|done]. cbn zeta in E. destruct (tk_woken tk <? t).
  { injection E as <-. split_and!; try done. exists PWait. split; [done|by left]. }
  destruct (gap cfg) as [g|]; [|done]. destruct (pop (tk_pick tk) (heap (lv_sched l1))) as [[job rest]|]; [|done].
  unfold recheck. cbn [retrying heap ewma last_ok next_start] in *. destruct (negb _ && negb _); injection E as <-; (split; [done|]); (split; [done|]).
  - cbn. eexists. split; [done|]. right. eauto.
  - done.
Qed.

(** The re-checker in pieces is the re-checker. Its stretches between two awaits, whatever the
    clients, the importer and the watcher do to the pool in between, make one pass of the loop with
    what they did as its environment: the same event, schedule, store and pool, whether nothing is
    scheduled, nothing is due, the address was removed meanwhile, or it is checked. *)
Lemma live_pass : forall cfg tk es1 es2 l l1 l2,
  lv_pc l = RcTop -> forallb other (es1 ++ es2) = true -> live_run cfg (LvEnroll tk :: es1) l = Some l1 ->
  (lv_pc l1 = RcTop -> forall f, pass cfg tk (fun _ => lv_pool l1) f (rworld l) = Some (PIdle, rworld l1)) /\
  (live_step cfg (LvWake tk) l1 = Some l2 ->
     (lv_pc l2 = RcTop -> forall f, exists ev,
        pass cfg tk (fun _ => lv_pool l1) f (rworld l) = Some (ev, rworld l2) /\ (ev = PWait \/ exists k start, ev = PDrop k start)) /\
     forall k start l3 l4, lv_pc l2 = RcCheck k start -> live_run cfg es2 l2 = Some l3 -> live_step cfg (LvChecked tk) l3 = Some l4 ->
       exists working, pass cfg tk (fun _ => lv_pool l1) (fun _ => lv_pool l3) (rworld l) = Some (PCheck k start working, rworld l4)).
Proof.
  intros cfg tk es1 es2 l l1 l2 Hpc Ho E1. rewrite forallb_app in Ho. apply andb_prop in Ho as [Ho1 Ho2].
  destruct (pass_idle _ _ _ _ _ Hpc Ho1 E1) as (A1 & A3 & Hidle). split.
  { intros Ht f. destruct (least_due _); [congruence|]. by apply Hidle. }
  intros E2. cbn [live_step] in E2. destruct (lv_pc l1) eqn:Ep; try done.
  split.
  - intros Ht f. destruct (pass_asleep cfg tk f l l1 l2 A1 A3 E2) as (_ & _ & H). by rewrite Ht in H.
  - intros k start l3 l4 Hc E3 E4. destruct (pass_asleep cfg tk (fun _ => lv_pool l3) l l1 l2 A1 A3 E2) as (_ & B3 & H).
    rewrite Hc in H. rewrite H. apply others_frame in E3 as (C1 & C2 & C3); [|done]. cbn [live_step] in E4. rewrite C2, Hc in E4.
    unfold checked_step in E4. destruct (prober_check (tk_seed tk) _) as [[working p]|]; [|done]. rewrite C1, C3, B3 in E4.
    destruct (settle cfg tk k working p (lv_sched l2) (lv_pool l3)) as [[st pool]|] eqn:Es; [|done]. injection E4 as <-.
    exists working. cbn [lv_sched lv_store]. do 3 f_equal. unfold lv_pool at 1. cbn [lv_world]. rewrite env_pool. unfold settle in Es.
    destruct (next_interval _ cfg); [|done]. destruct working; [by injection Es as _ <-|].
    destruct (should_retry _ _ _ _); by injection Es as _ <-.
Qed.

(** ** What a client can be handed *)
Section provenance.
Variables (pcfg : PoolConfig) (rcfg : RecheckConfig) (known filed : list Proxy).
(** Whether re-checking is on. *)
Variable on : Prop.
Definition known_key (k : Key) : Prop :=
  (exists o, o ∈ known /\ country_ok o (countries pcfg) = true /\ p_key o = k) \/ exists o, o ∈ filed /\ p_key o = k.
(** Let in by the importer or at the start; found working by the re-checker, which starts from the bare
    address; or named by a reloaded file. *)
Definition re_checked (px : Proxy) : Prop :=
  on /\ known_key (p_key px) /\ exists seed p, prober_check seed (new (p_host px) (p_port px) ∅) = Some (true, p) /\ same_proxy p px.
Definition from_file (px : Proxy) : Prop := exists o, o ∈ filed /\ same_proxy o px.
Definition may_lend (px : Proxy) : Prop := from_known pcfg known px \/ re_checked px \/ from_file px.
Definition live_event (e : LiveEvent) : Prop :=
  match e with LvImport px => px ∈ known | LvReload desired => forall px, px ∈ desired -> px ∈ filed | LvChecked _ => on | _ => True end.
Record live_ok (l : Live) : Prop := {
  lk_tasks : Forall (task_holds may_lend) (lv_tasks l);
  lk_pool : pool_holds pcfg may_lend (lv_pool l);
  lk_heap : forall s, s ∈ heap (lv_sched l) -> known_key (s_key s);
  lk_pc : match lv_pc l with RcCheck k _ => known_key k | _ => True end;
  lk_ops : forall px, WAdd px ∈ lv_ops l -> from_file px;
}.

Lemma same_country o px : same_proxy o px -> country_ok px (countries pcfg) = country_ok o (countries pcfg).
Proof. intros (_ & _ & Hg). unfold country_ok. by rewrite Hg. Qed.
Lemma may_lend_key px : may_lend px -> known_key (p_key px).
Proof.
  intros [(Hc & o & Ho & Hs)|[(_ & Hk & _)|(o & Ho & Hs)]]; [left|done|right]; exists o.
  - rewrite <- (same_country _ _ Hs). by destruct Hs as (-> & _).
  - by destruct Hs as (-> & _).
Qed.
Lemma same_proxy_used o px attempts : same_proxy o px -> same_proxy o (used px attempts).
Proof. revert px. induction attempts as [|x l IH]; intros px H; [done|]. apply IH. by apply same_proxy_attempt. Qed.
Lemma may_lend_used px attempts : may_lend px -> may_lend (used px attempts).
Proof.
  assert (same_proxy px (used px attempts)) as Hu by by apply same_proxy_used. pose proof Hu as (Hk & _).
  intros [(Hc & o & Ho & Hs)|[(Hon & Hkk & seed & p & Hp & Hs)|(o & Ho & Hs)]]; [left|right; left|right; right].
  - split; [by rewrite (same_country _ _ Hu)|]. exists o. split; [done|]. by apply same_proxy_used.
  - split; [done|]. split; [by rewrite Hk|]. exists seed, p. injection Hk as H1 H2. rewrite H1, H2. split; [done|]. by apply same_proxy_used.
  - exists o. split; [done|]. by apply same_proxy_used.
Qed.
Lemma lent_may_lend i ts px : Forall (task_holds may_lend) ts -> lent i ts = Some px -> may_lend px.
Proof.
  unfold lent. intros H E. destruct (ts !! i) as [t|] eqn:Ei; [|done]. cbn in E. destruct (t_pc t) eqn:Ep; try done.
  destruct (Forall_lookup_1 _ _ _ _ H Ei px) as [Hl _]; [|done]. unfold held. rewrite Ep, E. by left.
Qed.
Lemma enroll_heap tk cfg A st s : s ∈ heap (enroll tk cfg A st) -> s ∈ heap st \/ s_key s ∈ A.
Proof.
  unfold enroll. assert (forall ks st, s ∈ heap (fold_left (enroll_one tk cfg) ks st) -> s ∈ heap st \/ s_key s ∈ ks) as H.
  { induction ks as [|k ks IH]; intros st0 Hs; [by left|]. cbn in Hs. apply IH in Hs as [Hs|Hs]; [|right; by right].
    unfold enroll_one in Hs. destruct (ewma st0 !! k); [by left|]. cbn in Hs. apply elem_of_app in Hs as [Hs|Hs]; [by left|].
    apply list_elem_of_singleton in Hs as ->. right. apply elem_of_cons. left. by destruct k. }
  intros Hs. apply H in Hs as [Hs|Hs]; [by left|]. right. by apply elem_of_elements.
Qed.
Lemma pool_key p k : pool_holds pcfg may_lend p -> k ∈ addrs p -> known_key k.
Proof.
  intros [_ Hp] (e & He & <-)%elem_of_addrs. apply (may_lend_key (proxy e)), Hp, list_elem_of_fmap. by exists e.
Qed.
Lemma wake_ok tk l l' : live_ok l -> wake_step rcfg tk l = Some l' -> live_ok l'.
Proof.
  intros [H1 H2 H3 H4 H5] E. unfold wake_step in E. destruct (least_due _) as [t|]; [|done]. cbn zeta in E.
  destruct (tk_woken tk <? t); [by injection E as <-|]. destruct (gap rcfg) as [g|]; [|done].
  destruct (pop (tk_pick tk) (heap (lv_sched l))) as [[job rest]|] eqn:Ep; [|done]. apply pop_spec in Ep as (Hj & _).
  assert (forall s, s ∈ job :: rest -> known_key (s_key s)) as Hk by (intros s Hs; apply H3; by rewrite Hj).
  destruct (negb _ && negb _); injection E as <-; split; cbn; try done; try (intros s Hs; apply Hk; by right). apply Hk. left.
Qed.
Lemma env_ok op l : brings pcfg may_lend op -> live_ok l -> live_ok (with_world (env_step op (lv_world l)) l).
Proof. intros Hb [H1 H2 H3 H4 H5]. split; try done. cbn. by apply pool_holds_env. Qed.
Lemma checked_ok tk k l l' : on -> live_ok l -> known_key k -> checked_step rcfg tk k l = Some l' -> live_ok l'.
Proof.
  intros Hon Hl Hk E. unfold checked_step in E. destruct (prober_check (tk_seed tk) (new k.1 k.2 ∅)) as [[working p]|] eqn:Ec; [|done].
  cbn in E. destruct (settle rcfg tk k working p (lv_sched l) (lv_pool l)) as [[st pool]|] eqn:Es; [|done]. injection E as <-.
  assert (p_key p = k) as Hpk by (rewrite (prober_key _ _ _ _ Ec); by destruct k).
  assert (forall s, s ∈ heap st -> s ∈ heap (lv_sched l) \/ s_key s = k) as Hh.
  { unfold settle in Es. destruct (next_interval _ rcfg) as [iv|]; [|done]. cbn in Es.
    assert (forall d s, s ∈ heap (lv_sched l) ++ [sched d k] -> s ∈ heap (lv_sched l) \/ s_key s = k) as Hs.
    { intros d s [?|Hs]%elem_of_app; [by left|]. apply list_elem_of_singleton in Hs as ->. right. by destruct k. }
    destruct working; [|destruct (should_retry _ _ _ _)]; injection Es as <- _; cbn; eauto. }
  destruct (env_ok (if working then EAdd p else ERemove k.1 k.2) l) as [H1 H2 H3 H4 H5]; [|done|].
  - destruct working; [|done]. right. left. split; [done|]. split; [by rewrite Hpk|]. exists (tk_seed tk), p.
    destruct k as [h q]. injection Hpk as Hh' Hp'. split; [by rewrite Hh', Hp'|]. by split_and!.
  - split; cbn; try done. intros s Hs. destruct (Hh s Hs) as [?| ->]; [by apply H3|done].
Qed.
Lemma pool_event_brings l e ev : live_event e -> live_ok l -> pool_event (lv_tasks l) e = Some ev ->
  brings_ev pcfg may_lend ev.
Proof.
  intros He Hl E. destruct e; cbn in E; try done; try (injection E as <-; done).
  - injection E as <-. intros Hc. left. split; [done|]. exists px. by split_and!.
  - destruct (lent i (lv_tasks l)) as [px|] eqn:El; [|done]. injection E as <-.
    assert (may_lend (used px attempts)) by (apply may_lend_used; eapply lent_may_lend; [apply Hl|done]). by destruct failed.
Qed.
Lemma reload_from_file current desired px : (forall p, p ∈ desired -> p ∈ filed) -> WAdd px ∈ reconcile_ops current desired -> from_file px.
Proof.
  intros Hd. unfold reconcile_ops. rewrite elem_of_app. intros [(k & ? & _)%list_elem_of_fmap|(q & [= <-] & Hq)%list_elem_of_fmap]; [done|].
  apply list_elem_of_In, filter_In in Hq as [Hq _]. exists px. split; [apply Hd; by apply list_elem_of_In|by split_and!].
Qed.
Lemma live_step_ok e l l' : live_event e -> live_ok l -> live_step rcfg e l = Some l' -> live_ok l'.
Proof.
  intros He Hl E.
  assert ((let? ev := pool_event (lv_tasks l) e in let? (ts, w) := exec ev (lv_tasks l, lv_world l) in
      Some (mkLive ts w (lv_sched l) (lv_pc l) (lv_store l) (lv_ops l))) = Some l' -> live_ok l') as Hpe.
  { destruct (pool_event (lv_tasks l) e) as [ev|] eqn:Ep; [|done]. cbn.
    destruct (exec ev (lv_tasks l, lv_world l)) as [[ts w]|] eqn:Ex; [|done]. intros [= <-]. destruct Hl as [H1 H2 H3 H4 H5].
    destruct (run_holds pcfg may_lend [ev] (lv_tasks l, lv_world l) (ts, w)) as [G1 G2]; [| |done|done|by split].
    - apply Forall_cons_2; [|constructor]. by eapply pool_event_brings.
    - cbn. by rewrite Ex. }
  destruct e; try exact (Hpe E); clear Hpe; cbn [live_step] in E.
  - destruct (lv_pc l) eqn:Ep; try done. injection E as <-. destruct Hl as [H1 H2 H3 H4 H5]. split; cbn; try done.
    + intros s [Hs|Hs]%enroll_heap; [by apply H3|]. by eapply pool_key.
    + by destruct (least_due _).
  - destruct (lv_pc l); try done. by eapply wake_ok.
  - destruct (lv_pc l) as [| |k start] eqn:Ep; try done. eapply checked_ok; [done|done| |done].
    pose proof (lk_pc _ Hl) as Hk. by rewrite Ep in Hk.
  - destruct (lv_ops l); [|done]. injection E as <-. destruct Hl as [H1 H2 H3 H4 H5]. split; try done.
    cbn. intros px. by apply reload_from_file.
  - destruct (lv_ops l) as [|op ops] eqn:Eo; [done|]. injection E as <-.
    destruct (env_ok (op_event op) l) as [H1 H2 H3 H4 H5]; [|done|].
    + destruct op as [k|px]; [done|]. cbn. right. right. apply (lk_ops _ Hl). rewrite Eo. left.
    + split; try done. cbn in *. intros px Hx. apply H5. rewrite Eo. by right.
Qed.
Lemma live_run_ok es l l' : Forall live_event es -> live_ok l -> live_run rcfg es l = Some l' -> live_ok l'.
Proof.
  intros H. revert l. induction H as [|e es He _ IH]; intros l Hl E; [by injection E as <-|]. cbn in E.
  destruct (live_step rcfg e l) as [l1|] eqn:E1; [|done]. apply (IH l1); [|done]. by eapply live_step_ok.
Qed.

Lemma live_start_ok pool rng now db : config pool = pcfg -> (forall x, x ∈ proxies pool -> may_lend x) ->
  live_ok (live_start pool rng now db).
Proof.
  intros Hc Hp. split; [constructor|by split| |done|].
  - intros x Hx. by apply elem_of_nil in Hx.
  - intros x Hx. by apply elem_of_nil in Hx.
Qed.
(** What any interleaving hands to a client. *)
Lemma handed_may_lend pool rng now db es l i t px :
  config pool = pcfg -> (forall x, x ∈ proxies pool -> from_known pcfg known x) -> Forall live_event es ->
  live_run rcfg es (live_start pool rng now db) = Some l -> lv_tasks l !! i = Some t -> t_pc t = GDone (Some px) ->
  may_lend px /\ serves (t_scheme t) px = true.
Proof.
  intros Hc Hp Hes E Hi Hd. assert (live_ok l) as Hl.
  { eapply live_run_ok; [exact Hes| |exact E]. apply live_start_ok; [done|]. intros x Hx. left. by apply Hp. }
  apply (Forall_lookup_1 _ _ _ _ (lk_tasks _ Hl) Hi px). unfold held. rewrite Hd. by left.
Qed.
End provenance.
End live.

Section pass_demo.
#[local] Existing Instances list_order counter_notify ascii_case demo_powf memory_store.
#[local] Instance up_prober : Prober := demo_prober (fun _ => true).
Definition demo_pass_start : Live :=
  mkLive [] (mkWorld (rw_pool Scheduler.demo_world) 1 notify_new 0) (rw_state Scheduler.demo_world) RcTop (rw_store Scheduler.demo_world) [].
Abbreviation demo_pass_run k :=
  (let? l1 := live_run RecheckConfig_default [LvEnroll (demo_tick 0)] demo_pass_start in
   let? l2 := live_step RecheckConfig_default (LvWake (demo_tick 0)) l1 in
   let? l3 := live_run RecheckConfig_default [LvRemove demo_key] l2 in
   let? l4 := live_step RecheckConfig_default (LvChecked (demo_tick 0)) l3 in k l1 l2 l3 l4).
Definition checking (l : Live) : option (Key * Start) := match lv_pc l with RcCheck k t => Some (k, t) | _ => None end.
(** The address is deleted while it is checked; the check brings it back. *)
Lemma live_pass_witness : exists l1 l2 l3 l4,
  live_run RecheckConfig_default [LvEnroll (demo_tick 0)] demo_pass_start = Some l1 /\
  live_step RecheckConfig_default (LvWake (demo_tick 0)) l1 = Some l2 /\
  live_run RecheckConfig_default [LvRemove demo_key] l2 = Some l3 /\ demo_key ∉ addrs (lv_pool l3) /\
  live_step RecheckConfig_default (LvChecked (demo_tick 0)) l3 = Some l4 /\ demo_key ∈ addrs (lv_pool l4) /\
  exists working, pass RecheckConfig_default (demo_tick 0) (fun _ => lv_pool l1) (fun _ => lv_pool l3)
    (mkR (lv_sched demo_pass_start) (lv_pool demo_pass_start) (lv_store demo_pass_start)) =
    Some (PCheck demo_key (mkStart (61 * 10 ^ 9) (61 * 10 ^ 9 + 5)) working, mkR (lv_sched l4) (lv_pool l4) (lv_store l4)).
Proof.
  assert (E0 : (demo_pass_run (fun _ l2 l3 l4 => Some (checking l2, bool_decide (demo_key ∈ addrs (lv_pool l3)),
      bool_decide (demo_key ∈ addrs (lv_pool l4))))) = Some (Some (demo_key, mkStart (61 * 10 ^ 9) (61 * 10 ^ 9 + 5)), false, true)) by (vm_compute; reflexivity).
  destruct (live_run RecheckConfig_default [LvEnroll (demo_tick 0)] demo_pass_start) as [l1|] eqn:E1; [|discriminate E0].
  cbn [mbind option_bind] in E0. exists l1.
  destruct (live_step RecheckConfig_default (LvWake (demo_tick 0)) l1) as [l2|] eqn:E2; [|discriminate E0].
  cbn [mbind option_bind] in E0. exists l2.
  destruct (live_run RecheckConfig_default [LvRemove demo_key] l2) as [l3|] eqn:E3; [|discriminate E0].
  cbn [mbind option_bind] in E0. exists l3.
  destruct (live_step RecheckConfig_default (LvChecked (demo_tick 0)) l3) as [l4|] eqn:E4; [|discriminate E0].
  cbn [mbind option_bind] in E0. exists l4.
  injection E0 as Hpc H3%bool_decide_eq_false H4%bool_decide_eq_true.
  assert (lv_pc l2 = RcCheck demo_key (mkStart (61 * 10 ^ 9) (61 * 10 ^ 9 + 5))) as Hc.
  { unfold checking in Hpc. destruct (lv_pc l2) as [| |k t]; try discriminate Hpc. injection Hpc as -> ->. reflexivity. }
  pose proof (proj2 (live_pass RecheckConfig_default (demo_tick 0) [] [LvRemove demo_key] demo_pass_start l1 l2 eq_refl eq_refl E1)) as H.
  specialize (H E2). pose proof (proj2 H _ _ _ _ Hc E3 E4) as Hp. clear H.
  by split_and!.
Defined.
End pass_demo.

(** ** [serve] with its re-checker *)
Section serve_live.
Context `{HO : HashOrder} `{N : Notify} `{TL : TunnelLibs} `{R : Regexes} `{UC : UnicodeCase} `{F : Flate} `{P : Powi} `{W : WebLibs}.
Context `{PF : Powf} `{ST : Store}.
Variable lookup_ip : str -> option (list IpAddr).
Variables (default_judges : list str) (marker : Judge -> str).
Variable broker : Broker.

Lemma build_checker_ok resolver q ck : fq_types q <> [] -> build_checker lookup_ip default_judges marker resolver q = Ok ck ->
  exists ips, configured q ips ck.
Proof.
  intros Ht. unfold build_checker. destruct resolver as [bodies|]; [|done]. destruct (external_ips bodies) as [ips|]; [|done].
  cbn. pose proof (checker_new_spec lookup_ip default_judges marker q ips Ht) as Hc. intros E. rewrite E in Hc. exists ips. apply Hc.
Qed.
Lemma wanted_country a px : country_ok px (countries (serve_pool_config a)) = true -> sa_countries a <> [] ->
  exists c, p_geo px = Some c /\ to_uppercase (c_code c) ∈ map to_uppercase (sa_countries a).
Proof.
  unfold country_ok, serve_pool_config. cbn [countries]. unfold non_empty. destruct (sa_countries a) as [|c0 cs] eqn:Ec; [done|].
  cbn [fmap option_fmap option_map]. destruct (p_geo px) as [c|]; [|done]. intros Hc _. exists c. split; [done|].
  apply bool_decide_eq_true in Hc. by apply elem_of_list_to_set in Hc.
Qed.
(** Found working as the flags ask: a confirmed protocol, on none of the blocklists, and of the
    requested types and levels only when strict. *)
Definition vetted (a : ServeArgs) (ck : Checker) (px : Proxy) : Prop :=
  p_types px <> ∅ /\ (sa_dnsbl a = [] \/ in_dnsbl lookup_ip ck (p_host px) = false) /\
  (sa_strict a = true -> forall t l, p_types px !! t = Some l -> passes (types_from (sa_types a) (sa_lvl a)) true t l = true).

(** What [serve] may lend when its pool is filled by [find] and re-checked: its address is one of the stored history
    or one a provider named and [find] found working; the proxy let in at that address was of a wanted country. It is
    that proxy still, or what the re-checker made of the bare address later: found working again,
    and vetted as [find] vets, its geolocation what the check leaves of a new proxy. *)
Definition lendable (a : ServeArgs) (batches : list (list Candidate)) (fr : CheckRun) (history emitted : list Proxy) (ck : Checker)
    (cworld : Z -> Proto -> nat -> CheckEnv) (cdraw : Z -> Proto -> nat) (px : Proxy) : Prop :=
  exists o, p_key px = p_key o /\
    (sa_countries a <> [] -> exists c, p_geo o = Some c /\ to_uppercase (c_code c) ∈ map to_uppercase (sa_countries a)) /\
    (o ∈ history \/ (o ∈ emitted /\ p_key o ∈ omap cand_key (concat batches) /\ vetted a (cr_checker fr) o)) /\
    (same_proxy o px \/
     (vetted a ck px /\ exists seed p, check lookup_ip ck (cworld seed) (cdraw seed) (new (p_host px) (p_port px) ∅) = Some (true, p) /\
        same_proxy p px)).
Lemma may_lend_found a resolver resolver' batches fr ck world draw cworld cdraw chk r history (on : Prop) px
  (Hfind : find lookup_ip default_judges marker broker resolver (serve_query a) batches = Ok fr)
  (Hck : on -> build_checker lookup_ip default_judges marker resolver' (serve_query a) = Ok ck)
  (Hchk : forall p, p ∈ cr_source fr -> check lookup_ip (cr_checker fr) (world p) (draw p) p = Some (chk p))
  (Hr : reaches chk (cr_max_conn fr) (cr_limit fr) (cr_caps fr) (cr_source fr) r) :
  may_lend (PR := checker_prober lookup_ip ck cworld cdraw) (serve_pool_config a) (history ++ r_emitted r) [] on px ->
  lendable a batches fr history (r_emitted r) ck cworld cdraw px.
Proof.
  intros Hm. destruct (find_ok _ _ _ _ _ _ _ _ Hfind) as (Hty & _). destruct (serve_asks a) as (Qt & Qd & Qs).
  assert (forall o, o ∈ history ++ r_emitted r -> o ∈ history \/ (o ∈ r_emitted r /\ p_key o ∈ omap cand_key (concat batches) /\ vetted a (cr_checker fr) o)) as Horig.
  { intros o [Ho|Ho]%elem_of_app; [by left|right]. split; [done|].
    destruct (find_emitted _ _ _ _ _ _ _ _ _ _ _ _ Hfind Hchk Hr) as [_ Hem]. destruct (Hem o Ho) as (_ & _ & _ & _ & _ & Hn & _).
    split; [done|]. pose proof (emitted_checked _ _ _ _ _ _ _ _ _ _ _ _ _ Hfind Hchk Hr Ho) as Hv.
    unfold vetted. by rewrite <- Qt, <- Qd, <- Qs. }
  destruct Hm as [(Hc & o & Ho & Hsame)|[(Hon & Hk & seed & p & Hp & Hsame)|(o & Ho & _)]]; [| |by apply elem_of_nil in Ho].
  - exists o. split; [apply Hsame|]. split; [|split; [by apply Horig|by left]]. intros Hne.
    destruct (wanted_country _ _ Hc Hne) as (c & Hg & Hin). destruct Hsame as (_ & _ & Hge). rewrite <- Hge. by exists c.
  - destruct Hk as [(o & Ho & Hc & Hk)|(o & Ho & _)]; [|by apply elem_of_nil in Ho].
    exists o. split; [done|]. split; [by apply wanted_country|]. split; [by apply Horig|]. right.
    destruct (build_checker_ok _ _ _ Hty (Hck Hon)) as (ips & Hreq & _ & _ & _ & Hst & _ & _ & Hdns & _). split; [|by exists seed, p].
    cbn in Hp. apply check_spec in Hp as (Hkey & _ & _ & Hb); [|by rewrite Hreq]. destruct (Hb eq_refl) as (Hd & Hne & _ & Hstrict).
    destruct Hsame as (Hkp & Htp & _). unfold vetted. rewrite Htp, <- Qt, <- Qd, <- Qs. rewrite Hdns, Hst, Hreq in *. by split_and!.
Qed.

(** What a client of [serve] is handed, with re-checking on. In every interleaving of the clients,
    their returns, the importer, the control API and the re-checker, the proxy serves the request's
    scheme, and it is one that may be lent ([lendable]). *)
Theorem serve_live : forall a resolver resolver' batches fr ck world draw cworld cdraw chk r history rcfg rng now db es l
  (Hfind : find lookup_ip default_judges marker broker resolver (serve_query a) batches = Ok fr)
  (Hck : build_checker lookup_ip default_judges marker resolver' (serve_query a) = Ok ck)
  (Hchk : forall p, p ∈ cr_source fr -> check lookup_ip (cr_checker fr) (world p) (draw p) p = Some (chk p))
  (Hr : reaches chk (cr_max_conn fr) (cr_limit fr) (cr_caps fr) (cr_source fr) r)
  (Hes : Forall (live_event (history ++ r_emitted r) [] True) es)
  (Hrun : live_run (PR := checker_prober lookup_ip ck cworld cdraw) rcfg es
            (live_start (spawned (serve_pool_config a)) rng now db) = Some l)
  i t px (Hi : lv_tasks l !! i = Some t) (Hdone : t_pc t = GDone (Some px)),
  serves (t_scheme t) px = true /\ lendable a batches fr history (r_emitted r) ck cworld cdraw px.
Proof.
  intros. destruct (handed_may_lend (PR := checker_prober lookup_ip ck cworld cdraw) (serve_pool_config a) rcfg (history ++ r_emitted r) [] True
    (spawned (serve_pool_config a)) rng now db es l i t px eq_refl) as [Hm Hs]; [|done..|].
  { intros x Hx. by apply elem_of_nil in Hx. }
  split; [exact Hs|].
  exact (may_lend_found a resolver resolver' batches fr ck world draw cworld cdraw chk r history True px Hfind (fun _ => Hck) Hchk Hr Hm).
Qed.
End serve_live.

(** ** A proxy deleted while it is re-checked comes back, without its geolocation *)
Section live_demo.
#[local] Existing Instances list_order counter_notify sample_regexes no_libs ascii_case no_flate one_powi demo_web demo_powf memory_store.
Definition demo_live_events (px : Proxy) : list LiveEvent :=
  [LvImport px; LvEnroll (demo_tick 0); LvWake (demo_tick 0); LvRemove (p_key px); LvChecked (demo_tick 0);
   LvSpawn SHttp (KIp (V4 7)); LvTask 0 0 false; LvTask 0 0 false].
Abbreviation demo_served := (find (fun _ => Some [V4 9]) [lit "http://judge/"] (fun _ => lit "4711") demo_broker demo_resolver
  (serve_query demo_serve_args) demo_batches).
Abbreviation demo_fr_run fr := (exec_events (demo_answer (cr_checker fr)) (cr_limit fr) (cr_caps fr) demo_find_events
  (new_run (cr_max_conn fr) (cr_source fr))).
Abbreviation demo_ck_of := (build_checker (fun _ => Some [V4 9]) [lit "http://judge/"] (fun _ => lit "4711") demo_resolver (serve_query demo_serve_args)).
Abbreviation demo_live ck px :=
  (live_run (PR := checker_prober (fun _ => Some [V4 9]) ck (fun _ => Checker.demo_world) (fun _ _ => 0%nat)) RecheckConfig_default
    (demo_live_events px) (live_start (spawned (serve_pool_config demo_serve_args)) 1 0 ∅)).
Definition demo_stored : Proxy :=
  set_geo (Some {| c_code := lit "US"; c_name := lit "United States"; c_region := None; c_city := None |}) None
    (add_type Http (Some High) (new (V4 84281096) 8080 ∅)).

Lemma serve_live_witness : exists fr r ck l t got,
  demo_served = Ok fr /\ demo_fr_run fr = Some r /\ demo_ck_of = Ok ck /\ demo_live ck demo_stored = Some l /\
  lv_tasks l !! 0%nat = Some t /\ t_pc t = GDone (Some got) /\ p_geo demo_stored <> None /\ p_geo got = None /\
  p_key got = p_key demo_stored /\ p_types got <> ∅.
Proof.
  assert (E0 : (match demo_served, demo_ck_of with
     | Ok fr, Ok ck => (fun x : Proxy => (p_key x, p_geo x)) <$> (demo_fr_run fr ≫= fun _ => demo_live ck demo_stored ≫= fun l => lent 0 (lv_tasks l))
     | _, _ => None end) = Some ((V4 84281096, 8080), None)) by (vm_compute; reflexivity).
  assert (E1 : (match demo_served with
                | Ok fr => forallb (fun p => bool_decide (is_Some (fst <$> demo_check (cr_checker fr) p))) (cr_source fr)
                | Err _ => false end) = true) by (vm_compute; reflexivity).
  destruct demo_served as [fr|] eqn:Ef; [|discriminate E0]. exists fr.
  destruct demo_ck_of as [ck|] eqn:Ec; [|discriminate E0].
  destruct (demo_fr_run fr) as [r|] eqn:Er; [|discriminate E0]. exists r, ck. cbn [mbind option_bind] in E0.
  destruct (demo_live ck demo_stored) as [l|] eqn:El; [|discriminate E0]. exists l. cbn [mbind option_bind] in E0.
  unfold lent in E0. destruct (lv_tasks l !! 0%nat) as [t|] eqn:Et; [|discriminate E0]. exists t. cbn [mbind option_bind] in E0.
  destruct (t_pc t) as [| | | | | | |o| | | |] eqn:Epc; try discriminate E0. destruct o as [got|]; [|discriminate E0]. exists got.
  assert (p_key got = (V4 84281096, 8080) /\ p_geo got = None) as [Ek Eg] by (apply (inj Some) in E0; injection E0 as F1 F2 F3; split; [unfold p_key; by rewrite F1, F2|exact F3]).
  assert (forall p, p ∈ cr_source fr -> check (fun _ => Some [V4 9]) (cr_checker fr) Checker.demo_world (fun _ => 0%nat) p =
    Some (demo_answer (cr_checker fr) p)) as Hchk.
  { intros p Hp. rewrite forallb_elem in E1. specialize (E1 p Hp). apply bool_decide_eq_true in E1.
    unfold demo_answer. change (check _ _ _ _ _) with (demo_check (cr_checker fr) p).
    destruct (demo_check (cr_checker fr) p); [reflexivity|]. destruct E1 as [? E1]. discriminate E1. }
  assert (Forall (live_event ([demo_stored] ++ r_emitted r) [] True) (demo_live_events demo_stored)) as Hev.
  { apply Forall_cons_2; [left|]. repeat (apply Forall_cons_2; [exact I|]). apply Forall_nil_2. }
  pose proof (serve_live (fun _ => Some [V4 9]) [lit "http://judge/"] (fun _ => lit "4711") demo_broker demo_serve_args
    demo_resolver demo_resolver demo_batches fr ck (fun _ => Checker.demo_world) (fun _ _ => 0%nat) (fun _ => Checker.demo_world) (fun _ _ => 0%nat)
    (demo_answer (cr_checker fr)) r [demo_stored] RecheckConfig_default 1 0 ∅ (demo_live_events demo_stored) l Ef Ec Hchk
    (exec_reaches _ _ _ _ _ _ _ _ (reaches_start _ _ _ _ _) Er) Hev) as HQ.
  specialize (HQ El 0%nat t got Et Epc). clear - HQ Et Epc Ek Eg.
  do 6 (split; [first [reflexivity|exact Et|exact Epc]|]). split; [discriminate|]. split; [exact Eg|]. split; [exact Ek|].
  destruct HQ as (_ & o & _ & _ & Ho & HQ). destruct HQ as [(_ & Hty & _)|[Hv _]]; [|exact (proj1 Hv)]. rewrite Hty.
  destruct Ho as [Ho|(_ & _ & Hv)]; [|exact (proj1 Hv)]. apply list_elem_of_singleton in Ho as ->. discriminate.
Defined.
End live_demo.
