(* ===== verification/Whole.v ===== *)
(** * The whole of [serve]

    Everything [serve] runs at once, over one pool: the accept loop and the handlers of its clients
    (Gateway.v), the metrics port (Scrape.v), the importer, the re-checker and the watcher (Live.v),
    started as the command line asks (Cmd.v) and stopped by Ctrl-C. *)
From S2P Require Import Prelude F64 Text Types Addr Utils Proxy ProxyJson Pool Http Net Negotiator Client Relay Judge Checker Store Redis Scheduler Provider Stats Watch Pipeline Geo Broker Ndjson Cli Report Sink ProviderDir Cmd PoolSteps Holds Server Listener Gateway Scrape Served Live.
Open Scope Z_scope.

Section whole.
Context `{HO : HashOrder} `{N : Notify} `{UC : UnicodeCase} `{TL : TunnelLibs} `{SP : Splice} `{PF : Powf} `{PR : Prober} `{ST : Store}.
Variables (cx : ConnCtx) (rcfg : RecheckConfig).

(** The two servers; the re-checker's state and the watcher's; whether those two were cancelled, and run. *)
Record Whole := mkWhole {
  wh_node : Node; wh_sched : RState; wh_rc : RcPc; wh_store : store; wh_ops : list WatchOp;
  wh_cancelled : bool; wh_rechecks : bool; wh_watches : bool
}.
Definition wh_gateway (w : Whole) : Gateway := nd_gateway (wh_node w).
Inductive WholeEvent :=
| WNode (e : NodeEvent)
| WBack (e : LiveEvent)          (* the importer, the re-checker, the watcher *)
| WRecheckStops | WWatchStops    (* each at an await, once cancelled *)
| WExit.                         (* Ctrl-C: [shutdown], and every handle is dropped *)
(** What the tasks in the background see. *)
Definition back (w : Whole) : Live :=
  mkLive [] (gw_world (wh_gateway w)) (wh_sched w) (wh_rc w) (wh_store w) (wh_ops w).
Definition with_node (nd : Node) (w : Whole) : Whole :=
  mkWhole nd (wh_sched w) (wh_rc w) (wh_store w) (wh_ops w) (wh_cancelled w) (wh_rechecks w) (wh_watches w).
Definition with_back (l : Live) (w : Whole) : Whole :=
  let g := wh_gateway w in
  mkWhole (mkNode (mkGw (gw_listener g) (gw_handlers g) (lv_world l) (gw_history g)) (nd_metrics (wh_node w)))
    (lv_sched l) (lv_pc l) (lv_store l) (lv_ops l) (wh_cancelled w) (wh_rechecks w) (wh_watches w).
Definition runs (w : Whole) (e : LiveEvent) : bool :=
  match e with
  | LvImport _ | LvEnd | LvNotify | LvDrift _ _ => true
  | LvEnroll _ | LvWake _ | LvChecked _ => wh_rechecks w
  | LvReload _ | LvApply => wh_watches w
  | _ => false
  end.
(** A check under way is not cancelled; a reload is one stretch. *)
Definition recheck_stops (w : Whole) : bool :=
  wh_cancelled w && wh_rechecks w && match wh_rc w with RcCheck _ _ => false | _ => true end.
Definition watch_stops (w : Whole) : bool := wh_cancelled w && wh_watches w && match wh_ops w with [] => true | _ => false end.
Definition whole_step (e : WholeEvent) (w : Whole) : option Whole :=
  match e with
  | WNode (NGw (GwEnv _)) => None
  | WNode e => let? nd := node_step cx e (wh_node w) in Some (with_node nd w)
  | WBack e => if runs w e then let? l := live_step rcfg e (back w) in Some (with_back l w) else None
  | WRecheckStops =>
      if recheck_stops w then
        Some (mkWhole (wh_node w) (wh_sched w) (wh_rc w) (wh_store w) (wh_ops w) (wh_cancelled w) false (wh_watches w))
      else None
  | WWatchStops =>
      if watch_stops w then
        Some (mkWhole (wh_node w) (wh_sched w) (wh_rc w) (wh_store w) (wh_ops w) (wh_cancelled w) (wh_rechecks w) false)
      else None
  | WExit =>
      let? nd := node_step cx (NGw GwShutdown) (wh_node w) in
      let? nd := node_step cx (NMx MxShutdown) nd in
      Some (mkWhole nd (wh_sched w) (wh_rc w) (wh_store w) (wh_ops w) true (wh_rechecks w) (wh_watches w))
  end.
Fixpoint whole_run (es : list WholeEvent) (w : Whole) : option Whole :=
  match es with [] => Some w | e :: es => let? w := whole_step e w in whole_run es w end.

(** ** It is a gateway, and a [Live] without clients *)
Definition gateway_event (e : WholeEvent) : option GwEvent :=
  match e with WNode (NGw e) => Some e | WExit => Some GwShutdown | _ => None end.
Definition clients_of (es : list WholeEvent) : list (IpAddr * Conn) := accepted (omap gateway_event es).
(** What the background does to the shared world is one operation of the others, or nothing. *)
Lemma back_world w e l : runs w e = true -> live_step rcfg e (back w) = Some l ->
  lv_tasks l = [] /\ (lv_world l = gw_world (wh_gateway w) \/ exists op, lv_world l = env_step op (gw_world (wh_gateway w))).
Proof.
  intros Hr E. destruct e; try done; cbn [live_step back lv_pc lv_ops lv_tasks lv_world] in E.
  - cbn in E. injection E as <-. split; [done|]. right. by exists (EImport px).
  - cbn in E. injection E as <-. split; [done|]. right. by exists EEnd.
  - cbn in E. injection E as <-. split; [done|]. right. by exists ENotify.
  - cbn in E. injection E as <-. split; [done|]. right. by exists (EDrift cursor pins).
  - destruct (wh_rc w); try done. injection E as <-. by split; [|left].
  - destruct (wh_rc w); try done. unfold wake_step in E. destruct (least_due _) as [t|]; [|done]. cbn zeta in E.
    destruct (tk_woken tk <? t); [injection E as <-; by split; [|left]|]. destruct (gap rcfg); [|done].
    destruct (pop _ _) as [[job rest]|]; [|done]. cbn in E. destruct (negb _ && negb _); injection E as <-; by split; [|left].
  - destruct (wh_rc w) as [| |k start]; try done. unfold checked_step in E.
    destruct (prober_check _ _) as [[b p]|]; [|done]. cbn in E. destruct (settle _ _ _ _ _ _ _) as [[st q]|]; [|done]. injection E as <-.
    split; [done|]. right. eexists. reflexivity.
  - destruct (wh_ops w); [|done]. injection E as <-. by split; [|left].
  - destruct (wh_ops w) as [|op ops]; [done|]. injection E as <-. split; [done|]. right. eexists. reflexivity.
Qed.
(** The gateway's part of one step. *)
Lemma whole_gateway_step e w w' : whole_step e w = Some w' ->
  exists ges, gw_run cx ges (wh_gateway w) = Some (wh_gateway w') /\ accepted ges = clients_of [e].
Proof.
  intros E. destruct e as [[ge|me]|le| | |]; cbn [whole_step] in E.
  - assert (node_step cx (NGw ge) (wh_node w) = Some (wh_node w') /\ (forall op, ge <> GwEnv op)) as [En Hne].
    { destruct ge; try done; (destruct (node_step cx _ (wh_node w)) as [nd|]; [|done]); injection E as <-; split; done. }
    cbn in En. destruct (gw_step cx ge (nd_gateway (wh_node w))) as [g|] eqn:Eg; [|done]. injection En as En.
    exists [ge]. split; [|done]. cbn. unfold wh_gateway. rewrite Eg, <- En. done.
  - cbn in E. destruct (mx_step _ me _) as [m|]; [|done]. injection E as <-. by exists [].
  - destruct (runs w le) eqn:Hr; [|done]. destruct (live_step rcfg le (back w)) as [l|] eqn:El; [|done]. injection E as <-.
    destruct (back_world _ _ _ Hr El) as [_ [Hw|[op Hw]]]; unfold with_back, wh_gateway in *; cbn.
    + exists []. rewrite Hw. cbn. by destruct (nd_gateway (wh_node w)).
    + exists [GwEnv op]. cbn. by rewrite Hw.
  - destruct (recheck_stops w); [|done]. injection E as <-. by exists [].
  - destruct (watch_stops w); [|done]. injection E as <-. by exists [].
  - cbn in E. injection E as <-. by exists [GwShutdown].
Qed.
Lemma whole_gateway es w w' : whole_run es w = Some w' ->
  exists ges, gw_run cx ges (wh_gateway w) = Some (wh_gateway w') /\ accepted ges = clients_of es.
Proof.
  revert w. induction es as [|e es IH]; intros w E; [injection E as <-; by exists []|]. cbn in E.
  destruct (whole_step e w) as [w1|] eqn:E1; [|done]. destruct (whole_gateway_step _ _ _ E1) as (g1 & H1 & A1). destruct (IH w1 E) as (g2 & H2 & A2).
  exists (g1 ++ g2). rewrite gw_run_app, H1. split; [done|]. unfold clients_of, accepted in *. cbn in *. rewrite omap_app, A1, A2.
  destruct (gateway_event e) as [ge|]; cbn; [by destruct (admitted ge)|done].
Qed.

(** ** Everything that is used may be lent *)
Section provenance.
Variables (pcfg : PoolConfig) (known filed : list Proxy) (on : Prop).
Abbreviation S := (may_lend pcfg known filed on).
(** [r]: whether the re-checker was started. *)
Definition back_event (r : bool) (e : LiveEvent) : Prop :=
  match e with
  | LvImport px => px ∈ known
  | LvReload desired => forall px, px ∈ desired -> px ∈ filed
  | LvChecked _ => r = true -> on
  | _ => True
  end.
Definition whole_event (r : bool) (e : WholeEvent) : Prop := match e with WBack e => back_event r e | _ => True end.
Record whole_ok (n : nat) (r : bool) (es : list WholeEvent) (w : Whole) : Prop := {
  wk_gateway : exists ges, accepted ges = clients_of es /\ gw_ok cx pcfg S n ges (wh_gateway w);
  wk_back : live_ok pcfg known filed on (back w);
  wk_on : wh_rechecks w = true -> r = true;
}.
Lemma may_lend_attempt px t e : S px -> S (record_attempt t e px).
Proof. exact (may_lend_used pcfg known filed on px [(t, e)]). Qed.
Lemma gw_ok_world n ges g w : gw_ok cx pcfg S n ges g -> pool_holds pcfg S (w_pool w) ->
  gw_ok cx pcfg S n ges (mkGw (gw_listener g) (gw_handlers g) w (gw_history g)).
Proof. intros [H1 H2 H3 H4 H5] Hp. by split. Qed.
Lemma back_pool w g : live_ok pcfg known filed on (back w) -> pool_holds pcfg S (w_pool (gw_world g)) ->
  forall mx c r wt, live_ok pcfg known filed on (back (mkWhole (mkNode g mx) (wh_sched w) (wh_rc w) (wh_store w) (wh_ops w) c r wt)).
Proof. intros [H1 H2 H3 H4 H5] Hp mx c r wt. by split. Qed.
Lemma clients_snoc es e : clients_of (es ++ [e]) = clients_of es ++ clients_of [e].
Proof. unfold clients_of, accepted. by rewrite !omap_app. Qed.
(** The gateway takes a step of its own. *)
Lemma gateway_moves n r es w ge g mx c : whole_ok n r es w -> gw_step cx ge (wh_gateway w) = Some g -> (forall op, ge <> GwEnv op) ->
  forall e, gateway_event e = Some ge ->
  whole_ok n r (es ++ [e]) (mkWhole (mkNode g mx) (wh_sched w) (wh_rc w) (wh_store w) (wh_ops w) c (wh_rechecks w) (wh_watches w)).
Proof.
  intros [(ges & Ha & Hg) Hb Hon] E Hne e He.
  pose proof (gw_step_ok cx pcfg S may_lend_attempt n ges ge (wh_gateway w) g Hg ltac:(destruct ge; try done; by destruct (Hne op)) E) as Hg'.
  split; [|apply back_pool; [done|apply Hg']|done]. exists (ges ++ [ge]). split; [|done].
  rewrite clients_snoc, <- Ha. unfold clients_of, accepted. rewrite omap_app. cbn. rewrite He. done.
Qed.
Lemma whole_step_ok n r es e w w' : whole_ok n r es w -> whole_event r e -> whole_step e w = Some w' -> whole_ok n r (es ++ [e]) w'.
Proof.
  intros Hw He E.
  assert (gateway_event e = None -> wh_node w' = wh_node w \/ (exists mx, wh_node w' = mkNode (wh_gateway w) mx) ->
    wh_sched w' = wh_sched w -> wh_rc w' = wh_rc w -> wh_store w' = wh_store w -> wh_ops w' = wh_ops w ->
    (wh_rechecks w' = true -> wh_rechecks w = true) -> whole_ok n r (es ++ [e]) w') as Hstill.
  { intros Hn Hnode H1 H2 H3 H4 H5. destruct Hw as [(ges & Ha & Hg) Hb Hon].
    assert (wh_gateway w' = wh_gateway w) as Hgw by (unfold wh_gateway; destruct Hnode as [->|[mx ->]]; done).
    assert (back w' = back w) as Hback by (unfold back; by rewrite Hgw, H1, H2, H3, H4).
    split; [|by rewrite Hback|auto]. exists ges. rewrite Hgw, clients_snoc, <- Ha. split; [|done].
    unfold clients_of, accepted. cbn. rewrite Hn. cbn. by rewrite app_nil_r. }
  destruct e as [[ge|me]|le| | |]; cbn [whole_step] in E.
  - assert ((forall op, ge <> GwEnv op) /\ (let? nd := node_step cx (NGw ge) (wh_node w) in Some (with_node nd w)) = Some w') as [Hne E']
      by (by destruct ge).
    cbn in E'. destruct (gw_step cx ge (nd_gateway (wh_node w))) as [g|] eqn:Eg; [|done]. injection E' as <-.
    by eapply gateway_moves.
  - cbn in E. destruct (mx_step _ me _) as [m|]; [|done]. injection E as <-. apply Hstill; try done. right. by exists m.
  - destruct (runs w le) eqn:Hr; [|done]. destruct (live_step rcfg le (back w)) as [l|] eqn:El; [|done]. injection E as <-.
    destruct Hw as [(ges & Ha & Hg) Hb Hon]. destruct (back_world _ _ _ Hr El) as [Ht _].
    assert (live_ok pcfg known filed on l) as Hl.
    { eapply (live_step_ok pcfg rcfg known filed on le (back w)); [|done|done]. cbn in He. destruct le; try done. apply He, Hon, Hr. }
    split; [|destruct Hl as [L1 L2 L3 L4 L5]; by split|done]. exists ges. split; [|apply gw_ok_world; [done|apply Hl]].
    rewrite clients_snoc, <- Ha. unfold clients_of, accepted. cbn. by rewrite app_nil_r.
  - destruct (recheck_stops w); [|done]. injection E as <-. apply Hstill; try done. by left.
  - destruct (watch_stops w); [|done]. injection E as <-. apply Hstill; try done. by left.
  - assert (exists g, gw_step cx GwShutdown (wh_gateway w) = Some g /\
      w' = mkWhole (mkNode g (mkMx true (mx_stopped (nd_metrics (wh_node w))) (mx_scrapers (nd_metrics (wh_node w)))))
             (wh_sched w) (wh_rc w) (wh_store w) (wh_ops w) true (wh_rechecks w) (wh_watches w)) as (g & Eg & ->).
    { eexists. split; [reflexivity|]. cbn in E. by injection E as <-. }
    by eapply gateway_moves.
Qed.
Lemma whole_run_ok n r fs : forall es w w', whole_ok n r es w -> Forall (whole_event r) fs -> whole_run fs w = Some w' ->
  whole_ok n r (es ++ fs) w'.
Proof.
  induction fs as [|e fs IH]; intros es w w' Hw Hf E; [injection E as <-; by rewrite app_nil_r|]. cbn in E.
  apply Forall_cons in Hf as [He Hf]. destruct (whole_step e w) as [w1|] eqn:E1; [|done].
  rewrite cons_middle, app_assoc. eapply IH; [by eapply whole_step_ok|done|done].
Qed.
End provenance.
(** What is off stays off. *)
Lemma runs_only es w w' : whole_run es w = Some w' ->
  (wh_rechecks w = false -> forall tk, WBack (LvChecked tk) ∉ es) /\ (wh_watches w = false -> forall d, WBack (LvReload d) ∉ es).
Proof.
  revert w. induction es as [|e es IH]; intros w E; [split; intros _ x; apply not_elem_of_nil|]. cbn in E.
  destruct (whole_step e w) as [w1|] eqn:E1; [|done]. destruct (IH w1 E) as [H1 H2].
  assert ((wh_rechecks w = false -> wh_rechecks w1 = false) /\ (wh_watches w = false -> wh_watches w1 = false) /\
    (wh_rechecks w = false -> forall tk, e <> WBack (LvChecked tk)) /\ (wh_watches w = false -> forall d, e <> WBack (LvReload d))) as (A1 & A2 & A3 & A4).
  { destruct e as [ne|le| | |]; cbn [whole_step] in E1.
    - assert ((let? nd := node_step cx ne (wh_node w) in Some (with_node nd w)) = Some w1) as E' by (by destruct ne as [[]|]).
      destruct (node_step cx ne (wh_node w)); [|done]. injection E' as <-. by split_and!.
    - destruct (runs w le) eqn:Hr; [|done]. destruct (live_step rcfg le (back w)) as [l|]; [|done]. injection E1 as <-.
      split_and!; try done; intros Hf x [= ->]; cbn in Hr; by rewrite Hf in Hr.
    - destruct (recheck_stops w); [|done]. injection E1 as <-. by split_and!.
    - destruct (watch_stops w); [|done]. injection E1 as <-. by split_and!.
    - cbn in E1. injection E1 as <-. by split_and!. }
  split; intros Hf x [Hx|Hx]%elem_of_cons; [by destruct (A3 Hf x)|by apply (H1 (A1 Hf) x)|by destruct (A4 Hf x)|by apply (H2 (A2 Hf) x)].
Qed.
End whole.

(** ** From the command line to the client *)
Lemma answered_mono `{TL : TunnelLibs} `{SP : Splice} cx cfg (S S' : Proxy -> Prop) ip c0 c2 :
  (forall px, S px -> S' px) -> answered cx cfg S ip c0 c2 -> answered cx cfg S' ip c0 c2.
Proof.
  unfold answered. intros HS. destruct (parse_client_request (cx_auth cx) c0) as [[req|e] c]; [|done].
  intros [H|(px & out & (Hg & Hp & Hs & Hd) & Hout)]; [by left|right]. exists px, out. split; [|done].
  split; [done|]. split; [by apply HS|]. by split.
Qed.

Section serve.
Context `{HO : HashOrder} `{N : Notify} `{TL : TunnelLibs} `{SP : Splice} `{R : Regexes} `{UC : UnicodeCase} `{F : Flate} `{P : Powi} `{W : WebLibs}.
Context `{L : Lua} `{J : JsonText} `{PF : Powf} `{ST : Store}.

(** What runs, of what [serve] started. *)
Definition recheck_of (sv : Serving) : option (Checker * RecheckConfig) :=
  head (omap (fun s => match s with SvRecheck _ c cfg => Some (c, cfg) | _ => None end) (sv_services sv)).
Definition server_of (sv : Serving) : nat * option str :=
  default (0%nat, None) (head (omap (fun s => match s with SvServer _ _ n _ auth => Some (n, auth) | _ => None end) (sv_services sv))).
Definition metrics_on (sv : Serving) : bool := existsb (fun s => match s with SvMetrics _ => true | _ => false end) (sv_services sv).
Definition watch_on (sv : Serving) : bool := existsb (fun s => match s with SvWatch _ => true | _ => false end) (sv_services sv).
Definition source_pool (sv : Serving) : Pool :=
  match sv_source sv with FromFile ps => from_proxies ps (sv_config sv) | FromFind _ _ _ => spawned (sv_config sv) end.
Definition whole_cx (lookup_ip : str -> option (list IpAddr)) (sv : Serving) : ConnCtx := conn_ctx lookup_ip (sv_config sv) (server_of sv).2.
(** Without [--metrics] there is no responder. *)
Definition whole_start (sv : Serving) (rng now : Z) (db : store) : Whole :=
  mkWhole (mkNode (gw_start (source_pool sv) (server_of sv).1 rng) (mkMx false (negb (metrics_on sv)) []))
    (initial now) RcTop db [] false (bool_decide (is_Some (recheck_of sv))) (watch_on sv).

Variable f64_show : f64 -> str.
Variables (lookup_ip : str -> option (list IpAddr)) (default_judges : list str) (marker : Judge -> str).
Variables (stores : Stores) (b : Broker) (resolver : result (list (option str)) Error) (batches : list (list Candidate)).
Variables (sw : ServeWorld) (a : ServeArgs).
Abbreviation start := (serve_start f64_show lookup_ip default_judges marker stores b resolver batches sw a).

(** The services are what the flags ask for. *)
Lemma started fs sv : start_result lookup_ip default_judges marker stores b resolver batches sw a fs = Ok sv ->
  sv_config sv = serve_pool_config a /\ sourced lookup_ip default_judges marker stores b resolver batches a fs (sv_source sv) /\
  server_of sv = (sa_min_queue a, sa_auth a) /\
  (forall c rc, recheck_of sv = Some (c, rc) -> build_checker lookup_ip default_judges marker resolver (serve_query a) = Ok c) /\
  (sa_load a = None -> watch_on sv = false).
Proof.
  intros (Hc & Hs & m & l & k & local & Em & El & Ek & _ & Hsv)%start_parts. split; [done|]. split; [by apply source_sourced|].
  rewrite (metrics_services _ _ _ Em), (recheck_services _ _ _ _ _ _ _ El), (watch_services _ _ _ Ek) in Hsv.
  unfold server_of, recheck_of, watch_on. rewrite Hsv. clear. generalize (build_checker lookup_ip default_judges marker resolver (serve_query a)).
  intros built. split_and!.
  - destruct (sa_metrics a), (sw_bind_metrics sw), (sa_recheck a), built, (sa_load a), (sa_watch a); reflexivity.
  - intros c rc. destruct built, (sa_metrics a), (sw_bind_metrics sw), (sa_recheck a), (sa_load a), (sa_watch a); cbn; naive_solver.
  - intros ->. destruct (sa_metrics a), (sw_bind_metrics sw), (sa_recheck a), built; reflexivity.
Qed.

(** The proxies a reload read. *)
Definition reloaded (es : list WholeEvent) : list Proxy :=
  concat (omap (fun e => match e with WBack (LvReload desired) => Some desired | _ => None end) es).
(** What a client may be served with: filled by [find], what Live.v says; filled from a file, a proxy of the file or
    the history, of a wanted country, or one of a reloaded file. *)
Definition served_from (src : ServeSource) (emitted filed : list Proxy) (ck : Checker)
    (cworld : Z -> Proto -> nat -> CheckEnv) (cdraw : Z -> Proto -> nat) (px : Proxy) : Prop :=
  match src with
  | FromFile ps => exists o, same_proxy o px /\
      ((o ∈ ps /\ (sa_countries a <> [] -> exists c, p_geo o = Some c /\ to_uppercase (c_code c) ∈ map to_uppercase (sa_countries a))) \/ o ∈ filed)
  | FromFind history _ fr => lendable lookup_ip a batches fr history emitted ck cworld cdraw px
  end.
(** The search behind the pool: what its pipeline emitted. *)
Definition search (src : ServeSource) (emitted : list Proxy) : Prop :=
  match src with
  | FromFile _ => emitted = []
  | FromFind _ _ fr => exists world draw chk r,
      (forall p, p ∈ cr_source fr -> check lookup_ip (cr_checker fr) (world p) (draw p) p = Some (chk p)) /\
      reaches chk (cr_max_conn fr) (cr_limit fr) (cr_caps fr) (cr_source fr) r /\ emitted = r_emitted r
  end.
(** What the importer is given. *)
Definition stream_of (src : ServeSource) (emitted : list Proxy) : list Proxy :=
  match src with FromFile _ => [] | FromFind history _ _ => history ++ emitted end.

Lemma reloaded_elem es d px : WBack (LvReload d) ∈ es -> px ∈ d -> px ∈ reloaded es.
Proof.
  intros Hd Hp. unfold reloaded. apply list_elem_of_In, in_concat. exists d. split; [|by apply list_elem_of_In].
  apply list_elem_of_In, list_elem_of_omap. by exists (WBack (LvReload d)).
Qed.
Lemma file_lends (on : Prop) `{PR : Prober} ps filed px emitted ck cworld cdraw : ~ on -> may_lend (serve_pool_config a) ps filed on px ->
  served_from (FromFile ps) emitted filed ck cworld cdraw px.
Proof.
  intros Hno [(Hc & o & Ho & Hs)|[(Hon & _)|(o & Ho & Hs)]]; [|by destruct Hno|exists o; split; [done|by right]].
  exists o. split; [done|]. left. split; [done|]. intros Hne. destruct (wanted_country _ _ Hc Hne) as (c & Hg & Hin). exists c. split; [|done].
  destruct Hs as (_ & _ & <-). exact Hg.
Qed.
(** Every run keeps to what may be lent, whichever way the pool is filled. *)
Lemma whole_lends fs sv ck rcfg cworld cdraw emitted rng now db es w
  (Hok : serve_args_ok a = true) (Hres : start_result lookup_ip default_judges marker stores b resolver batches sw a fs = Ok sv)
  (Hrc : forall c rc, recheck_of sv = Some (c, rc) -> c = ck /\ rc = rcfg)
  (Hsearch : search (sv_source sv) emitted)
  (Himport : forall px, WBack (LvImport px) ∈ es -> px ∈ stream_of (sv_source sv) emitted)
  (Hrun : whole_run (PR := checker_prober lookup_ip ck cworld cdraw) (whole_cx lookup_ip sv) rcfg es (whole_start sv rng now db) = Some w) :
  exists S : Proxy -> Prop, (forall px, S px -> served_from (sv_source sv) emitted (reloaded es) ck cworld cdraw px) /\
    exists ges, accepted ges = clients_of es /\ gw_ok (whole_cx lookup_ip sv) (serve_pool_config a) S (sa_min_queue a) ges (wh_gateway w).
Proof.
  pose proof (started _ _ Hres) as (Hcfg & Hsrc & Hsrv & Hck & Hwatch).
  assert (forall known filed (on : Prop), let PR := checker_prober lookup_ip ck cworld cdraw in
    (bool_decide (is_Some (recheck_of sv)) = true -> on) -> (forall x, x ∈ proxies (source_pool sv) -> from_known (serve_pool_config a) known x) ->
    (forall px, px ∈ stream_of (sv_source sv) emitted -> px ∈ known) -> (forall d px, WBack (LvReload d) ∈ es -> px ∈ d -> px ∈ filed) ->
    exists ges, accepted ges = clients_of es /\
      gw_ok (whole_cx lookup_ip sv) (serve_pool_config a) (may_lend (serve_pool_config a) known filed on) (sa_min_queue a) ges (wh_gateway w)) as Hgen.
  { intros known filed on PR Hon Hpool Hknown Hfiled.
    assert (config (source_pool sv) = serve_pool_config a) as Hpc by (unfold source_pool; rewrite Hcfg; by destruct (sv_source sv)).
    pose proof (whole_run_ok (whole_cx lookup_ip sv) rcfg (serve_pool_config a) known filed on (sa_min_queue a)
      (bool_decide (is_Some (recheck_of sv))) es [] (whole_start sv rng now db) w) as Hw.
    destruct Hw as [Hg _ _]; [| |done|exact Hg].
    - split; [|by apply live_start_ok; [|intros x Hx; left; apply Hpool]|done]. exists []. split; [done|].
      unfold whole_start, wh_gateway. cbn [wh_node nd_gateway]. rewrite Hsrv. apply gw_start_ok. split; [done|]. intros x Hx. left. by apply Hpool.
    - apply Forall_forall. intros [| e | | |] He; try done. destruct e; try done; cbn; eauto. }
  destruct (sv_source sv) as [ps|history wr fr] eqn:Esrc; cbn [stream_of search] in *.
  - exists (may_lend (PR := checker_prober lookup_ip ck cworld cdraw) (serve_pool_config a) ps (reloaded es) False). split.
    { intros px. apply file_lends. by intros []. }
    apply Hgen; [| | |intros d px; apply reloaded_elem].
    + intros Hs%bool_decide_eq_true. destruct Hs as [[c rc] Hs]. destruct Hsrc as (? & ? & _ & Hsrc).
      destruct (sa_load a) as [path|] eqn:El; [|done].
      pose proof (load_recheck_refused lookup_ip default_judges marker resolver a Hok) as Hno. rewrite (Hck _ _ Hs), El in Hno. by discriminate Hno.
    + intros x Hx. unfold source_pool in Hx. rewrite Esrc, proxies_from_proxies, Hcfg in Hx. apply list_elem_of_In, filter_In in Hx as [Hx Hc].
      split; [done|]. exists x. split; [by apply list_elem_of_In|by split_and!].
    + intros px Hx. by apply elem_of_nil in Hx.
  - destruct Hsearch as (world & draw & chk & r & Hchk & Hr & ->).
    assert (sa_load a = None /\ find lookup_ip default_judges marker b resolver (serve_query a) batches = Ok fr) as [Hl Hfind].
    { destruct Hsrc as (? & ? & _ & Hsrc). destruct (sa_load a); [done|]. by destruct Hsrc as (_ & _ & ?). }
    exists (may_lend (PR := checker_prober lookup_ip ck cworld cdraw) (serve_pool_config a) (history ++ r_emitted r) [] (is_Some (recheck_of sv))). split.
    { intros px Hm. eapply may_lend_found; [exact Hfind| |exact Hchk|exact Hr|exact Hm].
      intros [[c rc] Hs]. destruct (Hrc _ _ Hs) as [<- _]. by eapply Hck. }
    apply Hgen; [by intros ?%bool_decide_eq_true| |done|].
    + intros x Hx. unfold source_pool in Hx. rewrite Esrc in Hx. by apply elem_of_nil in Hx.
    + intros d px Hd. exfalso. eapply (runs_only _ _ _ _ _ Hrun); [|exact Hd]. by apply Hwatch.
Qed.

(** What [serve] promises its clients: no more at work than asked for; one answer each, through proxies
    of [uses] only; and proxies only for those with the credentials. *)
Definition promised (cx : ConnCtx) (uses : Proxy -> Prop) (clients : list (IpAddr * Conn)) (g : Gateway) : Prop :=
  (length (List.filter (fun h => negb (ended h)) (gw_handlers g)) <= Nat.max (sa_max_clients a) 1)%nat /\
  length (gw_handlers g) = length clients /\
  forall i h ip c0, gw_handlers g !! i = Some h -> clients !! i = Some (ip, c0) ->
    (ended h = true -> answered cx (serve_pool_config a) uses ip c0 (hd_client h)) /\ (forall px, px ∈ hands h -> uses px) /\
    (hands h <> [] -> exists req c1, asks cx c0 req c1 /\ rq_host req <> lit "proxycontrol" /\
       forall secret, sa_auth a = Some secret -> authenticated (auth_expect secret) c0 req).
Lemma serve_says : forall s address sv s' ck rcfg cworld cdraw emitted rng now db es w
  (Hq : Sink.quiet s) (Haddr : sockaddr_parse (sa_host a) = Some address) (Hok : serve_args_ok a = true)
  (Hstart : start s = (Ok sv, s'))
  (Hrc : forall c rc, recheck_of sv = Some (c, rc) -> c = ck /\ rc = rcfg)
  (Hsearch : search (sv_source sv) emitted)
  (Himport : forall px, WBack (LvImport px) ∈ es -> px ∈ stream_of (sv_source sv) emitted)
  (Hrun : whole_run (PR := checker_prober lookup_ip ck cworld cdraw) (whole_cx lookup_ip sv) rcfg es (whole_start sv rng now db) = Some w),
  let cx := whole_cx lookup_ip sv in
  let uses := served_from (sv_source sv) emitted (reloaded es) ck cworld cdraw in
  let g := wh_gateway w in
  (exists ges, gw_run cx ges (gw_start (source_pool sv) (sa_min_queue a) rng) = Some g /\ accepted ges = clients_of es) /\
  promised cx uses (clients_of es) g.
Proof.
  intros. destruct (start_says f64_show lookup_ip default_judges marker stores b resolver batches sw a s address Hq Haddr) as (s1 & Es & _).
  rewrite Hstart in Es. injection Es as Hres <-. symmetry in Hres. pose proof (started _ _ Hres) as (_ & _ & Hsrv & _ & _).
  destruct (whole_lends _ _ _ _ _ _ _ _ _ _ _ _ Hok Hres Hrc Hsearch Himport Hrun) as (S & HS & ges & Hacc & Hg).
  destruct (gw_ok_says _ _ _ _ _ _ Hg) as (H1 & H2 & H3). rewrite Hacc in H2, H3.
  split; [|split; [exact H1|split; [exact H2|]]].
  - destruct (whole_gateway _ _ _ _ _ Hrun) as (ges' & Hges & Hacc'). exists ges'. split; [|done].
    unfold wh_gateway, whole_start in Hges. cbn [wh_node nd_gateway] in Hges. by rewrite Hsrv in Hges.
  - intros i h ip c0 Hi Ha. destruct (H3 i h ip c0 Hi Ha) as (A1 & A2 & A3). split_and!.
    + intros He. by eapply answered_mono, A1.
    + intros px Hx. by apply HS, A2.
    + intros Hh. destruct (A3 Hh) as (req & c1 & Hr & Hc & Hau). exists req, c1. split_and!; [done|done|]. intros secret Hsec. apply Hau.
      unfold cx, whole_cx. rewrite Hsrv. cbn. by rewrite Hsec.
Qed.

(** C6: [serve], from its flags to its clients. Once it has come up, in every interleaving of the accept loop, the handlers of
    all clients, the metrics port, the importer, the re-checker and the watcher, up to and after
    Ctrl-C: the clients' side is a run of Gateway.v, so that what is proved there holds; no more
    clients are at work than [--max-clients] says; each client that is done got one answer, which
    is [serve]'s own words or one conversation through one proxy, and nobody has a proxy in hand without the
    credentials of [--auth]; and each proxy used or in hand comes from where the flags say: found working as asked, or
    stored, or re-checked since, or in the file that was loaded or reloaded. *)
Theorem serve_whole : forall s address sv s' ck rcfg cworld cdraw emitted rng now db es w
  (Hq : Sink.quiet s) (Haddr : sockaddr_parse (sa_host a) = Some address) (Hok : serve_args_ok a = true)
  (Hstart : start s = (Ok sv, s'))
  (Hrc : forall c rc, recheck_of sv = Some (c, rc) -> c = ck /\ rc = rcfg)
  (Hsearch : search (sv_source sv) emitted)
  (Himport : forall px, WBack (LvImport px) ∈ es -> px ∈ stream_of (sv_source sv) emitted)
  (Hrun : whole_run (PR := checker_prober lookup_ip ck cworld cdraw) (whole_cx lookup_ip sv) rcfg es (whole_start sv rng now db) = Some w),
  let cx := whole_cx lookup_ip sv in
  let uses := served_from (sv_source sv) emitted (reloaded es) ck cworld cdraw in
  let g := wh_gateway w in
  (exists ges, gw_run cx ges (gw_start (source_pool sv) (sa_min_queue a) rng) = Some g /\ accepted ges = clients_of es) /\
  promised cx uses (clients_of es) g.
Proof. exact serve_says. Qed.
End serve.

(** ** A served file, reloaded while a client is at work *)
Section whole_demo.
#[local] Existing Instances list_order counter_notify copy_splice sample_regexes no_libs ascii_case no_flate one_powi demo_web demo_lua sample_json demo_powf memory_store.
Abbreviation demo_serving := (serve_start shown (fun _ => Some [V4 9]) [] (fun _ => lit "4711") no_stores demo_broker demo_resolver
  demo_batches demo_serve_world demo_load_args demo_sys).
Definition demo_node (ge : GwEvent) : WholeEvent := WNode (NGw ge).
Definition demo_whole_events : list WholeEvent :=
  map demo_node [GwReady; GwPermit; GwAccept (V4 1) (open_conn demo_raw)] ++
  map demo_node (replicate 5 (GwStep 0 (demo_in demo_up))) ++
  [WBack (LvReload [Relay.demo_px]); WBack LvApply; WExit; WWatchStops] ++
  map demo_node (replicate 4 (GwStep 0 (demo_in demo_up)) ++ [GwClose 0]).
Abbreviation demo_whole sv := (whole_run (PR := checker_prober (fun _ => Some [V4 9]) Checker.demo_ck (fun _ => Checker.demo_world) (fun _ _ => 0%nat))
  (whole_cx (fun _ => Some [V4 9]) sv) RecheckConfig_default demo_whole_events (whole_start sv rand_seed 0 ∅)).
Definition pooled (w : Whole) : list Key := map p_key (proxies (w_pool (gw_world (wh_gateway w)))).
Lemma serve_whole_witness : exists sv s' w h ps, demo_serving = (Ok sv, s') /\ sv_source sv = FromFile ps /\ demo_whole sv = Some w /\
  gw_handlers (wh_gateway w) !! 0%nat = Some h /\ ended h = true /\ pooled w = [p_key Relay.demo_px; p_key sample] /\
  sent (hd_client h) <> [] /\
  answered (whole_cx (fun _ => Some [V4 9]) sv) (serve_pool_config demo_load_args)
    (served_from (fun _ => Some [V4 9]) demo_batches demo_load_args (FromFile ps) [] [Relay.demo_px] Checker.demo_ck
       (fun _ => Checker.demo_world) (fun _ _ => 0%nat)) (V4 1) (open_conn demo_raw) (hd_client h).
Proof.
  assert (E0 : (match demo_serving with
     | (Ok sv, _) =>
         let? w := demo_whole sv in let? h := gw_handlers (wh_gateway w) !! 0%nat in
         let? ps := match sv_source sv with FromFile ps => Some ps | _ => None end in
         Some (ended h, pooled w, bool_decide (sent (hd_client h) = []), bool_decide (recheck_of sv = None))
     | _ => None end) = Some (true, [p_key Relay.demo_px; p_key sample], false, true)) by (vm_compute; reflexivity).
  destruct demo_serving as [[sv|] s'] eqn:Es; [|discriminate E0]. exists sv, s'.
  destruct (demo_whole sv) as [w|] eqn:Ew; [|discriminate E0]. exists w. cbn [mbind option_bind] in E0.
  destruct (gw_handlers (wh_gateway w) !! 0%nat) as [h|] eqn:Eh; [|discriminate E0]. exists h. cbn [mbind option_bind] in E0.
  destruct (sv_source sv) as [ps|] eqn:Esrc; [|discriminate E0]. exists ps. cbn [mbind option_bind] in E0.
  injection E0 as He Hp Hs%bool_decide_eq_false Hr%bool_decide_eq_true.
  do 7 (split; [first [reflexivity|assumption]|]).
  pose proof (serve_whole shown (fun _ => Some [V4 9]) [] (fun _ => lit "4711") no_stores demo_broker demo_resolver demo_batches
    demo_serve_world demo_load_args demo_sys (V4 0, 8888) sv s' Checker.demo_ck RecheckConfig_default (fun _ => Checker.demo_world)
    (fun _ _ => 0%nat) [] rand_seed 0 ∅ demo_whole_events w (Forall_nil_2 _) eq_refl eq_refl Es) as HQ.
  rewrite Esrc in HQ.
  destruct HQ as (_ & _ & _ & HQ); [intros c rc Hc; rewrite Hr in Hc; discriminate Hc|reflexivity| |exact Ew|].
  - intros px Hx. exfalso. apply list_elem_of_In in Hx. cbn in Hx.
    repeat (destruct Hx as [Hx|Hx]; [discriminate Hx|]). exact Hx.
  - exact (proj1 (HQ 0%nat h (V4 1) (open_conn demo_raw) Eh eq_refl) He).
Defined.
End whole_demo.
