(* ===== verification/Found.v ===== *)
(** * The search behind [serve]

    The pipeline of [find] and the whole of [serve], joined by the importer: what [Pool::spawn] does with
    the history and then with the stream of [find], one proxy at a time. *)
From S2P Require Import Prelude F64 Text Types Addr Utils Proxy ProxyJson Pool Http Net Negotiator Client Relay Judge Checker Store Redis Scheduler Provider Stats Watch Pipeline Geo Broker Ndjson Cli Report Sink ProviderDir Cmd PoolSteps Holds Server Listener Gateway Scrape Served Live Whole.
Open Scope Z_scope.

(** A step of the search leaves the channel, or sends one more proxy. *)
Lemma run_step_sends (chk : Proxy -> bool * Proxy) limit caps e r r' : run_step chk limit caps e r = Some r' ->
  match e with
  | VRecv => exists n, r_unread r = S n /\ r_unread r' = n /\ r_emitted r' = r_emitted r /\ r_closed r = false /\ r_closed r' = false /\ r_main r' = r_main r
  | VClose | VCancel => True
  | _ => r_closed r' = r_closed r /\
         ((r_emitted r' = r_emitted r /\ r_unread r' = r_unread r) \/
          exists p, r_emitted r' = r_emitted r ++ [p] /\ r_unread r' = S (r_unread r))
  end.
Proof.
  intros E. destruct e as [| | |i|i|i|i|i|i|i| | |]; cbn [run_step] in E; try done.
  1-3: cbn in E; destruct (r_main r) as [|p| |]; try done; (try (destruct (r_source r) as [|p0 source]; [|destruct (_ || _)])); 
    (try destruct (r_permits r)); (try destruct (forallb _ _)); try done; injection E as <-; by auto.
  1-7: unfold task_at in E; destruct (r_tasks r !! i) as [t|]; [|done].
  - unfold check_step in E. destruct (ct_pc t); try done. destruct (chk _) as [working p]. injection E as <-. by auto.
  - unfold observe_step in E. destruct (ct_pc t); try done. injection E as <-. by auto.
  - unfold abort_step in E. destruct (ct_pc t); try done. all: destruct (r_cancel r); try done; injection E as <-; by auto.
  - unfold filter_step in E. destruct (ct_pc t); try done. destruct (_ && _); injection E as <-; by auto.
  - unfold slot_step in E. destruct (ct_pc t); try done. destruct (reached limit n); injection E as <-; by auto.
  - unfold send_step in E. destruct (ct_pc t); try done. destruct (r_closed r) eqn:Hc; [injection E as <-; cbn; by auto|].
    destruct (_ <? _)%nat; [|done]. injection E as <-. cbn. eauto 6.
  - unfold after_step in E. destruct (ct_pc t); try done. injection E as <-. by destruct (reached limit _); auto.
  - cbn in E. destruct (r_unread r) as [|n] eqn:Hu; [done|]. destruct (r_closed r) eqn:Hc; [done|]. injection E as <-. by exists n.
Qed.

(** ** The joined system *)
Section found.
Context `{HO : HashOrder} `{N : Notify} `{UC : UnicodeCase} `{TL : TunnelLibs} `{SP : Splice} `{PF : Powf} `{PR : Prober} `{ST : Store}.
Variables (cx : ConnCtx) (rcfg : RecheckConfig).
Variables (chk : Proxy -> bool * Proxy) (max_conn : nat) (limit : option nat) (caps : CapsFilter).

(** The search, what serves, what is left of the history, and whether the importer is done. *)
Record Found := mkFound { fd_run : Run Proxy; fd_whole : Whole; fd_history : list Proxy; fd_done : bool }.
Inductive FoundEvent :=
| FFind (e : RunEvent)    (* the source loop and the checks *)
| FImport | FEnd          (* the importer: the next proxy, the end of the stream *)
| FServe (e : WholeEvent).
(** The proxy the receiver gives next. *)
Definition next_sent (r : Run Proxy) : option Proxy := r_emitted r !! (length (r_emitted r) - r_unread r)%nat.
Definition import_whole (px : Proxy) (w : Whole) : option Whole := whole_step cx rcfg (WBack (LvImport px)) w.
(** The importer owns the stream, and keeps it to the end. *)
Definition found_step (e : FoundEvent) (f : Found) : option Found :=
  match e with
  | FFind (VRecv | VClose | VCancel) => None
  | FFind e => let? r := run_step chk limit caps e (fd_run f) in Some (mkFound r (fd_whole f) (fd_history f) (fd_done f))
  | FImport =>
      if fd_done f then None
      else match fd_history f with
           | px :: history => let? w := import_whole px (fd_whole f) in Some (mkFound (fd_run f) w history false)
           | [] =>
               let? px := next_sent (fd_run f) in
               let? r := run_step chk limit caps VRecv (fd_run f) in
               let? w := import_whole px (fd_whole f) in
               Some (mkFound r w [] false)
           end
  | FEnd =>
      if fd_done f then None
      else match fd_history f, r_unread (fd_run f) with
           | [], O => if decide (Pipeline.at_end (fd_run f)) then
                        let? w := whole_step cx rcfg (WBack LvEnd) (fd_whole f) in Some (mkFound (fd_run f) w [] true)
                      else None
           | _, _ => None
           end
  | FServe (WBack (LvImport _)) | FServe (WBack LvEnd) => None
  | FServe e => let? w := whole_step cx rcfg e (fd_whole f) in Some (mkFound (fd_run f) w (fd_history f) (fd_done f))
  end.
Fixpoint found_run (es : list FoundEvent) (f : Found) : option Found :=
  match es with [] => Some f | e :: es => let? f := found_step e f in found_run es f end.

(** ** Its parts: a run of the search, and a run of the whole that imports the stream in its order *)
Definition served (es : list FoundEvent) : list WholeEvent := omap (fun e => match e with FServe e => Some e | _ => None end) es.
Definition imports (ws : list WholeEvent) : list Proxy := omap (fun e => match e with WBack (LvImport px) => Some px | _ => None end) ws.
Definition unread (r : Run Proxy) : list Proxy := drop (length (r_emitted r) - r_unread r) (r_emitted r).
Record found_ok (source history : list Proxy) (w0 : Whole) (es : list FoundEvent) (f : Found) (ws : list WholeEvent) : Prop := {
  fo_run : reaches chk max_conn limit caps source (fd_run f);
  fo_open : r_closed (fd_run f) = false;
  fo_unread : (r_unread (fd_run f) <= length (r_emitted (fd_run f)))%nat;
  fo_whole : whole_run cx rcfg ws w0 = Some (fd_whole f);
  fo_clients : clients_of ws = clients_of (served es);
  fo_reloaded : forall d, WBack (LvReload d) ∈ ws <-> WBack (LvReload d) ∈ served es;
  fo_imports : imports ws ++ fd_history f ++ unread (fd_run f) = history ++ r_emitted (fd_run f);
  fo_done : fd_done f = true -> Pipeline.at_end (fd_run f) /\ fd_history f = [] /\ r_unread (fd_run f) = 0%nat /\
              exhausted (w_pool (gw_world (wh_gateway (fd_whole f)))) = true;
}.
Lemma whole_run_snoc ws e w : whole_run cx rcfg (ws ++ [e]) w = let? w := whole_run cx rcfg ws w in whole_step cx rcfg e w.
Proof. revert w. induction ws as [|x ws IH]; intros w; cbn; [by destruct (whole_step _ _ _ _)|]. by destruct (whole_step cx rcfg x w). Qed.
(** A search that has ended does nothing more. *)
Lemma ended_still source r e : reaches chk max_conn limit caps source r -> Pipeline.at_end r ->
  e <> VRecv -> e <> VClose -> e <> VCancel -> run_step chk limit caps e r = None.
Proof.
  intros Hr Hend H1 H2 H3. apply reaches_ok in Hr. unfold Pipeline.at_end in Hend.
  assert (forall i t, r_tasks r !! i = Some t -> running t = false) as Hno.
  { intros i t Hi. eapply ended_not_running; [exact Hr|exact Hend|]. by eapply list_elem_of_lookup_2. }
  destruct e as [| | |i|i|i|i|i|i|i| | |]; try done; cbn [run_step main_step]; rewrite ?Hend; try done.
  all: unfold task_at; destruct (r_tasks r !! i) as [t|] eqn:Hi; [|done]; specialize (Hno i t Hi); unfold running in Hno; cbn [mbind option_bind].
  all: unfold check_step, observe_step, abort_step, filter_step, slot_step, send_step, after_step; by destruct (ct_pc t).
Qed.
Lemma whole_exhausted e w w' : whole_step cx rcfg e w = Some w' ->
  exhausted (w_pool (gw_world (wh_gateway w))) = true \/ e = WBack LvEnd -> exhausted (w_pool (gw_world (wh_gateway w'))) = true.
Proof.
  intros E [Hx| ->].
  - destruct (whole_gateway_step _ _ _ _ _ E) as (ges & Hges & _). by eapply gw_run_exhausted.
  - cbn in E. by injection E as <-.
Qed.
(** The whole takes a step the importer has no part in. *)
Lemma found_serve source history w0 es f ws e w' : found_ok source history w0 es f ws -> whole_step cx rcfg e (fd_whole f) = Some w' ->
  match e with WBack (LvImport _) | WBack LvEnd => False | _ => True end ->
  found_ok source history w0 (es ++ [FServe e]) (mkFound (fd_run f) w' (fd_history f) (fd_done f)) (ws ++ [e]).
Proof.
  intros [H1 H2 H3 H4 H5 H6 H7 H8] E He. split; cbn; try done.
  - by rewrite whole_run_snoc, H4.
  - unfold served. rewrite omap_app. cbn. by rewrite !clients_snoc, H5.
  - intros d. unfold served. rewrite omap_app. cbn. by rewrite !elem_of_app, H6.
  - unfold imports. rewrite omap_app. cbn. destruct e as [|[]| | |]; try done; by rewrite app_nil_r.
  - intros Hd. destruct (H8 Hd) as (A1 & A2 & A3 & A4). split_and!; try done. eapply whole_exhausted; [exact E|by left].
Qed.
Lemma found_import source history w0 es f ws px r w' h : found_ok source history w0 es f ws -> fd_done f = false ->
  import_whole px (fd_whole f) = Some w' ->
  (r = fd_run f /\ fd_history f = px :: h) \/
  (fd_history f = [] /\ h = [] /\ next_sent (fd_run f) = Some px /\ run_step chk limit caps VRecv (fd_run f) = Some r) ->
  found_ok source history w0 (es ++ [FImport]) (mkFound r w' h false) (ws ++ [WBack (LvImport px)]).
Proof.
  intros [H1 H2 H3 H4 H5 H6 H7 H8] Hd E Hr.
  assert (reaches chk max_conn limit caps source r /\ r_closed r = false /\ (r_unread r <= length (r_emitted r))%nat /\
    r_emitted r = r_emitted (fd_run f) /\ px :: h ++ unread r = fd_history f ++ unread (fd_run f)) as (A1 & A2 & A3 & A4 & A5).
  { destruct Hr as [[-> Hh]|(Hh & -> & Hn & Hr)]; [rewrite Hh; by split_and!|]. pose proof (run_step_sends _ _ _ _ _ _ Hr) as (n & U1 & U2 & U3 & _ & U5 & _).
    split_and!; try done; [by eapply reaches_step|rewrite U2, U3; lia|].
    - rewrite Hh. cbn [app]. unfold unread, next_sent in *. rewrite U2, U3, U1 in *. rewrite (drop_S _ px _ Hn). do 2 f_equal. lia. }
  split; cbn; try done.
  - by rewrite whole_run_snoc, H4.
  - unfold served. rewrite omap_app. cbn. rewrite app_nil_r, clients_snoc, H5. unfold clients_of at 2, accepted. cbn. by rewrite app_nil_r.
  - intros d. unfold served. rewrite omap_app. cbn. rewrite app_nil_r, elem_of_app, H6, list_elem_of_singleton. naive_solver.
  - unfold imports. rewrite omap_app. cbn. rewrite <- app_assoc. cbn [app]. by rewrite A5, A4.
Qed.
Lemma found_step_ok source history w0 es e f f' ws : found_ok source history w0 es f ws -> found_step e f = Some f' ->
  exists ws', found_ok source history w0 (es ++ [e]) f' ws'.
Proof.
  intros Hf E. destruct e as [re| | |we]; cbn [found_step] in E.
  - assert ((let? r := run_step chk limit caps re (fd_run f) in Some (mkFound r (fd_whole f) (fd_history f) (fd_done f))) = Some f' /\
      re <> VRecv /\ re <> VClose /\ re <> VCancel) as (E' & Hne) by (by destruct re).
    destruct (run_step chk limit caps re (fd_run f)) as [r|] eqn:Er; [|done]. injection E' as <-. exists ws.
    pose proof (run_step_sends _ _ _ _ _ _ Er) as Hs. destruct Hf as [H1 H2 H3 H4 H5 H6 H7 H8].
    assert (r_closed r = r_closed (fd_run f) /\ ((r_emitted r = r_emitted (fd_run f) /\ r_unread r = r_unread (fd_run f)) \/
      exists p, r_emitted r = r_emitted (fd_run f) ++ [p] /\ r_unread r = S (r_unread (fd_run f)))) as [Hcl Hem].
    { destruct Hne as (? & ? & ?). by destruct re. }
    split; cbn; try done.
    + by eapply reaches_step.
    + by rewrite Hcl.
    + destruct Hem as [[-> ->]|(p & -> & ->)]; [done|]. rewrite length_app. cbn. lia.
    + unfold served. rewrite omap_app. cbn. by rewrite app_nil_r.
    + intros d. unfold served. rewrite omap_app. cbn. by rewrite app_nil_r.
    + unfold unread in *. destruct Hem as [[-> ->]|(p & -> & ->)]; [done|]. rewrite length_app, Nat.add_comm. cbn [length Nat.add Nat.sub].
      rewrite drop_app_le by lia. rewrite !app_assoc, <- H7, <- !app_assoc. done.
    + intros Hd. destruct (H8 Hd) as (Hend & _). exfalso. destruct Hne as (N1 & N2 & N3). by rewrite (ended_still _ _ _ H1 Hend N1 N2 N3) in Er.
  - destruct (fd_done f) eqn:Hd; [done|]. destruct (fd_history f) as [|px h] eqn:Hh.
    + destruct (next_sent (fd_run f)) as [px|] eqn:Hn; [|done]. destruct (run_step _ _ _ _ _) as [r|] eqn:Er; [|done].
      destruct (import_whole px (fd_whole f)) as [w|] eqn:Ew; [|done]. injection E as <-. eexists. eapply found_import; eauto.
    + destruct (import_whole px (fd_whole f)) as [w|] eqn:Ew; [|done]. injection E as <-. eexists. eapply found_import; eauto.
  - destruct (fd_done f) eqn:Hd; [done|]. destruct (fd_history f) as [|px h] eqn:Hh; [|done]. destruct (r_unread (fd_run f)) as [|n] eqn:Hu; [|done].
    case_decide as Hend; [|done]. destruct (whole_step cx rcfg (WBack LvEnd) (fd_whole f)) as [w|] eqn:Ew; [|done]. injection E as <-.
    exists (ws ++ [WBack LvEnd]). destruct Hf as [H1 H2 H3 H4 H5 H6 H7 H8]. split; cbn; try done.
    + by rewrite whole_run_snoc, H4.
    + unfold served. rewrite omap_app. cbn. rewrite app_nil_r, clients_snoc, H5. unfold clients_of at 2, accepted. cbn. by rewrite app_nil_r.
    + intros d. unfold served. rewrite omap_app. cbn. rewrite app_nil_r, elem_of_app, H6, list_elem_of_singleton. naive_solver.
    + unfold imports. rewrite omap_app. cbn. rewrite app_nil_r, <- H7, Hh. done.
    + intros _. split_and!; try done. eapply whole_exhausted; [exact Ew|by right].
  - assert ((let? w := whole_step cx rcfg we (fd_whole f) in Some (mkFound (fd_run f) w (fd_history f) (fd_done f))) = Some f' /\
      match we with WBack (LvImport _) | WBack LvEnd => False | _ => True end) as (E' & He) by (by destruct we as [|[]| | |]).
    destruct (whole_step cx rcfg we (fd_whole f)) as [w|] eqn:Ew; [|done]. injection E' as <-. eexists. by eapply found_serve.
Qed.
Lemma found_run_ok source history w0 fs : forall es f f' ws, found_ok source history w0 es f ws -> found_run fs f = Some f' ->
  exists ws', found_ok source history w0 (es ++ fs) f' ws'.
Proof.
  induction fs as [|e fs IH]; intros es f f' ws Hf E; [injection E as <-; exists ws; by rewrite app_nil_r|]. cbn in E.
  destruct (found_step e f) as [f1|] eqn:E1; [|done]. destruct (found_step_ok _ _ _ _ _ _ _ _ Hf E1) as [ws1 H1].
  rewrite cons_middle, app_assoc. by eapply IH.
Qed.
Lemma found_start_ok source history w0 : found_ok source history w0 [] (mkFound (new_run max_conn source) w0 history false) [].
Proof. split; cbn; try done. constructor. Qed.

(** ** It goes on, and comes to its end *)
(** With a permit at least, the importer or the search can take a step until the importer is done. *)
Lemma found_moves source history w0 es f ws : (0 < max_conn)%nat -> found_ok source history w0 es f ws -> fd_done f = false ->
  exists e, (forall we, e <> FServe we) /\ is_Some (found_step e f).
Proof.
  intros Hmax [H1 H2 H3 _ _ _ _ _] Hd. destruct (fd_history f) as [|px h] eqn:Hh.
  2: { exists FImport. split; [done|]. cbn [found_step]. rewrite Hd, Hh. cbn. eauto. }
  destruct (r_unread (fd_run f)) as [|n] eqn:Hu.
  - destruct (decide (Pipeline.at_end (fd_run f))) as [He|He].
    { exists FEnd. split; [done|]. cbn [found_step]. rewrite Hd, Hh, Hu, decide_True by done. cbn. eauto. }
    destruct (run_progress _ _ _ _ _ _ Hmax (reaches_ok _ _ _ _ _ _ H1) He) as (e & r & [Hc Hx] & Er & Hv).
    exists (FFind e). split; [done|]. cbn [found_step]. rewrite Er. destruct e; try done; cbn; try by eauto.
    specialize (Hv eq_refl). rewrite Hu in Hv. by apply Nat.nle_succ_0 in Hv.
  - exists FImport. split; [done|]. cbn [found_step]. rewrite Hd, Hh. unfold next_sent. rewrite Hu in *.
    destruct (lookup_lt_is_Some_2 (r_emitted (fd_run f)) (length (r_emitted (fd_run f)) - S n)) as [px ->]; [lia|].
    cbn [mbind option_bind run_step consumer_step]. rewrite Hu, H2. cbn. eauto.
Qed.
(** The steps of the search and the importer, and the work that is left to them. *)
Definition searching (es : list FoundEvent) : nat := length (List.filter (fun e => match e with FServe _ => false | _ => true end) es).
Definition found_work (f : Found) : nat := (run_work (fd_run f) + length (fd_history f) + if fd_done f then 0 else 1)%nat.
Lemma found_step_work e f f' : found_step e f = Some f' -> (searching [e] + found_work f' <= found_work f)%nat.
Proof.
  unfold found_work. intros E. destruct e as [re| | |we]; cbn [found_step] in E; unfold searching; cbn [List.filter length].
  - assert ((let? r := run_step chk limit caps re (fd_run f) in Some (mkFound r (fd_whole f) (fd_history f) (fd_done f))) = Some f') as E' by (by destruct re).
    destruct (run_step _ _ _ _ _) as [r|] eqn:Er; [|done]. injection E' as <-. apply run_step_work in Er. cbn [fd_run fd_history fd_done length]; lia.
  - destruct (fd_done f); [done|]. destruct (fd_history f) as [|px h].
    + destruct (next_sent _) as [px|]; [|done]. destruct (run_step _ _ _ _ _) as [r|] eqn:Er; [|done]. cbn [mbind option_bind] in E.
      destruct (import_whole px _); [|done]. injection E as <-. apply run_step_work in Er. cbn [fd_run fd_history fd_done length]; lia.
    + destruct (import_whole px _); [|done]. injection E as <-. cbn [fd_run fd_history fd_done length]; lia.
  - destruct (fd_done f); [done|]. destruct (fd_history f); [|done]. destruct (r_unread _); [|done]. case_decide; [|done].
    destruct (whole_step _ _ _ _); [|done]. injection E as <-. cbn [fd_run fd_history fd_done length]; lia.
  - assert ((let? w := whole_step cx rcfg we (fd_whole f) in Some (mkFound (fd_run f) w (fd_history f) (fd_done f))) = Some f') as E'
      by (by destruct we as [|[]| | |]).
    destruct (whole_step _ _ _ _) as [w|]; [|done]. injection E' as <-. cbn [fd_run fd_history fd_done length]; lia.
Qed.
Lemma found_run_work es f f' : found_run es f = Some f' -> (searching es + found_work f' <= found_work f)%nat.
Proof.
  revert f. induction es as [|e es IH]; intros f E; [injection E as <-; done|]. cbn [found_run] in E.
  destruct (found_step e f) as [f1|] eqn:E1; [|done]. apply found_step_work in E1. apply IH in E.
  assert (searching (e :: es) = searching [e] + searching es)%nat as -> by (unfold searching; cbn; by destruct e). lia.
Qed.
End found.

Section serve_found.
Context `{HO : HashOrder} `{N : Notify} `{TL : TunnelLibs} `{SP : Splice} `{R : Regexes} `{UC : UnicodeCase} `{F : Flate} `{P : Powi} `{W : WebLibs}.
Context `{L : Lua} `{J : JsonText} `{PF : Powf} `{ST : Store}.
Variable f64_show : f64 -> str.
Variables (lookup_ip : str -> option (list IpAddr)) (default_judges : list str) (marker : Judge -> str).
Variables (stores : Stores) (b : Broker) (resolver : result (list (option str)) Error) (batches : list (list Candidate)).
Variables (sw : ServeWorld) (a : ServeArgs).
Abbreviation start := (serve_start f64_show lookup_ip default_judges marker stores b resolver batches sw a).

(** Nobody is stuck for want of a proxy. *)
Definition unhindered (cx : ConnCtx) (g : Gateway) : Prop :=
  (forall i h x, gw_handlers g !! i = Some h -> ended h = false -> handler_step cx x h (gw_world g) (gw_history g) = None ->
     match hd_pc h with HReply _ | HRelay _ _ _ => True | _ => False end) /\
  (forall t, ls_phase (gw_listener g) = LGate t -> is_Some (gw_step cx GwReady g)).
Lemma exhausted_unhindered cx pool n rng es g : gw_run cx es (gw_start pool n rng) = Some g ->
  w_pending (gw_world g) = 0%nat -> exhausted (w_pool (gw_world g)) = true -> unhindered cx g.
Proof.
  intros Hg Hp Hx. destruct (gw_progress _ _ _ _ _ _ Hg Hp) as [Hh Hl]. split.
  - intros i h x Hi He Es. specialize (Hh i h x Hi He Es). destruct (hd_pc h); try done. destruct Hh as [Hh _]. by rewrite Hx in Hh.
  - intros t Ht. rewrite Ht in Hl. destruct (gw_step cx GwReady g) eqn:Eg; [by eexists|]. destruct (Hl eq_refl) as [Hl' _]. by rewrite Hx in Hl'.
Qed.

(** C16: [serve] without a file, its search and its service as one system. In every interleaving of the source
    loop and the checks of [find], the importer, the clients' handlers, the accept loop, the metrics
    port, the re-checker and Ctrl-C: [serve] keeps what it promises its clients, the proxies being
    those the search behind it has emitted so far or the stored ones; what the importer put into the
    pool is the stored proxies and then those emitted, in their order, no more and none left out. The
    search and the importer take a bounded number of steps, can go on until the importer is done,
    and then everything stored and emitted was imported, as many were emitted as answer to what is asked, up to the limit, and, once the
    notifications owed are delivered, no client waits for a proxy any more. *)
Theorem serve_found : forall s address sv s' ck rcfg cworld cdraw history wr fr world draw chk rng now db es f
  (Hq : Sink.quiet s) (Haddr : sockaddr_parse (sa_host a) = Some address) (Hok : serve_args_ok a = true)
  (Hstart : start s = (Ok sv, s')) (Hsrc : sv_source sv = FromFind history wr fr)
  (Hrc : forall c rc, recheck_of sv = Some (c, rc) -> c = ck /\ rc = rcfg)
  (Hchk : forall p, p ∈ cr_source fr -> check lookup_ip (cr_checker fr) (world p) (draw p) p = Some (chk p)),
  let cx := whole_cx lookup_ip sv in
  let step := found_step (PR := checker_prober lookup_ip ck cworld cdraw) cx rcfg chk (cr_limit fr) (cr_caps fr) in
  found_run (PR := checker_prober lookup_ip ck cworld cdraw) cx rcfg chk (cr_limit fr) (cr_caps fr) es
    (mkFound (new_run (cr_max_conn fr) (cr_source fr)) (whole_start sv rng now db) history false) = Some f ->
  let r := fd_run f in
  let g := wh_gateway (fd_whole f) in
  promised a cx (lendable lookup_ip a batches fr history (r_emitted r) ck cworld cdraw) (clients_of (served es)) g /\
  (searching es <= 12 * length (cr_source fr) + length history + 5)%nat /\
  (fd_done f = false -> (0 < cr_max_conn fr)%nat -> exists e, (forall we, e <> FServe we) /\ is_Some (step e f)) /\
  exists ws, whole_run (PR := checker_prober lookup_ip ck cworld cdraw) cx rcfg ws (whole_start sv rng now db) = Some (fd_whole f) /\
    imports ws ++ fd_history f ++ unread r = history ++ r_emitted r /\
    (fd_done f = true ->
       imports ws = history ++ r_emitted r /\
       (let answers := omap (answer chk (cr_caps fr)) (cr_source fr) in
        length (r_emitted r) = match cr_limit fr with Some l => Nat.min l (length answers) | None => length answers end) /\
       (w_pending (gw_world g) = 0%nat -> unhindered cx g)).
Proof.
  intros s address sv s' ck rcfg cworld cdraw history wr fr world draw chk rng now db es f Hq Haddr Hok Hstart Hsrc Hrc Hchk cx step Hrun r g.
  destruct (found_run_ok (PR := checker_prober lookup_ip ck cworld cdraw) cx rcfg chk (cr_max_conn fr) (cr_limit fr) (cr_caps fr)
    (cr_source fr) history (whole_start sv rng now db) es [] _ f [] (found_start_ok _ _ _ _ _ _ _ _ _) Hrun) as [ws Hf].
  pose proof Hf as [H1 H2 _ H4 H5 _ H7 H8]. cbn [app] in H5.
  destruct (serve_says f64_show lookup_ip default_judges marker stores b resolver batches sw a s address sv s' ck rcfg cworld cdraw
    (r_emitted r) rng now db ws (fd_whole f) Hq Haddr Hok Hstart Hrc) as [(ges & Hges & _) Hp].
  - rewrite Hsrc. exists world, draw, chk, r. by split_and!.
  - intros px Hx. rewrite Hsrc. cbn [stream_of]. fold r in H7. rewrite <- H7. apply elem_of_app. left.
    apply list_elem_of_omap. by exists (WBack (LvImport px)).
  - exact H4.
  - rewrite Hsrc, H5 in Hp. split; [exact Hp|]. split; [|split].
    + apply found_run_work in Hrun. unfold found_work in Hrun. cbn [fd_run fd_history fd_done] in Hrun.
      pose proof (reaches_work chk (cr_max_conn fr) (cr_limit fr) (cr_caps fr) (cr_source fr) _ (reaches_start _ _ _ _ _)). lia.
    + intros Hd Hmax. by eapply found_moves.
    + exists ws. split; [exact H4|]. split; [exact H7|]. intros Hd. destruct (H8 Hd) as (Hend & Hh & Hu & Hx). split; [|split].
      * rewrite Hh in H7. unfold unread in H7. rewrite Hu, Nat.sub_0_r, drop_all, !app_nil_r in H7. exact H7.
      * exact (proj1 (run_complete _ _ _ _ _ _ H1 Hend H2)).
      * intros Hw. by eapply exhausted_unhindered.
Qed.
End serve_found.

(** ** A client that comes before the first proxy is found *)
Section found_demo.
#[local] Existing Instances list_order counter_notify copy_splice sample_regexes no_libs ascii_case no_flate one_powi demo_web demo_lua sample_json demo_powf memory_store.
Abbreviation demo_serving := (serve_start shown (fun _ => Some [V4 9]) [lit "http://judge/"] (fun _ => lit "4711") no_stores demo_broker demo_resolver
  demo_batches demo_serve_world demo_serve_args demo_sys).
Definition demo_client_steps (k : nat) : list FoundEvent := replicate k (FServe (demo_node (GwStep 0 (demo_in demo_up)))).
Definition demo_found_events : list FoundEvent :=
  map FServe (map demo_node [GwReady; GwPermit; GwAccept (V4 1) (open_conn demo_raw)]) ++ demo_client_steps 3 ++
  map FFind demo_find_events ++ [FImport; FServe (WBack LvNotify); FEnd; FServe (WBack LvNotify)] ++ demo_client_steps 6.
Abbreviation demo_found sv fr :=
  (found_run (PR := checker_prober (fun _ => Some [V4 9]) Checker.demo_ck (fun _ => Checker.demo_world) (fun _ _ => 0%nat))
    (whole_cx (fun _ => Some [V4 9]) sv) RecheckConfig_default (demo_answer (cr_checker fr)) (cr_limit fr) (cr_caps fr) demo_found_events
    (mkFound (new_run (cr_max_conn fr) (cr_source fr)) (whole_start sv rand_seed 0 ∅) [] false)).
Lemma serve_found_witness : exists sv s' fr f h, demo_serving = (Ok sv, s') /\ sv_source sv = FromFind [] None fr /\ demo_found sv fr = Some f /\
  gw_handlers (wh_gateway (fd_whole f)) !! 0%nat = Some h /\ ended h = true /\ fd_done f = true /\ length (r_emitted (fd_run f)) = 1%nat /\
  answered (whole_cx (fun _ => Some [V4 9]) sv) (serve_pool_config demo_serve_args)
    (lendable (fun _ => Some [V4 9]) demo_serve_args demo_batches fr [] (r_emitted (fd_run f)) Checker.demo_ck
       (fun _ => Checker.demo_world) (fun _ _ => 0%nat)) (V4 1) (open_conn demo_raw) (hd_client h) /\
  unhindered (whole_cx (fun _ => Some [V4 9]) sv) (wh_gateway (fd_whole f)).
Proof.
  assert (E0 : (match demo_serving with
     | (Ok sv, _) => match sv_source sv with
       | FromFind [] None fr =>
         let? f := demo_found sv fr in let? h := gw_handlers (wh_gateway (fd_whole f)) !! 0%nat in
         Some (ended h, fd_done f, length (r_emitted (fd_run f)), w_pending (gw_world (wh_gateway (fd_whole f))),
               bool_decide (recheck_of sv = None), forallb (fun p => bool_decide (is_Some (fst <$> demo_check (cr_checker fr) p))) (cr_source fr))
       | _ => None end
     | _ => None end) = Some (true, true, 1%nat, 0%nat, true, true)) by (vm_compute; reflexivity).
  destruct demo_serving as [[sv|] s'] eqn:Es; [|discriminate E0]. exists sv, s'.
  destruct (sv_source sv) as [|[|] [|] fr] eqn:Esrc; try discriminate E0. exists fr.
  destruct (demo_found sv fr) as [f|] eqn:Ef; [|discriminate E0]. exists f. cbn [mbind option_bind] in E0.
  destruct (gw_handlers (wh_gateway (fd_whole f)) !! 0%nat) as [h|] eqn:Eh; [|discriminate E0]. exists h. cbn [mbind option_bind] in E0.
  injection E0 as He Hd Hl Hw Hr%bool_decide_eq_true E1.
  assert (forall p, p ∈ cr_source fr -> check (fun _ => Some [V4 9]) (cr_checker fr) Checker.demo_world (fun _ => 0%nat) p =
    Some (demo_answer (cr_checker fr) p)) as Hchk.
  { intros p Hp. rewrite forallb_elem in E1. specialize (E1 p Hp). apply bool_decide_eq_true in E1.
    unfold demo_answer. change (check _ _ _ _ _) with (demo_check (cr_checker fr) p).
    destruct (demo_check (cr_checker fr) p); [reflexivity|]. destruct E1 as [? E1]. discriminate E1. }
  pose proof (serve_found shown (fun _ => Some [V4 9]) [lit "http://judge/"] (fun _ => lit "4711") no_stores demo_broker demo_resolver demo_batches
    demo_serve_world demo_serve_args demo_sys (V4 2130706433, 8888) sv s' Checker.demo_ck RecheckConfig_default (fun _ => Checker.demo_world)
    (fun _ _ => 0%nat) [] None fr (fun _ => Checker.demo_world) (fun _ _ => 0%nat) (demo_answer (cr_checker fr)) rand_seed 0 ∅ demo_found_events f
    (Forall_nil_2 _) eq_refl eq_refl Es Esrc) as HQ.
  assert (forall c rc, recheck_of sv = Some (c, rc) -> c = Checker.demo_ck /\ rc = RecheckConfig_default) as Hrc.
  { intros c rc Hc. rewrite Hr in Hc. discriminate Hc. }
  destruct (HQ Hrc Hchk Ef) as ((_ & _ & Hans) & _ & _ & ws & _ & _ & Hend). destruct (Hend Hd) as (_ & _ & Hun).
  do 7 (split; [first [reflexivity|assumption]|]). split; [|exact (Hun Hw)].
  exact (proj1 (Hans 0%nat h (V4 1) (open_conn demo_raw) Eh eq_refl) He).
Defined.
End found_demo.
