(* ===== verification/TestsData.v ===== *)
(** * The crate's unit tests on the model: data

    The test functions of types.rs, error.rs, utils.rs, parse.rs, resolver.rs and proxy.rs, each as a
    definition of its name: an assertion is a boolean. What they expect was written for the program, and the model gives it.
    Text that serde_json would write and read again is passed on as a value. *)
From S2P Require Import Prelude F64 Text Types Addr Utils Proxy ProxyJson Http Negotiator Provider Judge Checker Ndjson Cli Regex.
Open Scope Z_scope.

(** [assert_eq!], and the assertions of a test. *)
Abbreviation same a b := (bool_decide (a = b)).
Definition all (l : list bool) : bool := forallb id l.
#[export] Instance result_eq_dec {A E} `{EqDecision A} `{EqDecision E} : EqDecision (result A E).
Proof. solve_decision. Defined.
#[export] Instance Region_eq_dec : EqDecision Region.
Proof. solve_decision. Defined.
#[export] Instance Country_eq_dec : EqDecision Country.
Proof. solve_decision. Defined.
#[export] Instance Asn_eq_dec : EqDecision Asn.
Proof. solve_decision. Defined.
#[export] Instance Credentials_eq_dec : EqDecision Credentials.
Proof. solve_decision. Defined.
#[export] Instance Caps_eq_dec : EqDecision Caps.
Proof. solve_decision. Defined.
#[export] Instance Proxy_eq_dec : EqDecision Proxy.
Proof. solve_decision. Defined.
#[export] Instance NdjsonError_eq_dec : EqDecision NdjsonError.
Proof. solve_decision. Defined.
#[local] Existing Instance ascii_regexes.
(** A decimal literal: the double nearest to [n / d]. *)
Definition dec (n d : Z) : f64 := f_div (f_of_Z n) (f_of_Z d).
(** ** types.rs *)
Module TypesTests.
Definition proto_roundtrips_through_its_wire_name : bool :=
  all (map (fun p => same (proto_from_str (proto_as_str p)) (Ok p)) Protos.ALL ++
       [same (proto_from_str (lit "connect:80")) (Ok Connect80); negb (is_ok (proto_from_str (lit "NOPE")))]).
Definition anon_level_serializes_as_wire_name : bool :=
  all [same (anon_as_str High) (lit "High"); same (anon_as_str Transparent) (lit "Transparent")].
Definition key_cmp (p q : Proto) : comparison :=
  let '(a, b) := display_order_key p in let '(c, d) := display_order_key q in cmp_then (a ?= c) (b ?= d).
Definition display_order_matches_python : bool :=
  same (map proto_as_str (sort_by key_cmp Protos.ALL))
    [lit "HTTP"; lit "HTTPS"; lit "SOCKS4"; lit "SOCKS5"; lit "CONNECT:80"; lit "CONNECT:25"].
Definition only_http_carries_anonymity : bool :=
  all ([checks_anon_level Http; uses_full_path Http] ++
       concat (map (fun p => [negb (checks_anon_level p); negb (uses_full_path p)]) (List.filter (fun p => negb (same p Http)) Protos.ALL))).
Definition judge_scheme_routing_matches_python : bool :=
  all ([same (judge_scheme Https) JHttps; same (judge_scheme Connect25) JSmtp] ++
       map (fun p => same (judge_scheme p) JHttp) [Http; Socks4; Socks5; Connect80]).
Definition type_spec_accepts : bool :=
  let any := type_any Socks5 in
  let strict := {| ts_proto := Http; ts_levels := Some [High] |} in
  all [accepts any Socks5 None; negb (accepts any Socks4 None);
       accepts strict Http (Some High); negb (accepts strict Http (Some Transparent)); negb (accepts strict Http None)].
Example types_tests_pass : all [proto_roundtrips_through_its_wire_name; anon_level_serializes_as_wire_name; display_order_matches_python;
  only_http_carries_anonymity; judge_scheme_routing_matches_python; type_spec_accepts] = true.
Proof. vm_compute. reflexivity. Qed.
End TypesTests.

(** ** error.rs *)
Module ErrorTests.
Definition errmsg_strings_match_python_byte_for_byte : bool :=
  all [same (error_as_str ConnFailed) (lit "connection_failed"); same (error_as_str Timeout) (lit "connection_timeout");
       same (error_as_str Reset) (lit "connection_is_reset"); same (error_as_str EmptyRecv) (lit "empty_response");
       same (error_as_str BadStatus) (lit "bad_status"); same (error_as_str BadResponse) (lit "bad_response");
       same (error_as_str ErrorOnStream) (lit "error_on_stream")].
Definition counted (es : list ProxyError) : gmap ProxyError Z := fold_left (fun m e => <[e := default 0 (m !! e) + 1]> m) es ∅.
Definition reset_is_a_single_bucket : bool :=
  let counter := counted [Reset; Reset] in
  all [same (size counter) 1%nat; same (counter !! Reset) (Some 2); same (map (error_as_str ∘ fst) (map_to_list counter)) [lit "connection_is_reset"]].
Definition proxy_error_is_a_cheap_hashmap_key : bool :=
  let stats := counted [ConnFailed; Timeout; Timeout; BadStatus] in
  all [same (stats !! Timeout) (Some 2); same (stats !! ConnFailed) (Some 1); same (stats !! Reset) None].
Example error_tests_pass : all [errmsg_strings_match_python_byte_for_byte; reset_is_a_single_bucket; proxy_error_is_a_cheap_hashmap_key] = true.
Proof. vm_compute. reflexivity. Qed.
End ErrorTests.

(** ** utils.rs, parse.rs, resolver.rs *)
Module UtilsTests.
Definition user_agent (marker : option str) : str := default [] (snd <$> List.find (fun kv => same kv.1 (lit "User-Agent")) (request_headers marker)).
Definition headers_are_in_wire_order : bool :=
  same (map fst (request_headers None))
    [lit "User-Agent"; lit "Accept"; lit "Accept-Encoding"; lit "Pragma"; lit "Cache-control"; lit "Cookie"; lit "Referer"].
Definition marker_is_folded_into_user_agent : bool :=
  all [ends_with (lit "/4242") (user_agent (Some (lit "4242"))); ends_with (lit "/") (user_agent None)].
(** At the ends of the range of the generator, and between. *)
Definition fresh_marker_is_four_digits : bool :=
  forallb (fun r => match parse_uint (2 ^ 32 - 1) (fresh_marker r) with Some n => (1000 <=? n) && (n <=? 9999) | None => false end) [0; 4242; 8999].
Definition zone_id_that_is_not_ipv6_is_rejected : bool := same (canonicalize_ip (lit "1.2.3.4%eth0")) None.
Definition base64_encode_matches_rfc4648 : bool :=
  all [same (base64_encode (lit "")) (lit ""); same (base64_encode (lit "f")) (lit "Zg=="); same (base64_encode (lit "fo")) (lit "Zm8=");
       same (base64_encode (lit "foo")) (lit "Zm9v"); same (base64_encode (lit "foob")) (lit "Zm9vYg==");
       same (base64_encode (lit "fooba")) (lit "Zm9vYmE="); same (base64_encode (lit "foobar")) (lit "Zm9vYmFy");
       same (base64_encode (lit "user:pass")) (lit "dXNlcjpwYXNz")].
Definition text_lines (ls : list str) : str := concat (map (fun l => l ++ [LF]) ls).
Definition parses_addr_lines_into_proxies : bool :=
  let proxies := parse_proxy_lines (text_lines [lit "1.2.3.4:8080"; lit "010.0.0.1:3128"; lit "garbage"; lit "5.6.7.8:99999"]) in
  all [same (map addr proxies) [lit "1.2.3.4:8080"; lit "10.0.0.1:3128"]; same (p_expected_types <$> head proxies) (Some ∅)].
Definition empty_and_junk_input_yields_nothing : bool :=
  all [same (parse_proxy_lines []) []; same (parse_proxy_lines (text_lines [lit "no proxies here"; lit "just text"])) []].
Definition host_is_ip_matches_python : bool :=
  all (map host_is_ip [lit "1.2.3.4"; lit "2001:db8::1"; lit "::1"; lit "127.0.0.001"; lit "010.1.1.1"] ++
       map (fun s => negb (host_is_ip s)) [lit "example.com"; lit ""; lit "999.1.1.1"; lit "1.2.3"]).
Definition leading_zero_ipv4_is_decimal_not_octal : bool :=
  all [same (parse_ip_lenient (lit "010.0.0.1")) (ip_parse (lit "10.0.0.1")); same (parse_ip_lenient (lit "127.0.0.001")) (ip_parse (lit "127.0.0.1"))].
(** Without an answer of the name service. *)
Definition resolve_passes_ip_literals_through_without_dns : bool :=
  all [same (ok (resolve (fun _ => None) (lit "8.8.8.8"))) (ip_parse (lit "8.8.8.8"));
       same (ok (resolve (fun _ => None) (lit "010.0.0.1"))) (ip_parse (lit "10.0.0.1"))].
Example utils_tests_pass : all [headers_are_in_wire_order; marker_is_folded_into_user_agent; fresh_marker_is_four_digits;
  zone_id_that_is_not_ipv6_is_rejected; base64_encode_matches_rfc4648; parses_addr_lines_into_proxies; empty_and_junk_input_yields_nothing;
  host_is_ip_matches_python; leading_zero_ipv4_is_decimal_not_octal; resolve_passes_ip_literals_through_without_dns] = true.
Proof. vm_compute. reflexivity. Qed.
End UtilsTests.

(** ** proxy.rs *)
Module ProxyTests.
Definition at_ip (s : string) : IpAddr := default (V4 0) (ip_parse (lit s)).
Definition p : Proxy := new (at_ip "1.2.3.4") 8080 {[Http]}.
Definition restored_p (requests errors : Z) (ewma : option f64) : Proxy :=
  with_ewma ewma (restored (at_ip "1.2.3.4") 8080 {[Https := None]} requests errors (dec 1 2)).
Definition priority_parity_without_ewma : bool := let x := restored_p 10 3 None in same (priority x) (error_rate x, avg_resp_time x).
Definition priority_prefers_higher_ewma : bool :=
  let good := restored_p 0 0 (Some (dec 9 10)) in let bad := restored_p 0 0 (Some (dec 3 10)) in
  f_ltb (priority good).1 (priority bad).1.
Definition near (x y : f64) : bool := let d := f_sub x y in f_ltb d (dec 1 (10 ^ 9)) && f_ltb (f_sub f_zero d) (dec 1 (10 ^ 9)).
Definition reliability_takes_worse_of_history_and_live : bool := let x := restored_p 10 5 (Some (dec 9 10)) in near (priority x).1 (dec 1 2).
Definition addr_brackets_ipv6_only : bool :=
  all [same (addr p) (lit "1.2.3.4:8080"); same (addr (new (at_ip "2001:db8::1") 3128 ∅)) (lit "[2001:db8::1]:3128")].
Definition fresh_proxy_has_zero_stats : bool := all [same (error_rate p) f_zero; same (avg_resp_time p) f_zero; negb (is_working p)].
Definition record_caps_or_accumulates : bool :=
  let x := record_caps {| cookie_echo := false; referer_echo := true |} (record_caps {| cookie_echo := true; referer_echo := false |} p) in
  same (p_caps x) {| cookie_echo := true; referer_echo := true |}.
Definition capabilities_derives_connect25 : bool :=
  all [negb (cap_connect25 (capabilities p)); cap_connect25 (capabilities (add_type Connect25 None p))].
Definition record_trust_unions_across_protocols : bool :=
  let x := record_trust [] (record_trust [InjectedHeader] p) in
  all [negb (trusted (p_trust x)); same (p_trust x) [InjectedHeader]; same (length (p_trust (record_trust [InjectedHeader] x))) 1%nat].
Definition percentile_linear_interpolation : bool :=
  let to_ten := map f_of_Z (seqZ 1 10) in
  all [same (percentile (map f_of_Z [1; 2; 3; 4]) (dec 1 2)) (dec 25 10); same (percentile [] (dec 1 2)) f_zero;
       same (percentile [f_of_Z 5] (dec 9 10)) (f_of_Z 5); same (percentile to_ten (dec 90 100)) (dec 91 10);
       same (percentile to_ten (dec 95 100)) (dec 955 100); same (percentile (map f_of_Z [4; 1; 3; 2]) (dec 1 2)) (dec 25 10)].
Definition attempted (l : list (option f64 * option ProxyError)) (x : Proxy) : Proxy := fold_left (fun x a => record_attempt a.1 a.2 x) l x.
Definition proxy_percentile_uses_runtimes : bool :=
  let x := attempted (map (fun n => (Some (dec n 10), None)) [1; 2; 3; 4] ++ [(Some (dec 99 10), Some Timeout)]) p in
  all [same (percentile (p_runtimes x) (dec 1 2)) (dec 25 100); same (percentile (p_runtimes p) (dec 1 2)) f_zero].
Definition us : Country := {| c_code := lit "US"; c_name := lit "United States"; c_region := None; c_city := None |}.
Definition checked : Proxy := add_type Http (Some High) (set_geo (Some us) None (new (at_ip "1.2.3.4") 8080 ∅)).
Definition located : Proxy :=
  add_type Http (Some High) (set_geo (Some {| c_code := lit "SE"; c_name := lit "Sweden";
    c_region := Some {| r_code := lit "E"; r_name := lit "Östergötland" |}; c_city := Some (lit "Linköping") |}) None (new (at_ip "1.2.3.4") 8080 ∅)).
Definition deserialize_round_trips_serialized_fields : bool := let x := add_type Connect80 None checked in same (deserialize (serialize x)) (Some x).
Definition no_geo_round_trips_to_none : bool :=
  let x := add_type Socks5 None (new (at_ip "9.9.9.9") 53 ∅) in
  all [same (p_geo <$> deserialize (serialize x)) (Some None); same (deserialize (serialize x)) (Some x)].
Definition geo_region_city_round_trip : bool :=
  all [same (p_geo <$> deserialize (serialize located)) (Some (p_geo located)); same (deserialize (serialize located)) (Some located)].
(** Indexing of a JSON value. *)
Fixpoint at_path (path : list str) (j : json) : json :=
  match path with
  | [] => j
  | k :: path => match j with JObj l => match field k l with Some j => at_path path j | None => JNull end | _ => JNull end
  end.
Definition is_null (j : json) : bool := match j with JNull => true | _ => false end.
Definition is_str (j : json) (s : str) : bool := match j with JStr t => same t s | _ => false end.
Definition is_num (j : json) (n : Z) : bool := match j with JNum m => m =? n | _ => false end.
Definition is_float (j : json) (x : f64) : bool := match j with JFloat y => f_eqb y x | _ => false end.
Definition nth_of (n : nat) (j : json) : json := match j with JArr l => nth n l JNull | _ => JNull end.
Definition keys (j : json) : list str := match j with JObj l => sort_by str_cmp (map fst l) | _ => [] end.
Definition asn_round_trips_and_absent_serializes_null : bool :=
  let absent := add_type Socks5 None (new (at_ip "9.9.9.9") 53 ∅) in
  let present := add_type Http (Some High) (set_geo None (Some {| asn_number := 15169; asn_org := Some (lit "Google LLC") |}) (new (at_ip "8.8.8.8") 8080 ∅)) in
  let v := serialize present in
  all [is_null (at_path [lit "asn"] (serialize absent)); same (p_asn <$> deserialize (serialize absent)) (Some None);
       same (deserialize (serialize absent)) (Some absent);
       is_num (at_path [lit "asn"; lit "number"] v) 15169; is_str (at_path [lit "asn"; lit "org"] v) (lit "Google LLC");
       same (p_asn <$> deserialize v) (Some (p_asn present)); same (deserialize v) (Some present)].
Definition deserialize_ignores_computed_stat_fields : bool :=
  let json := JObj [(lit "host", JStr (lit "1.2.3.4")); (lit "port", JNum 80);
    (lit "geo", JObj [(lit "country", JObj [(lit "code", JStr (lit "US")); (lit "name", JStr (lit "United States"))]);
                      (lit "region", JObj [(lit "code", JStr []); (lit "name", JStr [])]); (lit "city", JNull)]);
    (lit "types", JArr [JObj [(lit "type", JStr (lit "HTTP")); (lit "level", JStr (lit "High"))]]);
    (lit "avg_resp_time", JFloat (dec 42 100)); (lit "error_rate", JFloat (dec 1 10))] in
  match deserialize json with
  | Some p => all [same (avg_resp_time p) f_zero; same (error_rate p) f_zero; same (p_types p !! Http) (Some (Some High))]
  | None => false
  end.
(** A text for each of two values. *)
Definition texts (a b : json) (j : json) : str := if is_str (at_path [lit "host"] j) (lit "5.6.7.8") then lit "{5}" else lit "{1}".
Definition values (a b : json) (s : str) : option json := if same s (lit "{5}") then Some b else if same s (lit "{1}") then Some a else None.
Definition other : Proxy := add_type Socks5 None (new (at_ip "5.6.7.8") 3128 ∅).
Definition ndjson_round_trips_via_cursor : bool :=
  let a := serialize checked in let b := serialize other in let proxies := [checked; other] in
  let buf := write_ndjson (texts a b) proxies in
  all [same (length (List.filter (fun c => same c LF) buf)) (length proxies); same (read_ndjson (values a b) buf) (Ok proxies)].
Definition read_ndjson_skips_blank_lines : bool :=
  let p := new (at_ip "1.2.3.4") 80 ∅ in let a := serialize p in let line := texts a a a in
  same (read_ndjson (values a a) ([LF] ++ line ++ [LF; LF] ++ line ++ [LF; LF])) (Ok [p; p]).
Definition read_ndjson_propagates_parse_error : bool :=
  match read_ndjson (values JNull JNull) (lit "not json" ++ [LF]) with Err InvalidData => true | _ => false end.
Definition record_attempt_tracks_requests_errors_runtimes : bool :=
  let x := attempted [(Some (dec 5 10), None); (Some (dec 15 10), None); (None, Some ConnFailed)] p in
  all [same (p_requests x) 3; same (error_rate x) (round2 (dec 1 3)); same (avg_resp_time x) f_one].
Definition probe_latency_isolated_from_serve_rtt : bool :=
  let x := attempted [(Some (dec 10 100), None); (Some (dec 90 100), None)] (record_probe_latency (dec 10 100) p) in
  let y := attempted [(Some (dec 90 100), None)] p in
  all [same (probe_latency x) (dec 10 100); same (avg_resp_time x) (dec 50 100); same (probe_latency y) f_zero; same (probe_latency p) f_zero].
Definition timeout_runtime_is_excluded_like_python : bool :=
  let x := attempted [(Some (f_of_Z 8), Some Timeout)] p in
  all [same (avg_resp_time x) f_zero; same (p_requests x) 1; same (error_rate x) f_one].
Definition round2_matches_python_round : bool :=
  let cases := [(dec 125 1000, dec 12 100); (dec 2675 1000, dec 267 100); (dec 335 1000, dec 34 100); (dec 1005 1000, f_one); (dec 45 1000, dec 4 100);
    (dec 5 1000, dec 1 100); (dec 1 3, dec 33 100); (dec 2 3, dec 67 100); (dec 99995 1000, f_of_Z 100)] in
  forallb (fun '(input, want) => f_eqb (round2 input) want) cases.
Definition schemes_follow_protocol_families : bool :=
  let x := add_type Http (Some High) p in let y := add_type Socks5 None x in
  all [same (schemes x) [SHttp]; same (schemes y) [SHttp; SHttps]; is_working y].
Definition serializes_to_python_as_json_shape : bool :=
  let x := add_type Connect80 None (add_type Http (Some High) (set_geo (Some us) None (new (at_ip "1.2.3.4") 80 {[Http]}))) in
  let v := serialize x in
  let types := at_path [lit "types"] v in
  all [is_str (at_path [lit "host"] v) (lit "1.2.3.4"); is_num (at_path [lit "port"] v) 80;
       is_str (at_path [lit "geo"; lit "country"; lit "code"] v) (lit "US"); is_str (at_path [lit "geo"; lit "country"; lit "name"] v) (lit "United States");
       is_str (at_path [lit "type"] (nth_of 0 types)) (lit "HTTP"); is_str (at_path [lit "level"] (nth_of 0 types)) (lit "High");
       is_str (at_path [lit "type"] (nth_of 1 types)) (lit "CONNECT:80"); is_str (at_path [lit "level"] (nth_of 1 types)) [];
       is_str (at_path [lit "geo"; lit "region"; lit "code"] v) []; is_str (at_path [lit "geo"; lit "region"; lit "name"] v) [];
       is_null (at_path [lit "geo"; lit "city"] v); is_null (at_path [lit "asn"] v);
       is_float (at_path [lit "avg_resp_time"] v) f_zero; is_float (at_path [lit "error_rate"] v) f_zero;
       same (keys v) [lit "asn"; lit "avg_resp_time"; lit "error_rate"; lit "geo"; lit "host"; lit "port"; lit "types"];
       same (keys (at_path [lit "geo"] v)) [lit "city"; lit "country"; lit "region"];
       same (keys (at_path [lit "geo"; lit "country"] v)) [lit "code"; lit "name"]; same (keys (at_path [lit "geo"; lit "region"] v)) [lit "code"; lit "name"];
       same (keys (nth_of 0 types)) [lit "level"; lit "type"]].
Example proxy_tests_pass : all [priority_parity_without_ewma; priority_prefers_higher_ewma; reliability_takes_worse_of_history_and_live;
  addr_brackets_ipv6_only; fresh_proxy_has_zero_stats; record_caps_or_accumulates; capabilities_derives_connect25; record_trust_unions_across_protocols;
  percentile_linear_interpolation; proxy_percentile_uses_runtimes; deserialize_round_trips_serialized_fields; no_geo_round_trips_to_none;
  geo_region_city_round_trip; asn_round_trips_and_absent_serializes_null; deserialize_ignores_computed_stat_fields; ndjson_round_trips_via_cursor;
  read_ndjson_skips_blank_lines; read_ndjson_propagates_parse_error; record_attempt_tracks_requests_errors_runtimes;
  probe_latency_isolated_from_serve_rtt; timeout_runtime_is_excluded_like_python; round2_matches_python_round; schemes_follow_protocol_families;
  serializes_to_python_as_json_shape] = true.
Proof. vm_compute. reflexivity. Qed.
End ProxyTests.
