(* ===== verification/TestsPool.v ===== *)
(** * The crate's unit tests on the model: sources, stores and state

    The test functions of stats.rs, provider.rs, judge.rs, scheduler.rs, persist.rs, watch.rs, tui.rs and
    broker.rs. Files and their YAML are tables. *)
From S2P Require Import Prelude F64 Text Types Addr Utils Proxy ProxyJson Pool Http Negotiator Provider ProviderDir Judge Checker Ndjson Cli Regex Stats Report Store Redis Scheduler Watch Dashboard Pipeline Broker TestsData.
Open Scope Z_scope.
Import ProxyTests.
#[local] Existing Instances ascii_case.
#[local] Existing Instance ascii_regexes.
#[export] Instance Capabilities_eq_dec : EqDecision Capabilities.
Proof. solve_decision. Defined.
#[export] Instance TypeSpec_eq_dec : EqDecision TypeSpec.
Proof. solve_decision. Defined.
#[export] Instance RetryPolicy_eq_dec : EqDecision RetryPolicy.
Proof. solve_decision. Defined.
#[export] Instance FindQuery_eq_dec : EqDecision FindQuery.
Proof. solve_decision. Defined.
Definition listed (ls : list string) : str := concat (map (fun l => lit l ++ [LF]) ls).

(** ** stats.rs *)
Module StatsTests.
Definition proxy (ip : string) (protos : list (Proto * option AnonLevel)) (country : option string) : Proxy :=
  let p := fold_left (fun p x => add_type x.1 x.2 p) protos (new (at_ip ip) 80 ∅) in
  match country with
  | Some c => set_geo (Some {| c_code := lit c; c_name := lit c; c_region := None; c_city := None |}) None p
  | None => p
  end.
Definition aggregates_protocols_anonymity_and_country : bool :=
  let s := stats_from_proxies [proxy "1.1.1.1" [(Http, Some High)] (Some "US"%string); proxy "2.2.2.2" [(Http, Some High); (Https, None)] (Some "US"%string);
                               proxy "3.3.3.3" [(Socks5, None)] (Some "DE"%string)] in
  all [same (st_total s) 3%nat; same (st_working s) 3%nat; same (st_by_protocol s !! Http) (Some 2%nat); same (st_by_protocol s !! Https) (Some 1%nat);
       same (st_by_protocol s !! Socks5) (Some 1%nat); same (st_by_anonymity s !! High) (Some 2%nat);
       same (st_by_country s !! lit "US") (Some 2%nat); same (st_by_country s !! lit "DE") (Some 1%nat)].
Definition unknown_country_uses_dashes_like_proxybroker2 : bool :=
  same (st_by_country (stats_from_proxies [proxy "1.1.1.1" [(Http, None)] None]) !! lit "--") (Some 1%nat).
Definition collector_records_failed_proxies_too : bool :=
  let failed := record_attempt None (Some Timeout) (new (at_ip "9.9.9.9") 80 ∅) in
  let s := finish (record (record collector_default (proxy "1.1.1.1" [(Http, Some High)] None)) failed) in
  all [same (st_total s) 2%nat; same (st_working s) 1%nat; same (st_errors s !! lit "connection_timeout") (Some 1)].
Definition aggregates_errors_and_avg_time : bool :=
  let s := stats_from_proxies [record_attempt None (Some Timeout) (record_attempt (Some (dec 4 10)) None (proxy "1.1.1.1" [(Http, None)] None))] in
  all [same (st_errors s !! lit "connection_timeout") (Some 1); f_eqb (st_avg_resp_time s) (dec 4 10)].
Definition percentiles_over_per_proxy_means : bool :=
  let s := stats_from_proxies (map (fun n => record_attempt (Some (dec n 10)) None (proxy "1.1.1.1" [(Http, None)] None)) [1; 2; 3]) in
  all [f_eqb (st_avg_resp_time s) (dec 2 10); f_eqb (st_p50 s) (dec 2 10); f_eqb (st_p90 s) (dec 28 100); f_eqb (st_p95 s) (dec 29 100)].
Definition empty_batch_is_all_zero : bool :=
  let s := stats_from_proxies [] in all [same (st_total s) 0%nat; same (st_working s) 0%nat; f_eqb (st_avg_resp_time s) f_zero].
Definition display_lists_the_sections : bool :=
  let out := stats_display (stats_from_proxies [proxy "1.1.1.1" [(Http, Some High)] (Some "US"%string)]) in
  forallb (contains out) [lit "Found 1 proxies (1 working)"; lit "HTTP: 1"; lit "High: 1"; lit "US: 1"].
Example stats_tests_pass : all [aggregates_protocols_anonymity_and_country; unknown_country_uses_dashes_like_proxybroker2;
  collector_records_failed_proxies_too; aggregates_errors_and_avg_time; percentiles_over_per_proxy_means; empty_batch_is_all_zero;
  display_lists_the_sections] = true.
Proof. vm_compute. reflexivity. Qed.
End StatsTests.

(** ** provider.rs *)
Module ProviderTests.
#[local] Instance no_pattern : Captures := {| captures_iter _ _ := None |}.
Definition spec (protocols : list Proto) : ProviderSpec := provider_spec (lit "http://example/") protocols.
Definition hosts (l : list Candidate) : list str := map cd_host l.
Definition extracts_from_plain_text_list : bool :=
  let got := extract (spec [Http]) (listed ["8.8.8.8:8080"%string; "1.1.1.1:3128"%string]) in
  all [same (length got) 2%nat; same (cd_host <$> head got) (Some (lit "8.8.8.8")); same (cd_port <$> head got) (Some 8080);
       match head got with Some c => bool_decide (Http ∈ cd_protocols c) | None => false end].
Definition extracts_from_html_table : bool :=
  let got := extract (spec []) (lit "<tr><td>66.55.44.33</td><td>8888</td></tr><tr><td>22.33.44.55</td><td>9999</td></tr>") in
  all [same (length got) 2%nat; same (cd_host <$> got !! 0%nat) (Some (lit "66.55.44.33")); same (cd_port <$> got !! 1%nat) (Some 9999)].
Definition matches_python_pipeline_on_messy_input : bool :=
  let got := extract (spec []) (lit "999.1.1.1:80 5.5.5.5:0 010.1.1.1:80 7.7.7.7:1234") in
  same (map cd_key got) [(lit "99.1.1.1", 80); (lit "7.7.7.7", 1234)].
Definition deduplicates_repeated_addresses : bool :=
  same (length (extract (spec []) (listed ["9.9.9.9:53"%string; "9.9.9.9:53"%string] ++ lit "9.9.9.9:53"))) 1%nat.
Definition drops_the_unspecified_sentinel : bool :=
  let got := extract (spec [Http]) (listed ["0.0.0.0:80"%string; "8.8.8.8:8080"%string] ++ lit "1.1.1.1:3128") in
  all [forallb (fun c => negb (same (cd_host c) (lit "0.0.0.0"))) got; same (length got) 2%nat; existsb (fun c => same (cd_key c) (lit "8.8.8.8", 8080)) got].
(** What the YAML reader makes of the files of a test; the others are malformed. *)
Definition kinded (kind : option string) (url : string) (protocols : list Proto) : ProviderSpec :=
  {| ps_url := lit url; ps_protocols := protocols; ps_pattern := None; ps_timeout := 20; ps_kind := lit <$> kind |}.
Definition table {A} (l : list (str * A)) (k : str) : option A := snd <$> List.find (fun kv => same kv.1 k) l.
Definition load (files : list (string * string * option ProviderSpec)) : list ProviderSpec :=
  load_provider_dir (table (omap (fun f => let '(_, text, spec) := f in (fun s => (lit text, s)) <$> spec) files))
    (Some (map (fun f => Some (lit f.1.1)) files)) (table (map (fun f => (lit f.1.1, lit f.1.2)) files)).
Definition load_provider_dir_reads_sorted_skips_underscore_and_bad : bool :=
  let specs := load [("b.yaml", "b", Some (kinded None "http://b/" [Socks5])); ("a.json", "a", Some (kinded None "http://a/" [Http]));
    ("_disabled.yaml", "skip", Some (kinded None "http://skip/" [])); ("broken.yaml", "url: [not a string", None); ("notconfig.txt", "ignored", None)]%string in
  all [same (length specs) 2%nat; same (ps_url <$> specs !! 0%nat) (Some (lit "http://a/")); same (ps_protocols <$> specs !! 0%nat) (Some [Http]);
       same (ps_url <$> specs !! 1%nat) (Some (lit "http://b/"))].
Definition load_provider_dir_missing_dir_is_empty : bool :=
  match load_provider_dir (fun _ => None) None (fun _ => None) with [] => true | _ => false end.
Definition unsupported_provider_types_are_skipped_not_loaded_broken : bool :=
  let specs := load [("ok.yaml", "ok", Some (kinded (Some "simple") "http://ok/" [Http])); ("paginated.yaml", "p", Some (kinded (Some "paginated") "http://p/?page={}" []));
    ("api.yaml", "api", Some (kinded (Some "api") "http://a/" [])); ("typeless.yaml", "t", Some (kinded None "http://t/" [Http]))]%string in
  same (map ps_url specs) [lit "http://ok/"; lit "http://t/"].
Example provider_tests_pass : all [extracts_from_plain_text_list; extracts_from_html_table; matches_python_pipeline_on_messy_input;
  deduplicates_repeated_addresses; drops_the_unspecified_sentinel; load_provider_dir_reads_sorted_skips_underscore_and_bad;
  load_provider_dir_missing_dir_is_empty; unsupported_provider_types_are_skipped_not_loaded_broken] = true.
Proof. vm_compute. reflexivity. Qed.
End ProviderTests.

(** ** judge.rs, scheduler.rs, persist.rs, watch.rs *)
Module StateTests.
Definition empty_pool_is_empty : bool :=
  jp_is_empty jp_empty && match random_judge 0 JHttp jp_empty with None => true | Some _ => false end.
Definition secs (n : Z) : Z := n * 10 ^ 9.
(** [powf] at a whole exponent. *)
#[local] Instance whole_powf : Powf := {| powf x y := Nat.iter (Z.to_nat (f_floor_usize y)) (f_mul x) f_one |}.
Definition halflife (n : Z) : RecheckConfig :=
  {| min_interval := secs 60; max_interval := secs 3600; rate_per_sec := f_of_Z 5; decay_halflife := secs n |}.
Definition at_most (o o' : option Z) : bool := match o, o' with Some a, Some b => a <=? b | _, _ => false end.
Definition cadence_grows_with_stability : bool :=
  let next e := next_interval e RecheckConfig_default in
  all [same (next f_zero) (Some (secs 60)); same (next f_one) (Some (secs 3600)); at_most (next f_zero) (next f_one) && negb (at_most (next f_one) (next f_zero));
       at_most (next (dec 4 10)) (next (dec 9 10)); same (next (f_of_Z 2)) (Some (secs 3600))].
Definition decay_halves_score_at_one_half_life : bool :=
  let score age := decayed_score f_one (dec 5 10) (secs age) (halflife 3600) in
  all [near (score 3600) (f_mul (score 0) (dec 5 10)); near (score 7200) (f_mul (score 0) (dec 25 100))].
Definition staleness_drives_eviction : bool :=
  all [should_retry (dec 5 10) f_zero 0 (halflife 60); negb (should_retry (dec 5 10) f_zero (secs 600) (halflife 60))].
Definition is_finite (x : f64) : bool := match x with S754_zero _ | S754_finite _ _ _ => true | _ => false end.
Definition zero_halflife_does_not_nan : bool :=
  all [is_finite (decayed_score f_one f_zero 0 (halflife 0)); is_finite (decayed_score f_one f_zero (secs 3600) (halflife 0));
       should_retry (dec 5 10) f_zero (secs 3600) (halflife 0)].
Definition working (host : string) (port requests errors : Z) (avg : f64) : Proxy := restored (at_ip host) port {[Http := None]} requests errors avg.
Definition failing (host : string) (port requests errors : Z) : Proxy := restored (at_ip host) port ∅ requests errors f_zero.
Definition store_of (ps : list Proxy) : MemoryStore := fold_left (fun m p => memory_upsert p m) ps ∅.
Definition record_of (m : MemoryStore) (host : string) (port : Z) : option MRecord := m !! (at_ip host, port).
Definition holds (o : option MRecord) (f : MRecord -> bool) : bool := match o with Some r => f r | None => false end.
Definition upsert_then_load_round_trips : bool :=
  match memory_load (store_of [working "1.2.3.4" 8080 3 1 (f_of_Z 250)]) with
  | [p] => all [same (p_host p) (at_ip "1.2.3.4"); same (p_port p) 8080; same (p_requests p) 3; has_type Http p; near (avg_resp_time p) (f_of_Z 250)]
  | _ => false
  end.
Definition first_upsert_seeds_ewma_from_sample : bool :=
  holds (record_of (store_of [working "1.2.3.4" 8080 1 0 (f_of_Z 100)]) "1.2.3.4" 8080) (fun r => near (r_ewma_success r) f_one).
Definition second_upsert_folds_ewma_alpha_0_3 : bool :=
  holds (record_of (store_of [working "1.2.3.4" 8080 1 0 (f_of_Z 100); failing "1.2.3.4" 8080 1 1]) "1.2.3.4" 8080)
    (fun r => all [near (r_ewma_success r) (dec 7 10); same (r_requests r) 2; same (r_errors r) 1; bool_decide (is_Some (r_types r !! Http));
                   near (r_avg_latency r) (f_of_Z 100)]).
Definition latency_ewma_folds_with_same_alpha : bool :=
  match memory_load (store_of [working "9.9.9.9" 3128 1 0 (f_of_Z 100); working "9.9.9.9" 3128 1 0 (f_of_Z 200)]) with
  | p :: _ => near (avg_resp_time p) (f_of_Z 130)
  | [] => false
  end.
Definition redis_key_layout : bool := same (proxy_key (at_ip "1.2.3.4") 8080) (lit "proxybroker:proxy:1.2.3.4:8080").
Definition fold_ewma_arithmetic : bool :=
  all [near (fold_ewma f_zero f_one) (dec 3 10); near (fold_ewma f_one f_zero) (dec 7 10); near (fold_ewma (fold_ewma f_zero f_one) f_one) (dec 51 100)].
Definition proxy (ip : string) (port : Z) : Proxy := new (at_ip ip) port {[Http]}.
Definition reconcile_removes_then_adds_disjoint_sets : bool :=
  let pool := reconcile quiet_env (from_proxies [proxy "1.1.1.1" 1] PoolConfig_default) [proxy "2.2.2.2" 2] in
  same (addrs pool) {[(at_ip "2.2.2.2", 2)]}.
Example state_tests_pass : all [empty_pool_is_empty; cadence_grows_with_stability; decay_halves_score_at_one_half_life; staleness_drives_eviction;
  zero_halflife_does_not_nan; upsert_then_load_round_trips; first_upsert_seeds_ewma_from_sample; second_upsert_folds_ewma_alpha_0_3;
  latency_ewma_folds_with_same_alpha; redis_key_layout; fold_ewma_arithmetic; reconcile_removes_then_adds_disjoint_sets] = true.
Proof. vm_compute. reflexivity. Qed.
End StateTests.

(** ** tui.rs *)
Module DashboardTests.
Definition proxy (ip : string) (rt : f64) : Proxy := record_attempt (Some rt) None (add_type Http None (new (at_ip ip) 80 ∅)).
Definition applied (ps : list Proxy) (st : DashboardState) : DashboardState := Dashboard.apply (proxies (from_proxies ps PoolConfig_default)) st.
Definition first_addr (st : DashboardState) : option str := row_addr <$> head (d_rows st).
Definition apply_snapshot_updates_rings_and_sorts : bool :=
  let ps := [proxy "2.2.2.2" (dec 9 10); proxy "1.1.1.1" (dec 1 10)] in
  let st := applied ps dashboard_default in let st' := applied ps st in
  all [same (first_addr st) (Some (lit "1.1.1.1:80")); same (length <$> d_history st' !! (at_ip "1.1.1.1", 80)) (Some 2%nat)].
Definition top_renders_sorted_pool_table : bool :=
  let st := applied [proxy "2.2.2.2" (dec 9 10); proxy "1.1.1.1" (dec 1 10)] dashboard_default in
  let text := concat (concat (fr_table (Dashboard.render st))) in
  match position (lit "1.1.1.1:80") text, position (lit "2.2.2.2:80") text with Some i, Some j => (i <? j)%nat | _, _ => false end.
Definition sort_key_cycles : bool :=
  let st := applied [proxy "9.9.9.9" (dec 1 10); proxy "1.1.1.1" (dec 9 10)] dashboard_default in
  let '(go, st') := on_key (KChar "a"%char) st in
  all [same (first_addr st) (Some (lit "9.9.9.9:80")); go; same (first_addr st') (Some (lit "1.1.1.1:80"))].
Definition quit_key_returns_false : bool := all [negb (on_key (KChar "q"%char) dashboard_default).1; negb (on_key KEsc dashboard_default).1].
Definition select_moves_within_bounds : bool :=
  let st := applied [proxy "1.1.1.1" (dec 1 10); proxy "2.2.2.2" (dec 2 10); proxy "3.3.3.3" (dec 3 10)] dashboard_default in
  let up := on_key KUp st in
  let down := Nat.iter 10 (fun s => (on_key KDown s).2) up.2 in
  let up' := on_key KUp down in
  all [same (d_selected st) 0%nat; up.1; same (d_selected up.2) 0%nat; same (d_selected down) 2%nat; up'.1; same (d_selected up'.2) 1%nat].
Example dashboard_tests_pass : all [apply_snapshot_updates_rings_and_sorts; top_renders_sorted_pool_table; sort_key_cycles; quit_key_returns_false;
  select_moves_within_bounds] = true.
Proof. vm_compute. reflexivity. Qed.
End DashboardTests.

(** ** broker.rs *)
Module BrokerTests.
Definition queried (types : list TypeSpec) (limit : option nat) : FindQuery :=
  {| fq_types := types; fq_countries := None; fq_limit := limit; fq_judges := []; fq_dnsbl := []; fq_timeout := 8 * 10 ^ 9; fq_max_conn := 200;
     fq_retry := RetryPolicy_default; fq_post := false; fq_strict := false; fq_liveness_url := None; fq_relaxed_validity := false;
     fq_require_cookie := false; fq_require_referer := false; fq_require_connect25 := false; fq_trust_check := false; fq_require_trusted := false |}.
Definition find_query_builder_matches_default : bool :=
  same (query_builder ▷ q_types [type_any Http] ▷ q_limit 10 ▷ build) (queried [type_any Http] (Some 10%nat)).
Definition find_query_builder_limit_zero_is_unlimited : bool := same (fq_limit (query_builder ▷ q_limit 0 ▷ build)) None.
Definition find_query_builder_sets_every_field : bool :=
  same (query_builder ▷ q_types [type_any Socks5] ▷ q_countries [lit "US"] ▷ q_limit 5 ▷ q_judges [lit "http://j/"] ▷ q_dnsbl [lit "zen.example.org"] ▷
          q_timeout (3 * 10 ^ 9) ▷ q_max_conn 7 ▷ q_max_tries 2 ▷ q_post true ▷ q_strict true ▷ build)
    {| fq_types := [type_any Socks5]; fq_countries := Some [lit "US"]; fq_limit := Some 5%nat; fq_judges := [lit "http://j/"];
       fq_dnsbl := [lit "zen.example.org"]; fq_timeout := 3 * 10 ^ 9; fq_max_conn := 7; fq_retry := tries 2; fq_post := true; fq_strict := true;
       fq_liveness_url := None; fq_relaxed_validity := false; fq_require_cookie := false; fq_require_referer := false; fq_require_connect25 := false;
       fq_trust_check := false; fq_require_trusted := false |}.
Example broker_tests_pass : all [find_query_builder_matches_default; find_query_builder_limit_zero_is_unlimited; find_query_builder_sets_every_field] = true.
Proof. vm_compute. reflexivity. Qed.
End BrokerTests.
