(* ===== verification/TestsNet.v ===== *)
(** * The crate's unit tests on the model: connections, checks and the server

    The test functions of negotiator.rs, checker.rs and server.rs. The servers the tests start are scripted
    connections; two tests of checker.rs that send a megabyte and more are left to [read_response_exact]. *)
From S2P Require Import Prelude F64 Text Types Addr Utils Proxy ProxyJson Pool PoolSteps Http Net Negotiator Client Relay Server Lease Judge Checker Regex Report TestsData.
Open Scope Z_scope.
Import ProxyTests.
#[local] Existing Instances ascii_regexes ascii_case list_order counter_notify no_libs.
#[local] Instance iterated_powi : Powi := {| powi x n := Nat.iter (Z.to_nat n) (f_mul x) f_one |}.
Definition typed (types : list Proto) : Proxy := fold_left (fun p t => add_type t None p) types (new (at_ip "1.1.1.1") 80 ∅).

(** ** negotiator.rs *)
Module NegotiatorTests.
Definition tunnel_proto_never_yields_a_tls_terminating_proto : bool :=
  forallb (fun types => let got := tunnel_proto (typed types) in negb (same got (Some Https)) && negb (same got (Some Connect25)))
    [[Https]; [Https; Socks5]; [Https; Connect80]; [Connect25]; [Http]; []].
Definition tunnel_proto_prefers_cheapest_handshake_first : bool :=
  all [same (tunnel_proto (typed [Socks5; Socks4; Connect80])) (Some Socks5); same (tunnel_proto (typed [Socks4; Connect80])) (Some Socks4)].
Definition tunnel_proto_reuses_a_proven_connect_from_an_https_type : bool := same (tunnel_proto (typed [Https])) (Some Connect80).
Definition tunnel_proto_is_none_without_any_tunnel_capability : bool :=
  all [same (tunnel_proto (typed [Http])) None; same (tunnel_proto (typed [])) None].
Definition line (s : string) : str := lit s ++ crlf.
Definition connect_request_ipv4_unbracketed : bool :=
  let req := connect_request (lit "198.51.100.1") 443 None in
  all [starts_with (line "CONNECT 198.51.100.1:443 HTTP/1.1") req; contains req (crlf ++ line "Host: 198.51.100.1")].
Definition connect_request_ipv6_brackets_authority_and_host : bool :=
  let req := connect_request (lit "2001:db8::1") 443 None in
  all [starts_with (line "CONNECT [2001:db8::1]:443 HTTP/1.1") req; contains req (crlf ++ line "Host: [2001:db8::1]")].
Definition connect_request_does_not_double_bracket : bool :=
  let req := connect_request (lit "[2001:db8::1]") 443 None in
  all [contains req (line "CONNECT [2001:db8::1]:443 HTTP/1.1"); negb (contains req (lit "[[")); negb (contains req (lit "]]"));
       contains req (crlf ++ line "Host: [2001:db8::1]")].
Definition connect_request_ports_25_80_443 : bool :=
  forallb (fun port => contains (connect_request (lit "fe80::abcd") port None) (lit "CONNECT [fe80::abcd]:" ++ show_uint port ++ lit " HTTP/1.1" ++ crlf))
    [25; 80; 443].
Definition connect_request_includes_proxy_authorization : bool :=
  let creds := {| username := lit "user"; password := lit "pass" |} in
  all [contains (connect_request (lit "h") 443 (Some creds)) (crlf ++ line "Proxy-Authorization: Basic dXNlcjpwYXNz");
       negb (contains (connect_request (lit "h") 443 None) (lit "Proxy-Authorization"))].
Example negotiator_tests_pass : all [tunnel_proto_never_yields_a_tls_terminating_proto; tunnel_proto_prefers_cheapest_handshake_first;
  tunnel_proto_reuses_a_proven_connect_from_an_https_type; tunnel_proto_is_none_without_any_tunnel_capability; connect_request_ipv4_unbracketed;
  connect_request_ipv6_brackets_authority_and_host; connect_request_does_not_double_bracket; connect_request_ports_25_80_443;
  connect_request_includes_proxy_authorization] = true.
Proof. vm_compute. reflexivity. Qed.
End NegotiatorTests.

(** ** checker.rs *)
Module CheckerTests.
Definition high_only : list TypeSpec := [{| ts_proto := Http; ts_levels := Some [High] |}; {| ts_proto := Https; ts_levels := Some [High] |}].
Definition proxy_with (types : list (Proto * option AnonLevel)) : Proxy := fold_left (fun p t => add_type t.1 t.2 p) types (new (at_ip "10.0.0.1") 8080 ∅).
Definition strict_keeps_tunnel_types_that_carry_no_anon_level : bool :=
  let '(passed, p) := types_passed high_only true (proxy_with [(Http, Some High); (Https, None)]) in all [passed; has_type Https p; has_type Http p].
Definition strict_strips_the_low_level_http_type_but_keeps_the_tunnel : bool :=
  let '(passed, p) := types_passed high_only true (proxy_with [(Http, Some Transparent); (Https, None)]) in
  all [passed; negb (has_type Http p); has_type Https p].
Definition strict_rejects_a_proxy_with_nothing_left : bool :=
  let '(passed, p) := types_passed high_only true (proxy_with [(Http, Some Transparent)]) in all [negb passed; same (p_types p) ∅].
Definition non_strict_is_unchanged : bool :=
  let '(passed, p) := types_passed high_only false (proxy_with [(Http, Some High); (Https, None)]) in
  all [passed; same (size (p_types p)) 2%nat; negb (types_passed high_only false (proxy_with [(Http, Some Transparent); (Https, None)])).1].
Definition split_head_body_splits_on_blank_line : bool :=
  let '(h, b) := split_head_body (lit "HTTP/1.1 200 OK" ++ crlf ++ lit "X: y" ++ crlf2 ++ lit "body here") in
  all [same h (lit "HTTP/1.1 200 OK" ++ crlf ++ lit "X: y"); same b (lit "body here")].
Definition dnsbl_query_reverses_ipv4_octets : bool :=
  all [same (dnsbl_query (at_ip "1.2.3.4") (lit "zen.spamhaus.org")) (Some (lit "4.3.2.1.zen.spamhaus.org"));
       same (dnsbl_query (at_ip "2001:db8::1") (lit "zen.spamhaus.org")) None].
Definition response_valid_requires_all_markers : bool :=
  let good := lit "REMOTE_ADDR=1.2.3.4 UA=PxBroker/x/5555 Referer=https://www.google.com/ Cookie=cookie=ok" in
  all [response_is_valid good (lit "5555"); negb (response_is_valid (lit "1.2.3.4 5555 https://www.google.com/") (lit "5555"));
       negb (response_is_valid good (lit "9999"))].
Definition caps_extracted_from_content : bool :=
  all [same (caps_from_content (lit "REMOTE_ADDR=1.2.3.4 cookie=ok Referer=https://www.google.com/")) {| cookie_echo := true; referer_echo := true |};
       same (caps_from_content (lit "REMOTE_ADDR=1.2.3.4 Referer=https://www.google.com/")) {| cookie_echo := false; referer_echo := true |};
       same (caps_from_content (lit "nothing here")) caps_default].
Definition default_policy_retries_only_timeout : bool :=
  let p := RetryPolicy_default in
  all [same (rp_max_tries p) 3%nat; same (retry_on p) {[Timeout]}; negb (bool_decide (Reset ∈ retry_on p)); backoff p =? 0].
Definition ms (n : Z) : Z := n * 10 ^ 6.
Definition policy (factor jitter : f64) (max_backoff : Z) : RetryPolicy :=
  {| rp_max_tries := 3; retry_on := {[Timeout]}; backoff := ms 100; factor := factor; jitter := jitter; max_backoff := max_backoff |}.
(** Draws of the jitter, its ends included. *)
Definition draws : list f64 := map (fun n => dec n 4) [-4; -2; -1; 0; 1; 2; 3; 4].
Definition within (o : option Z) (lo hi : Z) : bool := match o with Some d => (lo <=? d) && (d <=? hi) | None => false end.
Definition retry_policy_backoff_schedule : bool :=
  let c := policy f_one f_zero 0 in let e := policy (f_of_Z 2) f_zero 0 in
  all ([forallb (fun i => same (backoff_for c i f_zero) (Some (ms 100))) [0; 1; 2];
        same (map (fun i => backoff_for e i f_zero) [0; 1; 2]) [Some (ms 100); Some (ms 200); Some (ms 400)];
        same (backoff_for (policy (f_of_Z 2) f_zero (ms 250)) 2 f_zero) (Some (ms 250));
        forallb (fun r => within (backoff_for (policy f_one (dec 1 2) 0) 0 r) (ms 50) (ms 150)) draws;
        same (backoff_for RetryPolicy_default 0 f_zero) (Some 0)] ++
       map (fun i => forallb (fun r => within (backoff_for (policy (f_of_Z 2) (dec 1 2) (ms 250)) i r) 0 (ms 250)) draws) [0; 1; 2; 3; 4]).
Definition SENT : list str :=
  map lit ["User-Agent"; "Accept"; "Accept-Encoding"; "Pragma"; "Cache-control"; "Cookie"; "Referer"; "Host"; "Connection"; "Content-Length"]%string.
Definition sent_header_names_matches_the_request : bool := same (sort_by str_cmp sent_header_names) (sort_by str_cmp SENT).
Definition assessed (ls : list string) : TrustReport := assess SENT (lit "CANARY42") (concat (map (fun l => lit l ++ [LF]) ls)).
Definition trust_clean_response_is_trusted : bool :=
  trusted (assessed ["User-Agent: PxBroker/0.1/CANARY42"; "Cookie: cookie=ok"; "Referer: https://www.google.com/"; "Host: judge.example"; "REMOTE_ADDR = 8.8.8.8"]%string).
Definition trust_injected_header_is_flagged : bool :=
  same (assessed ["User-Agent: PxBroker/0.1/CANARY42"; "Cookie: cookie=ok"; "X-Ad-Inject: buy now"]%string) [InjectedHeader].
Definition trust_canary_mutation_is_flagged : bool :=
  same (assessed ["User-Agent: PxBroker/0.1/MUTATED"; "Cookie: cookie=ok"; "Host: judge.example"]%string) [CanaryMismatch].
Definition trust_forwarded_via_headers_are_not_injection : bool :=
  trusted (assessed ["User-Agent: PxBroker/0.1/CANARY42"; "Via: 1.1 someproxy"; "X-Forwarded-For: 8.8.8.8"; "Host: judge.example"]%string).
Definition trust_url_value_on_its_own_is_not_a_header : bool :=
  trusted (assessed ["User-Agent: PxBroker/0.1/CANARY42"; "https://www.google.com/"]%string).
Example checker_tests_pass : all [strict_keeps_tunnel_types_that_carry_no_anon_level; strict_strips_the_low_level_http_type_but_keeps_the_tunnel;
  strict_rejects_a_proxy_with_nothing_left; non_strict_is_unchanged; split_head_body_splits_on_blank_line; dnsbl_query_reverses_ipv4_octets;
  response_valid_requires_all_markers; caps_extracted_from_content; default_policy_retries_only_timeout; retry_policy_backoff_schedule;
  sent_header_names_matches_the_request; trust_clean_response_is_trusted; trust_injected_header_is_flagged; trust_canary_mutation_is_flagged;
  trust_forwarded_via_headers_are_not_injection; trust_url_value_on_its_own_is_not_a_header] = true.
Proof. vm_compute. reflexivity. Qed.
End CheckerTests.

(** ** server.rs *)
Module ServerTests.
Definition control_remove_is_gated_by_auth_or_loopback : bool :=
  all [negb (control_remove_allowed false (at_ip "192.168.1.20")); control_remove_allowed false (at_ip "127.0.0.1");
       control_remove_allowed false (at_ip "::1"); control_remove_allowed true (at_ip "192.168.1.20")].
Definition pool_config_default_caps_clients : bool := same (max_clients PoolConfig_default) 1024%nat.
Definition control_remove_denied_returns_403_and_keeps_the_pool : bool :=
  let pool := from_proxies [add_type Http None (new (at_ip "1.2.3.4") 80 ∅)] PoolConfig_default in
  let req := {| rq_scheme := SHttp; rq_frontend := HttpForward; rq_host := lit "proxycontrol"; rq_port := 80; rq_raw := []; rq_proxy_auth := None;
                rq_path := lit "http://proxycontrol/api/remove/1.2.3.4:80" |} in
  let '(text, pool) := serve_control req pool ∅ (at_ip "192.168.1.20") false in
  all [starts_with (lit "HTTP/1.1 403") text; same (len pool) 1%nat].
Definition proxy_at (rt : f64) (scheme : Proto) (ip : string) : Pooled :=
  ready_entry (record_attempt (Some rt) None (add_type scheme None (new (at_ip ip) 80 ∅))).
Definition proxy_with (rt : f64) (scheme : Proto) : Pooled := proxy_at rt scheme "1.2.3.4".
Definition https_scheme_never_negotiates_a_tls_terminating_proto : bool :=
  forallb (fun types => negb (same (choose_proto (typed types) SHttps) Https)) [[Https]; [Https; Connect80]; [Https; Socks5]; [Http]; []].
Definition https_scheme_prefers_a_real_tunnel_over_the_fallback : bool :=
  all [same (choose_proto (typed [Socks5; Connect80]) SHttps) Socks5; same (choose_proto (typed [Connect80]) SHttps) Connect80].
Definition http_scheme_still_prefers_plain_passthrough : bool := same (choose_proto (typed [Http; Connect80]) SHttp) Http.
Definition ctx_of (scheme : Scheme) (strategy : Strategy) (sticky : option (IpAddr * Z)) (cursor : Z) (prefer : bool) : SelectCtx :=
  {| sc_scheme := scheme; sc_strategy := strategy; sc_sticky := sticky; sc_round_robin_cursor := cursor; sc_now := 0; sc_prefer_connect := prefer |}.
Definition ctx (scheme : Scheme) : SelectCtx := ctx_of scheme Best None 0 false.
Definition best (pool : list Pooled) (c : SelectCtx) : option nat := (best_for pool c rand_seed).1.
Definition d (n : Z) : f64 := dec n 10.
Definition best_for_picks_lowest_response_time : bool :=
  let pool := [proxy_with (d 5) Http; proxy_with (d 1) Http; proxy_with (d 3) Http] in
  same ((fun e => avg_resp_time (proxy e)) <$> (best pool (ctx SHttp) ≫= fun i => pool !! i)) (Some (d 1)).
Definition benched (until : Z) (e : Pooled) : Pooled := {| proxy := proxy e; blocked_until := Some until |}.
Definition best_for_prefers_ready_over_benched : bool :=
  let until := 30 * 10 ^ 9 in
  all [same (best [proxy_at (d 9) Http "1.1.1.1"; benched until (proxy_at (d 1) Http "2.2.2.2")] (ctx SHttp)) (Some 0%nat);
       same (best [benched until (proxy_at (d 1) Http "3.3.3.3")] (ctx SHttp)) (Some 0%nat)].
Definition some {A} (o : option A) : bool := match o with Some _ => true | None => false end.
Definition best_for_respects_scheme : bool :=
  let pool := [proxy_with (d 1) Socks5] in let http_only := [proxy_with (d 1) Http] in
  all [some (best pool (ctx SHttp)); some (best pool (ctx SHttps)); some (best http_only (ctx SHttp)); negb (some (best http_only (ctx SHttps)))].
Definition tied_response_times_do_not_panic : bool := some (best [proxy_with (d 2) Http; proxy_with (d 2) Http] (ctx SHttp)).
Definition round_robin_cycles_through_pool : bool :=
  let pool := map (proxy_at (d 1) Http) ["1.1.1.1"; "2.2.2.2"; "3.3.3.3"]%string in
  same (map (fun cursor => best pool (ctx_of SHttp RoundRobin None cursor false)) [0; 1; 2; 3]) (map Some [0; 1; 2; 0]%nat).
(** Consecutive draws. *)
Definition random_stays_in_eligible_set : bool :=
  let pool := [proxy_at (d 1) Https "1.1.1.1"; proxy_at (d 1) Http "2.2.2.2"] in
  (Nat.iter 100 (fun s : bool * Z => let '(i, rng) := best_for pool (ctx_of SHttp Random None 0 false) s.2 in (s.1 && same i (Some 1%nat), rng))
     (true, rand_seed)).1.
Definition sticky_reuses_pin_when_present_else_best : bool :=
  let pool := [proxy_at (d 1) Http "1.1.1.1"; proxy_at (d 9) Http "2.2.2.2"] in
  let pinned sticky := best pool (ctx_of SHttp Sticky sticky 0 false) in
  all [same (pinned (Some (at_ip "2.2.2.2", 80))) (Some 1%nat); same (pinned (Some (at_ip "9.9.9.9", 80))) (Some 0%nat); same (pinned None) (Some 0%nat)].
Definition with_connect (e : Pooled) : Pooled := {| proxy := add_type Connect80 None (proxy e); blocked_until := blocked_until e |}.
Definition prefer_connect_biases_toward_connect80 : bool :=
  let pool := [proxy_at (d 1) Http "1.1.1.1"; with_connect (proxy_at (d 1) Http "2.2.2.2")] in
  all [same (best pool (ctx_of SHttp Best None 0 true)) (Some 1%nat); same (best pool (ctx SHttp)) (Some 0%nat)].
Definition prefer_connect_does_not_override_health : bool :=
  same (best [proxy_at (d 1) Http "1.1.1.1"; with_connect (proxy_at (d 9) Http "2.2.2.2")] (ctx_of SHttp Best None 0 true)) (Some 0%nat).
Definition parse_http_status_extracts_code : bool :=
  all [parse_http_status (lit "HTTP/1.1 200 OK" ++ crlf) =? 200; parse_http_status (lit "HTTP/1.0 403 Forbidden" ++ crlf) =? 403;
       parse_http_status (lit "HTTP/1.1 301 Moved Permanently" ++ crlf) =? 301; parse_http_status (lit "garbage") =? 0;
       parse_http_status (lit "HTTP/1.1 " ++ crlf) =? 0].
Definition strip_header_removes_only_the_named_header : bool :=
  let s := strip_header (lit "GET / HTTP/1.1" ++ crlf ++ lit "Host: x" ++ crlf ++ lit "Proxy-Authorization: Basic zzz" ++ crlf ++ lit "Accept: */*" ++ crlf2)
             (lit "Proxy-Authorization") in
  all [negb (contains s (lit "Proxy-Authorization")); contains s (lit "Host: x"); contains s (lit "Accept: */*");
       starts_with (lit "GET / HTTP/1.1" ++ crlf) s; ends_with crlf2 s].
Definition pool_remove_drops_matching : bool :=
  let pool := from_proxies (map (fun ip => new (at_ip ip) 80 ∅) ["1.1.1.1"; "2.2.2.2"; "3.3.3.3"]%string) PoolConfig_default in
  let '(hit, pool1) := remove (at_ip "2.2.2.2") 80 pool in
  let '(miss, pool2) := remove (at_ip "9.9.9.9") 80 pool1 in
  all [hit; same (len pool1) 2%nat; negb miss; same (len pool2) 2%nat].
Definition split_host_port_variants : bool :=
  all [same (split_host_port (lit "example.com:8080") 80) (lit "example.com", 8080); same (split_host_port (lit "example.com") 80) (lit "example.com", 80);
       same (split_host_port (lit "[2001:db8::1]:443") 80) (lit "2001:db8::1", 443); same (split_host_port (lit "[2001:db8::1]") 80) (lit "2001:db8::1", 80)].
Definition http_at (ip : string) (cc : option string) : Proxy :=
  let p := add_type Http None (new (at_ip ip) 80 ∅) in
  match cc with Some cc => set_geo (Some {| c_code := lit cc; c_name := []; c_region := None; c_city := None |}) None p | None => p end.
Definition try_get_filters_by_country : bool :=
  let pool := from_proxies [http_at "1.1.1.1" (Some "US"%string); http_at "2.2.2.2" (Some "GB"%string)] PoolConfig_default in
  match try_get SHttp (Some (lit "us")) pool with
  | Some (got, pool) => all [same (addr got) (lit "1.1.1.1:80"); negb (some (try_get SHttp (Some (lit "FR")) pool))]
  | None => false
  end.
Definition render_metrics_emits_probe_latency_distinct_from_resp_time : bool :=
  let p := record_attempt (Some (dec 90 100)) None (record_attempt (Some (dec 10 100)) None (record_probe_latency (dec 10 100)
             (add_type Http None (new (at_ip "1.2.3.4") 80 ∅)))) in
  let out := render_metrics (from_proxies [p] PoolConfig_default) in
  forallb (contains out) [lit "# TYPE proxybroker_pool_probe_latency_avg_seconds gauge"; lit "proxybroker_pool_probe_latency_avg_seconds 0.10";
                          lit "proxybroker_pool_resp_time_avg_seconds 0.50"].
Definition proxies_snapshot_does_not_consume : bool :=
  let pool := from_proxies [http_at "1.1.1.1" None; http_at "2.2.2.2" None] PoolConfig_default in
  match try_get SHttp None pool with
  | Some (_, pool') => all [same (length (proxies pool)) 2%nat; same (length (proxies pool')) 1%nat]
  | None => false
  end.
(** The upstream proxies of the tests: one refuses, one answers [CONNECT] with 200. *)
Definition https_at_port (port : Z) : Proxy := add_type Https None (new (at_ip "127.0.0.1") port ∅).
Definition verify_target : Target := {| tg_host := lit "1.1.1.1"; tg_ip := None; tg_port := 443 |}.
Definition mock_connect_ok : Dial := DialOk (open_conn (lit "HTTP/1.1 200 Connection established" ++ crlf2)).
Definition probe_tunnel_false_on_refused_connection : bool := negb (probe_tunnel DialErr verify_target None).
Definition probe_tunnel_true_via_mock_connect : bool := probe_tunnel mock_connect_ok verify_target None.
Definition verifying (timeout : Z) : PoolConfig :=
  let d := PoolConfig_default in
  {| max_tries := max_tries d; max_error_rate := max_error_rate d; max_resp_time := max_resp_time d; min_req := min_req d; countries := countries d;
     strategy := strategy d; sticky_header := sticky_header d; max_sessions := max_sessions d; fail_timeout := fail_timeout d;
     prefer_connect := prefer_connect d; http_allowed_codes := http_allowed_codes d; verify_on_lease := Some timeout;
     Pool.verify_target := Pool.verify_target d; max_clients := max_clients d |}.
(** [get] alone on the pool: the steps of its task until it is done. *)
Fixpoint got_after (n : nat) (dial : Dial) (st : list Task * World) : option (option Proxy) :=
  match t_pc <$> st.1 !! 0%nat with
  | Some (GDone r) => Some r
  | _ => match n with O => None | S n => let? st := lease_run [LsTask 0 0 dial] st in got_after n dial st end
  end.
Definition get_leased (ps : list Proxy) (dial : Dial) : option (option Proxy) :=
  let? st := lease_run [LsSpawn SHttps (KIp (at_ip "127.0.0.1")) None] ([], mkWorld (from_proxies ps (verifying (10 ^ 9))) rand_seed notify_new 0) in
  got_after 100 dial st.
Definition get_verify_on_lease_rejects_all_dead_pool : bool :=
  match get_leased [https_at_port 1; https_at_port 2] DialErr with Some None => true | _ => false end.
Definition get_verify_on_lease_hands_out_live_proxy : bool :=
  match get_leased [https_at_port 40000] mock_connect_ok with Some (Some p) => p_port p =? 40000 | _ => false end.
Example server_tests_pass : all [control_remove_is_gated_by_auth_or_loopback; pool_config_default_caps_clients;
  control_remove_denied_returns_403_and_keeps_the_pool; https_scheme_never_negotiates_a_tls_terminating_proto;
  https_scheme_prefers_a_real_tunnel_over_the_fallback; http_scheme_still_prefers_plain_passthrough; best_for_picks_lowest_response_time;
  best_for_prefers_ready_over_benched; best_for_respects_scheme; tied_response_times_do_not_panic; round_robin_cycles_through_pool;
  random_stays_in_eligible_set; sticky_reuses_pin_when_present_else_best; prefer_connect_biases_toward_connect80;
  prefer_connect_does_not_override_health; parse_http_status_extracts_code; strip_header_removes_only_the_named_header; pool_remove_drops_matching;
  split_host_port_variants; try_get_filters_by_country; render_metrics_emits_probe_latency_distinct_from_resp_time; proxies_snapshot_does_not_consume;
  probe_tunnel_false_on_refused_connection; probe_tunnel_true_via_mock_connect; get_verify_on_lease_rejects_all_dead_pool;
  get_verify_on_lease_hands_out_live_proxy] = true.
Proof. vm_compute. reflexivity. Qed.
End ServerTests.
