(* ===== verification/TestsCli.v ===== *)
(** * The crate's unit tests on the model: the command line

    The test functions of bin/proxybroker.rs. The text of a JSON value is a stand-in in braces, that of a
    double a table of those the tests print. *)
From S2P Require Import Prelude F64 Text Types Addr Utils Proxy ProxyJson Pool Http Negotiator Provider Judge Checker Store Ndjson Stats Report Broker Cli TestsData.
Open Scope Z_scope.
Import ProxyTests.

Module CommandTests.
Definition recheck_store_without_state_is_in_memory : bool :=
  let px := restored (at_ip "1.2.3.4") 8080 {[Http := None]} 1 0 (f_of_Z 100) in
  match recheck_store None with
  | BMemory => all [same (length (memory_load (memory_upsert px ∅))) 1%nat; match memory_load ∅ with [] => true | _ => false end]
  | _ => false
  end.
Definition render_progress_formats_counts : bool :=
  let s := {| st_total := 128; st_working := 34; st_by_protocol := ∅; st_by_anonymity := ∅; st_by_country := ∅; st_errors := ∅;
              st_avg_resp_time := dec 72 100; st_p50 := f_zero; st_p90 := f_zero; st_p95 := f_zero |} in
  forallb (contains (render_progress s)) [lit "checked 128"; lit "working 34"; lit "0.72s"].
Definition serve_query_threads_lvl_and_strict : bool :=
  let d := serve_defaults [Http] None in
  let args :=
    {| sa_host := sa_host d; sa_types := [Http]; sa_load := None; sa_lvl := [High]; sa_dnsbl := [lit "zen.spamhaus.org"]; sa_post := true; sa_strict := true;
       sa_strategy := sa_strategy d; sa_sticky_header := sa_sticky_header d; sa_limit := sa_limit d; sa_countries := sa_countries d;
       sa_timeout := sa_timeout d; sa_max_error_rate := sa_max_error_rate d; sa_max_resp_time := sa_max_resp_time d;
       sa_fail_timeout := sa_fail_timeout d; sa_prefer_connect := sa_prefer_connect d; sa_http_allowed_codes := sa_http_allowed_codes d;
       sa_min_queue := sa_min_queue d; sa_backlog := sa_backlog d; sa_max_clients := sa_max_clients d; sa_auth := sa_auth d;
       sa_max_tries := sa_max_tries d; sa_metrics := sa_metrics d; sa_state := sa_state d; sa_recheck := sa_recheck d;
       sa_recheck_rate := sa_recheck_rate d; sa_recheck_min := sa_recheck_min d; sa_recheck_max := sa_recheck_max d;
       sa_decay_halflife := sa_decay_halflife d; sa_watch := sa_watch d |} in
  let q := serve_query args in
  all [same (ts_levels <$> head (fq_types q)) (Some (Some [High])); fq_strict q; fq_post q; same (fq_dnsbl q) [lit "zen.spamhaus.org"]].
Example command_tests_pass : all [recheck_store_without_state_is_in_memory; render_progress_formats_counts; serve_query_threads_lvl_and_strict] = true.
Proof. vm_compute. reflexivity. Qed.
End CommandTests.

Module FormatTests.
Definition f64_show (x : f64) : str := if f_eqb x f_zero then lit "0" else if f_eqb x (dec 42 100) then lit "0.42" else lit "?".
Definition json_text (j : json) : str := lit "{}".
Definition proxy_fixture : Proxy :=
  record_attempt (Some (dec 42 100)) None (add_type Http (Some High) (set_geo (Some us) None (new (at_ip "1.2.3.4") 8080 ∅))).
Definition emitter (f : Format) : Emitter := new_emitter f None.
Definition item (e : Emitter) (p : Proxy) : str := (em_item f64_show json_text e p).1.
Definition no_frame (e : Emitter) : bool := same (em_prefix e) [] && same (em_suffix e) [].
Definition line (s : string) : str := lit s ++ [LF].
Definition emitter_default_is_addr_per_line : bool := let e := emitter FDefault in all [no_frame e; same (item e proxy_fixture) (line "1.2.3.4:8080")].
Definition emitter_json_is_ndjson : bool :=
  let e := emitter FJson in let text := item e proxy_fixture in
  all [no_frame e; ends_with [LF] text; same (matches_count [LF] text) 1%nat; starts_with (lit "{") (trim_end text)].
Definition url_format_prefixes_scheme : bool :=
  let px ip port t := add_type t None (new (at_ip ip) port ∅) in
  all [same (item (emitter FUrl) proxy_fixture) (line "http://1.2.3.4:8080"); same (item (emitter FUrl) (px "9.9.9.9"%string 8080 Https)) (line "http://9.9.9.9:8080");
       same (item (emitter FUrl) (px "5.6.7.8"%string 1080 Socks5)) (line "socks5://5.6.7.8:1080");
       same (item (emitter FUrl) (px "5.6.7.8"%string 1080 Socks4)) (line "socks4://5.6.7.8:1080")].
Definition csv_header_and_row : bool :=
  let e := emitter FCsv in
  let fields := split_char ","%char (trim_end (item e proxy_fixture)) in
  all [same (em_prefix e) (line "host,port,protocols,anon,country,resp_time,error_rate"); same (length fields) 7%nat;
       same (take 5 fields) [lit "1.2.3.4"; lit "8080"; lit "HTTP"; lit "High"; lit "US"]].
Definition csv_unchecked_proxy_has_empty_type_columns : bool :=
  same (trim_end (item (emitter FCsv) (new (at_ip "1.2.3.4") 8080 ∅))) (lit "1.2.3.4,8080,,,,0,0").
Definition json_array_empty_stream_is_empty_array : bool := let e := emitter FJsonArray in same (em_prefix e ++ em_suffix e) (line "[]").
Definition ndjson_still_one_object_per_line : bool :=
  let '(a, e) := em_item f64_show json_text (emitter FJson) proxy_fixture in
  let '(b, _) := em_item f64_show json_text e proxy_fixture in
  all [starts_with (lit "{") (trim_end a); ends_with (lit "}") (trim_end a); starts_with (lit "{") b].
Definition rendered (tmpl : string) (p : Proxy) : str := render_template f64_show (lit tmpl) p.
Definition template_renders_known_fields : bool := same (rendered "{{proxy}}/{{country}}/{{duration}}" proxy_fixture) (lit "1.2.3.4:8080/US/0.42").
Definition template_leaves_unknown_tokens_literal : bool := same (rendered "{{nope}}" proxy_fixture) (lit "{{nope}}").
Definition template_renders_asn_tokens : bool :=
  let p := set_geo (p_geo proxy_fixture) (Some {| asn_number := 15169; asn_org := Some (lit "Google LLC") |}) proxy_fixture in
  all [same (rendered "{{asn}} {{asn_org}}" p) (lit "15169 Google LLC"); same (rendered "{{asn}}{{asn_org}}" proxy_fixture) []].
Definition output_format_overrides_format : bool :=
  let e := new_emitter FJsonArray (Some (lit "{{host}}")) in all [no_frame e; same (item e proxy_fixture) (line "1.2.3.4")].
Example format_tests_pass : all [emitter_default_is_addr_per_line; emitter_json_is_ndjson; url_format_prefixes_scheme; csv_header_and_row;
  csv_unchecked_proxy_has_empty_type_columns; json_array_empty_stream_is_empty_array; ndjson_still_one_object_per_line;
  template_renders_known_fields; template_leaves_unknown_tokens_literal; template_renders_asn_tokens; output_format_overrides_format] = true.
Proof. vm_compute. reflexivity. Qed.
End FormatTests.
